(* ===== verification/_CoqProject ===== *)
-Q . S2P
Prelude.v
Prog.v
Bytes.v
Regexp.v
Config.v
Metrics.v
Monitoring.v
AtomicStorage.v
RelyGuarantee.v
Etcd.v
EtcdConcurrent.v
Lock.v
Blockchain.v
PaymentChannelApi.v
PaymentChannelStorage.v
Handler.v
Validation.v
Escrow.v
EscrowHandler.v
StateService.v
ControlService.v
World.v
Reference.v
Concurrency.v
Requests.v
Safety.v
Sequential.v
Calls.v
Claims.v
Commands.v
Forwarding.v
Proxy.v
HttpHandler.v
Settings.v
EtcdSetup.v
TestTools.v
Logger.v
Components.v
Wiring.v
Serve.v
CommandLine.v
Lifecycle.v
Executions.v
StreamHandlers.v
Discipline.v
PaidCalls.v
Serving.v
Replicas.v
Charged.v
Ledger.v
Termination.v
Liveness.v
Examples.v
StorageExamples.v
ReportExamples.v
PaidExamples.v
ReplicaExamples.v
ServerExamples.v
DaemonExamples.v
