(* ===== verification/Prelude.v ===== *)
(** * A verified model of the snet daemon

    The daemon (Go, under [src/]) stands in front of an AI service. A client
    pays for a call with a signed message about a payment channel of the
    MultiPartyEscrow contract; the daemon checks the payment, runs the call,
    keeps the latest signed state of every channel in a storage shared by its
    replicas, and lets the provider claim the payments on the blockchain.

    ** Parts of the program and files of the development

    Foundations:
    - [Prelude]: Go errors and results, gRPC codes, [fmt.Sprintf], strings.
    - [Prog]: effectful programs as trees ([prog E A]) with panics, [defer]
      ([defer]), [if err != nil] ([try!]); [wp] states what holds under every
      behaviour a contract of the effects allows, [run] executes a program
      over an implementation of the effects.
    - [Bytes]: bytes, fixed-size arrays, big integers and their texts, and the
      functions of go-ethereum as the class [GoEthereum].
    - [Regexp]: regular expressions by derivatives.
    - [RelyGuarantee]: a pool of requests that interleave their operations, and
      a rely-guarantee logic for it, proved sound.

    Components:
    - [AtomicStorage]: [escrow/atomic_storage.go], [escrow/memory_storage.go]:
      the storage interface with its contract, and the objects that keep it.
    - [Etcd], [EtcdConcurrent]: [etcddb/etcddb_client.go].
    - [Lock]: [escrow/lock.go].
    - [Blockchain]: the package [blockchain]: processor, service metadata,
      signatures, hashes and group ids.
    - [PaymentChannelApi], [PaymentChannelStorage]: the files of these names
      and [escrow/payment_storage.go].
    - [Validation]: [escrow/validation.go].
    - [Escrow]: [escrow/escrow.go]: payment transactions and claims.
    - [Handler], [EscrowHandler]: [handler/interceptors.go],
      [escrow/payment_handler.go], [escrow/income.go].
    - [StateService], [ControlService]: [escrow/state_service.go] and
      [escrow/control_service.go].
    - [World]: the payment components as [snetd/cmd/components.go] puts them
      together, over the effects of the payment code ([DaemonE]): storage requests, reads of
      the contract, the latest block.
    - [Config]: the checks of the package [config].
    - [Metrics]: the package [metrics] and the monitoring interceptor.
    - [Commands]: [snetd/cmd/channel.go] and the lists of channels and claims.
    - [Forwarding], [Proxy]: [codec/codec.go] and [handler/grpc.go]: the handlers
      that hand a call to the service.
    - [HttpHandler]: [handler/httphandler/http.go], [ratelimit/rateLimit.go] and
      [ipfsutils/ipfsutils.go].
    - [Settings]: the rest of [config/config.go]: defaults, files, sections.
    - [EtcdSetup]: [etcddb/etcddb_conf.go], [etcddb/etcddb_server.go] and the
      connection of the etcd client.
    - [Logger]: [logger/logger.go] and [logger/hook.go].
    - [Components]: the accessors of [snetd/cmd/components.go], which construct
      each component once, and the reading of the service metadata.
    - [Serve]: [snetd/cmd/serve.go] and [RunAndCleanup]: a daemon from its checks
      to its end.
    - [TestTools]: [blockchain/ethereum_test_util.go] and the downloader of
      [resources/installBlockchainDependencies].
    - [CommandLine]: [snetd/main.go], [snetd/cmd/flags.go],
      [snetd/cmd/version_details.go], the commands as cobra sees them, and what
      [config] prints.

    The parts put together:
    - [Discipline]: the operations that requests make, whatever is answered.
    - [StreamHandlers]: the stream handlers of [handler/grpc.go] as the programs of
      calls, the gRPC proxy by its goroutines.
    - [PaidCalls]: calls with these handlers behind the payment interceptor, served
      at the same time as all other requests.
    - [Serving]: the guarantee of [Concurrency] for these calls: what is accepted
      while a call is served, and when it is charged.
    - [Replicas]: the same calls and requests in any number of replicas of the
      daemon over one etcd server, with the requests to etcd as the steps, and
      replicas that crash. [Charged]: there, what calls have paid when they end.
      [Ledger]: what the records of channels hold for all the calls served.

    A definition has the name of the function or type it models, a method the
    name of its type first ([etcdLocker_Lock]). Interfaces of the source are
    records of operations; each implementation has an [_object]. Data records
    live in modules of their own where field names repeat ([Payment.Amount]).
    Pointers that may be nil are options; a nil dereference is a panic.

    ** What the theorems show

    - Safety ([Concurrency], [Requests], [Safety]): in every interleaving of
      any number of calls, claims, lists and state requests, with storage and
      blockchain failures and crashes at any point and the blockchain moving on, a channel
      record changes only by a payment of its current state that passes all
      checks and pays the price, or by the start of a claim; records are always
      claimable and never go back; payments are not replayed; claims are kept
      until the blockchain has passed them. Only the owner of a lock changes what
      it protects; a channel whose owner has crashed stays as it is until the
      operator unlocks it.
      [guarantee] and [rely] say what a request may do and may expect; the
      owner of a lock, which is not part of the storage, is ghost state, and so is
      the world in which it took the lock ([lock_world]): a payment is accepted
      ([payment_accepted]) by an answer of the contract and a latest block of the
      time since then, so that the expiration of the channel was compared with a
      block that the request has read itself.
    - Progress ([Termination], [Liveness]): a request makes a bounded number of
      operations; if the metadata of the service have a price and a threshold, then as
      long as the storage answers the requests on locks, only
      requests in progress own locks, and a lock is released when its owner has
      made enough steps, whatever the others do in between, crashes included.
    - Behaviour of whole requests, one at a time and without faults
      ([Sequential], [Calls], [Claims], [Commands]): a served call is charged,
      a failed or refused one is not, a claim moves the authorized amount, the
      state service tells the last payment, an unlocked channel serves again.
      [Executions] shows that these runs are executions of the server of
      [Safety].
    - Refinements: the in-memory storage, the prefixed storage and the etcd
      client keep the contract of the storage; the payment code is verified
      against the contract only. [EtcdConcurrent]: [PutIfAbsent] of concurrent
      clients never overwrites an entry that is used as a lock.
    - Composition ([PaidCalls], [Serving], [Replicas], [Charged], [Ledger]): replicas
      over etcd refine the server with one storage, calls with their handlers refine
      calls that end in any way, and so all theorems of [Safety] hold of replicas; a
      call makes exchanges with the service only while it owns the lock of its
      channel and its payment is accepted for the present record, none is charged or
      succeeds before its exchange with the service is complete, and none succeeds
      without having put the record with its accepted payment into etcd. So what a
      record authorizes covers the price of every call on its nonce that has
      succeeded ([Ledger]: each has a charge of its own, and a charge adds the
      price).
    - Forwarding: the gRPC proxy delivers the messages of both sides in order and
      returns what ended the call ([Proxy], in every interleaving of its
      goroutines); the other handlers make one exchange with the service.
    - Construction and life of the process ([Wiring], [Lifecycle]): whatever
      accessors are called, all services share one channel service and one
      storage, which is why [World] and [Safety] speak of one; a daemon serves
      gRPC only behind the interceptors; what it opened is closed at its end.
    - Protocols: the interceptor completes every payment exactly once; a
      publication renews its token at most once.
    - Round trips and formats: payment metadata, stored records, group ids, IPFS
      hashes, signed messages, email addresses, endpoints.
    - Theorems about what the code does although it hardly means to: channel
      numbers modulo [2^256], control requests that never expire, unknown
      channels and networks, a missing expiration threshold, the health check of
      a gRPC service, requests to a process that are larger than a pipe, the
      status and the rate limit of the HTTP passthrough, list commands that
      cannot connect, the end of a daemon without the blockchain.

    ** Assumptions

    Code outside the repository is a parameter, with its documented behaviour
    as the laws of a class: go-ethereum ([GoEthereumLaws]: 256-bit numbers take
    32 bytes), the gob codec ([EscrowCodecLaws]: a
    decoded value is the encoded one, up to nil and empty slices), etcd
    ([EtcdServerLaws], [EtcdKeysLaws]), viper, URL and JSON parsing, HTTP,
    protobuf, the token bucket ([RateLaws]). No
    property of the signature scheme or of the hash is assumed: theorems speak
    of the signer that the library recovers. [Reference] gives instances that
    keep the laws; [Examples], [StorageExamples], [ReportExamples],
    [PaidExamples], [ReplicaExamples], [ServerExamples] and [DaemonExamples]
    apply the theorems to concrete states, evaluated inside the kernel.
    A request to etcd is applied at once or never, also when it fails; a session
    keeps its mutexes while its client runs, and a crash of the client ends its
    requests before its mutexes are given to others. The operator unlocks only
    channels whose lock no request in progress owns, as the log of the daemon asks:
    [unlock_in_use_serves_twice] of [ReplicaExamples] shows two calls served for
    one payment when a lock in use is released.
    The contract of the storage lets a failing request be applied or not. The
    price of calls is not negative. Big integers are unbounded as in the source;
    where the source narrows them ([Int64], the 32 bytes of [bigIntToBytes]) the
    definitions do.
    No definition uses fuel: recursion is structural, and the one recursive
    call of the metering client ([publishJson]) is bounded by its flag.

    ** Not modelled

    Generated code. The libraries behind the process (sockets, TLS, cmux,
    grpc-web, cobra, the embedded etcd server, logrus) are operations or
    parameters; the threads that serve requests are in [Concurrency], [Safety],
    [PaidCalls] and [Replicas], not in [Lifecycle]. Texts for the log are left out
    but for the settings.
    The manual unlock of [Commands] is a step of the operator in [Concurrency]
    ([env_unlock]), [Safety], [PaidCalls] and [Replicas] ([replicas_unlock]). The
    setters of package variables in [metrics] are arguments.

    ** Plan

    Every part of the program that the source names is modelled. What could be
    added: fairness of the etcd server, with which a request that waits for the
    mutex of a lock would be shown to get it. *)
From stdpp Require Export base gmap sets list strings pretty option.
From Stdlib Require Export ZArith Lia.

(** ** Go values *)

(** gRPC status codes ([google.golang.org/grpc/codes]) used by the daemon. *)
Definition codes_OK : Z := 0.
Definition codes_Unknown : Z := 2.
Definition codes_InvalidArgument : Z := 3.
Definition codes_ResourceExhausted : Z := 8.
Definition codes_FailedPrecondition : Z := 9.
Definition codes_Internal : Z := 13.
Definition codes_Unauthenticated : Z := 16.

(** A gRPC status: a code and a message. *)
Record Status := mkStatus { Status_Code : Z; Status_Message : string }.

(** The payment error of [escrow/payment_channel_api.go]: a code and a
    message.  It is declared here because Go's [error] is one type for the
    whole program. *)
Record PaymentError := mkPaymentError {
  PaymentError_Code : Z;
  PaymentError_Message : string }.

(** The dynamic types of the [error] values the program makes or tests for:
    [errors.New]/[fmt.Errorf] strings, payment errors, and the errors that
    [status.Err] makes of a gRPC status. *)
Inductive error :=
| ErrorString (msg : string)
| ErrorPayment (e : PaymentError)
| ErrorStatus (s : Status).

(** [err.Error()] *)
Definition Error (e : error) : string :=
  match e with
  | ErrorString msg => msg
  | ErrorPayment e => PaymentError_Message e
  | ErrorStatus s => "rpc error: code = " +:+ pretty (Status_Code s)
                     +:+ " desc = " +:+ Status_Message s
  end.

(** A Go result pair [(value, err)]: a value when [err] is nil. *)
Inductive result (A : Type) :=
| Ok (a : A)
| Err (e : error).
Arguments Ok {A} _.
Arguments Err {A} _.

Definition is_err {A} (r : result A) : Prop :=
  match r with Ok _ => False | Err _ => True end.

Definition result_map {A B} (f : A -> B) (r : result A) : result B :=
  match r with Ok a => Ok (f a) | Err e => Err e end.

(** A function that returns only an [error]. *)
Definition err_of {A} (r : result A) : option error :=
  match r with Ok _ => None | Err e => Some e end.

(** The double quote character, for the messages that contain one. *)
Definition dquote : string := String (Ascii.ascii_of_nat 34) EmptyString.

(** *** [fmt.Sprintf]

    The verbs the daemon's format strings use: a percent sign, an optional
    [+] flag and one letter.  The arguments are the texts the verb prints
    ([%v], [%s] and [%d] print the same text for the values passed here). A
    verb without an argument prints [%!v(MISSING)] and a final percent sign
    [%!(NOVERB)], as the package documents. *)
Definition percent : Ascii.ascii := Ascii.ascii_of_nat 37.

Fixpoint Sprintf (format : string) (args : list string) : string :=
  match format with
  | EmptyString => EmptyString
  | String c rest =>
      if decide (c = percent) then
        match rest with
        | EmptyString => "%!(NOVERB)"
        | String v rest' =>
            if decide (v = percent) then String percent (Sprintf rest' args)
            else if decide (v = Ascii.ascii_of_nat 43) then
              match rest' with
              | EmptyString => "%!(NOVERB)"
              | String v' rest'' =>
                  match args with
                  | [] => "%!" +:+ String v' "(MISSING)" +:+ Sprintf rest'' []
                  | a :: args' => a +:+ Sprintf rest'' args'
                  end
              end
            else match args with
                 | [] => "%!" +:+ String v "(MISSING)" +:+ Sprintf rest' []
                 | a :: args' => a +:+ Sprintf rest' args'
                 end
        end
      else String c (Sprintf rest args)
  end.

(** [fmt.Errorf] *)
Definition Errorf (format : string) (args : list string) : error :=
  ErrorString (Sprintf format args).

(** [errors.Wrap(err, msg)] of [github.com/pkg/errors]. *)
Definition Wrap (err : error) (msg : string) : error :=
  ErrorString (msg +:+ ": " +:+ Error err).

(** The value of the panic of a nil pointer. *)
Definition nil_dereference : string :=
  "runtime error: invalid memory address or nil pointer dereference".

Fixpoint string_in (c : Ascii.ascii) (s : string) : bool :=
  match s with
  | EmptyString => false
  | String c' s' => bool_decide (c = c') || string_in c s'
  end.

(** ** Decidable equality *)

#[export] Instance Status_eq_dec : EqDecision Status.
Proof. solve_decision. Defined.
#[export] Instance PaymentError_eq_dec : EqDecision PaymentError.
Proof. solve_decision. Defined.
#[export] Instance error_eq_dec : EqDecision error.
Proof. solve_decision. Defined.
#[export] Instance result_eq_dec {A} `{EqDecision A} : EqDecision (result A).
Proof. solve_decision. Defined.

(** ** Automation *)

Create HintDb snet discriminated.
#[export] Hint Constants Transparent : snet.

(** Splits a match on the scrutinee it is stuck on, in the goal or in a
    hypothesis, and cleans up the equations. *)
Ltac split_match :=
  match goal with
  | H : context [match ?x with _ => _ end] |- _ =>
      lazymatch x with context [match _ with _ => _ end] => fail | _ => idtac end;
      destruct x eqn:?
  | |- context [match ?x with _ => _ end] =>
      lazymatch x with context [match _ with _ => _ end] => fail | _ => idtac end;
      destruct x eqn:?
  end; simplify_eq/=.

Ltac split_matches := repeat (split_match; try done).

(** Linear arithmetic with divisions and remainders by constants. *)
Ltac zlia := Z.to_euclidean_division_equations; lia.

(** ** Lemmas on strings *)

Lemma string_app_cons c s t : String c s +:+ t = String c (s +:+ t).
Proof. done. Qed.

Lemma string_app_empty_l s : EmptyString +:+ s = s.
Proof. done. Qed.

Lemma string_app_assoc s t u : (s +:+ t) +:+ u = s +:+ (t +:+ u).
Proof.
  induction s as [|c s IH]; [done|].
  by rewrite !string_app_cons, IH.
Qed.

Lemma string_app_empty_r s : s +:+ EmptyString = s.
Proof. induction s as [|c s IH]; [done|]. by rewrite string_app_cons, IH. Qed.

Lemma string_app_length s t :
  String.length (s +:+ t) = (String.length s + String.length t)%nat.
Proof. induction s as [|c s IH]; [done|]. rewrite string_app_cons; simpl. by rewrite IH. Qed.

#[export] Instance string_app_inj_r t : Inj (=) (=) (fun s => s +:+ t).
Proof.
  intros s1 s2 H. revert s2 H.
  induction s1 as [|c s1 IH]; intros [|c2 s2] H; [done|..].
  - apply (f_equal String.length) in H.
    rewrite !string_app_length in H; cbn in H. lia.
  - apply (f_equal String.length) in H.
    rewrite !string_app_length in H; cbn in H. lia.
  - rewrite !string_app_cons in H. simplify_eq. f_equal. by apply IH.
Qed.

(** A format string without a percent sign prints as itself. *)
Lemma Sprintf_plain s args : string_in percent s = false -> Sprintf s args = s.
Proof.
  induction s as [|c s IH]; [done|]. simpl. intros [Hc Hs]%orb_false_iff.
  rewrite decide_False.
  - by rewrite IH.
  - intros ->. by rewrite bool_decide_eq_true_2 in Hc.
Qed.

Lemma string_prefix_app s t : String.prefix s (s +:+ t) = true.
Proof.
  induction s as [|c s IH]; [by destruct t|].
  rewrite string_app_cons. simpl. destruct (Ascii.ascii_dec c c); done.
Qed.

Lemma string_prefix_true s u : String.prefix s u = true <-> exists t, u = s +:+ t.
Proof.
  split.
  - revert u. induction s as [|c s IH]; intros [|c' u]; simpl; try done.
    + by exists EmptyString.
    + by exists (String c' u).
    + destruct (Ascii.ascii_dec c c') as [->|]; [|done].
      intros [t ->]%IH. by exists t.
  - intros [t ->]. apply string_prefix_app.
Qed.

Lemma string_in_app c s t : string_in c (s +:+ t) = string_in c s || string_in c t.
Proof.
  induction s as [|c' s IH]; [done|].
  rewrite string_app_cons. simpl. by rewrite IH, orb_assoc.
Qed.

(** A string is split at the first occurrence of a character in one way. *)
Lemma string_split_inj c s1 s2 t1 t2 :
  string_in c s1 = false -> string_in c s2 = false ->
  s1 +:+ String c t1 = s2 +:+ String c t2 -> s1 = s2 /\ t1 = t2.
Proof.
  revert s2. induction s1 as [|a s1 IH]; intros [|b s2]; simpl.
  - by intros _ _ [=].
  - intros _ [Hb _]%orb_false_iff [= -> _]. by rewrite bool_decide_eq_true_2 in Hb.
  - intros [Ha _]%orb_false_iff _ [= -> _]. by rewrite bool_decide_eq_true_2 in Ha.
  - intros [_ H1]%orb_false_iff [_ H2]%orb_false_iff. rewrite !string_app_cons.
    intros [= -> H]. by destruct (IH s2 H1 H2 H) as [-> ->].
Qed.

(** *** Decimal numbers contain digits and a sign only. *)
Definition decimal_char (c : Ascii.ascii) : bool :=
  string_in c "-0123456789".

Lemma pretty_N_char_decimal x : decimal_char (pretty_N_char x) = true.
Proof. destruct x as [|[[[[]|[]|]|[[]|[]|]|]|[[[]|[]|]|[[]|[]|]|]|]]; reflexivity. Qed.

Lemma pretty_N_go_decimal c x s :
  decimal_char c = false -> string_in c (pretty_N_go x s) = string_in c s.
Proof.
  intros Hc. revert s. induction (N.lt_wf_0 x) as [x _ IH]; intros s.
  destruct (decide (x = 0)%N) as [->|Hx]; [by rewrite pretty_N_go_0|].
  rewrite pretty_N_go_step by lia. rewrite IH by (apply N.div_lt; lia). simpl.
  rewrite bool_decide_eq_false_2; [done|].
  intros ->. by rewrite pretty_N_char_decimal in Hc.
Qed.

Lemma pretty_Z_decimal c (z : Z) : decimal_char c = false -> string_in c (pretty z) = false.
Proof.
  intros Hc. assert (forall n : N, string_in c (pretty n) = false) as HN.
  { intros n. unfold pretty, pretty_N. case_decide; [|by rewrite pretty_N_go_decimal].
    simpl. rewrite bool_decide_eq_false_2; [done|]. by intros ->. }
  destruct z as [|p|p].
  - apply (HN 0%N).
  - apply (HN (Npos p)).
  - change (pretty (Z.neg p)) with ("-" +:+ pretty (Npos p)). simpl.
    rewrite string_in_app, HN. simpl. rewrite bool_decide_eq_false_2; [done|]. by intros ->.
Qed.

Create Rewrite HintDb snet_string.
#[export] Hint Rewrite string_app_cons string_app_empty_l string_app_empty_r
  string_app_assoc : snet_string.

(** ** [strings.Split] on a separator of one character *)
Fixpoint Split (c : Ascii.ascii) (s : string) : list string :=
  match s with
  | EmptyString => [EmptyString]
  | String a s =>
      if decide (a = c) then EmptyString :: Split c s
      else match Split c s with
           | [] => [String a EmptyString]
           | w :: ws => String a w :: ws
           end
  end.

Lemma Split_plain c s : string_in c s = false -> Split c s = [s].
Proof.
  induction s as [|a s IH]; [done|]. simpl. intros [Ha Hs]%orb_false_iff.
  rewrite IH by done. rewrite decide_False; [done|].
  intros ->. by rewrite bool_decide_eq_true_2 in Ha.
Qed.

Lemma Split_app c s t : string_in c s = false -> Split c (s +:+ String c t) = s :: Split c t.
Proof.
  induction s as [|a s IH].
  - intros _. rewrite string_app_empty_l. simpl. by rewrite decide_True.
  - simpl. intros [Ha Hs]%orb_false_iff. rewrite IH by done.
    rewrite decide_False; [done|]. intros ->. by rewrite bool_decide_eq_true_2 in Ha.
Qed.

Lemma Split_length c s : (1 <= length (Split c s))%nat.
Proof.
  induction s as [|a s IH]; simpl; [lia|]. case_decide; simpl; [lia|].
  destruct (Split c s); simpl in *; lia.
Qed.

(** The last part. *)
Lemma Split_last c s t :
  string_in c t = false -> List.last (Split c (s +:+ String c t)) EmptyString = t.
Proof.
  intros Ht. induction s as [|a s IH].
  - rewrite string_app_empty_l. simpl. rewrite decide_True, Split_plain by done. done.
  - rewrite string_app_cons. simpl. pose proof (Split_length c (s +:+ String c t)) as Hl.
    destruct (Split c (s +:+ String c t)) as [|w ws] eqn:Hs; [simpl in Hl; lia|].
    case_decide; [done|]. destruct ws as [|w' ws]; [|done].
    (* one part only: there would be no separator *)
    exfalso. clear -Hs. revert w Hs. induction s as [|b s IH]; intros w.
    + rewrite string_app_empty_l. simpl. rewrite decide_True by done.
      pose proof (Split_length c t). intros [= _ Hn]. rewrite Hn in *. simpl in *. lia.
    + rewrite string_app_cons. simpl. pose proof (Split_length c (s +:+ String c t)) as Hl.
      case_decide; [intros [= _ Hn]; rewrite Hn in Hl; simpl in Hl; lia|].
      destruct (Split c (s +:+ String c t)) as [|w' ws]; [simpl in Hl; lia|].
      intros [= _ ->]. by eapply IH.
Qed.
