(* ===== verification/Prog.v ===== *)
(** * Effectful programs

    The Go functions of the daemon are modelled as values of [prog E A]: trees
    whose inner nodes are the atomic operations the function performs on the
    outside world (storage requests, contract calls) and whose leaves are its
    results.  One definition of a function serves three purposes: it is run
    ([run]), its sequential behaviour is specified ([wp]), and its atomic
    operations are interleaved with those of other requests (file
    [Concurrency]). *)
From S2P Require Import Prelude.

Declare Scope prog_scope.
Delimit Scope prog_scope with prog.

(** A program with effects in [E] and a result in [A]. [Panic] is a Go panic
    that unwinds the stack. *)
Inductive prog (E : Type -> Type) (A : Type) : Type :=
| Ret (a : A)
| Panic (msg : string)
| Vis {X : Type} (e : E X) (k : X -> prog E A).
Arguments Ret {E A} _.
Arguments Panic {E A} _.
Arguments Vis {E A X} _ _.

(** How a program ended. *)
Inductive outcome (A : Type) :=
| Returned (a : A)
| Panicked (msg : string).
Arguments Returned {A} _.
Arguments Panicked {A} _.

Fixpoint bind {E A B} (p : prog E A) (f : A -> prog E B) : prog E B :=
  match p with
  | Ret a => f a
  | Panic m => Panic m
  | Vis e k => Vis e (fun x => bind (k x) f)
  end.

Definition trigger {E X} (e : E X) : prog E X := Vis e Ret.

(** Runs [p] and hands its outcome, a panic included, to [h]: the basis of
    [defer] and [recover]. *)
Fixpoint catch {E A B} (p : prog E A) (h : outcome A -> prog E B) : prog E B :=
  match p with
  | Ret a => h (Returned a)
  | Panic m => h (Panicked m)
  | Vis e k => Vis e (fun x => catch (k x) h)
  end.

Definition resume {E A} (o : outcome A) : prog E A :=
  match o with Returned a => Ret a | Panicked m => Panic m end.

Notation "'let!' x ':=' p 'in' q" := (bind p (fun x => q))
  (at level 10, x pattern, p at level 100, q at level 200,
   format "'[v' 'let!'  x  ':='  p  'in' '/' q ']'") : prog_scope.
Open Scope prog_scope.

(** Sequencing of calls that return [(value, err)]: [if err != nil { return
    err }]. *)
Definition bind_ok {E A B} (p : prog E (result A)) (f : A -> prog E (result B))
  : prog E (result B) :=
  let! r := p in
  match r with Ok a => f a | Err e => Ret (Err e) end.

Notation "'try!' x ':=' p 'in' q" := (bind_ok p (fun x => q))
  (at level 10, x pattern, p at level 100, q at level 200,
   format "'[v' 'try!'  x  ':='  p  'in' '/' q ']'") : prog_scope.

(** [defer func() { d }()]: [d] runs when [p] returns or panics, and sees the
    named results; its own result is dropped. *)
Definition defer {E A B} (d : outcome A -> prog E B) (p : prog E A) : prog E A :=
  catch p (fun o => let! _ := d o in resume o).

(** Running every element of a list in order. *)
Fixpoint prog_map {E A B} (f : A -> prog E B) (l : list A) : prog E (list B) :=
  match l with
  | [] => Ret []
  | a :: l =>
      let! b := f a in
      let! bs := prog_map f l in
      Ret (b :: bs)
  end.

(** The operations of one set of effects among those of another. *)
Fixpoint embed {E F A} (f : forall X, E X -> F X) (p : prog E A) : prog F A :=
  match p with
  | Ret a => Ret a
  | Panic m => Panic m
  | Vis e k => Vis (f _ e) (fun x => embed f (k x))
  end.

(** ** Semantics *)

(** A contract of the effects: the answers and the next worlds an operation
    may have. *)
Class Contract (E : Type -> Type) (W : Type) :=
  contract : forall X, E X -> W -> X -> W -> Prop.
Arguments contract {E W _ X} _ _ _ _.

(** An implementation of the effects: one answer and one next world. *)
Class Implementation (E : Type -> Type) (W : Type) :=
  implementation : forall X, E X -> W -> X * W.
Arguments implementation {E W _ X} _ _.

(** The implementation keeps the contract. *)
Class Implements (E : Type -> Type) (W : Type)
  `{!Contract E W, !Implementation E W} : Prop :=
  implements : forall X (e : E X) w,
    contract e w (implementation e w).1 (implementation e w).2.

Section semantics.
Context {E : Type -> Type} {W : Type}.

(** All the outcomes of [p] started in [w] satisfy [Q]. *)
Fixpoint wp `{!Contract E W} {A} (p : prog E A)
    (Q : outcome A -> W -> Prop) (w : W) : Prop :=
  match p with
  | Ret a => Q (Returned a) w
  | Panic m => Q (Panicked m) w
  | Vis e k => forall x w', contract e w x w' -> wp (k x) Q w'
  end.

Fixpoint run `{!Implementation E W} {A} (p : prog E A) (w : W) : outcome A * W :=
  match p with
  | Ret a => (Returned a, w)
  | Panic m => (Panicked m, w)
  | Vis e k => let xw := implementation e w in run (k xw.1) xw.2
  end.

Context `{!Contract E W}.

Lemma wp_bind {A B} (p : prog E A) (f : A -> prog E B) Q w :
  wp (bind p f) Q w <->
  wp p (fun o w => match o with
                   | Returned a => wp (f a) Q w
                   | Panicked m => Q (Panicked m) w
                   end) w.
Proof.
  revert w. induction p as [a|m|X e k IH]; intros w; simpl; [done..|].
  split; intros H x w' Hx; apply IH; auto.
Qed.

Lemma wp_catch {A B} (p : prog E A) (h : outcome A -> prog E B) Q w :
  wp (catch p h) Q w <-> wp p (fun o => wp (h o) Q) w.
Proof.
  revert w. induction p as [a|m|X e k IH]; intros w; simpl; [done..|].
  split; intros H x w' Hx; apply IH; auto.
Qed.

Lemma wp_mono {A} (p : prog E A) (Q Q' : outcome A -> W -> Prop) w :
  wp p Q w -> (forall o w', Q o w' -> Q' o w') -> wp p Q' w.
Proof.
  intros Hp HQ. revert w Hp.
  induction p as [a|m|X e k IH]; intros w; simpl; [by auto..|].
  intros Hp x w' Hx. by apply IH, Hp.
Qed.

Lemma wp_conj {A} (p : prog E A) (Q Q' : outcome A -> W -> Prop) w :
  wp p Q w -> wp p Q' w -> wp p (fun o w => Q o w /\ Q' o w) w.
Proof.
  revert w. induction p as [a|m|X e k IH]; intros w; simpl; [by auto..|].
  intros H1 H2 x w' Hx. apply IH; auto.
Qed.

Lemma wp_trigger {X} (e : E X) (Q : outcome X -> W -> Prop) w :
  (forall x w', contract e w x w' -> Q (Returned x) w') -> wp (trigger e) Q w.
Proof. done. Qed.

(** What [wp] proves of the contract holds of every run of an implementation
    that keeps it. *)
Lemma wp_run `{!Implementation E W, !Implements E W} {A} (p : prog E A) Q w :
  wp p Q w -> Q (run p w).1 (run p w).2.
Proof.
  revert w. induction p as [a|m|X e k IH]; intros w; simpl; [done..|].
  intros Hp. apply IH, Hp, implements.
Qed.

Lemma run_bind `{!Implementation E W} {A B} (p : prog E A) (f : A -> prog E B) w :
  run (bind p f) w =
  match run p w with
  | (Returned a, w') => run (f a) w'
  | (Panicked m, w') => (Panicked m, w')
  end.
Proof. revert w. induction p as [a|m|X e k IH]; intros w; simpl; auto. Qed.

End semantics.

(** The steps of a [wp] proof: compute the program's next node, enter binds
    and handlers, introduce the answer of an operation. *)
Ltac wp_unfold :=
  unfold bind_ok, defer, trigger, resume.

Ltac wp_simpl :=
  cbn [wp bind catch bind_ok defer trigger resume].
