(* ===== verification/Bytes.v ===== *)
(** * Byte strings and big integers

    Go's [[]byte], the fixed arrays [[32]byte] and [common.Address], the
    big-endian encodings of [big.Int], the decimal parser of [big.Int], and
    the interface of the go-ethereum functions the daemon calls. *)
From stdpp Require Export vector.
From Stdlib Require Import Ascii.
From Stdlib Require Export Strings.Byte.
From S2P Require Import Prelude.
Local Open Scope Z_scope.

Abbreviation byte := Byte.byte.
Abbreviation bytes := (list byte).
Abbreviation bytes32 := (vec byte 32).
Abbreviation Address := (vec byte 20).

#[export] Instance byte_eq_dec : EqDecision byte := Byte.byte_eq_dec.

(** [uint8] values of bytes. *)
Definition byte_val (b : byte) : Z := Z.of_N (Byte.to_N b).
Definition byte_of (z : Z) : byte :=
  default Byte.x00 (Byte.of_N (Z.to_N (z mod 256))).

(** [[]byte(str)] and [string(b)] *)
Definition bytes_of_string (s : string) : bytes := String.list_byte_of_string s.
Definition string_of_bytes (b : bytes) : string := String.string_of_list_byte b.

(** [copy(dst[:], src)] into a zeroed array of [n] bytes. *)
Definition copy_array (n : nat) (src : bytes) : vec byte n :=
  fun_to_vec (fun i : fin n => default Byte.x00 (src !! fin_to_nat i)).

Definition zero_array (n : nat) : vec byte n := vreplicate n Byte.x00.

(** [(&big.Int{}).SetBytes(l)]: a big-endian unsigned number. *)
Definition SetBytes (l : bytes) : Z :=
  foldl (fun acc b => acc * 256 + byte_val b) 0 l.

(** The [n] low bytes of [z], big-endian, two's complement when negative. *)
Fixpoint be_bytes (n : nat) (z : Z) : bytes :=
  match n with
  | O => []
  | S n => be_bytes n (z / 256) ++ [byte_of z]
  end.

(** ** Decimal parsing: [big.Int.UnmarshalText]

    The text is scanned with base 0: an optional sign, then digits, in base
    16, 2 or 8 when they start with [0x], [0b] or [0], in base 10 otherwise.
    The whole text must be consumed. *)
Definition digit_value (c : Ascii.ascii) : Z :=
  let n := Z.of_nat (Ascii.nat_of_ascii c) in
  if bool_decide (48 <= n <= 57) then n - 48
  else if bool_decide (97 <= n <= 122) then n - 97 + 10
  else if bool_decide (65 <= n <= 90) then n - 65 + 10
  else 255.

Fixpoint scan_digits (base acc : Z) (s : string) : option Z :=
  match s with
  | EmptyString => Some acc
  | String c s =>
      if bool_decide (digit_value c < base)
      then scan_digits base (acc * base + digit_value c) s
      else None
  end.

Definition scan_nonempty (base : Z) (s : string) : option Z :=
  match s with EmptyString => None | _ => scan_digits base 0 s end.

Definition scan_nat (s : string) : option Z :=
  match s with
  | EmptyString => None
  | String "0" EmptyString => Some 0
  | String "0" (String c rest) =>
      if bool_decide (c = "x"%char \/ c = "X"%char) then scan_nonempty 16 rest
      else if bool_decide (c = "b"%char \/ c = "B"%char) then scan_nonempty 2 rest
      else scan_digits 8 0 (String c rest)
  | _ => scan_digits 10 0 s
  end.

Definition Int_UnmarshalText (s : string) : option Z :=
  match s with
  | String "-" rest => Z.opp <$> scan_nat rest
  | String "+" rest => scan_nat rest
  | _ => scan_nat s
  end.

(** [value.Int64()]: the low 64 bits as a signed number. *)
Definition Int64 (z : Z) : Z :=
  let low := Z.abs z mod 2 ^ 64 in
  let v := if z <? 0 then - low else low in
  (v + 2 ^ 63) mod 2 ^ 64 - 2 ^ 63.

(** ** The go-ethereum functions the daemon calls *)

Class GoEthereum := {
  (** [common.BigToHash(v).Bytes()] *)
  BigToHash : Z -> bytes32;
  (** [abi.U256(v)] *)
  U256 : Z -> bytes;
  (** [crypto.Keccak256], on the concatenation of its arguments *)
  Keccak256 : bytes -> bytes;
  (** [crypto.SigToPub] *)
  SigToPub : bytes -> bytes -> result bytes;
  (** [crypto.PubkeyToAddress] *)
  PubkeyToAddress : bytes -> Address;
  (** [common.HexToAddress] *)
  HexToAddress : string -> Address;
  (** [common.FromHex] *)
  FromHex : string -> bytes;
  (** [common.Address.Hex] *)
  Address_Hex : Address -> string }.

(** The documented behaviour of the two integer encodings: [BigToHash] keeps
    the low 32 bytes of the absolute value ("if b is larger than len(h), b
    will be cropped from the left"), [U256] is the 256-bit two's complement
    number. *)
Class GoEthereumLaws `{!GoEthereum} : Prop := {
  BigToHash_spec v : vec_to_list (BigToHash v) = be_bytes 32 (Z.abs v);
  U256_spec v : U256 v = be_bytes 32 v }.

(** ** Lemmas *)

Lemma byte_val_range b : 0 <= byte_val b < 256.
Proof. unfold byte_val. pose proof (Byte.to_N_bounded b). lia. Qed.

Lemma byte_of_val b : byte_of (byte_val b) = b.
Proof.
  unfold byte_of. rewrite Z.mod_small by apply byte_val_range.
  unfold byte_val. by rewrite N2Z.id, Byte.of_to_N.
Qed.

Lemma byte_val_of z : byte_val (byte_of z) = z mod 256.
Proof.
  unfold byte_of, byte_val.
  pose proof (Z.mod_pos_bound z 256 ltac:(lia)).
  destruct (Byte.of_N (Z.to_N (z mod 256))) as [b|] eqn:Hb; simpl.
  - apply Byte.to_of_N in Hb. rewrite Hb. lia.
  - apply Byte.of_N_None_iff in Hb. lia.
Qed.

Lemma SetBytes_singleton b : SetBytes [b] = byte_val b.
Proof. unfold SetBytes; simpl. lia. Qed.

Lemma SetBytes_snoc l b : SetBytes (l ++ [b]) = SetBytes l * 256 + byte_val b.
Proof. unfold SetBytes. by rewrite foldl_snoc. Qed.

Lemma SetBytes_app l1 l2 :
  SetBytes (l1 ++ l2) = SetBytes l1 * 256 ^ Z.of_nat (length l2) + SetBytes l2.
Proof.
  induction l2 as [|b l2 IH] using rev_ind; [rewrite app_nil_r; cbn; lia|].
  rewrite app_assoc, !SetBytes_snoc, IH, length_app, Nat2Z.inj_add.
  rewrite Z.pow_add_r by lia. cbn [length]. change (256 ^ Z.of_nat 1) with 256. lia.
Qed.

Lemma SetBytes_range l : 0 <= SetBytes l < 256 ^ Z.of_nat (length l).
Proof.
  induction l as [|b l IH] using rev_ind; [cbn; lia|].
  rewrite SetBytes_snoc, length_app, Nat2Z.inj_add, Z.pow_add_r by lia.
  pose proof (byte_val_range b). cbn [length]. change (256 ^ Z.of_nat 1) with 256. lia.
Qed.

Lemma length_be_bytes n z : length (be_bytes n z) = n.
Proof.
  revert z. induction n as [|n IH]; intros z; [done|].
  simpl. rewrite length_app, IH. simpl. lia.
Qed.

Lemma SetBytes_be_bytes n z : SetBytes (be_bytes n z) = z mod 256 ^ Z.of_nat n.
Proof.
  revert z. induction n as [|n IH]; intros z; [by rewrite Z.mod_1_r|].
  cbn [be_bytes]. rewrite SetBytes_snoc, IH, byte_val_of.
  rewrite Nat2Z.inj_succ, Z.pow_succ_r, Z.rem_mul_r by lia. lia.
Qed.

Lemma be_bytes_SetBytes l : be_bytes (length l) (SetBytes l) = l.
Proof.
  induction l as [|b l IH] using rev_ind; [done|].
  rewrite length_app, Nat.add_comm. cbn [length Nat.add be_bytes].
  rewrite SetBytes_snoc. pose proof (byte_val_range b).
  rewrite Z.div_add_l, Z.div_small, Z.add_0_r, IH by lia.
  f_equal. f_equal. rewrite <-(byte_of_val b) at 2. unfold byte_of.
  by rewrite Z.add_comm, Z.mod_add by lia.
Qed.

Lemma be_bytes_mod n z : be_bytes n (z mod 256 ^ Z.of_nat n) = be_bytes n z.
Proof.
  rewrite <-(be_bytes_SetBytes (be_bytes n z)) at 1.
  by rewrite length_be_bytes, SetBytes_be_bytes.
Qed.

(** Two numbers with the same [n] low bytes are equal modulo [256^n]. *)
Lemma be_bytes_inj n z1 z2 :
  be_bytes n z1 = be_bytes n z2 -> z1 mod 256 ^ Z.of_nat n = z2 mod 256 ^ Z.of_nat n.
Proof. intros H. by rewrite <-!SetBytes_be_bytes, H. Qed.

#[export] Instance bytes_of_string_inj : Inj (=) (=) bytes_of_string.
Proof.
  intros s1 s2 H. rewrite <-(String.string_of_list_byte_of_string s1),
    <-(String.string_of_list_byte_of_string s2).
  by apply (f_equal String.string_of_list_byte) in H.
Qed.

Lemma copy_array_vec n (v : vec byte n) : copy_array n (vec_to_list v) = v.
Proof.
  apply vec_eq. intros i. unfold copy_array. rewrite lookup_fun_to_vec.
  assert (vec_to_list v !! fin_to_nat i = Some (v !!! i)) as -> by by apply vlookup_lookup.
  done.
Qed.

(** The wrap-around of [Int64] in one formula. *)
Lemma Int64_mod z : Int64 z = (z + 2 ^ 63) mod 2 ^ 64 - 2 ^ 63.
Proof.
  unfold Int64. f_equal. destruct (Z.ltb_spec z 0).
  - rewrite (Z.abs_neq z), Z.add_opp_l by lia.
    rewrite Zminus_mod_idemp_r. f_equal. lia.
  - rewrite (Z.abs_eq z) by lia. by rewrite Zplus_mod_idemp_l.
Qed.

(** [Int64] is zero exactly on the multiples of 2^64. *)
Lemma Int64_zero z : Int64 z = 0 <-> z mod 2 ^ 64 = 0.
Proof.
  rewrite Int64_mod. change (2 ^ 64) with 18446744073709551616.
  change (2 ^ 63) with 9223372036854775808. zlia.
Qed.

Lemma Int64_small z : - 2 ^ 63 <= z < 2 ^ 63 -> Int64 z = z.
Proof. intros Hz. rewrite Int64_mod, Z.mod_small; lia. Qed.

(** *** Printing and parsing decimal numbers *)

Lemma digit_value_pretty d : (d < 10)%N -> digit_value (pretty_N_char d) = Z.of_N d.
Proof.
  intros Hd. assert (d = 0 \/ d = 1 \/ d = 2 \/ d = 3 \/ d = 4 \/ d = 5 \/ d = 6
    \/ d = 7 \/ d = 8 \/ d = 9)%N as H by lia.
  repeat destruct H as [->|H]; [vm_compute; reflexivity..|]. by subst.
Qed.

Lemma scan_digits_pretty x acc s :
  exists n, 0 <= n /\
    scan_digits 10 acc (pretty_N_go x s) = scan_digits 10 (acc * 10 ^ n + Z.of_N x) s.
Proof.
  revert acc s. induction (N.lt_wf_0 x) as [x _ IH]; intros acc s.
  destruct (decide (x = 0)%N) as [->|Hx].
  - exists 0. split; [lia|]. rewrite pretty_N_go_0. f_equal. lia.
  - rewrite pretty_N_go_step by lia.
    destruct (IH (x / 10)%N ltac:(apply N.div_lt; lia) acc
                 (String (pretty_N_char (x mod 10)) s)) as (n & Hn & ->).
    assert (x mod 10 < 10)%N as Hd by (apply N.mod_lt; lia).
    exists (n + 1). split; [lia|]. cbn [scan_digits].
    rewrite digit_value_pretty by done.
    rewrite bool_decide_eq_true_2 by lia. f_equal.
    rewrite Z.pow_add_r, N2Z.inj_div, N2Z.inj_mod, Z.mul_assoc by lia.
    generalize (acc * 10 ^ n). intros a. change (10 ^ 1) with 10. zlia.
Qed.

Lemma pretty_N_go_head x s :
  (0 < x)%N -> exists d t, (0 < d < 10)%N /\ pretty_N_go x s = String (pretty_N_char d) t.
Proof.
  revert s. induction (N.lt_wf_0 x) as [x _ IH]; intros s Hx.
  rewrite pretty_N_go_step by done.
  destruct (decide (x / 10 = 0)%N) as [Hq|Hq].
  - rewrite Hq, pretty_N_go_0. exists (x mod 10)%N, s. split; [|done].
    pose proof (N.mod_lt x 10 ltac:(lia)). pose proof (N.div_mod x 10 ltac:(lia)). lia.
  - apply IH; [apply N.div_lt; lia|by apply N.neq_0_lt_0].
Qed.

Lemma scan_nat_pretty x : scan_nat (pretty x) = Some (Z.of_N x).
Proof.
  unfold pretty, pretty_N. case_decide as Hx; [by subst|].
  destruct (scan_digits_pretty x 0 "") as (n & _ & Hs).
  destruct (pretty_N_go_head x "" ltac:(lia)) as (d & t & Hd & Hp).
  rewrite Hp in *. rewrite Z.mul_0_l, Z.add_0_l in Hs. cbn [scan_digits] in Hs.
  assert (d = 1 \/ d = 2 \/ d = 3 \/ d = 4 \/ d = 5 \/ d = 6
    \/ d = 7 \/ d = 8 \/ d = 9)%N as H by lia.
  repeat destruct H as [->|H]; [exact Hs..|]. subst. exact Hs.
Qed.

(** Reading back the decimal text that [big.Int.String] prints. *)
Lemma Int_UnmarshalText_pretty z : Int_UnmarshalText (pretty z) = Some z.
Proof.
  destruct z as [|p|p]; [done| |].
  - pose proof (scan_nat_pretty (Npos p)) as Hs. cbn in Hs.
    change (pretty (Z.pos p)) with (pretty (Npos p)).
    unfold pretty, pretty_N in *. rewrite decide_False in * by done.
    destruct (pretty_N_go_head (Npos p) "" ltac:(lia)) as (d & t & Hd & Hp).
    rewrite Hp in *.
    assert (d = 1 \/ d = 2 \/ d = 3 \/ d = 4 \/ d = 5 \/ d = 6
      \/ d = 7 \/ d = 8 \/ d = 9)%N as H by lia.
    repeat destruct H as [->|H]; [exact Hs..|]. subst. exact Hs.
  - pose proof (scan_nat_pretty (Npos p)) as Hs.
    change (pretty (Z.neg p)) with (String "-" (pretty (Npos p))).
    cbn [Int_UnmarshalText]. by rewrite Hs.
Qed.
