(* ===== verification/Regexp.v ===== *)
(** * Regular expressions

    The expressions the program gives to the [regexp] package: anchored
    sequences of character classes. Matching by derivatives, and its meaning. *)
From Stdlib Require Import Ascii.
From S2P Require Import Prelude.

Inductive regexp :=
| Nothing
| Empty
| Class_of (p : ascii -> bool)
| Seq (r1 r2 : regexp)
| Alt (r1 r2 : regexp)
| Star (r : regexp).

(** [r+] *)
Definition Plus (r : regexp) : regexp := Seq r (Star r).

(** [r{m,m+n}] *)
Fixpoint At_most (n : nat) (r : regexp) : regexp :=
  match n with O => Empty | S n => Alt Empty (Seq r (At_most n r)) end.

Fixpoint Repeat (m n : nat) (r : regexp) : regexp :=
  match m with O => At_most n r | S m => Seq r (Repeat m n r) end.

Definition Literal (c : ascii) : regexp := Class_of (fun c' => bool_decide (c = c')).

Fixpoint nullable (r : regexp) : bool :=
  match r with
  | Nothing | Class_of _ => false
  | Empty | Star _ => true
  | Seq r1 r2 => nullable r1 && nullable r2
  | Alt r1 r2 => nullable r1 || nullable r2
  end.

Fixpoint derivative (c : ascii) (r : regexp) : regexp :=
  match r with
  | Nothing | Empty => Nothing
  | Class_of p => if p c then Empty else Nothing
  | Seq r1 r2 =>
      if nullable r1 then Alt (Seq (derivative c r1) r2) (derivative c r2)
      else Seq (derivative c r1) r2
  | Alt r1 r2 => Alt (derivative c r1) (derivative c r2)
  | Star r => Seq (derivative c r) (Star r)
  end.

(** Whether the whole text matches. *)
Fixpoint matches (r : regexp) (s : string) : bool :=
  match s with
  | EmptyString => nullable r
  | String c s => matches (derivative c r) s
  end.

(** ** Meaning *)

Fixpoint all_chars (p : ascii -> bool) (s : string) : bool :=
  match s with EmptyString => true | String c s => p c && all_chars p s end.

Inductive means : regexp -> string -> Prop :=
| means_empty : means Empty EmptyString
| means_class p c : p c = true -> means (Class_of p) (String c EmptyString)
| means_seq r1 r2 s1 s2 : means r1 s1 -> means r2 s2 -> means (Seq r1 r2) (s1 +:+ s2)
| means_left r1 r2 s : means r1 s -> means (Alt r1 r2) s
| means_right r1 r2 s : means r2 s -> means (Alt r1 r2) s
| means_stop r : means (Star r) EmptyString
| means_more r s1 s2 : means r s1 -> means (Star r) s2 -> means (Star r) (s1 +:+ s2).

Lemma string_app_nil_inv s t : EmptyString = s +:+ t -> s = EmptyString /\ t = EmptyString.
Proof. destruct s; [done|]. rewrite string_app_cons. done. Qed.

Lemma nullable_means r : nullable r = true <-> means r EmptyString.
Proof.
  induction r as [| |p|r1 IH1 r2 IH2|r1 IH1 r2 IH2|r IH]; simpl.
  - split; [done|inversion 1].
  - split; [constructor|done].
  - split; [done|inversion 1].
  - rewrite andb_true_iff, IH1, IH2. split.
    + intros [M1 M2]. by apply (means_seq _ _ _ _ M1 M2).
    + intros M. inversion M as [| |? ? s1 s2 M1 M2 E1 E2| | | |]; subst.
      apply eq_sym, string_app_nil_inv in E2 as [-> ->]. done.
  - rewrite orb_true_iff, IH1, IH2. split.
    + intros [M|M]; [by apply means_left|by apply means_right].
    + inversion 1; auto.
  - split; [constructor|done].
Qed.

Lemma means_cons_inv r c s :
  means r (String c s) -> means (derivative c r) s.
Proof.
  remember (String c s) as t eqn:Ht. intros M. revert c s Ht.
  induction M as [|p d Hp|r1 r2 s1 s2 M1 IH1 M2 IH2|r1 r2 t M IH|r1 r2 t M IH|r|r s1 s2 M1 IH1 M2 IH2];
    intros c s Ht; simpl.
  - done.
  - injection Ht as -> <-. rewrite Hp. constructor.
  - destruct s1 as [|d s1].
    + rewrite (proj2 (nullable_means r1)) by done. apply means_right. by apply IH2.
    + rewrite string_app_cons in Ht. injection Ht as -> <-.
      assert (means (Seq (derivative c r1) r2) (s1 +:+ s2)) as Hm
        by by apply means_seq; [apply IH1|].
      destruct (nullable r1); [by apply means_left|done].
  - apply means_left. by apply IH.
  - apply means_right. by apply IH.
  - done.
  - destruct s1 as [|d s1]; [by apply IH2|].
    rewrite string_app_cons in Ht. injection Ht as -> <-.
    apply means_seq; [by apply IH1|done].
Qed.

Lemma means_cons r c s : means (derivative c r) s -> means r (String c s).
Proof.
  revert s. induction r as [| |p|r1 IH1 r2 IH2|r1 IH1 r2 IH2|r IH]; simpl; intros s M;
    try by inversion M.
  - destruct (p c) eqn:Hp; inversion M. by constructor.
  - assert (forall s, means (Seq (derivative c r1) r2) s -> means (Seq r1 r2) (String c s))
      as Hleft.
    { intros s' M'. inversion M' as [| |? ? s1 s2 M1 M2| | | |]; subst.
      rewrite <-string_app_cons. by apply means_seq; [apply IH1|]. }
    destruct (nullable r1) eqn:Hn; [|by apply Hleft].
    inversion M as [| | |? ? ? M'|? ? ? M'| |]; subst; [by apply Hleft|].
    apply (means_seq r1 r2 EmptyString (String c s)); [by apply nullable_means|by apply IH2].
  - inversion M; subst; [by apply means_left, IH1|by apply means_right, IH2].
  - inversion M as [| |? ? s1 s2 M1 M2| | | |]; subst.
    rewrite <-string_app_cons. by apply means_more; [apply IH|].
Qed.

(** Matching decides the meaning. *)
Lemma matches_means r s : matches r s = true <-> means r s.
Proof.
  revert r. induction s as [|c s IH]; intros r; simpl; [apply nullable_means|].
  rewrite IH. split; [apply means_cons|apply means_cons_inv].
Qed.

(** ** The meaning of the derived forms *)

Lemma means_Seq r1 r2 s :
  means (Seq r1 r2) s <-> exists s1 s2, s = s1 +:+ s2 /\ means r1 s1 /\ means r2 s2.
Proof.
  split; [|intros (s1 & s2 & -> & M1 & M2); by apply means_seq].
  inversion 1; subst. by do 2 eexists.
Qed.

Lemma means_Class p s :
  means (Class_of p) s <-> exists c, s = String c EmptyString /\ p c = true.
Proof. split; [inversion 1; subst; eauto|intros (c & -> & Hp); by constructor]. Qed.

Lemma means_Literal c s : means (Literal c) s <-> s = String c EmptyString.
Proof.
  unfold Literal. rewrite means_Class. split.
  - by intros (c' & -> & ->%bool_decide_eq_true).
  - intros ->. exists c. by rewrite bool_decide_eq_true.
Qed.

Lemma means_Star_class p s : means (Star (Class_of p)) s <-> all_chars p s = true.
Proof.
  split.
  - remember (Star (Class_of p)) as r eqn:Hr. intros M. revert Hr.
    induction M as [| | | | |r|r s1 s2 M1 _ M2 IH2]; intros Hr; try done.
    injection Hr as ->. apply means_Class in M1 as (c & -> & Hc).
    rewrite string_app_cons, string_app_empty_l. simpl. rewrite Hc. by apply IH2.
  - induction s as [|c s IH]; simpl; [constructor|]. intros [Hc Hs]%andb_true_iff.
    change (String c s) with (String c EmptyString +:+ s).
    apply means_more; [by constructor|by apply IH].
Qed.

Lemma means_Plus_class p s :
  means (Plus (Class_of p)) s <-> s <> EmptyString /\ all_chars p s = true.
Proof.
  unfold Plus. rewrite means_Seq. split.
  - intros (s1 & s2 & -> & M1 & M2). apply means_Class in M1 as (c & -> & Hc).
    apply means_Star_class in M2. by rewrite string_app_cons; simpl; rewrite Hc.
  - intros [Hne Hs]. destruct s as [|c s]; [done|]. simpl in Hs.
    apply andb_true_iff in Hs as [Hc Hs].
    exists (String c EmptyString), s. split; [done|].
    split; [by constructor|by apply means_Star_class].
Qed.

Lemma means_At_most_class n p s :
  means (At_most n (Class_of p)) s <-> (String.length s <= n)%nat /\ all_chars p s = true.
Proof.
  revert s. induction n as [|n IH]; intros s; simpl.
  - split; [by inversion 1|]. intros [Hl _]. destruct s; [constructor|simpl in Hl; lia].
  - split.
    + inversion 1 as [| | |? ? ? M|? ? ? M| |]; subst.
      * inversion M. split; [simpl; lia|done].
      * apply means_Seq in M as (s1 & s2 & -> & M1 & M2).
        apply means_Class in M1 as (c & -> & Hc). apply IH in M2 as [Hl Hs].
        rewrite string_app_cons, string_app_empty_l. simpl. rewrite Hc. split; [lia|done].
    + intros [Hl Hs]. destruct s as [|c s]; [apply means_left; constructor|].
      simpl in *. apply andb_true_iff in Hs as [Hc Hs]. apply means_right.
      change (String c s) with (String c EmptyString +:+ s).
      apply means_seq; [by constructor|]. apply IH. split; [lia|done].
Qed.

Lemma means_Repeat_class m n p s :
  means (Repeat m n (Class_of p)) s <->
  (m <= String.length s <= m + n)%nat /\ all_chars p s = true.
Proof.
  revert s. induction m as [|m IH]; intros s; simpl.
  - rewrite means_At_most_class. intuition lia.
  - rewrite means_Seq. split.
    + intros (s1 & s2 & -> & M1 & M2). apply means_Class in M1 as (c & -> & Hc).
      apply IH in M2 as [Hl Hs]. rewrite string_app_cons, string_app_empty_l. simpl.
      rewrite Hc. split; [lia|done].
    + intros [Hl Hs]. destruct s as [|c s]; simpl in *; [lia|].
      apply andb_true_iff in Hs as [Hc Hs]. exists (String c EmptyString), s.
      split; [done|]. split; [by constructor|]. apply IH. split; [lia|done].
Qed.
