(* ===== verification/Config.v ===== *)
(** * Configuration

    [config/config.go], [config/blockchain_network_config.go] and
    [config/version.go]: the checks of the configuration, the details of the
    selected blockchain network, and the check of the version. *)
From Stdlib Require Import Ascii.
From S2P Require Import Prelude Prog Regexp.
Local Open Scope Z_scope.

(** The getters of the [viper] configuration. *)
Record Viper := mkViper {
  GetString : string -> string;
  GetInt : string -> Z;
  GetBool : string -> bool }.

(** ** Keys *)

Definition BlockChainNetworkSelected : string := "blockchain_network_selected".
Definition DaemonTypeKey : string := "daemon_type".
Definition DaemonEndPoint : string := "daemon_end_point".
Definition MaxMessageSizeInMB : string := "max_message_size_in_mb".
Definition MonitoringEnabled : string := "monitoring_enabled".
Definition MonitoringServiceEndpoint : string := "monitoring_svc_end_point".
Definition OrganizationId : string := "organization_id".
Definition ServiceId : string := "service_id".
Definition PassthroughEndpointKey : string := "passthrough_endpoint".
Definition SSLCertPathKey : string := "ssl_cert".
Definition SSLKeyPathKey : string := "ssl_key".
Definition AlertsEMail : string := "alerts_email".
Definition HeartbeatServiceEndpoint : string := "heartbeat_svc_end_point".
Definition NotificationServiceEndpoint : string := "notification_svc_end_point".
Definition ServiceHeartbeatType : string := "service_heartbeat_type".
Definition BlockChainNetworkFileName : string := "resources/blockchain_network_config.json".
Definition RegistryFileName : string :=
  "resources/blockchain/node_modules/singularitynet-platform-contracts/networks/Registry.json".
Definition EthereumJsonRpcEndpointKey : string := "ethereum_json_rpc_endpoint".
Definition NetworkId : string := "network_id".
Definition RegistryAddressKey : string := "registry_address_key".

(** ** Addresses and endpoints *)

(** [net/url]: whether [ParseRequestURI] accepts a text, and the host name and
    port of the URL that [Parse] makes of it. *)
Class GoURL := {
  url_ParseRequestURI : string -> bool;
  url_Parse : string -> option (string * string) }.

Definition char_between (a b : ascii) (c : ascii) : bool :=
  bool_decide (nat_of_ascii a <= nat_of_ascii c <= nat_of_ascii b)%nat.

Definition lower (c : ascii) : bool := char_between "a" "z" c.
Definition digit (c : ascii) : bool := char_between "0" "9" c.

(** The expression [^\[a-z0-9._%+\-\]+@\[a-z0-9.\-\]+\.\[a-z\]{2,4}$] *)
Definition email_local (c : ascii) : bool := lower c || digit c || string_in c "._%+-".
Definition email_domain (c : ascii) : bool := lower c || digit c || string_in c ".-".

Definition email_regexp : regexp :=
  Seq (Plus (Class_of email_local)) (Seq (Literal "@")
    (Seq (Plus (Class_of email_domain)) (Seq (Literal ".") (Repeat 2 2 (Class_of lower))))).

Definition ValidateEmail (email : string) : bool := matches email_regexp email.

(** The text before and after the first occurrence of a character. *)
Fixpoint split_first (c : ascii) (s : string) : option (string * string) :=
  match s with
  | EmptyString => None
  | String c' s =>
      if decide (c = c') then Some (EmptyString, s)
      else match split_first c s with
           | None => None
           | Some (a, b) => Some (String c' a, b)
           end
  end.

Fixpoint split_last (c : ascii) (s : string) : option (string * string) :=
  match s with
  | EmptyString => None
  | String c' s =>
      match split_last c s with
      | Some (a, b) => Some (String c' a, b)
      | None => if decide (c = c') then Some (EmptyString, s) else None
      end
  end.

Definition addrErr (why addr : string) : error :=
  ErrorString ("address " +:+ addr +:+ ": " +:+ why).

Definition tail (s : string) : string :=
  match s with EmptyString => EmptyString | String _ s => s end.

(** [net.SplitHostPort]: the port follows the last colon; a host with colons is
    in brackets. *)
Definition SplitHostPort (hostport : string) : result (string * string) :=
  let missingPort := addrErr "missing port in address" hostport in
  let tooManyColons := addrErr "too many colons in address" hostport in
  match split_last ":" hostport with
  | None => Err missingPort
  | Some (before, port) =>
      match hostport with
      | String "[" rest =>
          match split_first "]" hostport with
          | None => Err (addrErr "missing ']' in address" hostport)
          | Some (inside, after) =>
              if decide (after = EmptyString) then Err missingPort
              else if decide (before = inside +:+ "]") then
                if string_in "[" (tail hostport) then
                  Err (addrErr "unexpected '[' in address" hostport)
                else if string_in "]" after then
                  Err (addrErr "unexpected ']' in address" hostport)
                else Ok (tail inside, port)
              else if String.prefix ":" after then Err tooManyColons
              else Err missingPort
          end
      | _ =>
          if string_in ":" before then Err tooManyColons
          else if string_in "[" hostport then
            Err (addrErr "unexpected '[' in address" hostport)
          else if string_in "]" hostport then
            Err (addrErr "unexpected ']' in address" hostport)
          else Ok (before, port)
      end
  end.

Section config.
Context `{!GoURL} (vip : Viper).

Definition IsValidUrl (urlToTest : string) : bool := url_ParseRequestURI urlToTest.

Definition ValidateEndpoints (daemonEndpoint passthroughEndpoint : string) : result unit :=
  match url_Parse passthroughEndpoint with
  | None => Err (ErrorString "passthrough endpoint must be a valid URL")
  | Some (hostname, urlPort) =>
      match SplitHostPort daemonEndpoint with
      | Err _ => Err (ErrorString "couldn't split host:post of daemon endpoint")
      | Ok (daemonHost, daemonPort) =>
          if bool_decide (daemonHost = hostname) && bool_decide (daemonPort = urlPort)
          then Err (ErrorString "passthrough endpoint can't be the same as daemon endpoint!")
          else if bool_decide (daemonPort = urlPort) && bool_decide (daemonHost = "0.0.0.0")
                  && (bool_decide (hostname = "127.0.0.1")
                      || bool_decide (hostname = "localhost"))
          then Err (ErrorString "passthrough endpoint can't be the same as daemon endpoint!")
          else Ok tt
      end
  end.

End config.

(** ** Network *)

(** What [json.Unmarshal] makes of a value: for numbers, lists and booleans the
    text that [%v] prints. *)
Inductive json :=
| JNull
| JString (s : string)
| JOther (text : string)
| JObject (fields : gmap string json).

(** [json.Unmarshal] into a [map\[string\]interface{}], and the text that [%v]
    prints of such a map. *)
Class GoJSON := {
  Unmarshal : string -> result (gmap string json);
  print_object : gmap string json -> string }.

Definition print_json `{!GoJSON} (v : option json) : string :=
  match v with
  | None | Some JNull => "<nil>"
  | Some (JString s) => s
  | Some (JOther text) => text
  | Some (JObject fields) => print_object fields
  end.

(** A value that is not an object where [v.(map\[string\]interface{})] expects one. *)
Definition not_an_object : string := "interface conversion: not map[string]interface {}".

(** The package variable [networkSelected]. *)
Record NetworkSelected := mkNetworkSelected {
  NetworkName : string;
  EthereumJSONRPCEndpoint : string;
  Network_Id : string;
  Network_RegistryAddress : string }.

Definition GetNetworkId (n : NetworkSelected) : string := Network_Id n.
Definition GetBlockChainEndPoint (n : NetworkSelected) : string := EthereumJSONRPCEndpoint n.
Definition GetRegistryAddress (n : NetworkSelected) : string := Network_RegistryAddress n.

(** The values set when the program is built are empty in a development build;
    [read_file] is [ioutil.ReadFile]. *)
Section network.
Context `{!GoJSON} (vip : Viper) (networkIdNameMapping registryAddressJson : string)
  (read_file : string -> result string).

Definition getDetailsFromJsonOrConfig (details : option json) (configName : string) : string :=
  if (0 <? String.length (GetString vip configName))%nat then GetString vip configName
  else match details with
       | None | Some JNull => EmptyString
       | Some _ => print_json details
       end.

Definition determineNetworkSelected (data : string) (n : NetworkSelected)
  : outcome (result unit) * NetworkSelected :=
  let networkName := GetString vip BlockChainNetworkSelected in
  match Unmarshal data with
  | Err err => (Returned (Err err), n)
  | Ok dynamicBinding =>
      match dynamicBinding !! networkName with
      | Some (JObject fields) =>
          (Returned (Ok tt),
           mkNetworkSelected networkName
             (getDetailsFromJsonOrConfig (fields !! EthereumJsonRpcEndpointKey)
                EthereumJsonRpcEndpointKey)
             (print_json (fields !! NetworkId))
             (getDetailsFromJsonOrConfig (fields !! RegistryAddressKey) RegistryAddressKey))
      | _ =>
          (Panicked not_an_object,
           mkNetworkSelected networkName (EthereumJSONRPCEndpoint n) (Network_Id n)
             (Network_RegistryAddress n))
      end
  end.

Definition deriveDatafromJSON (data : string) (n : NetworkSelected)
  : outcome (result unit) * NetworkSelected :=
  match Unmarshal data with
  | Err err =>
      (Returned (Err (Errorf ("cannot parse the Registry JSON file for the network %v ,"
         +:+ " the error is : %v") [GetString vip BlockChainNetworkSelected; Error err])), n)
  | Ok m =>
      match m !! GetNetworkId n with
      | None | Some JNull => (Returned (Ok tt), n)
      | Some (JObject fields) =>
          (Returned (Ok tt),
           mkNetworkSelected (NetworkName n) (EthereumJSONRPCEndpoint n) (Network_Id n)
             (print_json (fields !! "address")))
      | Some _ => (Panicked not_an_object, n)
      end
  end.

Definition ReadFromFile (filename : string) : result string :=
  match read_file filename with
  | Ok file => Ok file
  | Err _ =>
      match read_file ("../" +:+ filename) with
      | Ok file => Ok file
      | Err err => Err (Wrap err (Sprintf "could not read file: %v" [filename]))
      end
  end.

Definition setRegistryAddress (fileName : string) (n : NetworkSelected)
  : outcome (result unit) * NetworkSelected :=
  if (0 <? String.length (Network_RegistryAddress n))%nat then (Returned (Ok tt), n)
  else if (0 <? String.length registryAddressJson)%nat then
    deriveDatafromJSON registryAddressJson n
  else
    match ReadFromFile fileName with
    | Err err =>
        (Returned (Err (Errorf ("cannot parse the JSON file at %v to determine registry"
           +:+ " address of %v network, the error is :%v")
           [fileName; GetString vip BlockChainNetworkSelected; Error err])), n)
    | Ok data => deriveDatafromJSON data n
    end.

Definition setBlockChainNetworkDetails (fileName : string) (n : NetworkSelected)
  : outcome (result unit) * NetworkSelected :=
  let determine (data : string) :=
    match determineNetworkSelected data n with
    | (Returned (Ok _), n') => setRegistryAddress RegistryFileName n'
    | r => r
    end in
  if (0 <? String.length networkIdNameMapping)%nat then determine networkIdNameMapping
  else
    match ReadFromFile fileName with
    | Err err =>
        (Returned (Err (Errorf "cannot read the file %v , error is %v"
                          [fileName; Error err])), n)
    | Ok data => determine data
    end.

Context `{!GoURL}.

(** The result of the check of the version is only logged. *)
Definition Validate (n : NetworkSelected) : outcome (result unit) * NetworkSelected :=
  let dType := GetString vip DaemonTypeKey in
  if negb (bool_decide (dType = "grpc") || bool_decide (dType = "http")) then
    (Returned (Err (Errorf "unrecognized DAEMON_TYPE '%+v'" [dType])), n)
  else
    match setBlockChainNetworkDetails BlockChainNetworkFileName n with
    | (Returned (Ok _), n) =>
        let certPath := GetString vip SSLCertPathKey in
        let keyPath := GetString vip SSLKeyPathKey in
        if (negb (bool_decide (certPath = EmptyString)) && bool_decide (keyPath = EmptyString))
           || (bool_decide (certPath = EmptyString) && negb (bool_decide (keyPath = EmptyString)))
        then (Returned (Err (ErrorString
                "SSL requires both key and certificate when enabled")), n)
        else if GetBool vip MonitoringEnabled
             && negb (bool_decide (GetString vip MonitoringServiceEndpoint = EmptyString))
             && negb (IsValidUrl (GetString vip MonitoringServiceEndpoint))
        then (Returned (Err (ErrorString "service endpoint must be a valid URL")), n)
        else
          match ValidateEndpoints (GetString vip DaemonEndPoint)
                  (GetString vip PassthroughEndpointKey) with
          | Err err => (Returned (Err err), n)
          | Ok _ =>
              let maxMessageSize := GetInt vip MaxMessageSizeInMB in
              if (maxMessageSize <=? 0) || (2048 <? maxMessageSize) then
                (Returned (Err (ErrorString (" max_message_size_in_mb cannot be more than 2GB"
                   +:+ " (i.e 2048 MB) and has to be a positive number"))), n)
              else (Returned (Ok tt), n)
          end
    | r => r
    end.
End network.

(** ** Version *)

Record GitTags := mkGitTags { Tag_name : string }.

(** The answer of the server: its status and the tags of the body, if it can be
    read. The variable [version] is set but the function returns a constant. *)
Definition GetLatestDaemonVersion (resp : result (Z * result GitTags)) : string * option error :=
  match resp with
  | Err err => (EmptyString, Some err)
  | Ok (StatusCode, body) =>
      let version :=
        if StatusCode =? 200 then
          match body with Ok data => Tag_name data | Err _ => EmptyString end
        else EmptyString in
      (EmptyString, None)
  end.

Definition CheckVersionOfDaemon (versionTag : string) (resp : result (Z * result GitTags))
  : string * option error :=
  let '(latestVersionFromGit, err) := GetLatestDaemonVersion resp in
  let message :=
    if (0 <? String.length versionTag)%nat && bool_decide (err = None)
       && negb (bool_decide (latestVersionFromGit = versionTag))
    then Sprintf ("There is a newer version of the Daemon %v available. You are currently"
           +:+ " on %v, please consider upgrading.") [latestVersionFromGit; versionTag]
    else EmptyString in
  (message, err).

(** ** Addresses *)

(** C40: an email address is accepted exactly when it is a local part, an at sign,
    a domain, a dot and two to four letters, of the allowed characters. *)
Theorem ValidateEmail_decides (email : string) :
  ValidateEmail email = true <->
  exists local domain top, email = local +:+ "@" +:+ domain +:+ "." +:+ top /\
    (local <> EmptyString /\ all_chars email_local local = true) /\
    (domain <> EmptyString /\ all_chars email_domain domain = true) /\
    (2 <= String.length top <= 4)%nat /\ all_chars lower top = true.
Proof.
  unfold ValidateEmail, email_regexp. rewrite matches_means. split.
  - intros (l & s1 & -> & Hl & (a & s2 & -> & ->%means_Literal &
      (d & s3 & -> & Hd & (b & t & -> & ->%means_Literal & Ht)%means_Seq)%means_Seq)%means_Seq
      )%means_Seq.
    exists l, d, t. split; [done|]. apply means_Plus_class in Hl, Hd.
    apply means_Repeat_class in Ht. auto.
  - intros (l & d & t & -> & Hl & Hd & Ht). apply means_Plus_class in Hl, Hd.
    apply (means_Repeat_class 2 2) in Ht.
    apply means_seq; [done|]. apply means_seq; [by apply means_Literal|].
    apply means_seq; [done|]. by apply means_seq; [apply means_Literal|].
Qed.

Lemma split_last_app c s t :
  string_in c t = false -> split_last c (s +:+ String c t) = Some (s, t).
Proof.
  intros Ht. assert (split_last c t = None) as Hn.
  { induction t as [|d t IH]; [done|]. simpl in *. apply orb_false_iff in Ht as [Hd Ht].
    rewrite IH by done. rewrite decide_False; [done|]. by apply bool_decide_eq_false in Hd. }
  induction s as [|d s IH].
  - rewrite string_app_empty_l. simpl. by rewrite Hn, decide_True.
  - rewrite string_app_cons. simpl. by rewrite IH.
Qed.

Definition plain_host (s : string) : bool :=
  negb (string_in ":" s || string_in "[" s || string_in "]" s).

Lemma SplitHostPort_join host port :
  plain_host host = true -> plain_host port = true ->
  SplitHostPort (host +:+ String ":" port) = Ok (host, port).
Proof.
  unfold plain_host. rewrite !negb_true_iff, !orb_false_iff. intros [[H1 H2] H3] [[P1 P2] P3].
  unfold SplitHostPort. rewrite split_last_app by done.
  assert (string_in "[" (host +:+ String ":" port) = false) as Hl.
  { rewrite string_in_app. simpl. by rewrite H2, P2. }
  assert (string_in "]" (host +:+ String ":" port) = false) as Hr.
  { rewrite string_in_app. simpl. by rewrite H3, P3. }
  rewrite Hl, Hr, H1.
  destruct host as [|c host]; [done|]. rewrite string_app_cons in *.
  destruct (decide (c = "["%char)) as [->|Hc]; [done|].
  by destruct c as [[] [] [] [] [] [] [] []].
Qed.

(** for a daemon endpoint [host:port], the passthrough endpoint is accepted
    exactly when it is a URL that does not have the port and the host of the
    daemon, where the address of all interfaces is also this host by name or
    loopback address. *)
Lemma ValidateEndpoints_decides `{!GoURL} (host port passthrough : string) :
  plain_host host = true -> plain_host port = true ->
  ValidateEndpoints (host +:+ String ":" port) passthrough = Ok tt <->
  exists h p, url_Parse passthrough = Some (h, p) /\
    ~ (p = port /\ (h = host \/
         (host = "0.0.0.0" /\ (h = "127.0.0.1" \/ h = "localhost")))).
Proof.
  intros Hh Hp. unfold ValidateEndpoints. rewrite SplitHostPort_join by done.
  destruct (url_Parse passthrough) as [[h p]|]; [|by split; [|intros (? & ? & [=] & _)]].
  transitivity (~ (p = port /\ (h = host \/
    (host = "0.0.0.0" /\ (h = "127.0.0.1" \/ h = "localhost"))))).
  - repeat case_bool_decide; subst; simpl; intuition congruence.
  - split; [by exists h, p|by intros (? & ? & [= <- <-] & ?)].
Qed.

(** ** Network and version *)

Section network_lemmas.
Context `{!GoJSON, !GoURL} (vip : Viper) (networkIdNameMapping registryAddressJson : string)
  (read_file : string -> result string).

(** The texts the details are read from: set by the build, or a file. *)
Definition source_text (built file : string) : result string :=
  if (0 <? String.length built)%nat then Ok built else ReadFromFile read_file file.

Local Abbreviation details f := (setBlockChainNetworkDetails vip networkIdNameMapping
  registryAddressJson read_file f).

Lemma length_positive s : (0 <? String.length s)%nat = negb (bool_decide (s = EmptyString)).
Proof. destruct s; [done|]. by rewrite bool_decide_eq_false_2. Qed.

Lemma details_of_source f data n :
  source_text networkIdNameMapping f = Ok data ->
  details f n =
  match determineNetworkSelected vip data n with
  | (Returned (Ok _), n') =>
      setRegistryAddress vip registryAddressJson read_file RegistryFileName n'
  | r => r
  end.
Proof.
  unfold source_text, setBlockChainNetworkDetails. destruct (0 <? _)%nat; [by intros [= ->]|].
  by intros ->.
Qed.

Lemma registry_of_source data m entry n :
  Network_RegistryAddress n = EmptyString ->
  source_text registryAddressJson RegistryFileName = Ok data -> Unmarshal data = Ok m ->
  m !! GetNetworkId n = Some (JObject entry) ->
  setRegistryAddress vip registryAddressJson read_file RegistryFileName n
  = (Returned (Ok tt), mkNetworkSelected (NetworkName n) (EthereumJSONRPCEndpoint n)
       (Network_Id n) (print_json (entry !! "address"))).
Proof.
  intros Hn Hs Hu Hm. unfold setRegistryAddress. rewrite Hn.
  change (0 <? String.length EmptyString)%nat with false. cbv iota.
  assert (deriveDatafromJSON vip data n = (Returned (Ok tt),
    mkNetworkSelected (NetworkName n) (EthereumJSONRPCEndpoint n) (Network_Id n)
      (print_json (entry !! "address")))) as Hd
    by by unfold deriveDatafromJSON; rewrite Hu, Hm.
  revert Hs. unfold source_text. destruct (0 <? _)%nat; [by intros [= ->]|]. by intros ->.
Qed.

(** the selected network has the endpoint and the registry address of the
    configuration, else those of the network file; a registry address that is
    in neither is the one the registry file has for the id of the network. A
    network that is not in the file is not reported as an error: the check of
    the configuration panics. *)
Lemma network_selection (file data : string) networks n :
  source_text networkIdNameMapping file = Ok data -> Unmarshal data = Ok networks ->
  match networks !! GetString vip BlockChainNetworkSelected with
  | Some (JObject fields) =>
      let detail key := getDetailsFromJsonOrConfig vip (fields !! key) key in
      let selected address := mkNetworkSelected (GetString vip BlockChainNetworkSelected)
        (detail EthereumJsonRpcEndpointKey) (print_json (fields !! NetworkId)) address in
      (detail RegistryAddressKey <> EmptyString ->
       details file n = (Returned (Ok tt), selected (detail RegistryAddressKey))) /\
      (forall text m entry, detail RegistryAddressKey = EmptyString ->
       source_text registryAddressJson RegistryFileName = Ok text -> Unmarshal text = Ok m ->
       m !! print_json (fields !! NetworkId) = Some (JObject entry) ->
       details file n = (Returned (Ok tt), selected (print_json (entry !! "address"))))
  | _ => (details file n).1 = Panicked not_an_object
  end.
Proof.
  intros Hs Hu. rewrite (details_of_source _ _ _ Hs). unfold determineNetworkSelected.
  rewrite Hu. destruct (networks !! _) as [[| | |fields]|]; try done.
  split.
  - intros Ha. unfold setRegistryAddress. cbn [Network_RegistryAddress].
    rewrite length_positive, bool_decide_eq_false_2 by done. done.
  - intros text m entry Ha Ht Hm He. by rewrite (registry_of_source text m entry).
Qed.

(** C39: the configuration is accepted exactly when the type of the daemon is
    known, the details of the network can be set, the certificate and its key
    are both given or both left out, the endpoints are valid, and the size of
    messages is from 1 MB to 2 GB. *)
Theorem Validate_accepts (n : NetworkSelected) :
  (Validate vip networkIdNameMapping registryAddressJson read_file n).1 = Returned (Ok tt) <->
  (GetString vip DaemonTypeKey = "grpc" \/ GetString vip DaemonTypeKey = "http") /\
  (details BlockChainNetworkFileName n).1 = Returned (Ok tt) /\
  (GetString vip SSLCertPathKey = EmptyString <-> GetString vip SSLKeyPathKey = EmptyString) /\
  (GetBool vip MonitoringEnabled = true ->
   GetString vip MonitoringServiceEndpoint <> EmptyString ->
   IsValidUrl (GetString vip MonitoringServiceEndpoint) = true) /\
  ValidateEndpoints (GetString vip DaemonEndPoint) (GetString vip PassthroughEndpointKey)
  = Ok tt /\
  1 <= GetInt vip MaxMessageSizeInMB <= 2048.
Proof.
  unfold Validate.
  destruct (bool_decide (GetString vip DaemonTypeKey = "grpc")
            || bool_decide (GetString vip DaemonTypeKey = "http")) eqn:Htype.
  2: { apply orb_false_iff in Htype as [Hg%bool_decide_eq_false Hh%bool_decide_eq_false].
       simpl. intuition congruence. }
  apply orb_true_iff in Htype. rewrite !bool_decide_eq_true in Htype. cbn [negb].
  destruct (details BlockChainNetworkFileName n) as [[[[]|e]|m] n'];
    [|simpl; intuition congruence..].
  cbn [fst].
  destruct (IsValidUrl (GetString vip MonitoringServiceEndpoint));
    destruct (GetBool vip MonitoringEnabled);
    destruct (ValidateEndpoints _ _) as [[]|e'];
    destruct (Z.leb_spec (GetInt vip MaxMessageSizeInMB) 0);
    destruct (Z.ltb_spec 2048 (GetInt vip MaxMessageSizeInMB));
    repeat case_bool_decide; simpl; intuition (congruence || lia).
Qed.
End network_lemmas.

(** The check of the version compares the version of the build with a
    constant: a tagged build reports a newer version, without a name, whatever
    the latest release is. *)
Lemma version_check_always_reports (versionTag : string) (StatusCode : Z)
    (body : result GitTags) :
  versionTag <> EmptyString ->
  CheckVersionOfDaemon versionTag (Ok (StatusCode, body))
  = ("There is a newer version of the Daemon  available. You are currently on "
       +:+ versionTag +:+ ", please consider upgrading.", None).
Proof.
  intros Hv. unfold CheckVersionOfDaemon, GetLatestDaemonVersion.
  rewrite length_positive, bool_decide_eq_false_2 by done.
  rewrite (bool_decide_eq_true_2 (None = None)) by done.
  rewrite (bool_decide_eq_false_2 (EmptyString = versionTag)) by done. reflexivity.
Qed.
