(* ===== verification/Metrics.v ===== *)
(** * Metrics and heartbeat

    The package [metrics]: registration with the metering service, publishing
    the statistics of requests and responses, notifications, the heartbeat of
    the service, and the monitoring interceptor of [handler/interceptors.go]. *)
From Stdlib Require Import Ascii.
From S2P Require Import Prelude Prog Config.
Local Open Scope Z_scope.

(** ** Messages *)

Module CommonStats.
Record CommonStats := mk {
  ID : string;
  ServiceMethod : string;
  RequestReceivedTime : string;
  OrganizationID : string;
  ServiceID : string;
  GroupID : string;
  DaemonEndPoint : string;
  Version : string }.
End CommonStats.
Import CommonStats (CommonStats).

Module RequestStats.
Record RequestStats := mk {
  Type_ : string;
  RegistryAddressKey : string;
  EthereumJsonRpcEndpointKey : string;
  RequestID : string;
  InputDataSize : string;
  ServiceMethod : string;
  RequestReceivedTime : string;
  OrganizationID : string;
  ServiceID : string;
  GroupID : string;
  DaemonEndPoint : string;
  Version : string }.
End RequestStats.
Import RequestStats (RequestStats).

Module ResponseStats.
Record ResponseStats := mk {
  Type_ : string;
  RegistryAddressKey : string;
  EthereumJsonRpcEndpointKey : string;
  RequestID : string;
  OrganizationID : string;
  ServiceID : string;
  GroupID : string;
  ServiceMethod : string;
  ResponseSentTime : string;
  RequestReceivedTime : string;
  ResponseTime : string;
  ResponseCode : string;
  ErrorMessage : string;
  Version : string }.
End ResponseStats.
Import ResponseStats (ResponseStats).

Module Notification.
Record Notification := mk {
  DaemonID : string;
  Timestamp : string;
  Recipient : string;
  Message : string;
  Details : string;
  Component : string;
  Type_ : string;
  Level : string }.
End Notification.
Import Notification (Notification).

Record RegisterDaemonPayload := mkRegisterDaemonPayload {
  Register_NetworkID : Z;
  Register_DaemonID : string }.

Module DaemonHeartbeat.
Record DaemonHeartbeat := mk {
  DaemonID : string;
  Timestamp : string;
  Status : string;
  ServiceHeartbeat : string }.
End DaemonHeartbeat.
Import DaemonHeartbeat (DaemonHeartbeat).

(** What is given to [json.Marshal]. A body stands for the JSON text of the
    payload; [PBytes] is a slice of bytes that holds such a text, which is
    marshalled once more. *)
Inductive Payload :=
| PRequest (stats : RequestStats)
| PResponse (stats : ResponseStats)
| PNotification (alert : Notification)
| PRegister (payload : RegisterDaemonPayload)
| PBytes (body : Payload).

(** [ConvertStructToJSON]: a payload that is there can always be marshalled. *)
Definition ConvertStructToJSON (payLoad : option Payload) : result Payload :=
  match payLoad with
  | None => Err (ErrorString "empty payload passed")
  | Some payLoad => Ok payLoad
  end.

(** ** Effects *)

(** An HTTP response: the status and the body, if it can be read. *)
Record Response := mkResponse {
  StatusCode : Z;
  Body : result string }.

(** A point in time: its text and the monotonic clock in nanoseconds. *)
Record Time := mkTime { Time_String : string; Time_Monotonic : Z }.

(** What is started by a [go] statement. *)
Inductive Task :=
| PublishRequestTask (stats : CommonStats)
| PublishResponseTask (stats : CommonStats) (duration : Z) (err : option error).

Inductive MetricsE : Type -> Type :=
| HttpPost (url : string) (headers : list (string * string)) (body : Payload)
  : MetricsE (result Response)
| HttpGet (url : string) : MetricsE (result Response)
| GrpcDial (url : string) : MetricsE (result unit)
| HealthCheck (url service : string) : MetricsE (result Z)
| Now : MetricsE Time
| EpochTime : MetricsE Z
| GenXid : MetricsE string
| LoadToken : MetricsE string
| StoreToken (token : string) : MetricsE unit
| Go (task : Task) : MetricsE unit.

(** The answer to a registration. *)
Record TokenGenerated := mkTokenGenerated {
  Token_Status : string;
  Data_Token : string }.

(** Functions of the standard library: whether [http.NewRequest] accepts a URL,
    the answer that [json.Unmarshal] finds in a text, the hexadecimal SHA-256
    of a text and the text of a number of nanoseconds in seconds. *)
Class GoMetrics := {
  request_url_ok : string -> bool;
  token_of_json : string -> TokenGenerated;
  sha256_hex : string -> string;
  format_seconds : Z -> string }.

Section metrics.
Context `{!GoMetrics} (vip : Viper) (network : NetworkSelected)
  (daemonGroupId versionTag : string).

(** ** Registration *)

Definition GetDaemonID : string :=
  sha256_hex (GetString vip OrganizationId +:+ GetString vip ServiceId +:+ daemonGroupId
              +:+ GetRegistryAddress network).

Definition getTokenFromResponse (response : Response) : string * bool :=
  if negb (StatusCode response =? 200) then (EmptyString, false)
  else match Body response with
       | Err _ => (EmptyString, false)
       | Ok body => (Data_Token (token_of_json body), true)
       end.

Definition buildPayLoadForServiceRegistration : Payload :=
  PRegister (mkRegisterDaemonPayload 0 GetDaemonID).

(** The headers are set before the error of [NewRequest] is looked at. *)
Definition callRegisterService (daemonID serviceURL : string) : prog MetricsE bool :=
  if negb (request_url_ok serviceURL) then Panic nil_dereference
  else
    let! r := trigger (HttpPost serviceURL
      [("Content-Type", "application/json"); ("Access-Token", daemonID)]
      buildPayLoadForServiceRegistration) in
    match r with
    | Err _ => Ret false
    | Ok response =>
        let '(token, status) := getTokenFromResponse response in
        let! _ := trigger (StoreToken token) in
        Ret status
    end.

Definition RegisterDaemon (serviceURL : string) : prog MetricsE bool :=
  callRegisterService GetDaemonID serviceURL.

(** ** Publishing *)

Definition sendRequest (json : Payload) (serviceURL : string) : prog MetricsE (result Response) :=
  if negb (request_url_ok serviceURL) then
    Ret (Err (ErrorString "invalid URL"))
  else
    let! token := trigger LoadToken in
    trigger (HttpPost serviceURL
      [("Content-Type", "application/json"); ("X-Daemonid", GetDaemonID);
       ("X-Token", token)] json).

Definition register_url : string := GetString vip MonitoringServiceEndpoint +:+ "/register".
Definition event_url : string := GetString vip MonitoringServiceEndpoint +:+ "/event".

Definition checkForSuccessfulResponse (response : Response) : prog MetricsE (bool * bool) :=
  if negb (StatusCode response =? 200) then
    let! status := RegisterDaemon register_url in
    Ret (false, status)
  else Ret (true, false).

(** The calls of [publishJson] with [reTry] false do not retry. *)
Fixpoint publish_attempts (retries : nat) (json : Payload) (serviceURL : string)
  : prog MetricsE bool :=
  let! r := sendRequest json serviceURL in
  match r with
  | Err _ => Ret false
  | Ok response =>
      let! checked := checkForSuccessfulResponse response in
      let '(status, reRegister) := checked in
      match retries with
      | S retries => if reRegister then publish_attempts retries json serviceURL else Ret status
      | O => Ret status
      end
  end.

Definition publishJson (json : Payload) (serviceURL : string) (reTry : bool)
  : prog MetricsE bool :=
  publish_attempts (if reTry then 1 else 0)%nat json serviceURL.

Definition Publish (payload : Payload) (serviceUrl : string) : prog MetricsE bool :=
  match ConvertStructToJSON (Some payload) with
  | Err _ => Ret false
  | Ok jsonBytes => publishJson jsonBytes serviceUrl true
  end.

(** ** Statistics *)

Definition BuildCommonStats (receivedTime : Time) (methodName : string)
  : prog MetricsE CommonStats :=
  let! id := trigger GenXid in
  Ret (CommonStats.mk id methodName (Time_String receivedTime) (GetString vip OrganizationId)
         (GetString vip ServiceId) daemonGroupId EmptyString versionTag).

Definition createRequestStat (commonStat : CommonStats) : RequestStats :=
  RequestStats.mk "request" (GetRegistryAddress network) (GetBlockChainEndPoint network)
    (CommonStats.ID commonStat) EmptyString (CommonStats.ServiceMethod commonStat)
    (CommonStats.RequestReceivedTime commonStat) (CommonStats.OrganizationID commonStat)
    (CommonStats.ServiceID commonStat) (CommonStats.GroupID commonStat)
    (CommonStats.DaemonEndPoint commonStat) (CommonStats.Version commonStat).

Definition setDataFromContext (size : Z) (request : RequestStats) : RequestStats :=
  RequestStats.mk (RequestStats.Type_ request) (RequestStats.RegistryAddressKey request)
    (RequestStats.EthereumJsonRpcEndpointKey request) (RequestStats.RequestID request)
    (pretty size) (RequestStats.ServiceMethod request)
    (RequestStats.RequestReceivedTime request) (RequestStats.OrganizationID request)
    (RequestStats.ServiceID request) (RequestStats.GroupID request)
    (RequestStats.DaemonEndPoint request) (RequestStats.Version request).

(** [size] is the memory the metadata takes, when there is any. *)
Definition PublishRequestStats (commonStat : CommonStats) (size : option Z)
  : prog MetricsE bool :=
  let request := createRequestStat commonStat in
  let request := match size with
                 | Some size => setDataFromContext size request
                 | None => request
                 end in
  Publish (PRequest request) event_url.

(** [codes.Code.String] *)
Definition code_String (code : Z) : string :=
  match nth_error ["OK"; "Canceled"; "Unknown"; "InvalidArgument"; "DeadlineExceeded";
    "NotFound"; "AlreadyExists"; "PermissionDenied"; "ResourceExhausted";
    "FailedPrecondition"; "Aborted"; "OutOfRange"; "Unimplemented"; "Internal";
    "Unavailable"; "DataLoss"; "Unauthenticated"] (Z.to_nat code) with
  | Some name => if code <? 0 then "Code(" +:+ pretty code +:+ ")" else name
  | None => "Code(" +:+ pretty code +:+ ")"
  end.

Definition getErrorMessage (err : option error) : string :=
  match err with Some err => Error err | None => EmptyString end.

(** [status.FromError] takes nil for the status OK. *)
Definition getErrorCode (err : option error) : string :=
  match err with
  | None => code_String codes_OK
  | Some (ErrorStatus s) => code_String (Status_Code s)
  | Some _ => code_String codes_Unknown
  end.

Definition createResponseStats (commonStat : CommonStats) (duration : Z) (err : option error)
  : prog MetricsE ResponseStats :=
  let! now := trigger Now in
  Ret (ResponseStats.mk "response" (GetRegistryAddress network)
         (GetBlockChainEndPoint network) (CommonStats.ID commonStat)
         (CommonStats.OrganizationID commonStat) (CommonStats.ServiceID commonStat)
         daemonGroupId (CommonStats.ServiceMethod commonStat) (Time_String now)
         (CommonStats.RequestReceivedTime commonStat) (format_seconds duration)
         (getErrorCode err) (getErrorMessage err) (CommonStats.Version commonStat)).

Definition PublishResponseStats (commonStats : CommonStats) (duration : Z)
    (err : option error) : prog MetricsE bool :=
  let! response := createResponseStats commonStats duration err in
  Publish (PResponse response) event_url.

(** [time.Now().Sub(start)] *)
Definition Sub (now start : Time) : Z := Time_Monotonic now - Time_Monotonic start.

(** The variable [e] is nil when the service handler panics. *)
Definition interceptMonitoring {E} (metrics : forall X, MetricsE X -> E X)
    (methodName : string) (handler : prog E (result unit)) : prog E (result unit) :=
  let! start := trigger (metrics _ Now) in
  let! commonStats := embed metrics (BuildCommonStats start methodName) in
  let! _ := trigger (metrics _ (Go (PublishRequestTask commonStats))) in
  defer (fun o =>
    let e := match o with Returned (Err e) => Some e | _ => None end in
    let! now := trigger (metrics _ Now) in
    trigger (metrics _ (Go (PublishResponseTask commonStats (Sub now start) e))))
    handler.

(** ** Notifications *)

Context `{!GoURL}.

(** [isNoAlertsConfig] is the package variable of the same name. The JSON text
    of the alert is published as a slice of bytes. *)
Definition Notification_Send (isNoAlertsConfig : bool) (alert : Notification)
  : prog MetricsE bool :=
  if isNoAlertsConfig then Ret false
  else
    let serviceURL := GetString vip NotificationServiceEndpoint in
    match ConvertStructToJSON (Some (PNotification alert)) with
    | Err _ => Ret false
    | Ok jsonAlert =>
        let! status := Publish (PBytes jsonAlert) serviceURL in
        if negb status then Ret false else Ret true
    end.

(** With the next state of [isNoAlertsConfig]. *)
Definition ValidateNotificationConfig : result unit * bool :=
  if bool_decide (GetString vip NotificationServiceEndpoint = EmptyString)
     || bool_decide (GetString vip AlertsEMail = EmptyString) then (Ok tt, true)
  else if negb (IsValidUrl (GetString vip NotificationServiceEndpoint)
                && ValidateEmail (GetString vip AlertsEMail))
  then (Err (ErrorString "service endpoint  and alerts email id must be valid"), false)
  else (Ok tt, false).

(** ** Heartbeat *)

Definition Offline : Z := 0.
Definition Online : Z := 1.
Definition Warning : Z := 2.
Definition Critical : Z := 3.

Definition Status_String (state : Z) : string :=
  if (state <? Offline) || (Critical <? state) then "Unknown"
  else default EmptyString
         (nth_error ["Offline"; "Online"; "Warning"; "Critical"] (Z.to_nat state)).

(** With the next state of [isNoHeartbeatURL]. *)
Definition ValidateHeartbeatConfig : result unit * bool :=
  let hbType := GetString vip ServiceHeartbeatType in
  if negb (bool_decide (hbType = "grpc")) && negb (bool_decide (hbType = "http"))
     && negb (bool_decide (hbType = "https")) && negb (bool_decide (hbType = "none"))
     && negb (bool_decide (hbType = EmptyString)) then
    (Err (Errorf "unrecognized heartbet service type : '%+v'" [hbType]), false)
  else if bool_decide (hbType = EmptyString) || bool_decide (hbType = "none")
          || bool_decide (GetString vip HeartbeatServiceEndpoint = EmptyString) then (Ok tt, true)
  else if negb (IsValidUrl (GetString vip HeartbeatServiceEndpoint)) then
    (Err (ErrorString "service endpoint must be a valid URL"), false)
  else (Ok tt, false).

(** The serving status of [grpc_health_v1] and its names. *)
Definition HealthCheckResponse_UNKNOWN : Z := 0.
Definition HealthCheckResponse_SERVING : Z := 1.
Definition HealthCheckResponse_NOT_SERVING : Z := 2.
Definition HealthCheckResponse_SERVICE_UNKNOWN : Z := 3.

Definition ServingStatus_String (status : Z) : string :=
  if status =? 0 then "UNKNOWN" else if status =? 1 then "SERVING"
  else if status =? 2 then "NOT_SERVING" else if status =? 3 then "SERVICE_UNKNOWN"
  else pretty status.

Definition callgRPCServiceHeartbeat (serviceUrl : string) : prog MetricsE (Z * option error) :=
  let! conn := trigger (GrpcDial serviceUrl) in
  match conn with
  | Err err => Ret (HealthCheckResponse_NOT_SERVING, Some err)
  | Ok _ =>
      let! resp := trigger (HealthCheck serviceUrl (GetString vip ServiceId)) in
      match resp with
      | Err err => Ret (HealthCheckResponse_UNKNOWN, Some err)
      | Ok status => Ret (status, None)
      end
  end.

(** A body that cannot be read is an empty one. *)
Definition callHTTPServiceHeartbeat (serviceURL : string)
  : prog MetricsE (string * option error) :=
  let! response := trigger (HttpGet serviceURL) in
  match response with
  | Err err => Ret (EmptyString, Some err)
  | Ok response =>
      if negb (StatusCode response =? 200) then
        Ret (EmptyString, Some (ErrorString "unexpected error with the service"))
      else
        let serviceHeartbeat := match Body response with Ok b => b | Err _ => EmptyString end in
        if bool_decide (serviceHeartbeat = EmptyString) then
          Ret (EmptyString, Some (ErrorString "empty service response"))
        else Ret (serviceHeartbeat, None)
  end.

Definition service_response (serviceID status : string) : string :=
  "{" +:+ dquote +:+ "serviceID" +:+ dquote +:+ ":" +:+ dquote +:+ serviceID +:+ dquote
  +:+ "," +:+ dquote +:+ "status" +:+ dquote +:+ ":" +:+ dquote +:+ status +:+ dquote +:+ "}".

Definition heartbeat_alert (err : error) (now : Time) : Notification :=
  Notification.mk GetDaemonID (Time_String now) (GetString vip AlertsEMail)
    "Problem in calling Service Heartbeat endpoint." (Error err) "Daemon" EmptyString "ERROR".

(** The call of the service for the heartbeat: the new status of the heartbeat,
    the answer of the service and the error. *)
Definition call_service (serviceURL serviceType status : string)
  : prog MetricsE (string * string * option error) :=
  if bool_decide (serviceType = "grpc") then
    let! response := callgRPCServiceHeartbeat serviceURL in
    Ret (ServingStatus_String response.1, EmptyString, response.2)
  else if bool_decide (serviceType = "http") || bool_decide (serviceType = "https") then
    let! response := callHTTPServiceHeartbeat serviceURL in
    Ret (status, response.1, response.2)
  else Ret (status, EmptyString, None).

Definition GetHeartbeat (isNoHeartbeatURL isNoAlertsConfig : bool)
    (serviceURL serviceType serviceID : string)
  : prog MetricsE (DaemonHeartbeat * option error) :=
  let! epoch := trigger EpochTime in
  let heartbeat status curResp :=
    DaemonHeartbeat.mk GetDaemonID (pretty epoch) status curResp in
  let curResp := service_response serviceID "NOT_SERVING" in
  if bool_decide (serviceType = "none") || bool_decide (serviceType = EmptyString)
     || isNoHeartbeatURL then
    Ret (heartbeat (Status_String Online) (service_response serviceID "SERVING"), None)
  else
    let! called := call_service serviceURL serviceType (Status_String Online) in
    let '(status, svcHeartbeat, err) := called in
    match err with
    | Some e =>
        let! now := trigger Now in
        let! _ := Notification_Send isNoAlertsConfig (heartbeat_alert e now) in
        Ret (heartbeat (Status_String Warning) curResp, err)
    | None => Ret (heartbeat status svcHeartbeat, None)
    end.

(** The heartbeat that is written as the response. *)
Definition HeartbeatHandler (isNoHeartbeatURL isNoAlertsConfig : bool)
  : prog MetricsE DaemonHeartbeat :=
  let! r := GetHeartbeat isNoHeartbeatURL isNoAlertsConfig
    (GetString vip HeartbeatServiceEndpoint) (GetString vip ServiceHeartbeatType)
    (GetString vip ServiceId) in
  Ret r.1.

(** The health service. The error is used without a test. *)
Definition DaemonHeartbeat_Check (isNoHeartbeatURL isNoAlertsConfig : bool)
  : prog MetricsE (Z * option error) :=
  let! r := GetHeartbeat isNoHeartbeatURL isNoAlertsConfig
    (GetString vip HeartbeatServiceEndpoint) (GetString vip ServiceHeartbeatType)
    (GetString vip ServiceId) in
  let '(heartbeat, err) := r in
  if bool_decide (DaemonHeartbeat.Status heartbeat = Status_String Online) then
    Ret (HealthCheckResponse_SERVING, None)
  else
    match err with
    | None => Panic nil_dereference
    | Some err =>
        Ret (HealthCheckResponse_SERVICE_UNKNOWN,
             Some (ErrorString ("Service heartbeat unknown " +:+ Error err)))
    end.

(** [Watch] does nothing, for later. *)
Definition DaemonHeartbeat_Watch : result unit := Ok tt.
End metrics.
