(* ===== verification/Monitoring.v ===== *)
(** * What the daemon reports

    The protocol of publishing with one renewal of the token, the answers of
    the health service, and what the monitoring interceptor reports of a call. *)
From S2P Require Import Prelude Prog Config Metrics.
Import CommonStats (CommonStats) DaemonHeartbeat (DaemonHeartbeat).
Local Open Scope Z_scope.

(** ** The world outside *)

(** A request that was sent, and what came back. *)
Record Call := mkCall {
  call_url : string;
  call_headers : list (string * string);
  call_body : Payload;
  call_answer : result Response }.

(** The token of the daemon, the requests sent and the tasks started so far. *)
Record Outside := mkOutside {
  outside_token : string;
  outside_calls : list Call;
  outside_tasks : list Task }.

(** The service whose heartbeat is asked for. *)
Record Service := mkService {
  service_get : string -> result Response;
  service_dial : string -> result unit;
  service_check : string -> string -> result Z }.

Section monitoring.
Context `{!GoMetrics, !GoURL} (vip : Viper) (network : NetworkSelected)
  (daemonGroupId versionTag : string) (service : Service).

(** Posts may be answered in any way. *)
#[export] Instance metrics_contract : Contract MetricsE Outside := fun X e w =>
  match e in MetricsE X return X -> Outside -> Prop with
  | HttpPost url headers body => fun r w' =>
      w' = mkOutside (outside_token w)
             (outside_calls w ++ [mkCall url headers body r]) (outside_tasks w)
  | HttpGet url => fun r w' => w' = w /\ r = service_get service url
  | GrpcDial url => fun r w' => w' = w /\ r = service_dial service url
  | HealthCheck url name => fun r w' => w' = w /\ r = service_check service url name
  | Now | EpochTime | GenXid => fun _ w' => w' = w
  | LoadToken => fun r w' => w' = w /\ r = outside_token w
  | StoreToken token => fun _ w' =>
      w' = mkOutside token (outside_calls w) (outside_tasks w)
  | Go task => fun _ w' =>
      w' = mkOutside (outside_token w) (outside_calls w) (outside_tasks w ++ [task])
  end.

(** ** Publishing *)

Local Abbreviation register := (register_url vip).
Local Abbreviation daemonID := (GetDaemonID vip network daemonGroupId).

(** The payload sent with a token. *)
Definition is_post (json : Payload) (url token : string) (c : Call) : Prop :=
  call_url c = url /\ call_body c = json /\ In ("X-Token", token) (call_headers c).

Definition is_registration (c : Call) : Prop :=
  call_url c = register /\
  call_body c = buildPayLoadForServiceRegistration vip network daemonGroupId.

Definition delivered (c : Call) : Prop :=
  exists r, call_answer c = Ok r /\ StatusCode r = 200.

Definition refused (c : Call) : Prop :=
  exists r, call_answer c = Ok r /\ StatusCode r <> 200.

(** The answer of a registration has a token. *)
Definition granted (c : Call) (token : string) : Prop :=
  exists r body, call_answer c = Ok r /\ StatusCode r = 200 /\ Body r = Ok body /\
    token = Data_Token (token_of_json body).

(** The requests of a publication that may renew the token [retries] times. *)
Inductive publish_trace (json : Payload) (url : string)
  : nat -> string -> list Call -> bool -> Prop :=
| trace_unreachable n token c :
    is_post json url token c -> is_err (call_answer c) ->
    publish_trace json url n token [c] false
| trace_delivered n token c :
    is_post json url token c -> delivered c -> publish_trace json url n token [c] true
| trace_not_registered n token c r :
    is_post json url token c -> refused c -> is_registration r ->
    (forall token', ~ granted r token') -> publish_trace json url n token [c; r] false
| trace_last token c r token' :
    is_post json url token c -> refused c -> is_registration r -> granted r token' ->
    publish_trace json url 0 token [c; r] false
| trace_retry n token c r token' rest b :
    is_post json url token c -> refused c -> is_registration r -> granted r token' ->
    publish_trace json url n token' rest b ->
    publish_trace json url (S n) token (c :: r :: rest) b.

(** One registration: a request; with a token in the answer it succeeds and the
    token is stored. *)
Lemma wp_register w (Q : outcome bool -> Outside -> Prop) :
  request_url_ok register = true ->
  (forall c (b : bool) w', is_registration c -> outside_calls w' = outside_calls w ++ [c] ->
     (if b then granted c (outside_token w') else forall token, ~ granted c token) ->
     Q (Returned b) w') ->
  wp (RegisterDaemon vip network daemonGroupId register) Q w.
Proof.
  intros Hu HQ. unfold RegisterDaemon, callRegisterService. rewrite Hu.
  intros r w1 ->. set (c := mkCall _ _ _ r).
  assert (is_registration c) as Hc by done.
  destruct r as [[status body]|e].
  2: { apply (HQ c false); [done..|]. by intros t (r & b & [=] & _). }
  cbn [bind]. unfold getTokenFromResponse. cbn [StatusCode Body].
  destruct (Z.eqb_spec status 200) as [->|Hs]; cbn [negb].
  - destruct body as [body|e]; cbn [wp bind trigger]; intros [] w2 ->; cbn [wp].
    + apply (HQ c true); [done..|]. by do 2 eexists.
    + apply (HQ c false); [done..|]. by intros t (r & b & [= <-] & _ & [=] & _).
  - intros [] w2 ->. apply (HQ c false); [done..|].
    by intros t (r & b & [= <-] & ? & _).
Qed.

Lemma wp_publish_attempts json url n w :
  request_url_ok register = true -> request_url_ok url = true ->
  wp (publish_attempts vip network daemonGroupId n json url)
    (fun o w' => exists calls b, o = Returned b /\
       outside_calls w' = outside_calls w ++ calls /\
       publish_trace json url n (outside_token w) calls b) w.
Proof.
  intros Hreg Hurl. revert w. induction n as [|n IH]; intros w;
    cbn [publish_attempts]; unfold sendRequest; rewrite Hurl; cbn [negb];
    (intros t w1 [-> ->]; intros r w2 ->; set (c := mkCall _ _ _ r);
     assert (is_post json url (outside_token w) c) as Hc by (split_and!; [done..|simpl; auto]);
     destruct r as [[status body]|e];
       [|exists [c], false; split_and!; [done..|by apply trace_unreachable]];
     cbn [bind]; unfold checkForSuccessfulResponse; cbn [StatusCode];
     destruct (Z.eqb_spec status 200) as [->|Hs]; cbn [negb];
       [exists [c], true; split_and!; [done..|apply trace_delivered; [done|by eexists]]|];
     assert (refused c) as Hr by by eexists).
  - apply wp_bind. apply wp_bind. apply wp_register; [done|]. intros r b w3 Hr3 Hcalls Hb.
    cbn [wp]. exists [c; r], false. split; [done|]. split; [rewrite Hcalls; simpl; by rewrite <-app_assoc|].
    destruct b; [by eapply trace_last|by apply trace_not_registered].
  - apply wp_bind. apply wp_bind. apply wp_register; [done|]. intros r b w3 Hr3 Hcalls Hb.
    cbn [wp]. destruct b.
    + eapply wp_mono; [apply IH|]. intros o w' (calls & b & -> & Hw' & Ht).
      exists (c :: r :: calls), b. split; [done|].
      split; [rewrite Hw', Hcalls; simpl; by rewrite <-!app_assoc|by eapply trace_retry].
    + exists [c; r], false. split; [done|]. split; [rewrite Hcalls; simpl; by rewrite <-app_assoc|].
      by apply trace_not_registered.
Qed.

(** a payload is published with at most one renewal of the token: it is sent
    with the current token; only a refusal makes the daemon register again, and
    only with the token of that registration it is sent once more. The answer
    is true exactly when a request was answered with OK. *)
Lemma publish_retries_once (payload : Payload) (url : string) (w : Outside) :
  request_url_ok register = true -> request_url_ok url = true ->
  wp (Publish vip network daemonGroupId payload url)
    (fun o w' => exists calls b, o = Returned b /\
       outside_calls w' = outside_calls w ++ calls /\
       publish_trace payload url 1 (outside_token w) calls b) w.
Proof. intros Hr Hu. by apply wp_publish_attempts. Qed.

(** ** The health service *)

(** Publishing never panics when the address of the registration is a URL. *)
Lemma wp_publish_returns payload url w :
  request_url_ok register = true ->
  wp (Publish vip network daemonGroupId payload url) (fun o _ => exists b, o = Returned b) w.
Proof.
  intros Hr. destruct (request_url_ok url) eqn:Hu.
  - eapply wp_mono; [by apply wp_publish_attempts|]. intros o w' (calls & b & -> & _). eauto.
  - unfold Publish, publishJson. cbn [publish_attempts]. unfold sendRequest. rewrite Hu. by eexists.
Qed.

Lemma wp_Notification_Send alerts alert w :
  request_url_ok register = true ->
  wp (Notification_Send vip network daemonGroupId alerts alert)
     (fun o _ => exists b, o = Returned b) w.
Proof.
  intros Hr. unfold Notification_Send. destruct alerts; [by eexists|].
  apply wp_bind. eapply wp_mono; [by apply wp_publish_returns|].
  intros o w' [[] ->]; by eexists.
Qed.

Definition grpc_answer (url : string) : result Z :=
  match service_dial service url with
  | Err e => Err e
  | Ok _ => service_check service url (GetString vip ServiceId)
  end.

Definition http_answer (url : string) : result string :=
  match service_get service url with
  | Err e => Err e
  | Ok r =>
      if negb (StatusCode r =? 200) then
        Err (ErrorString "unexpected error with the service")
      else match Body r with
           | Ok (String c s) => Ok (String c s)
           | _ => Err (ErrorString "empty service response")
           end
  end.

Definition unhealthy (e : error) : outcome (Z * option error) :=
  Returned (HealthCheckResponse_SERVICE_UNKNOWN,
            Some (ErrorString ("Service heartbeat unknown " +:+ Error e))).

(** What [Check] answers for a type of heartbeat. *)
Definition check_answer (url serviceType : string) : outcome (Z * option error) :=
  if bool_decide (serviceType = "grpc") then
    match grpc_answer url with
    | Ok _ => Panicked nil_dereference
    | Err e => unhealthy e
    end
  else if bool_decide (serviceType = "http") || bool_decide (serviceType = "https") then
    match http_answer url with
    | Ok _ => Returned (HealthCheckResponse_SERVING, None)
    | Err e => unhealthy e
    end
  else Returned (HealthCheckResponse_SERVING, None).

Lemma serving_status_not_online status :
  ServingStatus_String status <> Status_String Online.
Proof.
  unfold ServingStatus_String. repeat (destruct (_ =? _); [done|]).
  intros Heq. assert (string_in (Ascii.ascii_of_nat 79) (pretty status) = false) as Hp by by apply pretty_Z_decimal.
  by rewrite Heq in Hp.
Qed.

(** What the call of the service tells. *)
Lemma wp_call_service url type w (Q : outcome (string * string * option error) -> Outside -> Prop) :
  Q (Returned
       (if bool_decide (type = "grpc") then
          match grpc_answer url with
          | Ok s => (ServingStatus_String s, EmptyString, None)
          | Err e => (match service_dial service url with
                      | Err _ => ServingStatus_String HealthCheckResponse_NOT_SERVING
                      | Ok _ => ServingStatus_String HealthCheckResponse_UNKNOWN
                      end, EmptyString, Some e)
          end
        else if bool_decide (type = "http") || bool_decide (type = "https") then
          match http_answer url with
          | Ok s => (Status_String Online, s, None)
          | Err e => (Status_String Online, EmptyString, Some e)
          end
        else (Status_String Online, EmptyString, None))) w ->
  wp (call_service vip url type (Status_String Online)) Q w.
Proof.
  unfold call_service, grpc_answer, http_answer. case_bool_decide as Hg.
  - intros HQ r w1 [-> ->].
    destruct (service_dial service url) as [u|e]; [|exact HQ].
    intros r w1 [-> ->]. by destruct (service_check _ _ _).
  - destruct (_ || _); [|done]. intros HQ r w1 [-> ->].
    destruct (service_get service url) as [[status body]|e]; [|exact HQ].
    cbn [bind StatusCode Body] in *. destruct (negb _); [exact HQ|].
    by destruct body as [[|c s]|e].
Qed.

(** C38: the health service answers SERVING when no heartbeat is configured or
    the HTTP service answers, and an error when the service cannot be reached.
    When a gRPC service answers, whatever its status, the check panics on the
    error that there is not. *)
Theorem health_check_answers (noURL noAlerts : bool) (w : Outside) :
  request_url_ok register = true ->
  let url := GetString vip HeartbeatServiceEndpoint in
  let type := GetString vip ServiceHeartbeatType in
  wp (DaemonHeartbeat_Check vip network daemonGroupId noURL noAlerts)
    (fun o _ => o =
       if bool_decide (type = "none") || bool_decide (type = EmptyString) || noURL
       then Returned (HealthCheckResponse_SERVING, None)
       else check_answer url type) w.
Proof.
  intros Hr url type. unfold DaemonHeartbeat_Check. apply wp_bind. unfold GetHeartbeat.
  intros epoch w1 ->. fold url type. destruct (_ || _ || noURL); [done|].
  apply wp_bind. cbn [bind]. apply wp_bind. apply wp_call_service. unfold check_answer.
  assert (forall status e w, wp
    (let! now := trigger Now in
     let! _ := Notification_Send vip network daemonGroupId noAlerts
       (heartbeat_alert vip network daemonGroupId e now) in
     Ret (DaemonHeartbeat.mk daemonID (pretty epoch) (Status_String Warning) status, Some e))
    (fun o w' => match o with
       | Returned a => wp (let '(heartbeat, err) := a in
           if bool_decide (DaemonHeartbeat.Status heartbeat = Status_String Online) then
             Ret (HealthCheckResponse_SERVING, None)
           else match err with
                | None => Panic nil_dereference
                | Some err => Ret (HealthCheckResponse_SERVICE_UNKNOWN,
                    Some (ErrorString ("Service heartbeat unknown " +:+ Error err)))
                end) (fun o _ => o = unhealthy e) w'
       | Panicked m => Panicked m = unhealthy e
       end) w) as Hfail.
  { intros status e w1 now w2 ->. cbn [bind]. apply wp_bind.
    eapply wp_mono; [by apply wp_Notification_Send|]. by intros o w' [b ->]. }
  case_bool_decide as Hg.
  - destruct (grpc_answer url) as [s|e]; [|apply Hfail]. cbn [wp DaemonHeartbeat.Status].
    rewrite bool_decide_eq_false_2 by apply serving_status_not_online. done.
  - destruct (_ || _); [|done]. destruct (http_answer url) as [s|e]; [done|apply Hfail].
Qed.

(** ** Monitored calls *)

(** The error that is reported of a call. *)
Definition reported (o : outcome (result unit)) : option error :=
  match o with Returned (Err e) => Some e | _ => None end.

(** the monitoring interceptor passes the outcome of a call on, and starts
    exactly two reports with the same identity: one when the call arrives, one
    when it ends. The second has the code of the error of the call, and the
    code OK when the call panicked. *)
Lemma monitored_call_reports (methodName : string) (o : outcome (result unit)) (w : Outside) :
  wp (interceptMonitoring vip daemonGroupId versionTag (fun X (e : MetricsE X) => e)
        methodName (resume o))
    (fun o' w' => o' = o /\ exists stats duration,
       outside_tasks w' = outside_tasks w ++
         [PublishRequestTask stats; PublishResponseTask stats duration (reported o)] /\
       CommonStats.ServiceMethod stats = methodName /\
       CommonStats.DaemonEndPoint stats = EmptyString /\
       getErrorCode (reported o) =
         match o with
         | Returned (Ok _) | Panicked _ => "OK"
         | Returned (Err (ErrorStatus s)) => code_String (Status_Code s)
         | Returned (Err _) => "Unknown"
         end) w.
Proof.
  intros start w1 -> id w2 -> [] w3 ->. unfold defer. apply wp_catch.
  destruct o as [r|m]; cbn [resume wp]; intros now w4 -> [] w5 ->; cbn [wp resume bind outside_tasks];
    (split; [done|]); do 2 eexists; (split; [by rewrite <-app_assoc|]); (split; [done|]);
    (split; [done|]);
    [by destruct r as [[]|[]]|done].
Qed.
End monitoring.
