(* ===== verification/AtomicStorage.v ===== *)
(** * Atomic storage

    [escrow/atomic_storage.go] and [escrow/memory_storage.go]: the
    [AtomicStorage] interface, its in-memory implementation, the decorator
    that prefixes keys, and the typed storage that serializes keys and
    values. *)
From S2P Require Import Prelude Prog.

(** ** The interface *)

(** The requests of the [AtomicStorage] interface with the types of their
    answers; [(value, ok, err)] is [result (option value)]. *)
Inductive StorageE : Type -> Type :=
| SGet (key : string) : StorageE (result (option string))
| SGetByKeyPrefix (prefix : string) : StorageE (result (list string))
| SPut (key value : string) : StorageE (result unit)
| SPutIfAbsent (key value : string) : StorageE (result bool)
| SCompareAndSwap (key prevValue newValue : string) : StorageE (result bool)
| SDelete (key : string) : StorageE (result unit).

Module AtomicStorage.
(** An object that implements the interface: one program per method. *)
Record AtomicStorage (E : Type -> Type) := mkAtomicStorage {
  Get : string -> prog E (result (option string));
  GetByKeyPrefix : string -> prog E (result (list string));
  Put : string -> string -> prog E (result unit);
  PutIfAbsent : string -> string -> prog E (result bool);
  CompareAndSwap : string -> string -> string -> prog E (result bool);
  Delete : string -> prog E (result unit) }.
Arguments Get {E} _ _.
Arguments GetByKeyPrefix {E} _ _.
Arguments Put {E} _ _ _.
Arguments PutIfAbsent {E} _ _ _.
Arguments CompareAndSwap {E} _ _ _ _.
Arguments Delete {E} _ _.
End AtomicStorage.
Import AtomicStorage.

(** Calling the method a request names. *)
Definition call_storage {E X} (s : AtomicStorage E) (e : StorageE X) : prog E X :=
  match e in StorageE X return prog E X with
  | SGet k => Get s k
  | SGetByKeyPrefix p => GetByKeyPrefix s p
  | SPut k v => Put s k v
  | SPutIfAbsent k v => PutIfAbsent s k v
  | SCompareAndSwap k p n => CompareAndSwap s k p n
  | SDelete k => Delete s k
  end.

(** The object whose methods are atomic operations of the world. *)
Definition storage_object {E} (inj : forall X, StorageE X -> E X) : AtomicStorage E := {|
  Get k := trigger (inj _ (SGet k));
  GetByKeyPrefix p := trigger (inj _ (SGetByKeyPrefix p));
  Put k v := trigger (inj _ (SPut k v));
  PutIfAbsent k v := trigger (inj _ (SPutIfAbsent k v));
  CompareAndSwap k p n := trigger (inj _ (SCompareAndSwap k p n));
  Delete k := trigger (inj _ (SDelete k)) |}.

(** The values whose keys have the prefix [p]. *)
Definition matching_values (p : string) (m : gmap string string) : list string :=
  snd <$> map_to_list (filter (fun kv => String.prefix p kv.1 = true) m).

(** What the interface's comments promise. A failed request ([err <> nil])
    may or may not have been applied, since a storage error can be a lost
    answer; a failed read changes nothing. Values listed by prefix come in no
    particular order. *)
Definition storage_contract {X} (e : StorageE X) (m : gmap string string)
    : X -> gmap string string -> Prop :=
  match e in StorageE X return X -> gmap string string -> Prop with
  | SGet k => fun r m' => m' = m /\
      match r with Ok v => v = m !! k | Err _ => True end
  | SGetByKeyPrefix p => fun r m' => m' = m /\
      match r with Ok vs => vs ≡ₚ matching_values p m | Err _ => True end
  | SPut k v => fun r m' =>
      match r with Ok _ => m' = <[k:=v]> m | Err _ => m' = m \/ m' = <[k:=v]> m end
  | SPutIfAbsent k v => fun r m' =>
      match r with
      | Ok true => m !! k = None /\ m' = <[k:=v]> m
      | Ok false => is_Some (m !! k) /\ m' = m
      | Err _ => m' = m \/ (m !! k = None /\ m' = <[k:=v]> m)
      end
  | SCompareAndSwap k p n => fun r m' =>
      match r with
      | Ok true => m !! k = Some p /\ m' = <[k:=n]> m
      | Ok false => m !! k <> Some p /\ m' = m
      | Err _ => m' = m \/ (m !! k = Some p /\ m' = <[k:=n]> m)
      end
  | SDelete k => fun r m' =>
      match r with Ok _ => m' = delete k m | Err _ => m' = m \/ m' = delete k m end
  end.

#[export] Instance StorageE_contract : Contract StorageE (gmap string string) :=
  fun X e => storage_contract e.

(** ** [memoryStorage]

    The field [data]; every method holds the mutex from its first to its last
    instruction, so each is one atomic operation on the map. *)
Definition memoryStorage_unsafePut (key value : string) (data : gmap string string)
  : result unit * gmap string string := (Ok tt, <[key:=value]> data).

Definition memoryStorage_unsafeGet (key : string) (data : gmap string string)
  : result (option string) :=
  match data !! key with
  | None => Ok None
  | Some value => Ok (Some value)
  end.

Definition memoryStorage_Put (key value : string) (data : gmap string string) :=
  memoryStorage_unsafePut key value data.

Definition memoryStorage_Get (key : string) (data : gmap string string) :=
  (memoryStorage_unsafeGet key data, data).

(** [for key, value := range storage.data]: Go leaves the order of the
    iteration open, the contract does too, and this function takes the order
    of [map_to_list]. *)
Definition memoryStorage_GetByKeyPrefix (prefix : string) (data : gmap string string)
  : result (list string) * gmap string string :=
  (Ok (omap (fun kv : string * string =>
               if String.prefix prefix kv.1 then Some kv.2 else None)
            (map_to_list data)), data).

Definition memoryStorage_PutIfAbsent (key value : string) (data : gmap string string)
  : result bool * gmap string string :=
  match memoryStorage_unsafeGet key data with
  | Err e => (Err e, data)
  | Ok (Some _) => (Ok false, data)
  | Ok None =>
      let '(r, data') := memoryStorage_unsafePut key value data in
      (result_map (fun _ => true) r, data')
  end.

Definition memoryStorage_CompareAndSwap (key prevValue newValue : string)
    (data : gmap string string) : result bool * gmap string string :=
  match memoryStorage_unsafeGet key data with
  | Err e => (Err e, data)
  | Ok None => (Ok false, data)
  | Ok (Some current) =>
      if decide (current <> prevValue) then (Ok false, data)
      else
        let '(r, data') := memoryStorage_unsafePut key newValue data in
        (result_map (fun _ => true) r, data')
  end.

Definition memoryStorage_Delete (key : string) (data : gmap string string)
  : result unit * gmap string string := (Ok tt, delete key data).

Definition memoryStorage_Clear (data : gmap string string)
  : result unit * gmap string string := (Ok tt, ∅).

Definition memoryStorage_call {X} (e : StorageE X) (data : gmap string string)
  : X * gmap string string :=
  match e in StorageE X return X * gmap string string with
  | SGet k => memoryStorage_Get k data
  | SGetByKeyPrefix p => memoryStorage_GetByKeyPrefix p data
  | SPut k v => memoryStorage_Put k v data
  | SPutIfAbsent k v => memoryStorage_PutIfAbsent k v data
  | SCompareAndSwap k p n => memoryStorage_CompareAndSwap k p n data
  | SDelete k => memoryStorage_Delete k data
  end.

#[export] Instance StorageE_implementation
  : Implementation StorageE (gmap string string) := fun X e => memoryStorage_call e.

(** ** [PrefixedAtomicStorage] *)

Record PrefixedAtomicStorage (E : Type -> Type) := mkPrefixedAtomicStorage {
  Prefixed_delegate : AtomicStorage E;
  Prefixed_keyPrefix : string }.
Arguments Prefixed_delegate {E} _.
Arguments Prefixed_keyPrefix {E} _.

Section prefixed.
Context {E : Type -> Type} (storage : PrefixedAtomicStorage E).

Definition prefixed_key (keyPrefix key : string) : string :=
  keyPrefix +:+ "/" +:+ key.

Definition PrefixedAtomicStorage_Get (key : string) :=
  Get (Prefixed_delegate storage) (prefixed_key (Prefixed_keyPrefix storage) key).

Definition PrefixedAtomicStorage_GetByKeyPrefix (prefix : string) :=
  GetByKeyPrefix (Prefixed_delegate storage)
    (prefixed_key (Prefixed_keyPrefix storage) prefix).

Definition PrefixedAtomicStorage_Put (key value : string) :=
  Put (Prefixed_delegate storage) (prefixed_key (Prefixed_keyPrefix storage) key) value.

Definition PrefixedAtomicStorage_PutIfAbsent (key value : string) :=
  PutIfAbsent (Prefixed_delegate storage)
    (prefixed_key (Prefixed_keyPrefix storage) key) value.

Definition PrefixedAtomicStorage_CompareAndSwap (key prevValue newValue : string) :=
  CompareAndSwap (Prefixed_delegate storage)
    (prefixed_key (Prefixed_keyPrefix storage) key) prevValue newValue.

Definition PrefixedAtomicStorage_Delete (key : string) :=
  Delete (Prefixed_delegate storage) (prefixed_key (Prefixed_keyPrefix storage) key).

(** The decorator as an [AtomicStorage] object. *)
Definition PrefixedAtomicStorage_object : AtomicStorage E := {|
  Get := PrefixedAtomicStorage_Get;
  GetByKeyPrefix := PrefixedAtomicStorage_GetByKeyPrefix;
  Put := PrefixedAtomicStorage_Put;
  PutIfAbsent := PrefixedAtomicStorage_PutIfAbsent;
  CompareAndSwap := PrefixedAtomicStorage_CompareAndSwap;
  Delete := PrefixedAtomicStorage_Delete |}.
End prefixed.

(** ** [TypedAtomicStorage] and [TypedAtomicStorageImpl]

    An [interface{}] of the source is the type of the keys or of the values. *)
Module TypedAtomicStorage.
Record TypedAtomicStorage (E : Type -> Type) (K V : Type) := mkTypedAtomicStorage {
  Get : K -> prog E (result (option V));
  GetAll : prog E (result (list V));
  Put : K -> V -> prog E (result unit);
  PutIfAbsent : K -> V -> prog E (result bool);
  CompareAndSwap : K -> V -> V -> prog E (result bool);
  Delete : K -> prog E (result unit) }.
Arguments Get {E K V} _ _.
Arguments GetAll {E K V} _.
Arguments Put {E K V} _ _ _.
Arguments PutIfAbsent {E K V} _ _ _.
Arguments CompareAndSwap {E K V} _ _ _ _.
Arguments Delete {E K V} _ _.
End TypedAtomicStorage.

(** The fields are the delegate and the three serialization functions; the
    [valueType] field and the reflection it serves are the type [V]. *)
Record TypedAtomicStorageImpl (E : Type -> Type) (K V : Type) := mkTypedAtomicStorageImpl {
  Typed_atomicStorage : AtomicStorage E;
  Typed_keySerializer : K -> result string;
  Typed_valueSerializer : V -> result string;
  Typed_valueDeserializer : string -> result V }.
Arguments Typed_atomicStorage {E K V} _.
Arguments Typed_keySerializer {E K V} _ _.
Arguments Typed_valueSerializer {E K V} _ _.
Arguments Typed_valueDeserializer {E K V} _ _.

(** The loop of [GetAll]: stops at the first value that cannot be read. *)
Fixpoint deserialize_all {V} (deserialize : string -> result V) (l : list string)
  : result (list V) :=
  match l with
  | [] => Ok []
  | stringValue :: l =>
      match deserialize stringValue with
      | Err e => Err e
      | Ok value => result_map (cons value) (deserialize_all deserialize l)
      end
  end.

Lemma deserialize_all_length {V} (deserialize : string -> result V) l vs :
  deserialize_all deserialize l = Ok vs -> length vs = length l.
Proof.
  revert vs. induction l as [|s l IH]; intros vs; simpl; [by intros [= <-]|].
  destruct (deserialize s); [|done]. destruct (deserialize_all deserialize l); [|done].
  intros [= <-]. simpl. f_equal. by apply IH.
Qed.

Section typed.
Context {E : Type -> Type} {K V : Type} (storage : TypedAtomicStorageImpl E K V).

Definition TypedAtomicStorageImpl_Get (key : K) : prog E (result (option V)) :=
  match Typed_keySerializer storage key with
  | Err e => Ret (Err e)
  | Ok keyString =>
      try! value := Get (Typed_atomicStorage storage) keyString in
      match value with
      | None => Ret (Ok None)
      | Some valueString =>
          match Typed_valueDeserializer storage valueString with
          | Err e => Ret (Err e)
          | Ok value => Ret (Ok (Some value))
          end
      end
  end.

Definition TypedAtomicStorageImpl_GetAll : prog E (result (list V)) :=
  try! stringValues := GetByKeyPrefix (Typed_atomicStorage storage) "" in
  Ret (deserialize_all (Typed_valueDeserializer storage) stringValues).

Definition TypedAtomicStorageImpl_Put (key : K) (value : V) : prog E (result unit) :=
  match Typed_keySerializer storage key with
  | Err e => Ret (Err e)
  | Ok keyString =>
      match Typed_valueSerializer storage value with
      | Err e => Ret (Err e)
      | Ok valueString => Put (Typed_atomicStorage storage) keyString valueString
      end
  end.

Definition TypedAtomicStorageImpl_PutIfAbsent (key : K) (value : V)
  : prog E (result bool) :=
  match Typed_keySerializer storage key with
  | Err e => Ret (Err e)
  | Ok keyString =>
      match Typed_valueSerializer storage value with
      | Err e => Ret (Err e)
      | Ok valueString => PutIfAbsent (Typed_atomicStorage storage) keyString valueString
      end
  end.

Definition TypedAtomicStorageImpl_CompareAndSwap (key : K) (prevValue newValue : V)
  : prog E (result bool) :=
  match Typed_keySerializer storage key with
  | Err e => Ret (Err e)
  | Ok keyString =>
      match Typed_valueSerializer storage newValue with
      | Err e => Ret (Err e)
      | Ok newValueString =>
          match Typed_valueSerializer storage prevValue with
          | Err e => Ret (Err e)
          | Ok prevValueString =>
              CompareAndSwap (Typed_atomicStorage storage)
                keyString prevValueString newValueString
          end
      end
  end.

Definition TypedAtomicStorageImpl_Delete (key : K) : prog E (result unit) :=
  match Typed_keySerializer storage key with
  | Err e => Ret (Err e)
  | Ok keyString => Delete (Typed_atomicStorage storage) keyString
  end.

Definition TypedAtomicStorageImpl_object : TypedAtomicStorage.TypedAtomicStorage E K V := {|
  TypedAtomicStorage.Get := TypedAtomicStorageImpl_Get;
  TypedAtomicStorage.GetAll := TypedAtomicStorageImpl_GetAll;
  TypedAtomicStorage.Put := TypedAtomicStorageImpl_Put;
  TypedAtomicStorage.PutIfAbsent := TypedAtomicStorageImpl_PutIfAbsent;
  TypedAtomicStorage.CompareAndSwap := TypedAtomicStorageImpl_CompareAndSwap;
  TypedAtomicStorage.Delete := TypedAtomicStorageImpl_Delete |}.
End typed.

(** A call of a method of the interface is one of the implementation. *)
Arguments TypedAtomicStorageImpl_Get {E K V} storage key /.
Arguments TypedAtomicStorageImpl_GetAll {E K V} storage /.
Arguments TypedAtomicStorageImpl_Put {E K V} storage key value /.
Arguments TypedAtomicStorageImpl_PutIfAbsent {E K V} storage key value /.
Arguments TypedAtomicStorageImpl_CompareAndSwap {E K V} storage key prevValue newValue /.
Arguments TypedAtomicStorageImpl_Delete {E K V} storage key /.

(** ** The key space of a prefix *)

(** [strip p s] removes the prefix [p] of [s]. *)
Fixpoint strip (p s : string) : option string :=
  match p, s with
  | EmptyString, _ => Some s
  | String a p, String b s => if decide (a = b) then strip p s else None
  | String _ _, EmptyString => None
  end.

(** The entries of [m] under [keyPrefix/], with the prefix removed. *)
Definition view (keyPrefix : string) (m : gmap string string) : gmap string string :=
  map_fold (fun k v acc =>
    match strip (prefixed_key keyPrefix "") k with
    | Some k' => <[k':=v]> acc
    | None => acc
    end) ∅ m.

(** ** Lemmas *)

Lemma strip_Some p s t : strip p s = Some t <-> s = p +:+ t.
Proof.
  revert s. induction p as [|a p IH]; intros s; simpl.
  - rewrite string_app_empty_l. split; congruence.
  - rewrite string_app_cons. destruct s as [|b s]; [done|].
    case_decide as Hab; [|split; congruence].
    subst. rewrite IH. split; congruence.
Qed.

Lemma prefixed_key_app p k : prefixed_key p k = prefixed_key p "" +:+ k.
Proof.
  unfold prefixed_key.
  by rewrite string_app_empty_r, string_app_assoc.
Qed.

Lemma prefixed_key_app_r p q t : prefixed_key p (q +:+ t) = prefixed_key p q +:+ t.
Proof. unfold prefixed_key. by rewrite !string_app_assoc. Qed.

#[export] Instance prefixed_key_inj p : Inj (=) (=) (prefixed_key p).
Proof. unfold prefixed_key. intros k1 k2 H. by simplify_eq. Qed.

Lemma lookup_view p m k : view p m !! k = m !! prefixed_key p k.
Proof.
  rewrite prefixed_key_app. revert k. unfold view.
  apply (map_fold_weak_ind (fun r m => forall k, r !! k = m !! (prefixed_key p "" +:+ k))).
  - intros k. by rewrite !lookup_empty.
  - intros i x m' r Hi IH k. destruct (strip (prefixed_key p "") i) as [k'|] eqn:Hs.
    + apply strip_Some in Hs as ->.
      destruct (decide (k' = k)) as [->|Hk].
      * by rewrite !lookup_insert_eq.
      * rewrite !lookup_insert_ne; [done| |done]. intros H. by simplify_eq.
    + rewrite IH, lookup_insert_ne; [done|].
      intros ->. by rewrite (proj2 (strip_Some _ _ k) eq_refl) in Hs.
Qed.

Lemma view_insert p m k v : view p (<[prefixed_key p k:=v]> m) = <[k:=v]> (view p m).
Proof.
  apply map_eq. intros k'. rewrite lookup_view.
  destruct (decide (k = k')) as [->|Hk].
  - by rewrite !lookup_insert_eq.
  - rewrite !lookup_insert_ne, lookup_view; [done|done|].
    by intros ?%(inj (prefixed_key p)).
Qed.

Lemma view_delete p m k : view p (delete (prefixed_key p k) m) = delete k (view p m).
Proof.
  apply map_eq. intros k'. rewrite lookup_view.
  destruct (decide (k = k')) as [->|Hk].
  - by rewrite !lookup_delete_eq.
  - rewrite !lookup_delete_ne, lookup_view; [done|done|].
    by intros ?%(inj (prefixed_key p)).
Qed.

Lemma kmap_view p q m :
  kmap (prefixed_key p) (filter (fun kv => String.prefix q kv.1 = true) (view p m))
  = filter (fun kv => String.prefix (prefixed_key p q) kv.1 = true) m.
Proof.
  apply map_eq. intros k. apply option_eq. intros v.
  rewrite (lookup_kmap_Some _), map_lookup_filter_Some. simpl. split.
  - intros (k' & -> & [Hl Hp]%map_lookup_filter_Some). simpl in Hp.
    rewrite lookup_view in Hl. split; [done|].
    apply string_prefix_true in Hp as [t ->]. apply string_prefix_true.
    exists t. apply prefixed_key_app_r.
  - intros [Hl Hp]. apply string_prefix_true in Hp as [t ->].
    rewrite <-prefixed_key_app_r in *.
    exists (q +:+ t). split; [done|]. apply map_lookup_filter_Some. simpl.
    rewrite lookup_view. split; [done|apply string_prefix_app].
Qed.

Lemma matching_values_view p q m :
  matching_values (prefixed_key p q) m ≡ₚ matching_values q (view p m).
Proof.
  unfold matching_values. rewrite <-kmap_view, (map_to_list_kmap _).
  by rewrite <-list_fmap_compose.
Qed.

Lemma matching_values_memory p (m : gmap string string) :
  omap (fun kv : string * string =>
          if String.prefix p kv.1 then Some kv.2 else None) (map_to_list m)
  ≡ₚ matching_values p m.
Proof.
  unfold matching_values. induction m as [|i x m Hi IH] using map_ind.
  - by rewrite map_filter_empty, map_to_list_empty.
  - rewrite map_to_list_insert by done. cbn [omap list_omap fst snd].
    destruct (String.prefix p i) eqn:Hp.
    + rewrite map_filter_insert_True, map_to_list_insert by
        (simpl; rewrite ?map_lookup_filter_None; auto). simpl. by rewrite <-IH.
    + rewrite map_filter_insert_not by (simpl; congruence).
      by rewrite <-IH.
Qed.

(** Two prefixes whose key spaces are disjoint. *)
Lemma prefix_disjoint p q k :
  String.prefix (prefixed_key p "") (prefixed_key q "") = false ->
  String.prefix (prefixed_key q "") (prefixed_key p "") = false ->
  String.prefix (prefixed_key p "") (prefixed_key q k) = false.
Proof.
  rewrite (prefixed_key_app q k). generalize (prefixed_key p ""), (prefixed_key q "").
  clear p q. intros p. induction p as [|a p IH]; intros [|b q]; simpl; [done..|].
  destruct (Ascii.ascii_dec a b), (Ascii.ascii_dec b a); try congruence; auto.
Qed.

(** ** The contract as an interface between components *)

(** The object [s] is an [AtomicStorage] over the part [contents] of the
    world, and each of its calls relates the worlds around it by [frame]. *)
Class StorageSpec {E W} `{!Contract E W} (s : AtomicStorage E)
    (contents : W -> gmap string string) (frame : W -> W -> Prop) : Prop :=
  storage_spec : forall X (e : StorageE X) w,
    wp (call_storage s e) (fun o w' => exists x, o = Returned x /\
      storage_contract e (contents w) x (contents w') /\ frame w w') w.

Section storage_rules.
Context {E W} `{!Contract E W} {s : AtomicStorage E}
  {contents : W -> gmap string string} {frame : W -> W -> Prop}
  `{!StorageSpec s contents frame}.

Lemma wp_storage {X} (e : StorageE X) (Q : outcome X -> W -> Prop) w :
  (forall x w', storage_contract e (contents w) x (contents w') -> frame w w' ->
    Q (Returned x) w') ->
  wp (call_storage s e) Q w.
Proof.
  intros HQ. eapply wp_mono; [apply storage_spec|]. intros o w' (x & -> & Hx & Hf). auto.
Qed.
End storage_rules.

#[export] Instance storage_object_spec :
  StorageSpec (storage_object (fun X (e : StorageE X) => e)) id (fun _ _ => True).
Proof. intros X e w. destruct e; intros x w' Hc; exists x; (split; [done|]); by split. Qed.

Lemma memoryStorage_keeps_contract X (e : StorageE X) (data : gmap string string) :
  storage_contract e data (memoryStorage_call e data).1 (memoryStorage_call e data).2.
Proof.
  destruct e as [k|p|k v|k v|k p n|k]; simpl.
  - unfold memoryStorage_unsafeGet. by destruct (data !! k).
  - split; [done|]. apply matching_values_memory.
  - done.
  - unfold memoryStorage_PutIfAbsent, memoryStorage_unsafeGet.
    destruct (data !! k) eqn:Hk; simpl; rewrite ?Hk; eauto.
  - unfold memoryStorage_CompareAndSwap, memoryStorage_unsafeGet.
    destruct (data !! k) as [c|] eqn:Hk; [destruct (decide (c <> p)) as [|Hc]|]; simpl;
      rewrite ?Hk; (split; [congruence || (apply dec_stable in Hc; congruence)|done]).
  - done.
Qed.

(** the six methods of [memoryStorage] keep the contract of the
    [AtomicStorage] interface. *)
Lemma memoryStorage_implements_contract X (e : StorageE X) (data : gmap string string) :
  storage_contract e data (memoryStorage_call e data).1 (memoryStorage_call e data).2.
Proof. apply memoryStorage_keeps_contract. Qed.

#[export] Instance memoryStorage_implements : Implements StorageE (gmap string string).
Proof. intros X e w. apply memoryStorage_keeps_contract. Qed.

Lemma frame_insert p k v (m : gmap string string) k' :
  String.prefix (prefixed_key p "") k' = false ->
  <[prefixed_key p k:=v]> m !! k' = m !! k'.
Proof.
  intros Hk. apply lookup_insert_ne. intros <-.
  by rewrite (prefixed_key_app p k), string_prefix_app in Hk.
Qed.

Lemma frame_delete p k (m : gmap string string) k' :
  String.prefix (prefixed_key p "") k' = false ->
  delete (prefixed_key p k) m !! k' = m !! k'.
Proof.
  intros Hk. apply lookup_delete_ne. intros <-.
  by rewrite (prefixed_key_app p k), string_prefix_app in Hk.
Qed.

(** The worlds agree outside the key space of the prefix. *)
Definition prefix_frame {W} (contents : W -> gmap string string) (keyPrefix : string)
    (w w' : W) : Prop :=
  forall k, String.prefix (prefixed_key keyPrefix "") k = false ->
  contents w' !! k = contents w !! k.

(** The request the decorator makes of its delegate. *)
Definition prefix_request {X} (p : string) (e : StorageE X) : StorageE X :=
  match e in StorageE X return StorageE X with
  | SGet k => SGet (prefixed_key p k)
  | SGetByKeyPrefix q => SGetByKeyPrefix (prefixed_key p q)
  | SPut k v => SPut (prefixed_key p k) v
  | SPutIfAbsent k v => SPutIfAbsent (prefixed_key p k) v
  | SCompareAndSwap k v n => SCompareAndSwap (prefixed_key p k) v n
  | SDelete k => SDelete (prefixed_key p k)
  end.

Lemma call_prefixed {E X} (s : AtomicStorage E) p (e : StorageE X) :
  call_storage (PrefixedAtomicStorage_object (mkPrefixedAtomicStorage E s p)) e
  = call_storage s (prefix_request p e).
Proof. by destruct e. Qed.

Lemma prefix_request_contract {X} p (e : StorageE X) m x m' :
  storage_contract (prefix_request p e) m x m' ->
  storage_contract e (view p m) x (view p m') /\
  (forall k, String.prefix (prefixed_key p "") k = false -> m' !! k = m !! k).
Proof.
  destruct e; simpl; repeat case_match; intros Hc; destruct_and?; destruct_or?; destruct_and?;
    subst; rewrite ?view_insert, ?view_delete, ?lookup_view;
    (split; [|by intros; rewrite ?frame_insert, ?frame_delete]); auto.
  rewrite <-matching_values_view. auto.
Qed.

(** C24: a [PrefixedAtomicStorage] over any object that keeps the contract keeps
    the contract itself, over the entries under its prefix with the prefix
    removed, and leaves the other entries alone. *)
Theorem PrefixedAtomicStorage_refines {E W} `{!Contract E W} (s : AtomicStorage E)
    (contents : W -> gmap string string) (frame : W -> W -> Prop) (keyPrefix : string) :
  StorageSpec s contents frame ->
  StorageSpec (PrefixedAtomicStorage_object (mkPrefixedAtomicStorage E s keyPrefix))
    (fun w => view keyPrefix (contents w))
    (fun w w' => frame w w' /\ prefix_frame contents keyPrefix w w').
Proof.
  intros Hs X e w. rewrite call_prefixed. apply wp_storage. intros x w' Hc Hf.
  apply prefix_request_contract in Hc as [Hc Hk].
  exists x. repeat split; done.
Qed.
