(* ===== verification/RelyGuarantee.v ===== *)
(** * Concurrent requests

    The server runs a goroutine per request; here a pool of programs whose
    atomic operations interleave in any order, with steps of the outside
    world between them, and any of them may stop for good. [rg] is a
    rely-guarantee logic for one thread of the pool: the thread is specified
    against what the others may do ([Rely]) and promises what its own steps do
    ([Guar]). *)
From S2P Require Import Prelude Prog.

(** A state type with the steps of the effects by thread number, what changes
    when a thread stops, the steps of the outside world, and the rely and
    guarantee relations. A guarantee is of an operation and its answer. *)
Class RelyGuarantee (E : Type -> Type) (S : Type) := {
  thread_step : nat -> forall X, E X -> S -> X -> S -> Prop;
  stop_step : nat -> S -> S -> Prop;
  env_step : S -> S -> Prop;
  Inv : S -> Prop;
  Rely : nat -> S -> S -> Prop;
  Guar : nat -> forall X, E X -> S -> X -> S -> Prop }.
Arguments thread_step {E S _} _ {X} _ _ _ _.
Arguments Guar {E S _} _ {X} _ _ _ _.

(** A step that a thread guarantees is one that every other thread relies on;
    so is its stop, and a step of the world. *)
Class RelyGuaranteeLaws (E : Type -> Type) (S : Type) `{!RelyGuarantee E S} : Prop := {
  rely_refl t s : Rely t s s;
  rely_trans t s1 s2 s3 : Rely t s1 s2 -> Rely t s2 s3 -> Rely t s1 s3;
  rely_inv t s s' : Rely t s s' -> Inv s -> Inv s';
  guar_inv t X (e : E X) s x s' : Guar t e s x s' -> Inv s -> Inv s';
  guar_rely t u X (e : E X) s x s' : t <> u -> Guar u e s x s' -> Rely t s s';
  stop_inv t s s' : stop_step t s s' -> Inv s -> Inv s';
  stop_rely t u s s' : t <> u -> stop_step u s s' -> Rely t s s';
  env_rely t s s' : env_step s s' -> Rely t s s' }.

(** What is left of a program that has stopped: it has crashed, unless it had
    ended. *)
Definition crashed {E A} : prog E A := Panic "crash".

Definition stop {E A} (p : prog E A) : prog E A :=
  match p with Vis _ _ => crashed | _ => p end.

Section rg.
Context {E : Type -> Type} {S : Type} `{!RelyGuarantee E S}.

(** Thread [t] runs [p] from [s]: between any two operations the others make
    steps of [Rely]; every operation is in [Guar]; the outcome satisfies [Q],
    and still does after further steps of the others. *)
Fixpoint rg (t : nat) {A} (p : prog E A) (Q : outcome A -> S -> Prop) (s : S) : Prop :=
  match p with
  | Ret a => forall s', Rely t s s' -> Inv s' -> Q (Returned a) s'
  | Panic m => forall s', Rely t s s' -> Inv s' -> Q (Panicked m) s'
  | Vis e k => forall s' x s'', Rely t s s' -> Inv s' -> thread_step t e s' x s'' ->
      Guar t e s' x s'' /\ rg t (k x) Q s''
  end.

(** The pool: requests are started at any time, are numbered in the order of
    their arrival, and may stop at any time. *)
Inductive pool_step (Request : prog E unit -> Prop)
  : list (prog E unit) * S -> list (prog E unit) * S -> Prop :=
| pool_thread ps s t X (e : E X) k x s' :
    ps !! t = Some (Vis e k) -> thread_step t e s x s' ->
    pool_step Request (ps, s) (<[t := k x]> ps, s')
| pool_spawn ps s p :
    Request p -> pool_step Request (ps, s) (ps ++ [p], s)
| pool_stop ps s t p s' :
    ps !! t = Some p -> stop_step t s s' ->
    pool_step Request (ps, s) (<[t := crashed]> ps, s')
| pool_env ps s s' :
    env_step s s' -> pool_step Request (ps, s) (ps, s').

Context `{!RelyGuaranteeLaws E S}.

Lemma rg_rely {A} t (p : prog E A) Q s s' : rg t p Q s -> Rely t s s' -> rg t p Q s'.
Proof.
  destruct p; simpl; intros Hp Hr; intros; eapply Hp; eauto using rely_trans.
Qed.

Lemma rg_mono {A} t (p : prog E A) (Q Q' : outcome A -> S -> Prop) s :
  rg t p Q s -> (forall o s', Inv s' -> Q o s' -> Q' o s') -> rg t p Q' s.
Proof.
  intros Hp HQ. revert s Hp.
  induction p as [a|m|X e k IH]; simpl; intros s Hp; [auto..|].
  intros s' x s'' Hr Hi Hs. destruct (Hp _ _ _ Hr Hi Hs) as [Hg Hk]. auto.
Qed.

Lemma rg_bind {A B} t (p : prog E A) (f : A -> prog E B) Q s :
  rg t p (fun o s' => match o with
                      | Returned a => rg t (f a) Q s'
                      | Panicked m => rg t (Panic m) Q s'
                      end) s ->
  Inv s -> rg t (bind p f) Q s.
Proof.
  revert s. induction p as [a|m|X e k IH]; simpl; intros s Hp Hi.
  - apply Hp; [apply rely_refl|done].
  - apply (Hp s); [apply rely_refl|done].
  - intros s' x s'' Hr Hi' Hs. destruct (Hp _ _ _ Hr Hi' Hs) as [Hg Hk].
    split; [done|]. apply IH; [done|]. by eapply guar_inv.
Qed.

Lemma rg_catch {A B} t (p : prog E A) (h : outcome A -> prog E B) Q s :
  rg t p (fun o s' => rg t (h o) Q s') s -> Inv s -> rg t (catch p h) Q s.
Proof.
  revert s. induction p as [a|m|X e k IH]; simpl; intros s Hp Hi.
  - apply Hp; [apply rely_refl|done].
  - apply Hp; [apply rely_refl|done].
  - intros s' x s'' Hr Hi' Hs. destruct (Hp _ _ _ Hr Hi' Hs) as [Hg Hk].
    split; [done|]. apply IH; [done|]. by eapply guar_inv.
Qed.

(** One atomic operation. *)
Lemma rg_trigger {X} t (e : E X) (Q : outcome X -> S -> Prop) s :
  (forall s' x s'', Rely t s s' -> Inv s' -> thread_step t e s' x s'' ->
    Guar t e s' x s'' /\ forall s3, Rely t s'' s3 -> Inv s3 -> Q (Returned x) s3) ->
  rg t (trigger e) Q s.
Proof. done. Qed.

(** *** Soundness *)

(** Every thread of the pool is verified from the current state on. *)
Definition pool_ok (c : list (prog E unit) * S) : Prop :=
  Inv c.2 /\ forall t p, c.1 !! t = Some p -> rg t p (fun _ _ => True) c.2.

Definition verified (Request : prog E unit -> Prop) : Prop :=
  forall p t s, Request p -> Inv s -> rg t p (fun _ _ => True) s.

Lemma pool_step_ok Request c c' :
  verified Request -> pool_step Request c c' -> pool_ok c -> pool_ok c'.
Proof.
  intros HR Hstep [Hi Hp].
  destruct Hstep as [ps s t X e k x s' Ht Hs|ps s p Hr|ps s t p s' Ht Hs|ps s s' He];
    simpl in *.
  - pose proof (Hp _ _ Ht s x s' (rely_refl t s) Hi Hs) as [Hg Hk].
    split; [by eapply guar_inv|]. simpl. intros u q.
    destruct (decide (t = u)) as [<-|Hu].
    + rewrite list_lookup_insert_eq by (by eapply lookup_lt_Some). by intros [= <-].
    + rewrite list_lookup_insert_ne by done. intros Hq.
      eapply rg_rely; [by apply Hp|]. by eapply guar_rely.
  - split; [done|]. simpl. intros t q [Hq|[Hl Hq]]%lookup_app_Some; [by apply Hp|].
    apply list_lookup_singleton_Some in Hq as [_ <-]. by apply HR.
  - split; [by eapply stop_inv|]. simpl. intros u q [(_ & <- & _)|[Hu Hq]]%list_lookup_insert_Some;
      [done|]. eapply rg_rely; [by apply Hp|]. by eapply stop_rely.
  - split; [eapply (rely_inv 0); [by apply env_rely|done]|]. simpl. intros t p Ht.
    eapply rg_rely; [by apply Hp|]. by apply env_rely.
Qed.

Lemma pool_reachable_ok Request c c' :
  verified Request -> rtc (pool_step Request) c c' -> pool_ok c -> pool_ok c'.
Proof. intros HR. induction 1; eauto using pool_step_ok. Qed.

Lemma pool_ok_nil s : Inv s -> pool_ok ([], s).
Proof. intros Hi. by split. Qed.

(** The next operation of a thread keeps the guarantee. *)
Lemma pool_thread_guar c t X (e : E X) k x s' :
  pool_ok c -> c.1 !! t = Some (Vis e k) -> thread_step t e c.2 x s' -> Guar t e c.2 x s'.
Proof. intros [Hi Hp] Ht Hs. apply (Hp _ _ Ht c.2 x s' (rely_refl t c.2) Hi Hs). Qed.

(** Every change of the state is a step the moving thread guarantees, its stop,
    or a step of the outside world. *)
Lemma pool_step_guar Request c c' :
  verified Request -> pool_ok c -> pool_step Request c c' ->
  c'.2 = c.2 \/ env_step c.2 c'.2 \/
  exists t, (exists X (e : E X) x, Guar t e c.2 x c'.2) \/ stop_step t c.2 c'.2.
Proof.
  intros HR Hc Hstep.
  destruct Hstep as [ps s t X e k x s' Ht Hs|ps s p Hr|ps s t p s' Ht Hs|ps s s' He];
    simpl in *; [|by left|by right; right; exists t; right|by right; left].
  right; right. exists t. left. exists X, e, x. by apply (pool_thread_guar (ps, s) t X e k).
Qed.
End rg.
