(* ===== verification/Etcd.v ===== *)
(** * The etcd client

    [etcddb/etcddb_client.go]: [EtcdClient] implements the atomic storage over
    an etcd server. All its methods but [PutIfAbsent] make one request of the
    server, which is atomic; [PutIfAbsent] makes several under a distributed
    mutex. *)
From S2P Require Import Prelude Prog AtomicStorage RelyGuarantee.
Import AtomicStorage.

(** ** The server *)

(** The functions of [clientv3] and [concurrency] that the client calls.
    [EtcdGet] and [EtcdRange] answer with the values of the entries found. A
    mutex of [concurrency] keeps entries of its own below its key; they are not
    entries of the model, since the program reads no prefix that has mutexes. *)
Inductive EtcdE : Type -> Type :=
| EtcdGet (key : string) : EtcdE (result (list string))
| EtcdRange (key rangeEnd : string) : EtcdE (result (list string))
| EtcdPut (key value : string) : EtcdE (result unit)
| EtcdDelete (key : string) : EtcdE (result unit)
| EtcdTxn (cmps ops : list (string * string)) : EtcdE (result bool)
| EtcdNewSession : EtcdE (result unit)
| EtcdMutexLock (key : string) : EtcdE (result unit)
| EtcdMutexUnlock (key : string) : EtcdE (result unit).

(** [clientv3.GetPrefixRangeEnd] and the order of keys it is made for: the keys
    from [key] up to the range end are the keys with the prefix. *)
Class EtcdKeys := {
  GetPrefixRangeEnd : string -> string;
  in_range : string -> string -> string -> bool }.

Class EtcdKeysLaws `{!EtcdKeys} : Prop :=
  range_of_prefix key k : in_range key (GetPrefixRangeEnd key) k = String.prefix key k.

(** The entries, and the client that holds the mutex of a key. *)
Record EtcdState := mkEtcdState {
  etcd_kvs : gmap string string;
  etcd_mutex : string -> option nat }.

Definition set_kvs (m : gmap string string) (s : EtcdState) : EtcdState :=
  mkEtcdState m (etcd_mutex s).

Definition set_mutex (key : string) (o : option nat) (s : EtcdState) : EtcdState :=
  mkEtcdState (etcd_kvs s) (fun k => if decide (k = key) then o else etcd_mutex s k).

(** The lease of a client that has crashed ends, and with it the mutexes that it
    holds. *)
Definition release_mutexes (t : nat) (s : EtcdState) : EtcdState :=
  mkEtcdState (etcd_kvs s)
    (fun key => if decide (etcd_mutex s key = Some t) then None else etcd_mutex s key).

(** A comparison of a value fails when the key is absent. *)
Definition txn_succeeds (cmps : list (string * string)) (m : gmap string string) : bool :=
  forallb (fun kv => bool_decide (m !! kv.1 = Some kv.2)) cmps.

Definition txn_apply (ops : list (string * string)) (m : gmap string string)
  : gmap string string :=
  foldl (fun m kv => <[kv.1 := kv.2]> m) m ops.

Section etcd.
Context `{!EtcdKeys}.

Definition range_values (key rangeEnd : string) (m : gmap string string) : list string :=
  snd <$> map_to_list (filter (fun kv => in_range key rangeEnd kv.1 = true) m).

(** What etcd documents of a request of the client [t]: a request is atomic, and
    one that fails may have been applied. A mutex is given to one client at a
    time and released by its holder. *)
Definition etcd_step (t : nat) {X} (e : EtcdE X) (s : EtcdState) : X -> EtcdState -> Prop :=
  match e in EtcdE X return X -> EtcdState -> Prop with
  | EtcdGet key => fun r s' => s' = s /\
      match r with Ok vs => vs = option_list (etcd_kvs s !! key) | Err _ => True end
  | EtcdRange key rangeEnd => fun r s' => s' = s /\
      match r with Ok vs => vs ≡ₚ range_values key rangeEnd (etcd_kvs s) | Err _ => True end
  | EtcdPut key value => fun r s' =>
      s' = set_kvs (<[key:=value]> (etcd_kvs s)) s \/ (is_err r /\ s' = s)
  | EtcdDelete key => fun r s' =>
      s' = set_kvs (delete key (etcd_kvs s)) s \/ (is_err r /\ s' = s)
  | EtcdTxn cmps ops => fun r s' =>
      match r with
      | Ok b => b = txn_succeeds cmps (etcd_kvs s) /\
          s' = if b then set_kvs (txn_apply ops (etcd_kvs s)) s else s
      | Err _ => s' = s \/ (txn_succeeds cmps (etcd_kvs s) = true /\
                            s' = set_kvs (txn_apply ops (etcd_kvs s)) s)
      end
  | EtcdNewSession => fun r s' => s' = s
  | EtcdMutexLock key => fun r s' =>
      (etcd_mutex s key = None /\ s' = set_mutex key (Some t) s) \/ (is_err r /\ s' = s)
  | EtcdMutexUnlock key => fun r s' =>
      (etcd_mutex s key = Some t /\ s' = set_mutex key None s) \/
      (etcd_mutex s key <> Some t /\ s' = s) \/ (is_err r /\ s' = s)
  end.

(** The server does what is documented. *)
Class EtcdServer :=
  etcd_serve : nat -> forall X, EtcdE X -> EtcdState -> X -> EtcdState -> Prop.

Class EtcdServerLaws `{!EtcdServer} : Prop :=
  serve_documented t X (e : EtcdE X) s x s' :
    etcd_serve t X e s x s' -> etcd_step t e s x s'.

(** ** The client *)

(** The loop over [response.Kvs] returns at the first entry. *)
Definition EtcdClient_Get (key : string) : prog EtcdE (result (option string)) :=
  try! kvs := trigger (EtcdGet key) in
  match kvs with
  | [] => Ret (Ok None)
  | value :: _ => Ret (Ok (Some value))
  end.

Definition EtcdClient_GetByKeyPrefix (key : string) : prog EtcdE (result (list string)) :=
  let keyEnd := GetPrefixRangeEnd key in
  try! kvs := trigger (EtcdRange key keyEnd) in
  Ret (Ok kvs).

Definition EtcdClient_Put (key value : string) : prog EtcdE (result unit) :=
  trigger (EtcdPut key value).

Definition EtcdClient_Delete (key : string) : prog EtcdE (result unit) :=
  trigger (EtcdDelete key).

Record EtcdKeyValue := mkEtcdKeyValue {
  EtcdKeyValue_key : string;
  EtcdKeyValue_value : string }.

Definition EtcdClient_Transaction (compare swap : list EtcdKeyValue)
  : prog EtcdE (result bool) :=
  let cmps := (fun cmp => (EtcdKeyValue_key cmp, EtcdKeyValue_value cmp)) <$> compare in
  let ops := (fun op => (EtcdKeyValue_key op, EtcdKeyValue_value op)) <$> swap in
  trigger (EtcdTxn cmps ops).

Definition EtcdClient_CompareAndSwap (key prevValue newValue : string)
  : prog EtcdE (result bool) :=
  EtcdClient_Transaction [mkEtcdKeyValue key prevValue] [mkEtcdKeyValue key newValue].

(** The mutex is released when the function returns after taking it; the answer
    of the deferred [Unlock] is dropped. *)
Definition EtcdClient_PutIfAbsent (key value : string) : prog EtcdE (result bool) :=
  try! _ := trigger EtcdNewSession in
  try! _ := trigger (EtcdMutexLock key) in
  defer (fun _ => trigger (EtcdMutexUnlock key))
   (try! kvs := trigger (EtcdGet key) in
    if negb (bool_decide (length kvs = 0)) then Ret (Ok false)
    else
      try! _ := trigger (EtcdPut key value) in
      Ret (Ok true)).

(** A mutex of the session of the client, for a key. *)
Record EtcdClientMutex := mkEtcdClientMutex { mutex_key : string }.

Definition EtcdClientMutex_Lock (mutex : EtcdClientMutex) : prog EtcdE (result unit) :=
  trigger (EtcdMutexLock (mutex_key mutex)).

Definition EtcdClientMutex_Unlock (mutex : EtcdClientMutex) : prog EtcdE (result unit) :=
  trigger (EtcdMutexUnlock (mutex_key mutex)).

(** It makes no request. *)
Definition EtcdClient_NewMutex (key : string) : result EtcdClientMutex :=
  Ok (mkEtcdClientMutex key).

Definition EtcdClient_object : AtomicStorage EtcdE := {|
  Get := EtcdClient_Get;
  GetByKeyPrefix := EtcdClient_GetByKeyPrefix;
  Put := EtcdClient_Put;
  PutIfAbsent := EtcdClient_PutIfAbsent;
  CompareAndSwap := EtcdClient_CompareAndSwap;
  Delete := EtcdClient_Delete |}.

(** ** One client *)

#[export] Instance EtcdE_contract `{!EtcdServer} : Contract EtcdE EtcdState :=
  fun X e => etcd_serve 0 X e.

Lemma txn_single k p n m :
  txn_succeeds [(k, p)] m = bool_decide (m !! k = Some p) /\ txn_apply [(k, n)] m = <[k:=n]> m.
Proof. split; [apply andb_true_r|done]. Qed.

Lemma option_list_head (o : option string) :
  match option_list o with [] => None | v :: _ => Some v end = o.
Proof. by destruct o. Qed.

Lemma set_kvs_id s : set_kvs (etcd_kvs s) s = s.
Proof. by destruct s. Qed.

(** The answer of a transaction of one comparison and one write. *)
Lemma txn_contract t k p n s r s' :
  etcd_step t (EtcdTxn [(k, p)] [(k, n)]) s r s' ->
  storage_contract (SCompareAndSwap k p n) (etcd_kvs s) r (etcd_kvs s') /\
  s' = set_kvs (etcd_kvs s') s.
Proof.
  cbn [etcd_step]. destruct (txn_single k p n (etcd_kvs s)) as [Hs Ha]. rewrite Hs, Ha.
  destruct r as [b|e]; simpl.
  - intros [-> ->]. case_bool_decide; simpl; [done|]. by rewrite set_kvs_id.
  - intros [->|[Hb ->]]; simpl; [rewrite set_kvs_id; auto|].
    apply bool_decide_eq_true in Hb. auto.
Qed.

Context `{!EtcdKeysLaws, !EtcdServer, !EtcdServerLaws}.

Lemma range_values_prefix key m :
  range_values key (GetPrefixRangeEnd key) m = matching_values key m.
Proof.
  unfold range_values, matching_values. do 2 f_equal. apply map_filter_ext.
  intros k v _. simpl. by rewrite range_of_prefix.
Qed.

Lemma contract_documented {X} (e : EtcdE X) s x s' :
  contract e s x s' -> etcd_step 0 e s x s'.
Proof. apply serve_documented. Qed.

(** [PutIfAbsent] in the absence of other clients. *)
Lemma wp_PutIfAbsent key value s :
  wp (EtcdClient_PutIfAbsent key value) (fun o s' => exists r, o = Returned r /\
    storage_contract (SPutIfAbsent key value) (etcd_kvs s) r (etcd_kvs s')) s.
Proof.
  intros [u|e] s1 ->%contract_documented; [|eexists; split; [done|by left]].
  intros r s2 Hl%contract_documented. destruct r as [u'|e].
  2: { destruct Hl as [[_ ->]|[_ ->]]; eexists; (split; [done|by left]). }
  destruct Hl as [[_ ->]|[[] _]]. unfold defer. apply wp_catch.
  eapply wp_mono with (Q := fun o s' => exists r, o = Returned r /\
    storage_contract (SPutIfAbsent key value) (etcd_kvs s) r (etcd_kvs s')).
  - intros r s3 [-> Hr]%contract_documented. destruct r as [vs|e]; [|eexists; split; [done|by left]].
    subst vs. change (etcd_kvs (set_mutex _ _ s)) with (etcd_kvs s).
    destruct (etcd_kvs s !! key) as [v|] eqn:Hk.
    { eexists. split; [done|]. split; [|done]. by exists v. }
    intros r' s5 Hp%contract_documented. destruct r' as [u''|e]; eexists; (split; [done|]).
    + destruct Hp as [->|[[] _]]. by split.
    + destruct Hp as [->|[_ ->]]; [by right|by left].
  - intros o s3 (r & -> & Hr) r' s4 Hu%contract_documented.
    assert (etcd_kvs s4 = etcd_kvs s3) as Heq
      by by destruct Hu as [[_ ->]|[[_ ->]|[_ ->]]].
    exists r. by rewrite Heq.
Qed.

(** the etcd client implements the atomic storage: each of its methods keeps
    the contract of the interface over the entries of the server, when no other
    client interferes. *)
Lemma EtcdClient_implements_AtomicStorage :
  StorageSpec EtcdClient_object etcd_kvs (fun _ _ => True).
Proof.
  intros X e s. destruct e as [k|p|k v|k v|k p n|k].
  - intros r s' [-> Hr]%contract_documented. destruct r as [vs|e]; simpl.
    + rewrite Hr. destruct (etcd_kvs s !! k) eqn:Hk; eexists; (split; [done|]); by repeat split.
    + eexists. by repeat split.
  - intros r s' [-> Hr]%contract_documented. destruct r as [vs|e]; simpl; eexists; (split; [done|]); [|by repeat split].
    split; [|done]. split; [done|]. by rewrite range_values_prefix in Hr.
  - intros r s' Hr%contract_documented. eexists. split; [done|]. split; [|done].
    destruct r as [u|e], Hr as [->|[He ->]]; [done|done|by right|by left].
  - eapply wp_mono; [apply wp_PutIfAbsent|]. intros o s' (r & -> & Hr). eauto.
  - intros r s' Hr%contract_documented. apply (txn_contract 0 k p n) in Hr as [Hr _]. by exists r.
  - intros r s' Hr%contract_documented. eexists. split; [done|]. split; [|done].
    destruct r as [u|e], Hr as [->|[He ->]]; [done|done|by right|by left].
Qed.
End etcd.
