(* ===== verification/EtcdConcurrent.v ===== *)
(** * Concurrent etcd clients

    [EtcdClient.PutIfAbsent] reads the key and then writes it, in two requests.
    Here any number of clients interleave the requests of their methods, and
    the method is shown to act as one atomic operation on keys that are never
    written in other ways than the channel locks are: it never overwrites. *)
From S2P Require Import Prelude Prog AtomicStorage RelyGuarantee Etcd.

(** The server, and whether a client has ever written a present key of the set
    without a comparison, or deleted one. *)
Record EtcdMonitor := mkEtcdMonitor {
  monitor_etcd : EtcdState;
  monitor_overwritten : bool }.

Section clients.
Context `{!EtcdKeys, !EtcdServer} (lock_keys : string -> bool).

Definition overwrites {X} (e : EtcdE X) (s : EtcdState) : bool :=
  match e with
  | EtcdPut k _ => lock_keys k && bool_decide (is_Some (etcd_kvs s !! k))
  | EtcdDelete k => lock_keys k
  | _ => false
  end.

(** A mutex that is held stays held, and its absent key stays absent. *)
Definition mutex_respected (u : nat) (s s' : EtcdState) : Prop :=
  forall k, etcd_mutex s k = Some u ->
  etcd_mutex s' k = Some u /\
  (lock_keys k = true -> etcd_kvs s !! k = None -> etcd_kvs s' !! k = None).

Definition monitor_ok (s : EtcdMonitor) : Prop := monitor_overwritten s = false.

Definition client_guarantee (t : nat) (s s' : EtcdMonitor) : Prop :=
  (monitor_ok s -> monitor_ok s') /\
  forall u, u <> t -> mutex_respected u (monitor_etcd s) (monitor_etcd s').

#[export] Instance clients_rely_guarantee : RelyGuarantee EtcdE EtcdMonitor := {|
  thread_step t X e s x s' :=
    etcd_serve t X e (monitor_etcd s) x (monitor_etcd s') /\
    monitor_overwritten s' = monitor_overwritten s || overwrites e (monitor_etcd s);
  stop_step t s s' :=
    s' = mkEtcdMonitor (release_mutexes t (monitor_etcd s)) (monitor_overwritten s);
  env_step s s' := False;
  Inv := monitor_ok;
  Rely t s s' := (monitor_ok s -> monitor_ok s') /\
    mutex_respected t (monitor_etcd s) (monitor_etcd s');
  Guar t X e s x s' := client_guarantee t s s' |}.

#[export] Instance clients_laws : RelyGuaranteeLaws EtcdE EtcdMonitor.
Proof.
  split; simpl.
  - intros t s. split; [done|]. by intros k Hk.
  - intros t s1 s2 s3 [I1 M1] [I2 M2]. split; [auto|]. intros k Hk.
    destruct (M1 k Hk) as [Hk2 N1]. destruct (M2 k Hk2) as [Hk3 N2]. auto.
  - by intros t s s' [].
  - by intros t X e s x s' [].
  - intros t u X e s x s' Htu [Hi Hm]. split; auto.
  - by intros t s s' ->.
  - intros t u s s' Htu ->. split; [done|]. intros k Hk. simpl.
    rewrite decide_False by congruence. by split.
  - done.
Qed.

(** The methods a client may call on the keys of the set. *)
Inductive client_call : forall X, prog EtcdE X -> Prop :=
| call_get k : client_call _ (EtcdClient_Get k)
| call_list p : client_call _ (EtcdClient_GetByKeyPrefix p)
| call_put k v : lock_keys k = false -> client_call _ (EtcdClient_Put k v)
| call_delete k : lock_keys k = false -> client_call _ (EtcdClient_Delete k)
| call_swap k p n : client_call _ (EtcdClient_CompareAndSwap k p n)
| call_put_if_absent k v : client_call _ (EtcdClient_PutIfAbsent k v).
Arguments client_call {X} _.

(** A client: any sequence of calls. *)
Inductive client : prog EtcdE unit -> Prop :=
| client_ends : client (Ret tt)
| client_calls X (p : prog EtcdE X) k :
    client_call p -> (forall x, client (k x)) -> client (bind p k).

(** ** The guarantee of a call *)

Context `{!EtcdServerLaws}.

Definition documented_step (t : nat) {X} (e : EtcdE X) (s : EtcdMonitor) (x : X)
    (s' : EtcdMonitor) : Prop :=
  etcd_step t e (monitor_etcd s) x (monitor_etcd s') /\
  monitor_overwritten s' = monitor_overwritten s || overwrites e (monitor_etcd s).

Lemma step_documented t {X} (e : EtcdE X) s x s' :
  thread_step t e s x s' -> documented_step t e s x s'.
Proof. intros [Hs Ho]. split; [by apply serve_documented|done]. Qed.

Definition any_outcome {A} (_ : outcome A) (_ : EtcdMonitor) : Prop := True.

Lemma guar_same_keys t s s' :
  monitor_overwritten s' = monitor_overwritten s || false ->
  etcd_mutex (monitor_etcd s') = etcd_mutex (monitor_etcd s) ->
  (forall k, lock_keys k = true -> etcd_kvs (monitor_etcd s) !! k = None ->
     etcd_kvs (monitor_etcd s') !! k = None) ->
  client_guarantee t s s'.
Proof.
  intros Ho Hm Hk. split; [unfold monitor_ok; by rewrite Ho, orb_false_r|].
  intros u _ k Hu. rewrite Hm. auto.
Qed.

Lemma rg_one_request {X A} t (e : EtcdE X) (k : X -> prog EtcdE A) s :
  (forall s x s', documented_step t e s x s' -> client_guarantee t s s') ->
  (forall x, exists a, k x = Ret a) ->
  rg t (Vis e k) any_outcome s.
Proof.
  intros Hg Hk s' x s'' _ _ Hs%step_documented. split; [by eapply Hg|]. by destruct (Hk x) as [a ->].
Qed.

Lemma guar_read_request {X} t (e : EtcdE X) s x s' :
  overwrites e (monitor_etcd s) = false ->
  documented_step t e s x s' -> monitor_etcd s' = monitor_etcd s -> client_guarantee t s s'.
Proof.
  intros He [_ Ho] Heq. rewrite He in Ho. apply guar_same_keys; [done|by rewrite Heq|].
  by rewrite Heq.
Qed.

Lemma guar_write_other t s k m s' v :
  lock_keys k = false -> monitor_overwritten s' = monitor_overwritten s || false ->
  monitor_etcd s' = set_kvs m (monitor_etcd s) \/ monitor_etcd s' = monitor_etcd s ->
  m = <[k:=v]> (etcd_kvs (monitor_etcd s)) \/ m = delete k (etcd_kvs (monitor_etcd s)) ->
  client_guarantee t s s'.
Proof.
  intros Hk Ho Hs Hm. apply guar_same_keys; [done|by destruct Hs as [->| ->]|].
  intros k' Hk' Hnone. destruct Hs as [->| ->]; [|done]. simpl.
  assert (k <> k') by congruence.
  destruct Hm as [->| ->]; [by rewrite lookup_insert_ne|by rewrite lookup_delete_ne].
Qed.

Lemma rg_swap t k p n s : rg t (EtcdClient_CompareAndSwap k p n) any_outcome s.
Proof.
  apply rg_one_request; [|by eexists]. intros s1 x s2 [He Ho]. cbn [overwrites] in Ho.
  apply (txn_contract t k p n) in He as [Hc Heq].
  apply guar_same_keys; [done|by rewrite Heq|]. intros k' _ Hnone.
  assert (etcd_kvs (monitor_etcd s2) = etcd_kvs (monitor_etcd s1) \/
    (etcd_kvs (monitor_etcd s1) !! k = Some p /\
     etcd_kvs (monitor_etcd s2) = <[k:=n]> (etcd_kvs (monitor_etcd s1)))) as [->|[Hp ->]].
  { destruct x as [[|]|e]; simpl in Hc; [by right|left; apply Hc|done]. }
  - done.
  - rewrite lookup_insert_ne; [done|]. intros ->. congruence.
Qed.

(** Taking and releasing a mutex. *)
Lemma guar_mutex_lock t k s x s' :
  documented_step t (EtcdMutexLock k) s x s' -> client_guarantee t s s'.
Proof.
  intros [Hl Ho]. cbn [overwrites] in Ho.
  destruct Hl as [[Hfree Heq]|[_ Heq]]; [|by eapply guar_same_keys; rewrite ?Heq].
  split; [unfold monitor_ok; by rewrite Ho, orb_false_r|]. intros u Hu k' Hk'.
  rewrite Heq. simpl. rewrite decide_False by (intros ->; congruence). done.
Qed.

Lemma guar_mutex_unlock t k s x s' :
  documented_step t (EtcdMutexUnlock k) s x s' -> client_guarantee t s s'.
Proof.
  intros [Hl Ho]. cbn [overwrites] in Ho.
  destruct Hl as [[Hheld Heq]|[[_ Heq]|[_ Heq]]];
    [|by eapply guar_same_keys; rewrite ?Heq..].
  split; [unfold monitor_ok; by rewrite Ho, orb_false_r|]. intros u Hu k' Hk'.
  rewrite Heq. simpl. rewrite decide_False by (intros ->; congruence). done.
Qed.

(** The client holds the mutex of the key. *)
Definition holds (t : nat) (k : string) (s : EtcdMonitor) : Prop :=
  etcd_mutex (monitor_etcd s) k = Some t.

Definition absent (k : string) (s : EtcdMonitor) : Prop :=
  etcd_kvs (monitor_etcd s) !! k = None.

Lemma rg_unlock {A} t k (o : outcome A) s :
  rg t (let! _ := trigger (EtcdMutexUnlock k) in resume o) any_outcome s.
Proof.
  intros s' x s'' _ _ Hs%step_documented. split; [by eapply guar_mutex_unlock|].
  by destruct o.
Qed.

(** The write of [PutIfAbsent]: the key is absent and nobody else can create
    it. *)
Lemma guar_guarded_put t k v s x s' :
  holds t k s -> (lock_keys k = true -> absent k s) ->
  documented_step t (EtcdPut k v) s x s' -> client_guarantee t s s'.
Proof.
  intros Hh Ha [He Ho]. cbn [overwrites] in Ho.
  assert (lock_keys k && bool_decide (is_Some (etcd_kvs (monitor_etcd s) !! k)) = false) as Hb.
  { destruct (lock_keys k); [|done]. simpl. rewrite (Ha eq_refl).
    apply bool_decide_eq_false. by intros [? [=]]. }
  rewrite Hb in Ho. destruct He as [Heq|[_ Heq]].
  - split; [unfold monitor_ok; by rewrite Ho, orb_false_r|]. intros u Hu k' Hk'.
    rewrite Heq. simpl. split; [done|]. intros _ Hnone.
    assert (k <> k') by (unfold holds in Hh; congruence). by rewrite lookup_insert_ne.
  - by eapply guar_same_keys; rewrite ?Heq.
Qed.

Lemma holds_rely t k s s' : Rely t s s' -> holds t k s -> holds t k s'.
Proof. intros [_ Hm] Hh. by apply Hm. Qed.

Lemma absent_rely t k s s' :
  Rely t s s' -> holds t k s -> (lock_keys k = true -> absent k s) ->
  lock_keys k = true -> absent k s'.
Proof. intros [_ Hm] Hh Ha Hk. by apply Hm; [| |apply Ha]. Qed.

(** The critical section of [PutIfAbsent]. *)
Lemma rg_critical t k v s :
  holds t k s ->
  rg t (try! kvs := trigger (EtcdGet k) in
        if negb (bool_decide (length kvs = 0)) then Ret (Ok false)
        else try! _ := trigger (EtcdPut k v) in Ret (Ok true)) any_outcome s.
Proof.
  intros Hh s1 x s2 Hr1 _ Hs%step_documented. pose proof Hs as [[Heq Hx] _].
  split; [by eapply guar_read_request; [|exact Hs|]|].
  destruct x as [vs|e]; [|done].
  assert (holds t k s2) as Hh2.
  { unfold holds. rewrite Heq. by apply (holds_rely t k s s1 Hr1). }
  cbn [bind]. case_bool_decide as Hlen; [|done]. cbn [negb].
  assert (absent k s2) as Ha.
  { unfold absent. rewrite Heq. subst vs.
    by destruct (etcd_kvs (monitor_etcd s1) !! k). }
  intros s3 x s4 Hr3 _ Hs4%step_documented. split; [|by destruct x].
  eapply guar_guarded_put; [by eapply holds_rely|by eapply absent_rely|done].
Qed.

Lemma rg_put_if_absent t k v s :
  monitor_ok s -> rg t (EtcdClient_PutIfAbsent k v) any_outcome s.
Proof.
  intros Hi s1 x s2 _ _ Hs%step_documented. pose proof Hs as [Heq _].
  split; [by eapply guar_read_request; [|exact Hs|]|]. destruct x as [u|e]; [|done].
  intros s3 x s4 _ Hi3 Hs4%step_documented. pose proof (guar_mutex_lock _ _ _ _ _ Hs4) as Hg.
  split; [done|]. destruct x as [u'|e]; [|done].
  apply rg_catch; [|by apply Hg].
  eapply rg_mono; [apply rg_critical|intros o s5 _ _; apply rg_unlock].
  destruct Hs4 as [[[_ Heq4]|[[] _]] _]. unfold holds. rewrite Heq4. simpl.
  by rewrite decide_True.
Qed.

Lemma rg_client_call {X} t (p : prog EtcdE X) s :
  monitor_ok s -> client_call p -> rg t p any_outcome s.
Proof.
  intros Hi Hp. destruct Hp as [k|p|k v Hk|k Hk|k p n|k v].
  - apply rg_one_request; [|by intros [[|]|]; eexists]. intros s1 x s2 Hs.
    pose proof Hs as [[Heq _] _]. by eapply guar_read_request; [|exact Hs|].
  - apply rg_one_request; [|by intros [|]; eexists]. intros s1 x s2 Hs.
    pose proof Hs as [[Heq _] _]. by eapply guar_read_request; [|exact Hs|].
  - apply rg_one_request; [|by eexists]. intros s1 x s2 [He Ho].
    cbn [overwrites] in Ho. rewrite Hk in Ho.
    eapply guar_write_other; [done..| |by left]. destruct He as [->|[_ ->]]; auto.
  - apply rg_one_request; [|by eexists]. intros s1 x s2 [He Ho].
    cbn [overwrites] in Ho. rewrite Hk in Ho.
    eapply guar_write_other with (v := EmptyString); [done..| |by right].
    destruct He as [->|[_ ->]]; auto.
  - apply rg_swap.
  - by apply rg_put_if_absent.
Qed.

Lemma clients_verified : verified client.
Proof.
  intros p t s Hp. revert s. induction Hp as [|X p k Hp Hk IH]; intros s Hi; [done|].
  apply rg_bind; [|done]. eapply rg_mono; [by apply rg_client_call|].
  intros [a|m] s' Hi' _; [by apply IH|done].
Qed.
End clients.

(** No interleaving of etcd clients, crashes included, overwrites a lock entry: as long as the
    keys of the locks are only read, compared-and-swapped and put-if-absent,
    every unconditional write that [PutIfAbsent] makes of such a key finds it
    absent, although the read and the write are two requests. *)
Lemma put_if_absent_never_overwrites `{!EtcdKeys, !EtcdServer, !EtcdServerLaws} (lock_keys : string -> bool)
    (s0 : EtcdState) c :
  rtc (pool_step (S := EtcdMonitor) (RelyGuarantee0 := clients_rely_guarantee lock_keys)
         (client lock_keys)) ([], mkEtcdMonitor s0 false) c ->
  monitor_overwritten c.2 = false.
Proof.
  intros Hr.
  refine (proj1 (pool_reachable_ok (client lock_keys) _ _ _ Hr _));
    [by apply clients_verified|by apply pool_ok_nil].
Qed.
