(* ===== verification/Lock.v ===== *)
(** * Channel locks

    [escrow/lock.go]: locks kept as values of an atomic storage. *)
From S2P Require Import Prelude Prog AtomicStorage.
Import AtomicStorage.

(** ** The interfaces [Lock] and [Locker] *)

Record Lock (E : Type -> Type) := mkLock { Lock_Unlock : prog E (result unit) }.
Arguments Lock_Unlock {E} _.

(** [Lock(name)] returns [(lock, ok, err)]: no lock when [ok] is false. *)
Record Locker (E : Type -> Type) := mkLocker {
  Locker_Lock : string -> prog E (result (option (Lock E))) }.
Arguments Locker_Lock {E} _ _.

(** ** [etcdLocker] *)

Definition locker_prefix : string := "/payment-channel/lock".

Definition NewLockerStorage {E} (storage : AtomicStorage E) : PrefixedAtomicStorage E :=
  mkPrefixedAtomicStorage E storage locker_prefix.

Definition locked : string := "locked".
Definition unlocked : string := "unlocked".

Record etcdLocker (E : Type -> Type) := mkEtcdLocker {
  etcdLocker_storage : AtomicStorage E }.
Arguments etcdLocker_storage {E} _.

(** A lock that is not held any more is only reported in the log. *)
Definition lockType_Unlock {E} (locker : etcdLocker E) (name : string)
  : prog E (result unit) :=
  try! ok := CompareAndSwap (etcdLocker_storage locker) name locked unlocked in
  Ret (Ok tt).

Definition lockType {E} (locker : etcdLocker E) (name : string) : Lock E :=
  mkLock E (lockType_Unlock locker name).

Definition etcdLocker_Lock {E} (locker : etcdLocker E) (name : string)
  : prog E (result (option (Lock E))) :=
  try! value := Get (etcdLocker_storage locker) name in
  let finish (ok : bool) : prog E (result (option (Lock E))) :=
    if ok then Ret (Ok (Some (lockType locker name))) else Ret (Ok None) in
  match value with
  | Some value =>
      if decide (value = locked) then Ret (Ok None)
      else
        try! ok := CompareAndSwap (etcdLocker_storage locker) name unlocked locked in
        finish ok
  | None =>
      try! ok := PutIfAbsent (etcdLocker_storage locker) name locked in
      finish ok
  end.

Definition NewEtcdLocker {E} (storage : AtomicStorage E) : Locker E :=
  mkLocker E (etcdLocker_Lock
    (mkEtcdLocker E (PrefixedAtomicStorage_object (NewLockerStorage storage)))).

(** ** Sequential behaviour

    [status] values other than the two constants do not occur: nothing else
    is written under the lock prefix. *)
Definition lock_status_ok (m : gmap string string) (name : string) : Prop :=
  m !! name = None \/ m !! name = Some locked \/ m !! name = Some unlocked.

Section lock_spec.
Context {E W} `{!Contract E W} {storage : AtomicStorage E}
  {contents : W -> gmap string string} {frame : W -> W -> Prop}
  `{!StorageSpec storage contents frame} `{!Transitive frame}.

(** What taking a lock does to the storage. *)
Definition lock_post (name : string) (w : W) (o : outcome (result (option (Lock E))))
    (w' : W) : Prop :=
  frame w w' /\
  match o with
  | Returned (Ok (Some l)) =>
      l = lockType (mkEtcdLocker E storage) name /\
      contents w !! name <> Some locked /\ contents w' = <[name:=locked]> (contents w)
  | Returned (Ok None) =>
      contents w !! name = Some locked /\ contents w' = contents w
  | Returned (Err _) =>
      contents w' = contents w \/
      (contents w !! name <> Some locked /\ contents w' = <[name:=locked]> (contents w))
  | Panicked _ => False
  end.

Lemma etcdLocker_Lock_spec name w :
  lock_status_ok (contents w) name ->
  wp (etcdLocker_Lock (mkEtcdLocker E storage) name) (lock_post name w) w.
Proof.
  intros Hstatus. unfold etcdLocker_Lock. apply wp_bind.
  apply (wp_storage (SGet name)). intros [[v|]|e] w1 [Hw1 Hv] Hf; simpl.
  - case_decide as Hl; [subst; split; [done|]; simpl; rewrite Hw1; auto|].
    apply wp_bind. apply (wp_storage (SCompareAndSwap name unlocked locked)).
    intros [[|]|e] w2 Hc Hf2; simpl in *; rewrite Hw1 in Hc;
      (split; [by etrans|]); simpl.
    + destruct Hc as [Hk ->]. rewrite Hk. done.
    + destruct Hc as [Hk _]. exfalso. destruct Hstatus as [?|[?|?]]; congruence.
    + destruct Hc as [->|[Hk ->]]; [by left|right]. rewrite Hk. done.
  - apply wp_bind. apply (wp_storage (SPutIfAbsent name locked)).
    intros [[|]|e] w2 Hc Hf2; simpl in *; rewrite Hw1 in Hc;
      (split; [by etrans|]); simpl.
    + destruct Hc as [Hk ->]. rewrite Hk. done.
    + destruct Hc as [[? Hk] _]. congruence.
    + destruct Hc as [->|[Hk ->]]; [by left|right]. rewrite Hk. done.
  - split; [done|]. auto.
Qed.

(** Releasing a held lock. *)
Lemma lockType_Unlock_spec name w :
  wp (lockType_Unlock (mkEtcdLocker E storage) name)
     (fun o w' => frame w w' /\
        match o with
        | Returned (Ok _) =>
            contents w' = (if decide (contents w !! name = Some locked)
                           then <[name:=unlocked]> (contents w) else contents w)
        | Returned (Err _) =>
            contents w' = contents w \/
            (contents w !! name = Some locked /\
             contents w' = <[name:=unlocked]> (contents w))
        | Panicked _ => False
        end) w.
Proof.
  unfold lockType_Unlock. apply wp_bind.
  apply (wp_storage (SCompareAndSwap name locked unlocked)).
  intros [[|]|e] w2 Hc Hf; simpl in *; (split; [done|]).
  - destruct Hc as [Hk ->]. by rewrite decide_True.
  - destruct Hc as [Hk ->]. by rewrite decide_False.
  - destruct Hc as [->|[Hk ->]]; auto.
Qed.
End lock_spec.
