(* ===== verification/Blockchain.v ===== *)
(** * The blockchain package

    [blockchain/utils.go], [blockchain/escrow.go], [blockchain/blockchain.go]
    and [blockchain/serviceMetadata.go]: signature parsing and text encodings,
    the processor that reads the MultiPartyEscrow contract, and the service
    metadata. *)
From Stdlib Require Import Ascii.
From S2P Require Import Prelude Prog Bytes.
Local Open Scope Z_scope.

(** ** [utils.go] *)

(** [ParseSignature]: [(v, r, s, err)]. *)
Definition ParseSignature (jobSignatureBytes : bytes) : result (Z * bytes32 * bytes32) :=
  if bool_decide (length jobSignatureBytes <> 65%nat)
  then Err (ErrorString "job signature incorrect length")
  else
    let v := byte_val (default Byte.x00 (jobSignatureBytes !! 64%nat)) mod 27 + 27 in
    let r := copy_array 32 (take 32 jobSignatureBytes) in
    let s := copy_array 32 (drop 32 (take 64 jobSignatureBytes)) in
    Ok (v, r, s).

Definition AddressToHex `{!GoEthereum} (address : Address) : string := Address_Hex address.

Definition HexToBytes `{!GoEthereum} (str : string) : bytes := FromHex str.

(** [derivePrivateKey] over [go-bip39] and [hdkeychain]: the seed of a mnemonic,
    the extended key of a seed, its children and the key it carries. *)
Section derive.
Context {ExtendedKey PrivateKey : Type}.
Context (NewSeed : string -> string -> bytes) (NewMaster : bytes -> result ExtendedKey)
  (Child : ExtendedKey -> Z -> result ExtendedKey)
  (ECPrivKey : ExtendedKey -> result PrivateKey).

Definition HardenedKeyStart : Z := 2147483648.

(** The index of the child at position [i] of the path, in 32 bits. *)
Definition child_index (i : nat) (childIndex : Z) : Z :=
  if (i <? 3)%nat then (childIndex + HardenedKeyStart) mod 2 ^ 32 else childIndex.

Fixpoint derive_path (i : nat) (curr : ExtendedKey) (path : list Z) : result ExtendedKey :=
  match path with
  | [] => Ok curr
  | childIndex :: path =>
      match Child curr (child_index i childIndex) with
      | Err err => Err err
      | Ok curr => derive_path (S i) curr path
      end
  end.

Definition derivePrivateKey (mnemonic : string) (path : list Z) : result PrivateKey :=
  let seed := NewSeed mnemonic "" in
  match NewMaster seed with
  | Err err => Err err
  | Ok curr =>
      match derive_path 0 curr path with
      | Err err => Err err
      | Ok curr => ECPrivKey curr
      end
  end.

(** The first three indices of a path are hardened as they should when they
    are below the offset; one that has the offset already loses it. *)
Lemma child_index_hardened i c :
  (i < 3)%nat -> 0 <= c < HardenedKeyStart ->
  child_index i c = c + HardenedKeyStart /\ child_index i (c + HardenedKeyStart) = c.
Proof.
  unfold child_index, HardenedKeyStart. intros Hi Hc. apply Nat.ltb_lt in Hi as ->.
  change (2 ^ 32) with 4294967296. split.
  - apply Z.mod_small. lia.
  - replace (c + 2147483648 + 2147483648) with (c + 1 * 4294967296) by lia.
    rewrite Z.mod_add by lia. apply Z.mod_small. lia.
Qed.

Lemma derive_path_app i curr p q :
  derive_path i curr (p ++ q) =
    match derive_path i curr p with
    | Err err => Err err
    | Ok curr => derive_path (i + length p) curr q
    end.
Proof.
  revert i curr. induction p as [|c p IH]; intros i curr; cbn [derive_path app length].
  - by rewrite Nat.add_0_r.
  - destruct (Child curr (child_index i c)) as [curr'|err]; [|done].
    rewrite IH, Nat.add_succ_r. done.
Qed.
End derive.

Definition StringToBytes32 (str : string) : bytes32 := copy_array 32 (bytes_of_string str).

(** The characters the pattern [[^a-zA-Z0-9=]] keeps. *)
Definition hash_char (c : ascii) : bool :=
  let n := Z.of_nat (nat_of_ascii c) in
  bool_decide (97 <= n <= 122) || bool_decide (65 <= n <= 90)
  || bool_decide (48 <= n <= 57) || bool_decide (n = 61).

Fixpoint RemoveSpecialCharactersfromHash (pString : string) : string :=
  match pString with
  | EmptyString => EmptyString
  | String c s =>
      if hash_char c then String c (RemoveSpecialCharactersfromHash s)
      else RemoveSpecialCharactersfromHash s
  end.

Definition IpfsPrefix : string := "ipfs://".

(** [strings.Replace(s, old, "", -1)] for a nonempty [old]: removes the
    non-overlapping occurrences from the left. [skip] counts the characters
    of the occurrence being removed. *)
Fixpoint remove_all (old : string) (skip : nat) (s : string) : string :=
  match s with
  | EmptyString => EmptyString
  | String c rest =>
      match skip with
      | S skip => remove_all old skip rest
      | O => if String.prefix old s
             then remove_all old (Nat.pred (String.length old)) rest
             else String c (remove_all old 0 rest)
      end
  end.

Definition FormatHash (ipfsHash : string) : string :=
  RemoveSpecialCharactersfromHash (remove_all IpfsPrefix 0 ipfsHash).

(** *** Base64 ([base64.StdEncoding]) *)

Definition base64_char (v : Z) : ascii :=
  ascii_of_nat (Z.to_nat
    (if v <? 26 then 65 + v else if v <? 52 then 97 + (v - 26)
     else if v <? 62 then 48 + (v - 52) else if v =? 62 then 43 else 47)).

Definition base64_value (c : ascii) : option Z :=
  let n := Z.of_nat (nat_of_ascii c) in
  if bool_decide (65 <= n <= 90) then Some (n - 65)
  else if bool_decide (97 <= n <= 122) then Some (n - 97 + 26)
  else if bool_decide (48 <= n <= 57) then Some (n - 48 + 52)
  else if bool_decide (n = 43) then Some 62
  else if bool_decide (n = 47) then Some 63
  else None.

Definition base64_pad : ascii := "="%char.

Fixpoint base64_encode (l : bytes) : string :=
  match l with
  | [] => EmptyString
  | [a] =>
      let n := byte_val a * 16 in
      String (base64_char (n / 64)) (String (base64_char (n mod 64))
        (String base64_pad (String base64_pad EmptyString)))
  | [a; b] =>
      let n := (byte_val a * 256 + byte_val b) * 4 in
      String (base64_char (n / 4096)) (String (base64_char (n / 64 mod 64))
        (String (base64_char (n mod 64)) (String base64_pad EmptyString)))
  | a :: b :: c :: l =>
      let n := (byte_val a * 256 + byte_val b) * 256 + byte_val c in
      String (base64_char (n / 262144)) (String (base64_char (n / 4096 mod 64))
        (String (base64_char (n / 64 mod 64)) (String (base64_char (n mod 64))
          (base64_encode l))))
  end.

(** The four-character groups, the line breaks already removed. *)
Fixpoint base64_groups (s : string) : option bytes :=
  match s with
  | EmptyString => Some []
  | String c1 (String c2 (String c3 (String c4 rest))) =>
      v1 ← base64_value c1; v2 ← base64_value c2;
      if decide (c4 = base64_pad) then
        if decide (rest = EmptyString) then
          if decide (c3 = base64_pad) then Some [byte_of ((v1 * 64 + v2) / 16)]
          else
            v3 ← base64_value c3;
            let n := ((v1 * 64 + v2) * 64 + v3) / 4 in
            Some [byte_of (n / 256); byte_of n]
        else None
      else
        v3 ← base64_value c3; v4 ← base64_value c4;
        let n := ((v1 * 64 + v2) * 64 + v3) * 64 + v4 in
        l ← base64_groups rest;
        Some (byte_of (n / 65536) :: byte_of (n / 256) :: byte_of n :: l)
  | _ => None
  end.

Fixpoint remove_newlines (s : string) : string :=
  match s with
  | EmptyString => EmptyString
  | String c s =>
      if decide (c = ascii_of_nat 10 \/ c = ascii_of_nat 13) then remove_newlines s
      else String c (remove_newlines s)
  end.

Definition base64_decode (s : string) : option bytes := base64_groups (remove_newlines s).

Definition BytesToBase64 (l : bytes) : string := base64_encode l.

(** [ConvertBase64Encoding]: the array is zero when the text is not base64. *)
Definition ConvertBase64Encoding (str : string) : bytes32 * option error :=
  match base64_decode str with
  | None => (zero_array 32, Some (ErrorString "illegal base64 data"))
  | Some data => (copy_array 32 data, None)
  end.

(** ** [escrow.go] and [blockchain.go] *)

Module MultiPartyEscrowChannel.
Record MultiPartyEscrowChannel := mk {
  Sender : Address;
  Recipient : Address;
  GroupId : bytes32;
  Value : Z;
  Nonce : Z;
  Expiration : Z;
  Signer : Address }.
End MultiPartyEscrowChannel.
Import MultiPartyEscrowChannel (MultiPartyEscrowChannel).

(** The fields of [Processor] that the payment code uses: the generated
    binding of the contract's [channels] map and the raw RPC call
    [eth_blockNumber] are operations of the world. *)
Record Processor (E : Type -> Type) := mkProcessor {
  Processor_enabled : bool;
  Processor_escrowContractAddress : Address;
  Processor_Channels : Z -> prog E (result MultiPartyEscrowChannel);
  Processor_CallBlockNumber : prog E (result string) }.
Arguments Processor_enabled {E} _.
Arguments Processor_escrowContractAddress {E} _.
Arguments Processor_Channels {E} _ _.
Arguments Processor_CallBlockNumber {E} _.

Arguments mkProcessor {E} _ _ _ _.

(** [ethereumClient.go]: the raw RPC client, by the one call the daemon makes
    of it. *)
Record EthereumClient (E : Type -> Type) := mkEthereumClient {
  RawClient_CallBlockNumber : prog E (result string) }.
Arguments RawClient_CallBlockNumber {E} _.
Arguments mkEthereumClient {E} _.

(** [Dial] is [rpc.Dial] on the configured endpoint. *)
Definition GetEthereumClient {E} (Dial : prog E (result (EthereumClient E)))
  : prog E (result (EthereumClient E)) :=
  let! r := Dial in
  match r with
  | Err err => Ret (Err (Wrap err "error creating RPC client"))
  | Ok client => Ret (Ok client)
  end.

(** [enabled] is the configuration value [blockchain_enabled] and
    [NewMultiPartyEscrow] the constructor of the generated contract binding,
    by its [Channels] method. The processor is returned with an error too. *)
Definition NewProcessor {E} (enabled : bool) (Dial : prog E (result (EthereumClient E)))
    (NewMultiPartyEscrow : Address -> EthereumClient E ->
       result (Z -> prog E (result MultiPartyEscrowChannel)))
    (mpeAddress : Address) : prog E (Processor E * option error) :=
  let nil_channels := fun _ : Z => Panic nil_dereference in
  let p := mkProcessor enabled (zero_array 20) nil_channels (Panic nil_dereference) in
  if negb enabled then Ret (p, None)
  else
    let! ethclients := GetEthereumClient Dial in
    match ethclients with
    | Err err => Ret (p, Some (Wrap err "error creating RPC client"))
    | Ok client =>
        match NewMultiPartyEscrow mpeAddress client with
        | Err err =>
            Ret (mkProcessor enabled mpeAddress nil_channels
                   (RawClient_CallBlockNumber client),
                 Some (Wrap err "error instantiating MultiPartyEscrow contract"))
        | Ok channels =>
            Ret (mkProcessor enabled mpeAddress channels
                   (RawClient_CallBlockNumber client), None)
        end
    end.

Definition EscrowContractAddress {E} (processor : Processor E) : Address :=
  Processor_escrowContractAddress processor.

(** [MultiPartyEscrow]: the binding of the contract, by its one method. *)
Definition Processor_MultiPartyEscrow {E} (processor : Processor E)
  : Z -> prog E (result MultiPartyEscrowChannel) :=
  Processor_Channels processor.

Definition zeroAddress : Address := zero_array 20.

Definition Processor_MultiPartyEscrowChannel {E} (processor : Processor E) (channelID : Z)
  : prog E (result (option MultiPartyEscrowChannel)) :=
  try! ch := Processor_Channels processor channelID in
  if decide (MultiPartyEscrowChannel.Sender ch = zeroAddress) then Ret (Ok None)
  else
    Ret (Ok (Some (MultiPartyEscrowChannel.mk
      (MultiPartyEscrowChannel.Sender ch) (MultiPartyEscrowChannel.Recipient ch)
      (MultiPartyEscrowChannel.GroupId ch) (MultiPartyEscrowChannel.Value ch)
      (MultiPartyEscrowChannel.Nonce ch) (MultiPartyEscrowChannel.Expiration ch)
      (MultiPartyEscrowChannel.Signer ch)))).

Definition Processor_CurrentBlock `{!GoEthereum} {E} (processor : Processor E)
  : prog E (result Z) :=
  let! r := Processor_CallBlockNumber processor in
  match r with
  | Err err => Ret (Err (Errorf "error determining current block: %v" [Error err]))
  | Ok currentBlockHex => Ret (Ok (SetBytes (FromHex currentBlockHex)))
  end.

Definition HashPrefix32Bytes : bytes :=
  bytes_of_string (String (ascii_of_nat 25)
    ("Ethereum Signed Message:" +:+ String (ascii_of_nat 10) "32")).

(** ** [serviceMetadata.go] *)

Module ServiceMetadata.
Record Group := mkGroup {
  Group_GroupName : string;
  Group_GroupID : string;
  Group_PaymentAddress : string }.

Record Endpoint := mkEndpoint {
  Endpoint_GroupName : string;
  Endpoint_Endpoint : string }.

(** The JSON fields and the derived fields; the [big.Int] pointers are nil
    when the JSON text lacks them. *)
Record ServiceMetadata := mk {
  Version : Z;
  DisplayName : string;
  Encoding : string;
  ServiceType : string;
  PaymentExpirationThreshold : option Z;
  ModelIpfsHash : string;
  MpeAddress : string;
  PriceModel : string;
  PriceInCogs : option Z;
  Groups : list Group;
  Endpoints : list Endpoint;
  daemonReplicaGroupIDString : string;
  daemonReplicaGroupID : bytes32;
  daemonGroupName : string;
  daemonEndPoint : string;
  recipientPaymentAddress : Address;
  multiPartyEscrowAddress : Address }.

Definition with_daemonGroupName (name : string) (m : ServiceMetadata) : ServiceMetadata :=
  mk (Version m) (DisplayName m) (Encoding m) (ServiceType m)
    (PaymentExpirationThreshold m) (ModelIpfsHash m) (MpeAddress m) (PriceModel m)
    (PriceInCogs m) (Groups m) (Endpoints m) (daemonReplicaGroupIDString m)
    (daemonReplicaGroupID m) name (daemonEndPoint m) (recipientPaymentAddress m)
    (multiPartyEscrowAddress m).

Definition with_group (idString : string) (id : bytes32) (m : ServiceMetadata)
  : ServiceMetadata :=
  mk (Version m) (DisplayName m) (Encoding m) (ServiceType m)
    (PaymentExpirationThreshold m) (ModelIpfsHash m) (MpeAddress m) (PriceModel m)
    (PriceInCogs m) (Groups m) (Endpoints m) idString id (daemonGroupName m)
    (daemonEndPoint m) (recipientPaymentAddress m) (multiPartyEscrowAddress m).

Definition with_recipient (address : Address) (m : ServiceMetadata) : ServiceMetadata :=
  mk (Version m) (DisplayName m) (Encoding m) (ServiceType m)
    (PaymentExpirationThreshold m) (ModelIpfsHash m) (MpeAddress m) (PriceModel m)
    (PriceInCogs m) (Groups m) (Endpoints m) (daemonReplicaGroupIDString m)
    (daemonReplicaGroupID m) (daemonGroupName m) (daemonEndPoint m) address
    (multiPartyEscrowAddress m).

Definition with_mpe (address : Address) (m : ServiceMetadata) : ServiceMetadata :=
  mk (Version m) (DisplayName m) (Encoding m) (ServiceType m)
    (PaymentExpirationThreshold m) (ModelIpfsHash m) (MpeAddress m) (PriceModel m)
    (PriceInCogs m) (Groups m) (Endpoints m) (daemonReplicaGroupIDString m)
    (daemonReplicaGroupID m) (daemonGroupName m) (daemonEndPoint m)
    (recipientPaymentAddress m) address.
End ServiceMetadata.
Import ServiceMetadata (ServiceMetadata).

(** The functions that fill the derived fields update the metadata in place
    and return an error; [daemonGroup] is the configured group name. *)
Definition setMultiPartyEscrowAddress `{!GoEthereum} (metaData : ServiceMetadata)
  : ServiceMetadata :=
  ServiceMetadata.with_mpe (HexToAddress (ServiceMetadata.MpeAddress metaData)) metaData.

Definition setDaemonGroupName (daemonGroup : string) (metaData : ServiceMetadata)
  : option error * ServiceMetadata :=
  let metaData := ServiceMetadata.with_daemonGroupName daemonGroup metaData in
  if existsb (fun e => bool_decide
       (ServiceMetadata.daemonGroupName metaData = ServiceMetadata.Endpoint_GroupName e))
     (ServiceMetadata.Endpoints metaData)
  then (None, metaData)
  else (Some (Errorf
         "please set the mandatory Daemon group Name corrrectly through the config %s "
         ["daemon_group_name"]), metaData).

Definition setDaemonGroupIDAndPaymentAddress `{!GoEthereum} (metaData : ServiceMetadata)
  : option error * ServiceMetadata :=
  let groupName := ServiceMetadata.daemonGroupName metaData in
  match find (fun g => bool_decide (groupName = ServiceMetadata.Group_GroupName g))
          (ServiceMetadata.Groups metaData) with
  | Some group =>
      let '(id, err) := ConvertBase64Encoding (ServiceMetadata.Group_GroupID group) in
      let metaData :=
        ServiceMetadata.with_group (ServiceMetadata.Group_GroupID group) id metaData in
      match err with
      | Some err => (Some err, metaData)
      | None =>
          (None, ServiceMetadata.with_recipient
             (HexToAddress (ServiceMetadata.Group_PaymentAddress group)) metaData)
      end
  | None =>
      (Some (Errorf
         ("unable to determine the Daemon Group ID or the Recipient Payment Address,"
          +:+ " Daemon Group Name %s") [groupName]), metaData)
  end.

Definition setDerivedFields `{!GoEthereum} (daemonGroup : string)
    (metaData : ServiceMetadata) : option error * ServiceMetadata :=
  match setDaemonGroupName daemonGroup metaData with
  | (Some err, metaData) => (Some err, metaData)
  | (None, metaData) =>
      match setDaemonGroupIDAndPaymentAddress metaData with
      | (Some err, metaData) => (Some err, metaData)
      | (None, metaData) => (None, setMultiPartyEscrowAddress metaData)
      end
  end.

(** [unmarshal] is [json.Unmarshal] into a new [ServiceMetadata]. *)
Definition InitServiceMetaDataFromJson `{!GoEthereum}
    (unmarshal : string -> result ServiceMetadata) (daemonGroup jsonData : string)
  : result ServiceMetadata :=
  match unmarshal jsonData with
  | Err err => Err err
  | Ok metaData =>
      match setDerivedFields daemonGroup metaData with
      | (Some err, _) => Err err
      | (None, metaData) => Ok metaData
      end
  end.

Definition GetDaemonEndPoint := ServiceMetadata.daemonEndPoint.
Definition GetVersion := ServiceMetadata.Version.
Definition GetDisplayName := ServiceMetadata.DisplayName.
Definition GetMpeAddress := ServiceMetadata.multiPartyEscrowAddress.
Definition GetPaymentExpirationThreshold := ServiceMetadata.PaymentExpirationThreshold.
Definition GetPriceInCogs := ServiceMetadata.PriceInCogs.
Definition GetDaemonGroupName := ServiceMetadata.daemonGroupName.
Definition GetWireEncoding := ServiceMetadata.Encoding.
Definition GetServiceType := ServiceMetadata.ServiceType.
Definition GetDaemonGroupID := ServiceMetadata.daemonReplicaGroupID.
Definition GetDaemonGroupIDString := ServiceMetadata.daemonReplicaGroupIDString.
Definition GetPaymentAddress := ServiceMetadata.recipientPaymentAddress.

(** ** Lemmas *)

Lemma base64_value_char v : 0 <= v < 64 -> base64_value (base64_char v) = Some v.
Proof.
  intros Hv.
  assert (Forall (fun n => base64_value (base64_char (Z.of_nat n)) = Some (Z.of_nat n))
            (seq 0 64)) as H by repeat constructor.
  rewrite Forall_seq in H. specialize (H (Z.to_nat v) ltac:(lia)).
  by rewrite Z2Nat.id in H by lia.
Qed.

Lemma base64_char_ne_pad v : 0 <= v < 64 -> base64_char v <> base64_pad.
Proof. intros Hv H. pose proof (base64_value_char v Hv) as Hc. by rewrite H in Hc. Qed.

Lemma byte_of_eq z b : z mod 256 = byte_val b -> byte_of z = b.
Proof. intros H. rewrite <-(byte_of_val b). unfold byte_of.
  rewrite H, Z.mod_small; auto using byte_val_range.
Qed.

Lemma base64_groups_encode l : base64_groups (base64_encode l) = Some l.
Proof.
  revert l. fix IH 1. intros [|a [|b [|c l]]]; [done|..].
  - pose proof (byte_val_range a). cbn [base64_encode base64_groups].
    rewrite !base64_value_char by zlia. simpl.
    do 2 f_equal. apply byte_of_eq. zlia.
  - pose proof (byte_val_range a). pose proof (byte_val_range b).
    cbn [base64_encode base64_groups].
    rewrite !base64_value_char by zlia. simpl.
    rewrite decide_False by (apply base64_char_ne_pad; zlia).
    f_equal. f_equal; [|f_equal]; apply byte_of_eq; zlia.
  - pose proof (byte_val_range a). pose proof (byte_val_range b).
    pose proof (byte_val_range c). cbn [base64_encode base64_groups].
    rewrite !base64_value_char by zlia. simpl.
    rewrite decide_False by (apply base64_char_ne_pad; zlia).
    rewrite IH. simpl. repeat f_equal; apply byte_of_eq; zlia.
Qed.

Lemma base64_char_printable v :
  0 <= v < 64 -> ~ (base64_char v = ascii_of_nat 10 \/ base64_char v = ascii_of_nat 13).
Proof. intros Hv [H|H]; pose proof (base64_value_char v Hv) as Hc; by rewrite H in Hc. Qed.

Lemma remove_newlines_encode l : remove_newlines (base64_encode l) = base64_encode l.
Proof.
  revert l. fix IH 1. intros [|a [|b [|c l]]]; [done|..];
    cbn [base64_encode remove_newlines].
  - pose proof (byte_val_range a).
    rewrite !(decide_False (P := base64_char _ = _ \/ _)) by (apply base64_char_printable; zlia).
    done.
  - pose proof (byte_val_range a). pose proof (byte_val_range b).
    rewrite !(decide_False (P := base64_char _ = _ \/ _)) by (apply base64_char_printable; zlia).
    done.
  - pose proof (byte_val_range a). pose proof (byte_val_range b). pose proof (byte_val_range c).
    rewrite !(decide_False (P := base64_char _ = _ \/ _)) by (apply base64_char_printable; zlia).
    by rewrite IH.
Qed.

Lemma base64_decode_encode l : base64_decode (base64_encode l) = Some l.
Proof. unfold base64_decode. by rewrite remove_newlines_encode, base64_groups_encode. Qed.

(** the group id that the metadata publishes in base64 is read back
    exactly, and texts that are not base64 are refused. *)
Lemma group_id_roundtrip (id : bytes32) (s : string) :
  ConvertBase64Encoding (BytesToBase64 (vec_to_list id)) = (id, None) /\
  (base64_decode s = None -> exists err, ConvertBase64Encoding s = (zero_array 32, Some err)).
Proof.
  unfold ConvertBase64Encoding, BytesToBase64. rewrite base64_decode_encode, copy_array_vec.
  split; [done|]. intros ->. eauto.
Qed.

(** A signature is split into its parts [r], [s] and [v], and texts of
    another length are refused. *)
Lemma signature_parts (r s : bytes32) (v : byte) (l : bytes) :
  ParseSignature (vec_to_list r ++ vec_to_list s ++ [v])
  = Ok (byte_val v mod 27 + 27, r, s) /\
  (length l <> 65%nat -> is_err (ParseSignature l)).
Proof.
  split.
  - unfold ParseSignature.
    rewrite bool_decide_eq_false_2
      by (intros []; by rewrite !length_app, !length_vec_to_list).
    rewrite app_assoc, lookup_app_r by (rewrite length_app, !length_vec_to_list; lia).
    rewrite length_app, !length_vec_to_list. cbn [Nat.add Nat.sub lookup list_lookup default from_option].
    rewrite (take_app_length' _ _ 64) by (rewrite length_app, !length_vec_to_list; done).
    rewrite <-app_assoc, take_app_length' by (by rewrite length_vec_to_list).
    rewrite drop_app_length' by (by rewrite length_vec_to_list).
    by rewrite !copy_array_vec.
  - intros Hl. unfold ParseSignature. by rewrite bool_decide_eq_true_2.
Qed.

(** *** IPFS hashes *)

Fixpoint string_forall (P : ascii -> bool) (s : string) : bool :=
  match s with EmptyString => true | String c s => P c && string_forall P s end.

Lemma RemoveSpecial_chars s : string_forall hash_char (RemoveSpecialCharactersfromHash s) = true.
Proof.
  induction s as [|c s IH]; [done|]. simpl. destruct (hash_char c) eqn:Hc; [|done].
  simpl. by rewrite Hc, IH.
Qed.

Lemma RemoveSpecial_id s :
  string_forall hash_char s = true -> RemoveSpecialCharactersfromHash s = s.
Proof.
  induction s as [|c s IH]; [done|]. simpl. intros [Hc Hs]%andb_prop.
  by rewrite Hc, IH.
Qed.

Lemma remove_prefix_id s :
  string_forall hash_char s = true -> remove_all IpfsPrefix 0 s = s.
Proof.
  induction s as [|c s IH]; [done|]. intros Hs. pose proof Hs as [_ Hs']%andb_prop.
  cbn [remove_all]. destruct (String.prefix IpfsPrefix (String c s)) eqn:Hp; [|by rewrite IH].
  apply string_prefix_true in Hp as [t Ht]. rewrite Ht in Hs. by vm_compute in Hs.
Qed.

(** a formatted IPFS hash has letters, digits and equals signs only;
    formatting it again changes nothing, and a bare hash is the same with or
    without the [ipfs://] prefix. *)
Lemma FormatHash_normalizes (s : string) :
  string_forall hash_char (FormatHash s) = true /\
  FormatHash (FormatHash s) = FormatHash s /\
  (string_forall hash_char s = true ->
   FormatHash s = s /\ FormatHash (IpfsPrefix +:+ s) = s).
Proof.
  unfold FormatHash. split; [apply RemoveSpecial_chars|]. split.
  - rewrite remove_prefix_id by apply RemoveSpecial_chars.
    apply RemoveSpecial_id, RemoveSpecial_chars.
  - intros Hs. split; [by rewrite remove_prefix_id, RemoveSpecial_id|].
    assert (remove_all IpfsPrefix 0 (IpfsPrefix +:+ s) = remove_all IpfsPrefix 0 s) as ->;
      [|by rewrite remove_prefix_id, RemoveSpecial_id].
    change (IpfsPrefix +:+ s) with (String "i" ("pfs://" +:+ s)) at 1. cbn [remove_all].
    change (String "i" ("pfs://" +:+ s)) with (IpfsPrefix +:+ s).
    by rewrite string_prefix_app.
Qed.

(** *** Service metadata *)

(** metadata is accepted exactly when the configured group has an endpoint
    and is one of the groups, with a base64 id; the derived fields are then
    those of that group and of the contract. *)
Lemma metadata_derived_fields `{!GoEthereum} (daemonGroup : string)
    (metaData : ServiceMetadata) :
  match setDerivedFields daemonGroup metaData with
  | (None, m) =>
      GetDaemonGroupName m = daemonGroup /\
      (exists e, In e (ServiceMetadata.Endpoints metaData) /\
         ServiceMetadata.Endpoint_GroupName e = daemonGroup) /\
      (exists g id, In g (ServiceMetadata.Groups metaData) /\
         ServiceMetadata.Group_GroupName g = daemonGroup /\
         base64_decode (ServiceMetadata.Group_GroupID g) = Some id /\
         GetDaemonGroupID m = copy_array 32 id /\
         GetDaemonGroupIDString m = ServiceMetadata.Group_GroupID g /\
         GetPaymentAddress m = HexToAddress (ServiceMetadata.Group_PaymentAddress g)) /\
      GetMpeAddress m = HexToAddress (ServiceMetadata.MpeAddress metaData) /\
      GetPriceInCogs m = GetPriceInCogs metaData
  | (Some _, _) =>
      (forall e, In e (ServiceMetadata.Endpoints metaData) ->
         ServiceMetadata.Endpoint_GroupName e <> daemonGroup) \/
      (forall g, In g (ServiceMetadata.Groups metaData) ->
         ServiceMetadata.Group_GroupName g <> daemonGroup) \/
      (exists g, In g (ServiceMetadata.Groups metaData) /\
         ServiceMetadata.Group_GroupName g = daemonGroup /\
         base64_decode (ServiceMetadata.Group_GroupID g) = None)
  end.
Proof.
  unfold setDerivedFields, setDaemonGroupName. cbn [ServiceMetadata.Endpoints
    ServiceMetadata.with_daemonGroupName ServiceMetadata.daemonGroupName].
  destruct (existsb _ (ServiceMetadata.Endpoints metaData)) eqn:He.
  - apply existsb_exists in He as (e & Hin & He%bool_decide_eq_true).
    unfold setDaemonGroupIDAndPaymentAddress. cbn [ServiceMetadata.Groups
      ServiceMetadata.with_daemonGroupName ServiceMetadata.daemonGroupName].
    destruct (find _ (ServiceMetadata.Groups metaData)) as [g|] eqn:Hg.
    + apply find_some in Hg as [Hgin Hg%bool_decide_eq_true].
      unfold ConvertBase64Encoding.
      destruct (base64_decode (ServiceMetadata.Group_GroupID g)) as [id|] eqn:Hid.
      * cbn. split; [done|]. split; [by exists e|]. split; [|done]. by exists g, id.
      * right; right. by exists g.
    + right; left. intros g Hgin Heq. apply (find_none _ _ Hg) in Hgin.
      by apply bool_decide_eq_false in Hgin.
  - left. intros e Hin Heq.
    assert (existsb (fun e => bool_decide (daemonGroup = ServiceMetadata.Endpoint_GroupName e))
              (ServiceMetadata.Endpoints metaData) = true) as Htrue.
    { apply existsb_exists. exists e. split; [done|]. by apply bool_decide_eq_true. }
    congruence.
Qed.
