(* ===== verification/PaymentChannelApi.v ===== *)
(** * The payment channel API

    [escrow/payment_channel_api.go]: payments, channels, payment errors, the
    channel updates of claims, and the interface of the payment channel
    service. *)
From S2P Require Import Prelude Prog Bytes.
Local Open Scope Z_scope.

(** ** Data *)

Module Payment.
(** [Signature] is nil when it is [None]. *)
Record Payment := mk {
  MpeContractAddress : Address;
  ChannelID : Z;
  ChannelNonce : Z;
  Amount : Z;
  Signature : option bytes }.
End Payment.
Import Payment (Payment).

Definition Payment_ID (p : Payment) : string :=
  Sprintf "%v/%v" [pretty (Payment.ChannelID p); pretty (Payment.ChannelNonce p)].

Record PaymentChannelKey := mkPaymentChannelKey { PaymentChannelKey_ID : Z }.

Definition PaymentChannelKey_String (key : PaymentChannelKey) : string :=
  Sprintf "{ID: %v}" [pretty (PaymentChannelKey_ID key)].

(** [PaymentChannelState] is an [int] with two named values. *)
Definition Open : Z := 0.
Definition Closed : Z := 1.

(** [None] is the panic of an index out of range. *)
Definition PaymentChannelState_String (state : Z) : option string :=
  if bool_decide (0 <= state < 2) then ["Open"; "Closed"] !! Z.to_nat state else None.

Module PaymentChannelData.
Record PaymentChannelData := mk {
  ChannelID : Z;
  Nonce : Z;
  State : Z;
  Sender : Address;
  Recipient : Address;
  GroupID : bytes32;
  FullAmount : Z;
  Expiration : Z;
  Signer : Address;
  AuthorizedAmount : Z;
  Signature : option bytes }.
End PaymentChannelData.
Import PaymentChannelData (PaymentChannelData).

#[export] Instance Payment_eq_dec : EqDecision Payment.
Proof. solve_decision. Defined.
#[export] Instance PaymentChannelKey_eq_dec : EqDecision PaymentChannelKey.
Proof. solve_decision. Defined.
#[export] Instance PaymentChannelData_eq_dec : EqDecision PaymentChannelData.
Proof. solve_decision. Defined.

(** ** Payment errors: [PaymentErrorCode] is an [int] with four named values. *)

Definition Internal : Z := 1.
Definition Unauthenticated : Z := 2.
Definition FailedPrecondition : Z := 3.
Definition IncorrectNonce : Z := 4.

Definition NewPaymentError (code : Z) (format : string) (msg : list string) : error :=
  ErrorPayment (mkPaymentError code (Sprintf format msg)).

(** ** Channel updates *)

Definition ChannelUpdate : Type := PaymentChannelData -> PaymentChannelData.

Definition CloseChannel : ChannelUpdate := fun channel =>
  PaymentChannelData.mk (PaymentChannelData.ChannelID channel)
    (PaymentChannelData.Nonce channel) (PaymentChannelData.State channel)
    (PaymentChannelData.Sender channel) (PaymentChannelData.Recipient channel)
    (PaymentChannelData.GroupID channel) 0 (PaymentChannelData.Expiration channel)
    (PaymentChannelData.Signer channel) (PaymentChannelData.AuthorizedAmount channel)
    (PaymentChannelData.Signature channel).

Definition IncrementChannelNonce : ChannelUpdate := fun channel =>
  PaymentChannelData.mk (PaymentChannelData.ChannelID channel)
    (PaymentChannelData.Nonce channel + 1) (PaymentChannelData.State channel)
    (PaymentChannelData.Sender channel) (PaymentChannelData.Recipient channel)
    (PaymentChannelData.GroupID channel)
    (PaymentChannelData.FullAmount channel - PaymentChannelData.AuthorizedAmount channel)
    (PaymentChannelData.Expiration channel) (PaymentChannelData.Signer channel)
    0 None.

(** ** The interfaces *)

Module PaymentTransaction.
Record PaymentTransaction (E : Type -> Type) := mk {
  Channel : PaymentChannelData;
  Commit : prog E (result unit);
  Rollback : prog E (result unit) }.
Arguments Channel {E} _.
Arguments Commit {E} _.
Arguments Rollback {E} _.
End PaymentTransaction.
Import PaymentTransaction (PaymentTransaction).

Module Claim.
Record Claim (E : Type -> Type) := mk {
  claim_Payment : Payment;
  Finish : prog E (result unit) }.
Arguments claim_Payment {E} _.
Arguments Finish {E} _.
End Claim.
Import Claim (Claim).

Module PaymentChannelService.
Record PaymentChannelService (E : Type -> Type) := mk {
  PaymentChannel : PaymentChannelKey -> prog E (result (option PaymentChannelData));
  ListChannels : prog E (result (list PaymentChannelData));
  StartClaim : PaymentChannelKey -> ChannelUpdate -> prog E (result (Claim E));
  ListClaims : prog E (result (list (Claim E)));
  StartPaymentTransaction : Payment -> prog E (result (PaymentTransaction E));
  PaymentChannelFromBlockChain :
    PaymentChannelKey -> prog E (result (option PaymentChannelData)) }.
Arguments PaymentChannel {E} _ _.
Arguments ListChannels {E} _.
Arguments StartClaim {E} _ _ _.
Arguments ListClaims {E} _.
Arguments StartPaymentTransaction {E} _ _.
Arguments PaymentChannelFromBlockChain {E} _ _.
End PaymentChannelService.

(** ** Lemmas *)

Lemma PaymentChannelKey_String_eq key :
  PaymentChannelKey_String key = "{ID: " +:+ pretty (PaymentChannelKey_ID key) +:+ "}".
Proof. reflexivity. Qed.

Lemma Payment_ID_eq p :
  Payment_ID p = pretty (Payment.ChannelID p) +:+ "/" +:+ pretty (Payment.ChannelNonce p).
Proof.
  change (Payment_ID p) with (pretty (Payment.ChannelID p) +:+ "/" +:+
    pretty (Payment.ChannelNonce p) +:+ "").
  by rewrite string_app_empty_r.
Qed.

(** Different channels have different lock names. *)
#[export] Instance PaymentChannelKey_String_inj : Inj (=) (=) PaymentChannelKey_String.
Proof.
  intros [id1] [id2] H. rewrite !PaymentChannelKey_String_eq in H.
  apply (inj _) in H. apply (inj (fun s => s +:+ "}")), (inj pretty) in H.
  simpl in H. by subst.
Qed.

(** Payments have the same identifier only when they are of the same channel
    and nonce. *)
Lemma Payment_ID_inj p1 p2 :
  Payment_ID p1 = Payment_ID p2 ->
  Payment.ChannelID p1 = Payment.ChannelID p2 /\
  Payment.ChannelNonce p1 = Payment.ChannelNonce p2.
Proof.
  rewrite !Payment_ID_eq. intros H.

  apply string_split_inj in H as [->%(inj _) ->%(inj _)]; [done|..];
    by apply pretty_Z_decimal.
Qed.
