(* ===== verification/PaymentChannelStorage.v ===== *)
(** * Channel and payment storages

    [escrow/payment_channel_storage.go] and [escrow/payment_storage.go]: the
    typed storages of channels and of claimed payments over one atomic
    storage, the reader of channels from the blockchain, and the merge of the
    two states of a channel. *)
From S2P Require Import Prelude Prog Bytes AtomicStorage Blockchain PaymentChannelApi.
Import AtomicStorage.
Import Payment (Payment) PaymentChannelData (PaymentChannelData)
  MultiPartyEscrowChannel (MultiPartyEscrowChannel).
Local Open Scope Z_scope.

(** ** Serialization

    [gob.NewEncoder(&b).Encode(value)] and [gob.NewDecoder(b).Decode(value)].
    The wire format of gob is driven by reflection and numbers types in the
    order the process first meets them, so the codec of each type is an
    interface; what the daemon relies on is in [GobLaws]. *)
Class GobCodec (T : Type) := {
  gob_encode : T -> result string;
  gob_decode : string -> result T }.

(** Encoding succeeds, and decoding gives back the value up to [norm]: gob does
    not transmit empty slices, so an empty slice is read back as nil. *)
Class GobLaws (T : Type) `{!GobCodec T} (norm : T -> T) : Prop := {
  gob_encode_ok x : exists s, gob_encode x = Ok s;
  gob_decode_encode x s : gob_encode x = Ok s -> gob_decode s = Ok (norm x) }.

Definition serialize {T} `{!GobCodec T} (value : T) : result string :=
  match gob_encode value with
  | Err e => Err e
  | Ok b => Ok b
  end.

Definition deserialize {T} `{!GobCodec T} (slice : string) : result T :=
  gob_decode slice.

Definition norm_slice (s : option bytes) : option bytes :=
  match s with Some [] => None | _ => s end.

Definition norm_channel (c : PaymentChannelData) : PaymentChannelData :=
  PaymentChannelData.mk (PaymentChannelData.ChannelID c) (PaymentChannelData.Nonce c)
    (PaymentChannelData.State c) (PaymentChannelData.Sender c)
    (PaymentChannelData.Recipient c) (PaymentChannelData.GroupID c)
    (PaymentChannelData.FullAmount c) (PaymentChannelData.Expiration c)
    (PaymentChannelData.Signer c) (PaymentChannelData.AuthorizedAmount c)
    (norm_slice (PaymentChannelData.Signature c)).

Definition norm_payment (p : Payment) : Payment :=
  Payment.mk (Payment.MpeContractAddress p) (Payment.ChannelID p)
    (Payment.ChannelNonce p) (Payment.Amount p) (norm_slice (Payment.Signature p)).

(** The codecs of the stored types. *)
Class EscrowCodec := {
  key_codec :: GobCodec PaymentChannelKey;
  channel_codec :: GobCodec PaymentChannelData;
  string_codec :: GobCodec string;
  payment_codec :: GobCodec Payment }.

Class EscrowCodecLaws `{!EscrowCodec} : Prop := {
  key_laws :: GobLaws PaymentChannelKey id;
  channel_laws :: GobLaws PaymentChannelData norm_channel;
  string_laws :: GobLaws string id;
  payment_laws :: GobLaws Payment norm_payment }.

(** ** [PaymentChannelStorage] *)

Definition channel_storage_prefix : string := "/payment-channel/storage".
Definition payment_storage_prefix : string := "/payment/storage".

Record PaymentChannelStorage (E : Type -> Type) := mkPaymentChannelStorage {
  PaymentChannelStorage_delegate :
    TypedAtomicStorage.TypedAtomicStorage E PaymentChannelKey PaymentChannelData }.
Arguments PaymentChannelStorage_delegate {E} _.

Record PaymentStorage (E : Type -> Type) := mkPaymentStorage {
  PaymentStorage_delegate : TypedAtomicStorage.TypedAtomicStorage E string Payment }.
Arguments PaymentStorage_delegate {E} _.

Section storages.
Context `{!EscrowCodec} {E : Type -> Type}.

Definition NewPaymentChannelStorage (atomicStorage : AtomicStorage E)
  : PaymentChannelStorage E :=
  mkPaymentChannelStorage E (TypedAtomicStorageImpl_object (mkTypedAtomicStorageImpl E _ _
    (PrefixedAtomicStorage_object
       (mkPrefixedAtomicStorage E atomicStorage channel_storage_prefix))
    serialize serialize deserialize)).

Definition PaymentChannelStorage_Get (storage : PaymentChannelStorage E)
    (key : PaymentChannelKey) : prog E (result (option PaymentChannelData)) :=
  try! value := TypedAtomicStorage.Get (PaymentChannelStorage_delegate storage) key in
  match value with
  | None => Ret (Ok None)
  | Some value => Ret (Ok (Some value))
  end.

Definition PaymentChannelStorage_GetAll (storage : PaymentChannelStorage E)
  : prog E (result (list PaymentChannelData)) :=
  try! values := TypedAtomicStorage.GetAll (PaymentChannelStorage_delegate storage) in
  Ret (Ok values).

Definition PaymentChannelStorage_Put (storage : PaymentChannelStorage E)
    (key : PaymentChannelKey) (state : PaymentChannelData) : prog E (result unit) :=
  TypedAtomicStorage.Put (PaymentChannelStorage_delegate storage) key state.

Definition PaymentChannelStorage_PutIfAbsent (storage : PaymentChannelStorage E)
    (key : PaymentChannelKey) (state : PaymentChannelData) : prog E (result bool) :=
  TypedAtomicStorage.PutIfAbsent (PaymentChannelStorage_delegate storage) key state.

Definition PaymentChannelStorage_CompareAndSwap (storage : PaymentChannelStorage E)
    (key : PaymentChannelKey) (prevState newState : PaymentChannelData)
  : prog E (result bool) :=
  TypedAtomicStorage.CompareAndSwap (PaymentChannelStorage_delegate storage)
    key prevState newState.

Definition NewPaymentStorage (atomicStorage : AtomicStorage E) : PaymentStorage E :=
  mkPaymentStorage E (TypedAtomicStorageImpl_object (mkTypedAtomicStorageImpl E _ _
    (PrefixedAtomicStorage_object
       (mkPrefixedAtomicStorage E atomicStorage payment_storage_prefix))
    serialize serialize deserialize)).

Definition PaymentStorage_GetAll (storage : PaymentStorage E)
  : prog E (result (list Payment)) :=
  try! values := TypedAtomicStorage.GetAll (PaymentStorage_delegate storage) in
  Ret (Ok values).

Definition PaymentStorage_Put (storage : PaymentStorage E) (payment : Payment)
  : prog E (result unit) :=
  TypedAtomicStorage.Put (PaymentStorage_delegate storage) (Payment_ID payment) payment.

Definition PaymentStorage_Delete (storage : PaymentStorage E) (payment : Payment)
  : prog E (result unit) :=
  TypedAtomicStorage.Delete (PaymentStorage_delegate storage) (Payment_ID payment).
End storages.

(** ** [BlockchainChannelReader] *)

Record BlockchainChannelReader (E : Type -> Type) := mkBlockchainChannelReader {
  reader_readChannelFromBlockchain :
    Z -> prog E (result (option MultiPartyEscrowChannel));
  reader_recipientPaymentAddress : Address }.
Arguments reader_readChannelFromBlockchain {E} _ _.
Arguments reader_recipientPaymentAddress {E} _.

Definition NewBlockchainChannelReader {E} (processor : Processor E)
    (metadata : ServiceMetadata.ServiceMetadata) : BlockchainChannelReader E :=
  mkBlockchainChannelReader E (Processor_MultiPartyEscrowChannel processor)
    (GetPaymentAddress metadata).

(** The state of a channel of the contract, for a known recipient. *)
Definition channel_of_blockchain (key : PaymentChannelKey) (ch : MultiPartyEscrowChannel)
  : PaymentChannelData :=
  PaymentChannelData.mk (PaymentChannelKey_ID key) (MultiPartyEscrowChannel.Nonce ch) Open
    (MultiPartyEscrowChannel.Sender ch) (MultiPartyEscrowChannel.Recipient ch)
    (MultiPartyEscrowChannel.GroupId ch) (MultiPartyEscrowChannel.Value ch)
    (MultiPartyEscrowChannel.Expiration ch) (MultiPartyEscrowChannel.Signer ch) 0 None.

Definition GetChannelStateFromBlockchain {E} (reader : BlockchainChannelReader E)
    (key : PaymentChannelKey) : prog E (result (option PaymentChannelData)) :=
  try! ch := reader_readChannelFromBlockchain reader (PaymentChannelKey_ID key) in
  match ch with
  | None => Ret (Ok None)
  | Some ch =>
      if decide (reader_recipientPaymentAddress reader
                 <> MultiPartyEscrowChannel.Recipient ch)
      then Ret (Err (ErrorString ("recipient Address from service metadata does not Match"
             +:+ " on what was retrieved from Channel")))
      else Ret (Ok (Some (channel_of_blockchain key ch)))
  end.

Definition MergeStorageAndBlockchainChannelState (storage blockchain : PaymentChannelData)
  : PaymentChannelData :=
  match PaymentChannelData.Nonce storage ?= PaymentChannelData.Nonce blockchain with
  | Gt => storage
  | Lt => blockchain
  | Eq =>
      PaymentChannelData.mk (PaymentChannelData.ChannelID storage)
        (PaymentChannelData.Nonce storage) (PaymentChannelData.State storage)
        (PaymentChannelData.Sender storage) (PaymentChannelData.Recipient storage)
        (PaymentChannelData.GroupID storage) (PaymentChannelData.FullAmount blockchain)
        (PaymentChannelData.Expiration blockchain) (PaymentChannelData.Signer storage)
        (PaymentChannelData.AuthorizedAmount storage)
        (PaymentChannelData.Signature storage)
  end.

(** ** Abstract contents of the storages

    What the channel and payment storages hold, read off the entries of the
    atomic storage. *)
Section contents.
Context `{!EscrowCodec}.

Definition decode_entry {T} `{!GobCodec T} (v : option string) : result (option T) :=
  match v with
  | None => Ok None
  | Some s => match deserialize s with Err e => Err e | Ok x => Ok (Some x) end
  end.

Definition stored_channel (m : gmap string string) (key : PaymentChannelKey)
  : result (option PaymentChannelData) :=
  match serialize key with
  | Err e => Err e
  | Ok k => decode_entry (m !! prefixed_key channel_storage_prefix k)
  end.

Definition put_channel (key : PaymentChannelKey) (state : PaymentChannelData)
    (m : gmap string string) : gmap string string :=
  match serialize key, serialize state with
  | Ok k, Ok s => <[prefixed_key channel_storage_prefix k := s]> m
  | _, _ => m
  end.

Definition stored_payment (m : gmap string string) (id : string) : result (option Payment) :=
  match serialize id with
  | Err e => Err e
  | Ok k => decode_entry (m !! prefixed_key payment_storage_prefix k)
  end.

Definition put_payment (payment : Payment) (m : gmap string string) : gmap string string :=
  match serialize (Payment_ID payment), serialize payment with
  | Ok k, Ok s => <[prefixed_key payment_storage_prefix k := s]> m
  | _, _ => m
  end.

Definition delete_payment (payment : Payment) (m : gmap string string)
  : gmap string string :=
  match serialize (Payment_ID payment) with
  | Ok k => delete (prefixed_key payment_storage_prefix k) m
  | Err _ => m
  end.

(** The payments that [GetAll] may return: the storage lists the values in
    any order. *)
Definition listed_payments (m : gmap string string) (r : result (list Payment)) : Prop :=
  exists vs, vs ≡ₚ matching_values (prefixed_key payment_storage_prefix "") m /\
             r = deserialize_all deserialize vs.

Definition listed_channels (m : gmap string string)
    (r : result (list PaymentChannelData)) : Prop :=
  exists vs, vs ≡ₚ matching_values (prefixed_key channel_storage_prefix "") m /\
             r = deserialize_all deserialize vs.
End contents.

(** ** Lemmas *)

Lemma serialize_ok {T} `{!GobCodec T} {norm} `{!GobLaws T norm} (x : T) :
  exists s, serialize x = Ok s.
Proof. unfold serialize. destruct (gob_encode_ok x) as [s ->]. eauto. Qed.

Lemma deserialize_serialize {T} `{!GobCodec T} {norm} `{!GobLaws T norm} (x : T) s :
  serialize x = Ok s -> deserialize s = Ok (norm x).
Proof.
  unfold serialize. destruct (gob_encode_ok x) as [s' Hs']. rewrite Hs'.
  intros [= ->]. by apply gob_decode_encode.
Qed.

Lemma serialize_inj {T} `{!GobCodec T} {norm} `{!GobLaws T norm} (x y : T) s :
  serialize x = Ok s -> serialize y = Ok s -> norm x = norm y.
Proof.
  intros Hx%deserialize_serialize Hy%deserialize_serialize. congruence.
Qed.

Section contents_lemmas.
Context `{!EscrowCodec, !EscrowCodecLaws}.

Lemma stored_put_channel key state m :
  stored_channel (put_channel key state m) key = Ok (Some (norm_channel state)).
Proof.
  unfold stored_channel, put_channel.
  destruct (serialize_ok key) as [k Hk], (serialize_ok state) as [s Hs].
  rewrite Hk, Hs, lookup_insert_eq. simpl.
  by rewrite (deserialize_serialize _ _ Hs).
Qed.

Lemma stored_put_channel_ne key key' state m :
  key <> key' -> stored_channel (put_channel key state m) key' = stored_channel m key'.
Proof.
  intros Hne. unfold stored_channel, put_channel.
  destruct (serialize_ok key) as [k Hk], (serialize_ok state) as [s Hs],
    (serialize_ok key') as [k' Hk'].
  rewrite Hk, Hs, Hk', lookup_insert_ne; [done|].
  intros <-%(inj _). by apply Hne, (serialize_inj (norm := id) key key' k).
Qed.

Lemma stored_put_payment p m :
  stored_payment (put_payment p m) (Payment_ID p) = Ok (Some (norm_payment p)).
Proof.
  unfold stored_payment, put_payment.
  destruct (serialize_ok (Payment_ID p)) as [k Hk], (serialize_ok p) as [s Hs].
  rewrite Hk, Hs, lookup_insert_eq. simpl. by rewrite (deserialize_serialize _ _ Hs).
Qed.

Lemma stored_put_payment_ne p pid m :
  Payment_ID p <> pid -> stored_payment (put_payment p m) pid = stored_payment m pid.
Proof.
  intros Hne. unfold stored_payment, put_payment.
  destruct (serialize_ok (Payment_ID p)) as [k Hk], (serialize_ok p) as [s Hs],
    (serialize_ok pid) as [k' Hk'].
  rewrite Hk, Hs, Hk', lookup_insert_ne; [done|].
  intros <-%(inj _). by apply Hne, (serialize_inj (norm := id) (Payment_ID p) pid k).
Qed.

Lemma stored_delete_payment p m :
  stored_payment (delete_payment p m) (Payment_ID p) = Ok None.
Proof.
  unfold stored_payment, delete_payment.
  destruct (serialize_ok (Payment_ID p)) as [k Hk]. by rewrite Hk, lookup_delete_eq.
Qed.

Lemma stored_delete_payment_ne p pid m :
  Payment_ID p <> pid -> stored_payment (delete_payment p m) pid = stored_payment m pid.
Proof.
  intros Hne. unfold stored_payment, delete_payment.
  destruct (serialize_ok (Payment_ID p)) as [k Hk], (serialize_ok pid) as [k' Hk'].
  rewrite Hk, Hk', lookup_delete_ne; [done|].
  intros <-%(inj _). by apply Hne, (serialize_inj (norm := id) (Payment_ID p) pid k).
Qed.

(** The three key spaces do not meet. *)
Lemma other_entry p q k s :
  String.prefix (prefixed_key q "") (prefixed_key p k) = false ->
  prefixed_key p k <> prefixed_key q s.
Proof.
  intros Hp Heq. by rewrite Heq, (prefixed_key_app _ s), string_prefix_app in Hp.
Qed.

Lemma stored_channel_other p k v m key :
  String.prefix (prefixed_key channel_storage_prefix "") (prefixed_key p k) = false ->
  stored_channel (<[prefixed_key p k := v]> m) key = stored_channel m key.
Proof.
  intros Hp. unfold stored_channel. destruct (serialize key) as [s|]; [|done].
  by rewrite lookup_insert_ne by by apply other_entry.
Qed.

Lemma stored_channel_delete_other p k m key :
  String.prefix (prefixed_key channel_storage_prefix "") (prefixed_key p k) = false ->
  stored_channel (delete (prefixed_key p k) m) key = stored_channel m key.
Proof.
  intros Hp. unfold stored_channel. destruct (serialize key) as [s|]; [|done].
  by rewrite lookup_delete_ne by by apply other_entry.
Qed.

Lemma stored_channel_put_payment p m key :
  stored_channel (put_payment p m) key = stored_channel m key.
Proof.
  unfold put_payment. destruct (serialize (Payment_ID p)), (serialize p); try done.
  by apply stored_channel_other, prefix_disjoint.
Qed.

Lemma stored_channel_delete_payment p m key :
  stored_channel (delete_payment p m) key = stored_channel m key.
Proof.
  unfold delete_payment. destruct (serialize (Payment_ID p)) as [k|]; [|done].
  by apply stored_channel_delete_other, prefix_disjoint.
Qed.

Lemma stored_payment_other p k v m pid :
  String.prefix (prefixed_key payment_storage_prefix "") (prefixed_key p k) = false ->
  stored_payment (<[prefixed_key p k := v]> m) pid = stored_payment m pid.
Proof.
  intros Hp. unfold stored_payment. destruct (serialize pid) as [s|]; [|done].
  by rewrite lookup_insert_ne by by apply other_entry.
Qed.

Lemma stored_payment_delete_other p k m pid :
  String.prefix (prefixed_key payment_storage_prefix "") (prefixed_key p k) = false ->
  stored_payment (delete (prefixed_key p k) m) pid = stored_payment m pid.
Proof.
  intros Hp. unfold stored_payment. destruct (serialize pid) as [s|]; [|done].
  by rewrite lookup_delete_ne by by apply other_entry.
Qed.

Lemma stored_payment_put_channel key c m pid :
  stored_payment (put_channel key c m) pid = stored_payment m pid.
Proof.
  unfold put_channel. destruct (serialize key), (serialize c); try done.
  by apply stored_payment_other, prefix_disjoint.
Qed.

(** Entries under other prefixes are left alone. *)
Lemma lookup_put_channel_other key c m k :
  String.prefix (prefixed_key channel_storage_prefix "") k = false ->
  put_channel key c m !! k = m !! k.
Proof.
  intros Hp. unfold put_channel. destruct (serialize key), (serialize c); try done.
  by apply frame_insert.
Qed.

Lemma lookup_put_payment_other p m k :
  String.prefix (prefixed_key payment_storage_prefix "") k = false ->
  put_payment p m !! k = m !! k.
Proof.
  intros Hp. unfold put_payment. destruct (serialize (Payment_ID p)), (serialize p); try done.
  by apply frame_insert.
Qed.

Lemma lookup_delete_payment_other p m k :
  String.prefix (prefixed_key payment_storage_prefix "") k = false ->
  delete_payment p m !! k = m !! k.
Proof.
  intros Hp. unfold delete_payment. destruct (serialize (Payment_ID p)); try done.
  by apply frame_delete.
Qed.
End contents_lemmas.

(** ** The storage operations against the storage interface *)
Section storage_specs.
Context `{!EscrowCodec} {E W} `{!Contract E W} {storage : AtomicStorage E}
  {contents : W -> gmap string string} {frame : W -> W -> Prop}
  `{!StorageSpec storage contents frame, !Reflexive frame}.

(** A read: the storage is unchanged and the answer is [expected] or an error. *)
Definition read_post {A} (w : W) (expected : result A -> Prop) (o : outcome (result A))
    (w' : W) : Prop :=
  frame w w' /\ contents w' = contents w /\
  exists r, o = Returned r /\ (is_err r \/ expected r).

(** A write: the storage is updated; an error leaves open whether it was. *)
Definition write_post (w : W) (update : gmap string string -> gmap string string)
    (o : outcome (result unit)) (w' : W) : Prop :=
  frame w w' /\
  exists r, o = Returned r /\
    match r with
    | Ok _ => contents w' = update (contents w)
    | Err _ => contents w' = contents w \/ contents w' = update (contents w)
    end.

Lemma PaymentChannelStorage_Get_spec key w :
  wp (PaymentChannelStorage_Get (NewPaymentChannelStorage storage) key)
     (read_post w (fun r => r = stored_channel (contents w) key)) w.
Proof.
  unfold PaymentChannelStorage_Get, stored_channel. simpl.
  destruct (serialize key) as [k|e]; simpl; [|repeat split; eauto].
  apply wp_bind, wp_bind.
  apply (wp_storage (SGet (prefixed_key channel_storage_prefix k))).
  intros [[v|]|e] w1 [Hw1 Hv] Hf; simpl.
  - rewrite <-Hv. simpl.
    destruct (deserialize v); simpl; (split; [done|]); (split; [done|]); eauto.
  - rewrite <-Hv. simpl. (split; [done|]); (split; [done|]); eauto.
  - (split; [done|]); (split; [done|]). eexists. split; [done|by left].
Qed.

Lemma wp_get_all {T} `{!GobCodec T} p w :
  wp (TypedAtomicStorageImpl_GetAll (mkTypedAtomicStorageImpl E string T
        (PrefixedAtomicStorage_object (mkPrefixedAtomicStorage E storage p))
        serialize serialize deserialize))
     (read_post w (fun r => exists vs,
        vs ≡ₚ matching_values (prefixed_key p "") (contents w) /\
        r = deserialize_all deserialize vs)) w.
Proof.
  unfold TypedAtomicStorageImpl_GetAll. simpl. apply wp_bind.
  apply (wp_storage (SGetByKeyPrefix (prefixed_key p ""))).
  intros [vs|e] w1 [Hw1 Hv] Hf; simpl; (split; [done|]); (split; [done|]).
  - eexists. split; [done|]. right. eauto.
  - eexists. split; [done|by left].
Qed.

Lemma PaymentStorage_GetAll_spec w :
  wp (PaymentStorage_GetAll (NewPaymentStorage storage))
     (read_post w (listed_payments (contents w))) w.
Proof.
  unfold PaymentStorage_GetAll. apply wp_bind. eapply wp_mono; [apply wp_get_all|].
  intros o w' (Hf & Hc & r & -> & Hr). destruct r as [l|e]; simpl;
    (split; [done|]); (split; [done|]); eexists; (split; [done|]); [|by left].
  right. destruct Hr as [[]|Hr]. exact Hr.
Qed.

Lemma PaymentChannelStorage_GetAll_spec w :
  wp (PaymentChannelStorage_GetAll (NewPaymentChannelStorage storage))
     (read_post w (listed_channels (contents w))) w.
Proof.
  unfold PaymentChannelStorage_GetAll. apply wp_bind.
  eapply wp_mono; [apply (wp_get_all (T := PaymentChannelData) channel_storage_prefix)|].
  intros o w' (Hf & Hc & r & -> & Hr). destruct r as [l|e]; simpl;
    (split; [done|]); (split; [done|]); eexists; (split; [done|]); [|by left].
  right. destruct Hr as [[]|Hr]. exact Hr.
Qed.

Lemma wp_put k v w update :
  (forall m, update m = <[k:=v]> m) ->
  wp (Put storage k v) (write_post w update) w.
Proof.
  intros Hu. apply (wp_storage (SPut k v)). intros [[]|e] w1 Hc Hf; simpl in Hc;
    (split; [done|]); eexists; (split; [done|]); simpl; rewrite ?Hu; auto.
Qed.

Lemma PaymentChannelStorage_Put_spec key state w :
  wp (PaymentChannelStorage_Put (NewPaymentChannelStorage storage) key state)
     (write_post w (put_channel key state)) w.
Proof.
  unfold PaymentChannelStorage_Put, put_channel. simpl.
  destruct (serialize key) as [k|e]; simpl; [|split; [done|]; eexists; split; [done|by left]].
  destruct (serialize state) as [s|e]; simpl; [|split; [done|]; eexists; split; [done|by left]].
  by apply wp_put.
Qed.

Lemma PaymentStorage_Put_spec p w :
  wp (PaymentStorage_Put (NewPaymentStorage storage) p)
     (write_post w (put_payment p)) w.
Proof.
  unfold PaymentStorage_Put, put_payment. simpl.
  destruct (serialize (Payment_ID p)) as [k|e]; simpl; [|split; [done|]; eexists; split; [done|by left]].
  destruct (serialize p) as [s|e]; simpl; [|split; [done|]; eexists; split; [done|by left]].
  by apply wp_put.
Qed.

Lemma PaymentStorage_Delete_spec p w :
  wp (PaymentStorage_Delete (NewPaymentStorage storage) p)
     (write_post w (delete_payment p)) w.
Proof.
  unfold PaymentStorage_Delete, delete_payment. simpl.
  destruct (serialize (Payment_ID p)) as [k|e]; simpl; [|split; [done|]; eexists; split; [done|by left]].
  apply (wp_storage (SDelete (prefixed_key payment_storage_prefix k))).
  intros [[]|e] w1 Hc Hf; simpl in Hc; (split; [done|]); eexists; (split; [done|]); done.
Qed.
End storage_specs.

(** ** Storing and reading channels *)

Section roundtrip.
Context `{!EscrowCodec, !EscrowCodecLaws} {E W} `{!Contract E W} {storage : AtomicStorage E}
  {contents : W -> gmap string string} {frame : W -> W -> Prop}
  `{!StorageSpec storage contents frame, !Reflexive frame}.

(** C25: over any atomic storage that keeps its contract, a channel state that
    was stored is read back (an empty signature as nil), and the states of the
    other channels are not affected. *)
Theorem channel_storage_roundtrip key key' state w :
  wp (let! r := PaymentChannelStorage_Put (NewPaymentChannelStorage storage) key state in
      match r with
      | Err e => Ret (Err e)
      | Ok _ => PaymentChannelStorage_Get (NewPaymentChannelStorage storage) key'
      end)
     (fun o w' => exists r, o = Returned r /\
        (is_err r \/
         r = if decide (key = key') then Ok (Some (norm_channel state))
             else stored_channel (contents w) key')) w.
Proof.
  apply wp_bind. eapply wp_mono; [apply PaymentChannelStorage_Put_spec|].
  intros o w1 (_ & r & -> & Hr). destruct r as [u|e].
  - eapply wp_mono; [apply PaymentChannelStorage_Get_spec|].
    intros o w2 (_ & _ & r & -> & [He|Hget]); [by eauto|].
    exists r. split; [done|right]. rewrite Hget, Hr. case_decide as Hk.
    + subst. apply stored_put_channel.
    + by apply stored_put_channel_ne.
  - eexists. split; [done|by left].
Qed.
End roundtrip.
