(* ===== verification/Handler.v ===== *)
(** * gRPC interceptors

    [handler/interceptors.go]: reading payment data from call metadata, the
    payment handler interface, and the interceptors that wrap the service
    handler. *)
From Stdlib Require Import Ascii.
From S2P Require Import Prelude Prog Bytes.
Local Open Scope Z_scope.

(** ** Call context and errors *)

(** [metadata.MD]: values by key. *)
Abbreviation MD := (gmap string (list string)).

(** [GrpcStreamContext] holds the metadata; the [Info] field is only
    printed. *)
Record GrpcStreamContext := mkGrpcStreamContext { Context_MD : MD }.

Definition PaymentTypeHeader : string := "snet-payment-type".

(** The custom gRPC code. *)
Definition grpc_IncorrectNonce : Z := 1000.

(** A [GrpcError] whose status pointer may be nil. A function that returns
    [(value, err *GrpcError)] has type [value + GrpcError]. *)
Record GrpcError := mkGrpcError { GrpcError_Status : option Status }.

#[export] Instance GrpcError_eq_dec : EqDecision GrpcError.
Proof. solve_decision. Defined.

(** [status.Err()] is nil for the code [OK]. *)
Definition Status_Err (s : Status) : result unit :=
  if Status_Code s =? codes_OK then Ok tt else Err (ErrorStatus s).

Definition GrpcError_Err (err : GrpcError) : result unit :=
  match GrpcError_Status err with
  | None => Ok tt
  | Some s => Status_Err s
  end.

Definition NewGrpcErrorf (code : Z) (format : string) (args : list string) : GrpcError :=
  mkGrpcError (Some (mkStatus code (Sprintf format args))).

(** [NewGrpcError] passes the message as the format string. *)
Definition NewGrpcError (code : Z) (message : string) : GrpcError :=
  mkGrpcError (Some (mkStatus code (Sprintf message []))).

(** ** Reading metadata *)

Definition to_lower (c : ascii) : ascii :=
  let n := nat_of_ascii c in
  if bool_decide (65 <= n <= 90)%nat then ascii_of_nat (n + 32) else c.

Fixpoint ToLower (s : string) : string :=
  match s with EmptyString => EmptyString | String c s => String (to_lower c) (ToLower s) end.

(** [md.Get(key)]: the key is lowered; a missing key has no values. *)
Definition MD_Get (md : MD) (key : string) : list string := default [] (md !! ToLower key).

(** [GetValue] of [metrics/utils.go]. *)
Definition GetValue (md : MD) (key : string) : string :=
  match MD_Get md key with [] => EmptyString | v :: _ => v end.

Definition quoted (s : string) : string := dquote +:+ s +:+ dquote.

(** [%v] of a slice of strings. *)
Definition print_slice (l : list string) : string := "[" +:+ String.concat " " l +:+ "]".

Definition GetSingleValue (md : MD) (key : string) : string + GrpcError :=
  let array := MD_Get md key in
  match array with
  | [] => inr (NewGrpcErrorf codes_InvalidArgument ("missing " +:+ quoted "%v") [key])
  | [v] => inl v
  | _ => inr (NewGrpcErrorf codes_InvalidArgument
                ("too many values for key " +:+ quoted "%v" +:+ ": %v")
                [key; print_slice array])
  end.

Definition GetBigInt (md : MD) (key : string) : Z + GrpcError :=
  match GetSingleValue md key with
  | inr err => inr err
  | inl str =>
      match Int_UnmarshalText str with
      | None => inr (NewGrpcErrorf codes_InvalidArgument
                       ("incorrect format " +:+ quoted "%v" +:+ ": " +:+ quoted "%v")
                       [key; str])
      | Some value => inl value
      end
  end.

Definition HasSuffix (s suffix : string) : bool :=
  let n := String.length s in
  let k := String.length suffix in
  bool_decide (k <= n)%nat && bool_decide (String.substring (n - k) k s = suffix).

Definition GetBytes (md : MD) (key : string) : bytes + GrpcError :=
  if negb (HasSuffix key "-bin") then
    inr (NewGrpcErrorf codes_InvalidArgument
           ("incorrect binary key name " +:+ quoted "%v") [key])
  else
    match GetSingleValue md key with
    | inr err => inr err
    | inl str => inl (bytes_of_string str)
    end.

Definition GetBytesFromHex `{!GoEthereum} (md : MD) (key : string) : bytes + GrpcError :=
  match GetSingleValue md key with
  | inr err => inr err
  | inl str => inl (FromHex str)
  end.

(** ** The payment handler interface

    [Payment] is an empty interface in the source: each handler has its own
    type of payments and asserts it back. *)
Module PaymentHandler.
Record PaymentHandler (E : Type -> Type) := mk {
  payment_type : Type;
  handler_Type : string;
  handler_Payment : GrpcStreamContext -> prog E (payment_type + GrpcError);
  Complete : payment_type -> prog E (option GrpcError);
  CompleteAfterError : payment_type -> error -> prog E (option GrpcError) }.
Arguments payment_type {E} _.
Arguments handler_Type {E} _.
Arguments handler_Payment {E} _ _.
Arguments Complete {E} _ _.
Arguments CompleteAfterError {E} _ _ _.
End PaymentHandler.
Import PaymentHandler (PaymentHandler).

(** ** [paymentValidationInterceptor] *)

Record paymentValidationInterceptor (E : Type -> Type) := mkPaymentValidationInterceptor {
  interceptor_defaultPaymentHandler : PaymentHandler E;
  interceptor_paymentHandlers : gmap string (PaymentHandler E) }.
Arguments interceptor_defaultPaymentHandler {E} _.
Arguments interceptor_paymentHandlers {E} _.

Section interceptors.
Context {E : Type -> Type}.

(** The handlers are registered in order, so a later one replaces an earlier
    one of the same type. *)
Definition newPaymentValidationInterceptor (defaultPaymentHandler : PaymentHandler E)
    (paymentHandler : list (PaymentHandler E)) : paymentValidationInterceptor E :=
  mkPaymentValidationInterceptor E defaultPaymentHandler
    (foldl (fun m h => <[PaymentHandler.handler_Type h := h]> m)
       {[PaymentHandler.handler_Type defaultPaymentHandler := defaultPaymentHandler]}
       paymentHandler).

(** [md] is the metadata of the stream's context, absent when the context has
    none. *)
Definition getGrpcContext (md : option MD) : GrpcStreamContext + GrpcError :=
  match md with
  | None => inr (NewGrpcError codes_InvalidArgument "missing metadata")
  | Some md => inl (mkGrpcStreamContext md)
  end.

Definition getPaymentHandler (interceptor : paymentValidationInterceptor E)
    (context : GrpcStreamContext) : PaymentHandler E + GrpcError :=
  match Context_MD context !! PaymentTypeHeader with
  | None | Some [] => inl (interceptor_defaultPaymentHandler interceptor)
  | Some (paymentType :: _) =>
      match interceptor_paymentHandlers interceptor !! paymentType with
      | Some paymentHandler => inl paymentHandler
      | None =>
          inr (NewGrpcErrorf codes_InvalidArgument
                 ("unexpected " +:+ quoted "%v" +:+ ", value: " +:+ quoted "%v")
                 [PaymentTypeHeader; paymentType])
      end
  end.

(** The deferred function: it sees how the service handler ended, and its
    error replaces the handler's. *)
Definition complete_payment (paymentHandler : PaymentHandler E)
    (payment : PaymentHandler.payment_type paymentHandler) (o : outcome (result unit))
  : prog E (result unit) :=
  match o with
  | Panicked r =>
      let! _ := PaymentHandler.CompleteAfterError paymentHandler payment
                  (Errorf "Service handler called panic(%v)" [r]) in
      Panic "re-panic after payment handler error handling"
  | Returned (Ok u) =>
      let! err := PaymentHandler.Complete paymentHandler payment in
      match err with
      | Some err => Ret (GrpcError_Err err)
      | None => Ret (Ok u)
      end
  | Returned (Err e) =>
      let! err := PaymentHandler.CompleteAfterError paymentHandler payment e in
      match err with
      | Some err => Ret (GrpcError_Err err)
      | None => Ret (Err e)
      end
  end.

(** [handler] is the service handler applied to the stream. *)
Definition paymentValidationInterceptor_intercept
    (interceptor : paymentValidationInterceptor E) (md : option MD)
    (handler : prog E (result unit)) : prog E (result unit) :=
  match getGrpcContext md with
  | inr err => Ret (GrpcError_Err err)
  | inl context =>
      match getPaymentHandler interceptor context with
      | inr err => Ret (GrpcError_Err err)
      | inl paymentHandler =>
          let! payment := PaymentHandler.handler_Payment paymentHandler context in
          match payment with
          | inr err => Ret (GrpcError_Err err)
          | inl payment => catch handler (complete_payment paymentHandler payment)
          end
      end
  end.

Definition GrpcPaymentValidationInterceptor (defaultPaymentHandler : PaymentHandler E)
    (paymentHandler : list (PaymentHandler E)) (md : option MD)
    (handler : prog E (result unit)) : prog E (result unit) :=
  paymentValidationInterceptor_intercept
    (newPaymentValidationInterceptor defaultPaymentHandler paymentHandler) md handler.

(** ** The other interceptors *)

(** [allow] is the limiter's [Allow]. *)
Definition rateLimitInterceptor_intercept (allow : prog E bool)
    (handler : prog E (result unit)) : prog E (result unit) :=
  let! allowed := allow in
  if negb allowed then
    Ret (Status_Err (mkStatus codes_ResourceExhausted
                       "rate limiting , too many requests to handle"))
  else
    let! e := handler in
    match e with
    | Err e => Ret (Err e)
    | Ok _ => Ret (Ok tt)
    end.

Definition NoOpInterceptor (handler : prog E (result unit)) : prog E (result unit) := handler.
End interceptors.

(** ** The protocol of the payment interceptor

    A payment handler and a service handler whose calls are recorded. *)

Inductive CallE : Type -> Type :=
| CallPayment (type : string) : CallE (unit + GrpcError)
| CallService : CallE (outcome (result unit))
| CallComplete (type : string) : CallE (option GrpcError)
| CallCompleteAfterError (type : string) (e : error) : CallE (option GrpcError).

(** What was called, with the answers that matter, the latest call first. *)
Inductive call_record :=
| called_Payment (type : string) (accepted : bool)
| called_Service (o : outcome (result unit))
| called_Complete (type : string)
| called_CompleteAfterError (type : string).

(** The answers are free; the calls are recorded. *)
#[export] Instance CallE_contract : Contract CallE (list call_record) := fun X e w x w' =>
  w' = match e in CallE X return X -> call_record with
       | CallPayment t => fun r => called_Payment t (match r with inl _ => true | inr _ => false end)
       | CallService => fun r => called_Service r
       | CallComplete t => fun _ => called_Complete t
       | CallCompleteAfterError t _ => fun _ => called_CompleteAfterError t
       end x :: w.

Definition recorded_handler (type : string) : PaymentHandler CallE :=
  PaymentHandler.mk CallE unit type (fun _ => trigger (CallPayment type))
    (fun _ => trigger (CallComplete type))
    (fun _ e => trigger (CallCompleteAfterError type e)).

Definition recorded_service : prog CallE (result unit) :=
  let! o := trigger CallService in resume o.

(** The call sequences of the protocol. *)
Inductive protocol : list call_record -> outcome (result unit) -> Prop :=
| protocol_no_handler e :
    protocol [] (Returned e)
| protocol_refused type e :
    protocol [called_Payment type false] (Returned e)
| protocol_served type u r :
    protocol [called_Complete type; called_Service (Returned (Ok u));
              called_Payment type true] (Returned r)
| protocol_failed type e r :
    protocol [called_CompleteAfterError type; called_Service (Returned (Err e));
              called_Payment type true] (Returned r)
| protocol_panicked type m m' :
    protocol [called_CompleteAfterError type; called_Service (Panicked m);
              called_Payment type true] (Panicked m').

Lemma registered_handlers default types t h :
  interceptor_paymentHandlers (newPaymentValidationInterceptor (recorded_handler default)
    (recorded_handler <$> types)) !! t = Some h -> h = recorded_handler t.
Proof.
  cbn [newPaymentValidationInterceptor interceptor_paymentHandlers].
  assert (forall m : gmap string (PaymentHandler CallE),
    (forall t h, m !! t = Some h -> h = recorded_handler t) ->
    forall t h, foldl (fun m h => <[PaymentHandler.handler_Type h := h]> m) m
      (recorded_handler <$> types) !! t = Some h -> h = recorded_handler t) as Hfold.
  { induction types as [|t' types IH]; intros m Hm; [done|].
    rewrite fmap_cons. cbn [foldl]. apply IH. intros t2 h2.
    cbn [PaymentHandler.handler_Type recorded_handler].
    destruct (decide (t' = t2)) as [->|Hne].
    - rewrite lookup_insert_eq. by intros [= <-].
    - rewrite lookup_insert_ne by done. apply Hm. }
  apply Hfold. intros t2 h2 [<- <-]%lookup_singleton_Some. done.
Qed.

Lemma wp_catch_service type (u : unit) w :
  wp (catch recorded_service (complete_payment (recorded_handler type) u))
     (fun o w' => exists l, w' = l ++ w /\ protocol (l ++ [called_Payment type true]) o) w.
Proof.
  intros o w1 ->. destruct o as [[u'|e]|m]; simpl; intros x w2 ->; simpl.
  - destruct x; exists [called_Complete type; called_Service (Returned (Ok u'))];
      (split; [done|]); apply protocol_served.
  - destruct x; exists [called_CompleteAfterError type; called_Service (Returned (Err e))];
      (split; [done|]); apply protocol_failed.
  - exists [called_CompleteAfterError type; called_Service (Panicked m)].
    split; [done|]. apply protocol_panicked.
Qed.

(** C26: the interceptor asks one handler for the payment, runs the service
    handler only when the payment is accepted, and then completes the payment
    exactly once with the same handler: [Complete] after success,
    [CompleteAfterError] after an error or a panic, which it raises again. *)
Theorem payment_is_completed_exactly_once default types md :
  wp (GrpcPaymentValidationInterceptor (recorded_handler default)
        (recorded_handler <$> types) md recorded_service)
     (fun o calls => protocol calls o) [].
Proof.
  unfold GrpcPaymentValidationInterceptor, paymentValidationInterceptor_intercept.
  destruct (getGrpcContext md) as [context|e]; [|apply protocol_no_handler].
  destruct (getPaymentHandler _ context) as [h|e] eqn:Hh; [|apply protocol_no_handler].
  assert (exists t, h = recorded_handler t) as [t ->].
  { unfold getPaymentHandler in Hh.
    destruct (Context_MD context !! PaymentTypeHeader) as [[|t l]|]; [by simplify_eq/=; eauto| |by simplify_eq/=; eauto].
    destruct (interceptor_paymentHandlers _ !! t) as [h'|] eqn:Hl; [|done].
    apply registered_handlers in Hl. simplify_eq. eauto. }
  cbn [recorded_handler PaymentHandler.handler_Payment]. intros x w ->.
  destruct x as [u|e]; [|apply protocol_refused].
  eapply wp_mono; [apply wp_catch_service|]. intros o w' (l & -> & Hp). exact Hp.
Qed.
