(* ===== verification/Validation.v ===== *)
(** * Payment validation

    [escrow/validation.go]: the signed message of a payment, the recovery of
    its signer, and the checks of a payment against the state of its
    channel. *)
From S2P Require Import Prelude Prog Bytes Blockchain PaymentChannelApi.
Import Payment (Payment) PaymentChannelData (PaymentChannelData).
Local Open Scope Z_scope.

Section validation.
Context `{!GoEthereum}.

Definition bigIntToBytes (value : Z) : bytes := vec_to_list (BigToHash value).

Definition bytesToBigInt (b : bytes) : Z := SetBytes b.

(** A nil slice has no elements. *)
Definition slice_bytes (s : option bytes) : bytes := default [] s.

Definition getSignerAddressFromMessage (message : bytes) (signature : option bytes)
  : result Address :=
  let messageHash := Keccak256 (HashPrefix32Bytes ++ Keccak256 message) in
  match ParseSignature (slice_bytes signature) with
  | Err e => Err (ErrorString "incorrect signature length")
  | Ok (v, _, _) =>
      let modifiedSignature := take 64 (slice_bytes signature) ++ [byte_of (v mod 27)] in
      match SigToPub messageHash modifiedSignature with
      | Err e => Err (ErrorString "incorrect signature data")
      | Ok publicKey => Ok (PubkeyToAddress publicKey)
      end
  end.

Definition payment_message (payment : Payment) : bytes :=
  vec_to_list (Payment.MpeContractAddress payment)
  ++ bigIntToBytes (Payment.ChannelID payment)
  ++ bigIntToBytes (Payment.ChannelNonce payment)
  ++ bigIntToBytes (Payment.Amount payment).

Definition getSignerAddressFromPayment (payment : Payment) : result Address :=
  match getSignerAddressFromMessage (payment_message payment)
          (Payment.Signature payment) with
  | Err e => Err e
  | Ok signer => Ok signer
  end.

(** The expiration threshold is a pointer that may be nil. *)
Record ChannelPaymentValidator (E : Type -> Type) := mkChannelPaymentValidator {
  validator_currentBlock : prog E (result Z);
  validator_paymentExpirationThreshold : option Z }.
Arguments validator_currentBlock {E} _.
Arguments validator_paymentExpirationThreshold {E} _.

Definition NewChannelPaymentValidator {E} (processor : Processor E)
    (metadata : ServiceMetadata.ServiceMetadata) : ChannelPaymentValidator E :=
  mkChannelPaymentValidator E (Processor_CurrentBlock processor)
    (GetPaymentExpirationThreshold metadata).

Definition ChannelPaymentValidator_Validate {E} (validator : ChannelPaymentValidator E)
    (payment : Payment) (channel : PaymentChannelData) : prog E (result unit) :=
  if negb (Payment.ChannelNonce payment =? PaymentChannelData.Nonce channel) then
    Ret (Err (NewPaymentError IncorrectNonce
      "incorrect payment channel nonce, latest: %v, sent: %v"
      [pretty (PaymentChannelData.Nonce channel); pretty (Payment.ChannelNonce payment)]))
  else
    match getSignerAddressFromPayment payment with
    | Err e =>
        Ret (Err (NewPaymentError Unauthenticated "payment signature is not valid" []))
    | Ok signerAddress =>
        if decide (signerAddress <> PaymentChannelData.Signer channel) then
          Ret (Err (NewPaymentError Unauthenticated
                      "payment is not signed by channel signer" []))
        else
          let! currentBlock := validator_currentBlock validator in
          match currentBlock with
          | Err e =>
              Ret (Err (NewPaymentError Internal "cannot determine current block" []))
          | Ok currentBlock =>
              match validator_paymentExpirationThreshold validator with
              | None => Panic nil_dereference
              | Some expirationThreshold =>
                  let currentBlockWithThreshold := currentBlock + expirationThreshold in
                  if PaymentChannelData.Expiration channel <=? currentBlockWithThreshold then
                    Ret (Err (NewPaymentError Unauthenticated
                      ("payment channel is near to be expired, expiration time: %v,"
                       +:+ " current block: %v, expiration threshold: %v")
                      [pretty (PaymentChannelData.Expiration channel);
                       pretty currentBlock; pretty expirationThreshold]))
                  else if PaymentChannelData.FullAmount channel <? Payment.Amount payment then
                    Ret (Err (NewPaymentError Unauthenticated
                      ("not enough tokens on payment channel, channel amount: %v,"
                       +:+ " payment amount: %v")
                      [pretty (PaymentChannelData.FullAmount channel);
                       pretty (Payment.Amount payment)]))
                  else Ret (Ok tt)
              end
          end
    end.
End validation.
Arguments mkChannelPaymentValidator {E} _ _.
Arguments validator_currentBlock {E} _.
Arguments validator_paymentExpirationThreshold {E} _.

(** ** Lemmas *)

(** What an accepted payment satisfies, apart from the block check. *)
Definition payment_fits `{!GoEthereum} (payment : Payment) (channel : PaymentChannelData)
  : Prop :=
  Payment.ChannelNonce payment = PaymentChannelData.Nonce channel /\
  getSignerAddressFromPayment payment = Ok (PaymentChannelData.Signer channel) /\
  Payment.Amount payment <= PaymentChannelData.FullAmount channel.

Definition not_near_expiration (block threshold : Z) (channel : PaymentChannelData) : Prop :=
  block + threshold < PaymentChannelData.Expiration channel.

(** A recovered signer comes from a signature of 65 bytes. *)
Lemma signer_signature_length `{!GoEthereum} message signature a :
  getSignerAddressFromMessage message signature = Ok a ->
  length (slice_bytes signature) = 65%nat.
Proof.
  unfold getSignerAddressFromMessage, ParseSignature.
  destruct (decide (length (slice_bytes signature) = 65%nat)) as [Hlen|Hlen]; [done|].
  by rewrite bool_decide_eq_true_2.
Qed.

Lemma signed_signature `{!GoEthereum} payment a :
  getSignerAddressFromPayment payment = Ok a ->
  exists s, Payment.Signature payment = Some s /\ length s = 65%nat.
Proof.
  unfold getSignerAddressFromPayment. intros Hs.
  destruct (getSignerAddressFromMessage _ _) as [b|] eqn:Hb; [|done].
  apply signer_signature_length in Hb.
  destruct (Payment.Signature payment) as [s|]; [eauto|done].
Qed.

Lemma length_bigIntToBytes `{!GoEthereum} z : length (bigIntToBytes z) = 32%nat.
Proof. apply length_vec_to_list. Qed.

Section laws.
Context `{!GoEthereum, !GoEthereumLaws}.

Lemma bytesToBigInt_bigIntToBytes z :
  bytesToBigInt (bigIntToBytes z) = Z.abs z mod 2 ^ 256.
Proof.
  unfold bytesToBigInt, bigIntToBytes. rewrite BigToHash_spec.
  rewrite SetBytes_be_bytes. done.
Qed.

Lemma bigIntToBytes_inj z1 z2 :
  0 <= z1 < 2 ^ 256 -> 0 <= z2 < 2 ^ 256 -> bigIntToBytes z1 = bigIntToBytes z2 -> z1 = z2.
Proof.
  intros H1 H2 Heq%(f_equal bytesToBigInt). rewrite !bytesToBigInt_bigIntToBytes in Heq.
  rewrite !Z.abs_eq, !Z.mod_small in Heq by lia. done.
Qed.

(** Numbers equal modulo 2^256 have one encoding. *)
Lemma bigIntToBytes_mod z : 0 <= z -> bigIntToBytes (z + 2 ^ 256) = bigIntToBytes z.
Proof.
  intros Hz. unfold bigIntToBytes. rewrite !BigToHash_spec, !Z.abs_eq by lia.
  rewrite <-be_bytes_mod, <-(be_bytes_mod 32 z).
  change (256 ^ Z.of_nat 32) with (2 ^ 256). f_equal.
  rewrite <-(Z.mul_1_l (2 ^ 256)) at 1. by rewrite Z.mod_add.
Qed.
End laws.

(** ** Behaviour of [Validate] *)

Section validate_spec.
Context `{!GoEthereum} {E : Type -> Type}.

(** The answer of [Validate] for a known block: the first check that fails, in
    the order of the source. *)
Inductive validate_answer (payment : Payment) (channel : PaymentChannelData)
    (block : result Z) (threshold : Z) : result unit -> Prop :=
| validate_nonce m :
    Payment.ChannelNonce payment <> PaymentChannelData.Nonce channel ->
    validate_answer payment channel block threshold
      (Err (ErrorPayment (mkPaymentError IncorrectNonce m)))
| validate_signer m :
    Payment.ChannelNonce payment = PaymentChannelData.Nonce channel ->
    getSignerAddressFromPayment payment <> Ok (PaymentChannelData.Signer channel) ->
    validate_answer payment channel block threshold
      (Err (ErrorPayment (mkPaymentError Unauthenticated m)))
| validate_no_block m :
    Payment.ChannelNonce payment = PaymentChannelData.Nonce channel ->
    getSignerAddressFromPayment payment = Ok (PaymentChannelData.Signer channel) ->
    is_err block ->
    validate_answer payment channel block threshold
      (Err (ErrorPayment (mkPaymentError Internal m)))
| validate_expiration b m :
    Payment.ChannelNonce payment = PaymentChannelData.Nonce channel ->
    getSignerAddressFromPayment payment = Ok (PaymentChannelData.Signer channel) ->
    block = Ok b -> ~ not_near_expiration b threshold channel ->
    validate_answer payment channel block threshold
      (Err (ErrorPayment (mkPaymentError Unauthenticated m)))
| validate_amount b m :
    Payment.ChannelNonce payment = PaymentChannelData.Nonce channel ->
    getSignerAddressFromPayment payment = Ok (PaymentChannelData.Signer channel) ->
    block = Ok b -> not_near_expiration b threshold channel ->
    PaymentChannelData.FullAmount channel < Payment.Amount payment ->
    validate_answer payment channel block threshold
      (Err (ErrorPayment (mkPaymentError Unauthenticated m)))
| validate_ok b :
    payment_fits payment channel ->
    block = Ok b -> not_near_expiration b threshold channel ->
    validate_answer payment channel block threshold (Ok tt).

(** The shape of [Validate]: it answers at once, or reads the block once and
    then answers. *)
Lemma Validate_cases (validator : ChannelPaymentValidator E) payment channel threshold :
  validator_paymentExpirationThreshold validator = Some threshold ->
  (exists r, ChannelPaymentValidator_Validate validator payment channel = Ret r /\
     forall block, validate_answer payment channel block threshold r) \/
  (exists k, ChannelPaymentValidator_Validate validator payment channel
             = bind (validator_currentBlock validator) k /\
     forall block, exists r, k block = Ret r /\
       validate_answer payment channel block threshold r).
Proof.
  intros Ht. unfold ChannelPaymentValidator_Validate. rewrite Ht.
  destruct (Z.eqb_spec (Payment.ChannelNonce payment) (PaymentChannelData.Nonce channel))
    as [Hn|Hn]; simpl; [|left; eexists; split; [done|intros; by constructor]].
  destruct (getSignerAddressFromPayment payment) as [a|e] eqn:Hs.
  2: { left; eexists; split; [done|]. intros. apply validate_signer; congruence. }
  case_decide as Ha.
  { left; eexists; split; [done|]. intros. apply validate_signer; congruence. }
  subst a. right. eexists. split; [done|].
  intros [b|e]; [|eexists; split; [done|by apply validate_no_block]].
  destruct (Z.leb_spec (PaymentChannelData.Expiration channel) (b + threshold)) as [He|He].
  { eexists; split; [done|]. eapply validate_expiration; eauto.
    unfold not_near_expiration. lia. }
  destruct (Z.ltb_spec (PaymentChannelData.FullAmount channel) (Payment.Amount payment))
    as [Hf|Hf].
  { eexists; split; [done|]. by eapply validate_amount. }
  eexists; split; [done|]. by eapply validate_ok.
Qed.

(** Exactly the payments that fit the channel are accepted. *)
Lemma validate_answer_ok payment channel block threshold :
  validate_answer payment channel block threshold (Ok tt) <->
  payment_fits payment channel /\
  exists b, block = Ok b /\ not_near_expiration b threshold channel.
Proof.
  split.
  - intros Hv. inversion Hv. eauto.
  - intros (Hf & b & -> & Hb). by eapply validate_ok.
Qed.

(** [Validate] changes nothing but what reading the block changes, never
    panics when the threshold is set, and answers by the first failing check. *)
Lemma wp_Validate {W} `{!Contract E W} (validator : ChannelPaymentValidator E)
    payment channel threshold (Block : result Z -> W -> Prop) w :
  validator_paymentExpirationThreshold validator = Some threshold ->
  wp (validator_currentBlock validator)
     (fun o w' => exists block, o = Returned block /\ Block block w') w ->
  wp (ChannelPaymentValidator_Validate validator payment channel)
     (fun o w' => exists r, o = Returned r /\
        ((w' = w /\ forall block, validate_answer payment channel block threshold r) \/
         exists block, Block block w' /\
           validate_answer payment channel block threshold r)) w.
Proof.
  intros Ht Hb.
  destruct (Validate_cases validator payment channel threshold Ht)
    as [(r & -> & Hr)|(k & -> & Hk)]; [simpl; eauto|].
  apply wp_bind. eapply wp_mono; [exact Hb|]. intros o w' (block & -> & HB).
  destruct (Hk block) as (r & -> & Hr). simpl. eauto 10.
Qed.
End validate_spec.

(** ** The signed message *)

Section message.
Context `{!GoEthereum, !GoEthereumLaws}.

Definition uint256 (z : Z) : Prop := 0 <= z < 2 ^ 256.

(** Two payments with the same signed message are the same payment of the same
    contract, as long as their numbers are 256-bit. *)
Lemma payment_message_inj p q :
  uint256 (Payment.ChannelID p) -> uint256 (Payment.ChannelID q) ->
  uint256 (Payment.ChannelNonce p) -> uint256 (Payment.ChannelNonce q) ->
  uint256 (Payment.Amount p) -> uint256 (Payment.Amount q) ->
  payment_message p = payment_message q ->
  Payment.MpeContractAddress p = Payment.MpeContractAddress q /\
  Payment.ChannelID p = Payment.ChannelID q /\
  Payment.ChannelNonce p = Payment.ChannelNonce q /\
  Payment.Amount p = Payment.Amount q.
Proof.
  unfold payment_message. intros Hi Hi' Hn Hn' Ha Ha' Heq.
  apply app_inj_1 in Heq as [Hm Heq]; [|by rewrite !length_vec_to_list].
  apply app_inj_1 in Heq as [Hid Heq]; [|by rewrite !length_bigIntToBytes].
  apply app_inj_1 in Heq as [Hnonce Hamount]; [|by rewrite !length_bigIntToBytes].
  apply vec_to_list_inj2 in Hm. apply bigIntToBytes_inj in Hid, Hnonce, Hamount; done.
Qed.

(** The payment with the channel id shifted by 2^256: it names another channel
    to the storage and to the lock. *)
Definition alias_payment (p : Payment) : Payment :=
  Payment.mk (Payment.MpeContractAddress p) (Payment.ChannelID p + 2 ^ 256)
    (Payment.ChannelNonce p) (Payment.Amount p) (Payment.Signature p).

(** A signature is valid for the shifted id too. *)
Lemma alias_payment_signer p :
  0 <= Payment.ChannelID p ->
  getSignerAddressFromPayment (alias_payment p) = getSignerAddressFromPayment p.
Proof.
  intros Hp. unfold getSignerAddressFromPayment, payment_message, alias_payment. simpl.
  by rewrite bigIntToBytes_mod.
Qed.
End message.

(** C21: for a known block, [Validate] accepts exactly the payments of the
    current nonce, signed by the channel's signer, for at most the amount of
    the channel, on a channel that stays open longer than the threshold; any
    other payment is refused with the code of the first check that fails. *)
Theorem Validate_decides `{!GoEthereum} {E} (validator : ChannelPaymentValidator E)
    payment channel threshold block :
  validator_paymentExpirationThreshold validator = Some threshold ->
  validator_currentBlock validator = Ret block ->
  exists r, ChannelPaymentValidator_Validate validator payment channel = Ret r /\
    validate_answer payment channel block threshold r /\
    (r = Ok tt <-> payment_fits payment channel /\
       exists b, block = Ok b /\ not_near_expiration b threshold channel).
Proof.
  intros Ht Hb.
  assert (exists r, ChannelPaymentValidator_Validate validator payment channel = Ret r /\
    validate_answer payment channel block threshold r) as (r & Hr & Ha).
  { destruct (Validate_cases validator payment channel threshold Ht)
      as [(r & -> & Hr)|(k & -> & Hk)]; [eauto|]. rewrite Hb. apply Hk. }
  exists r. split; [done|]. split; [done|]. rewrite <-validate_answer_ok. split; [by intros <-|].
  intros Hok. inversion Hok as [| | | | |b' (Hn & Hs & Hf) Hb' He]; subst.
  unfold not_near_expiration in He.
  inversion Ha as [| | | | |]; unfold not_near_expiration in *; simplify_eq; try done; lia.
Qed.

(** C23: the message that a payment signs determines the contract, the channel,
    the nonce and the amount, for 256-bit numbers: a signature cannot be used
    for another payment. *)
Theorem payment_message_binds `{!GoEthereum, !GoEthereumLaws} p q :
  uint256 (Payment.ChannelID p) -> uint256 (Payment.ChannelID q) ->
  uint256 (Payment.ChannelNonce p) -> uint256 (Payment.ChannelNonce q) ->
  uint256 (Payment.Amount p) -> uint256 (Payment.Amount q) ->
  payment_message p = payment_message q ->
  Payment.MpeContractAddress p = Payment.MpeContractAddress q /\
  Payment.ChannelID p = Payment.ChannelID q /\
  Payment.ChannelNonce p = Payment.ChannelNonce q /\
  Payment.Amount p = Payment.Amount q.
Proof. apply payment_message_inj. Qed.
