(* ===== verification/Escrow.v ===== *)
(** * The payment channel service

    [escrow/escrow.go]: [lockingPaymentChannelService], its claims and its
    payment transactions. *)
From S2P Require Import Prelude Prog Bytes AtomicStorage Lock Blockchain PaymentChannelApi.
From S2P Require Import PaymentChannelStorage Validation.
Import AtomicStorage.
Import Payment (Payment) PaymentChannelData (PaymentChannelData)
  PaymentTransaction (PaymentTransaction) Claim (Claim)
  PaymentChannelService (PaymentChannelService).
Local Open Scope Z_scope.

(** [%v] of an array of bytes. *)
Definition print_byte_array {n} (a : vec byte n) : string :=
  "[" +:+ String.concat " " ((fun b => pretty (byte_val b)) <$> vec_to_list a) +:+ "]".

(** [replicaGroupID] is the pair its function returns. *)
Record lockingPaymentChannelService (E : Type -> Type) := mkLockingPaymentChannelService {
  service_storage : PaymentChannelStorage E;
  service_paymentStorage : PaymentStorage E;
  service_blockchainReader : BlockchainChannelReader E;
  service_locker : Locker E;
  service_validator : ChannelPaymentValidator E;
  service_replicaGroupID : bytes32 * option error }.
Arguments service_storage {E} _.
Arguments service_paymentStorage {E} _.
Arguments service_blockchainReader {E} _.
Arguments service_locker {E} _.
Arguments service_validator {E} _.
Arguments service_replicaGroupID {E} _.
Arguments mkLockingPaymentChannelService {E} _ _ _ _ _ _.

Definition verifyGroupId (configGroupID blockChainGroupID : bytes32) : result unit :=
  if decide (blockChainGroupID <> configGroupID) then
    Err (Errorf
      ("Channel received belongs to another group of replicas,"
       +:+ " current group: %v, channel group: %v")
      [print_byte_array configGroupID; print_byte_array blockChainGroupID])
  else Ok tt.

(** The payment of a claim has no contract address. *)
Definition getPaymentFromChannel (channel : PaymentChannelData) : Payment :=
  Payment.mk (zero_array 20) (PaymentChannelData.ChannelID channel)
    (PaymentChannelData.Nonce channel) (PaymentChannelData.AuthorizedAmount channel)
    (PaymentChannelData.Signature channel).

Section service.
Context `{!GoEthereum, !EscrowCodec} {E : Type -> Type}.

Definition lockingPaymentChannelService_PaymentChannelFromBlockChain
    (h : lockingPaymentChannelService E) (key : PaymentChannelKey)
  : prog E (result (option PaymentChannelData)) :=
  GetChannelStateFromBlockchain (service_blockchainReader h) key.

(** The error of [replicaGroupID] is overwritten by the one of
    [verifyGroupId]. *)
Definition lockingPaymentChannelService_PaymentChannel
    (h : lockingPaymentChannelService E) (key : PaymentChannelKey)
  : prog E (result (option PaymentChannelData)) :=
  try! storageChannel := PaymentChannelStorage_Get (service_storage h) key in
  let! blockchain := GetChannelStateFromBlockchain (service_blockchainReader h) key in
  match storageChannel with
  | None =>
      match blockchain with
      | Ok (Some blockchainChannel) =>
          let '(blockChainGroupID, _) := service_replicaGroupID h in
          match verifyGroupId blockChainGroupID
                  (PaymentChannelData.GroupID blockchainChannel) with
          | Err err => Ret (Err err)
          | Ok _ => Ret (Ok (Some blockchainChannel))
          end
      | Ok None => Ret (Ok None)
      | Err err => Ret (Err err)
      end
  | Some storageChannel =>
      match blockchain with
      | Err _ | Ok None => Ret (Ok (Some storageChannel))
      | Ok (Some blockchainChannel) =>
          Ret (Ok (Some
            (MergeStorageAndBlockchainChannelState storageChannel blockchainChannel)))
      end
  end.

Definition lockingPaymentChannelService_ListChannels (h : lockingPaymentChannelService E)
  : prog E (result (list PaymentChannelData)) :=
  PaymentChannelStorage_GetAll (service_storage h).

(** *** Claims *)

Record claimImpl := mkClaimImpl {
  claimImpl_paymentStorage : PaymentStorage E;
  claimImpl_payment : Payment }.

Definition claimImpl_Payment (claim : claimImpl) : Payment := claimImpl_payment claim.

Definition claimImpl_Finish (claim : claimImpl) : prog E (result unit) :=
  PaymentStorage_Delete (claimImpl_paymentStorage claim) (claimImpl_payment claim).

Definition claimImpl_object (claim : claimImpl) : Claim E :=
  Claim.mk E (claimImpl_Payment claim) (claimImpl_Finish claim).

Definition lockingPaymentChannelService_StartClaim (h : lockingPaymentChannelService E)
    (key : PaymentChannelKey) (update : ChannelUpdate) : prog E (result claimImpl) :=
  let! lock := Locker_Lock (service_locker h) (PaymentChannelKey_String key) in
  match lock with
  | Err _ =>
      Ret (Err (Errorf "cannot get mutex for channel: %v" [PaymentChannelKey_String key]))
  | Ok None =>
      Ret (Err (Errorf "another transaction on channel: %v is in progress"
                  [PaymentChannelKey_String key]))
  | Ok (Some lock) =>
      defer (fun _ => Lock_Unlock lock)
       (try! channel := PaymentChannelStorage_Get (service_storage h) key in
        match channel with
        | None =>
            Ret (Err (Errorf "Channel is not found by key: %v"
                        [PaymentChannelKey_String key]))
        | Some channel =>
            let nextChannel := update channel in
            let! err := PaymentChannelStorage_Put (service_storage h) key nextChannel in
            match err with
            | Err err => Ret (Err (Errorf "Channel storage error: %v" [Error err]))
            | Ok _ =>
                let payment := getPaymentFromChannel channel in
                try! _ := PaymentStorage_Put (service_paymentStorage h) payment in
                Ret (Ok (mkClaimImpl (service_paymentStorage h) payment))
            end
        end)
  end.

Definition lockingPaymentChannelService_ListClaims (h : lockingPaymentChannelService E)
  : prog E (result (list claimImpl)) :=
  try! payments := PaymentStorage_GetAll (service_paymentStorage h) in
  Ret (Ok (mkClaimImpl (service_paymentStorage h) <$> payments)).

(** *** Payment transactions *)

Record paymentTransaction := mkPaymentTransaction {
  transaction_payment : Payment;
  transaction_channel : PaymentChannelData;
  transaction_service : lockingPaymentChannelService E;
  transaction_lock : Lock E }.

Definition paymentTransaction_Channel (payment : paymentTransaction) : PaymentChannelData :=
  transaction_channel payment.

(** The lock is released when the function returns an error; a panic leaves it
    taken, since the named result [err] is nil then. *)
Definition lockingPaymentChannelService_StartPaymentTransaction
    (h : lockingPaymentChannelService E) (payment : Payment)
  : prog E (result paymentTransaction) :=
  let channelKey := mkPaymentChannelKey (Payment.ChannelID payment) in
  let! lock := Locker_Lock (service_locker h) (PaymentChannelKey_String channelKey) in
  match lock with
  | Err _ =>
      Ret (Err (NewPaymentError Internal "cannot get mutex for channel: %v"
                  [PaymentChannelKey_String channelKey]))
  | Ok None =>
      Ret (Err (NewPaymentError FailedPrecondition
                  "another transaction on channel: %v is in progress"
                  [PaymentChannelKey_String channelKey]))
  | Ok (Some lock) =>
      defer (fun o => match o with
                      | Returned (Err _) => Lock_Unlock lock
                      | _ => Ret (Ok tt)
                      end)
       (let! channel := lockingPaymentChannelService_PaymentChannel h channelKey in
        match channel with
        | Err err =>
            Ret (Err (NewPaymentError Internal ("payment channel error:" +:+ Error err) []))
        | Ok None =>
            Ret (Err (NewPaymentError Unauthenticated
                        ("payment channel " +:+ dquote +:+ "%v" +:+ dquote +:+ " not found")
                        [PaymentChannelKey_String channelKey]))
        | Ok (Some channel) =>
            try! _ := ChannelPaymentValidator_Validate (service_validator h)
                        payment channel in
            Ret (Ok (mkPaymentTransaction payment channel h lock))
        end)
  end.

(** The channel record that [Commit] stores. *)
Definition committed_channel (payment : Payment) (channel : PaymentChannelData)
  : PaymentChannelData :=
  PaymentChannelData.mk (PaymentChannelData.ChannelID channel)
    (PaymentChannelData.Nonce channel) (PaymentChannelData.State channel)
    (PaymentChannelData.Sender channel) (PaymentChannelData.Recipient channel)
    (PaymentChannelData.GroupID channel) (PaymentChannelData.FullAmount channel)
    (PaymentChannelData.Expiration channel) (PaymentChannelData.Signer channel)
    (Payment.Amount payment) (Payment.Signature payment).

Definition paymentTransaction_Commit (payment : paymentTransaction)
  : prog E (result unit) :=
  defer (fun _ => Lock_Unlock (transaction_lock payment))
   (let! e := PaymentChannelStorage_Put (service_storage (transaction_service payment))
                (mkPaymentChannelKey (Payment.ChannelID (transaction_payment payment)))
                (committed_channel (transaction_payment payment)
                   (transaction_channel payment)) in
    match e with
    | Err _ =>
        Ret (Err (NewPaymentError Internal "unable to store new payment channel state" []))
    | Ok _ => Ret (Ok tt)
    end).

Definition paymentTransaction_Rollback (payment : paymentTransaction)
  : prog E (result unit) :=
  defer (fun _ => Lock_Unlock (transaction_lock payment)) (Ret (Ok tt)).

Definition paymentTransaction_object (payment : paymentTransaction) : PaymentTransaction E :=
  PaymentTransaction.mk E (paymentTransaction_Channel payment)
    (paymentTransaction_Commit payment) (paymentTransaction_Rollback payment).

(** *** The service as an object of its interface *)

Definition lockingPaymentChannelService_object (h : lockingPaymentChannelService E)
  : PaymentChannelService E := {|
  PaymentChannelService.PaymentChannel := lockingPaymentChannelService_PaymentChannel h;
  PaymentChannelService.ListChannels := lockingPaymentChannelService_ListChannels h;
  PaymentChannelService.StartClaim := fun key update =>
    try! claim := lockingPaymentChannelService_StartClaim h key update in
    Ret (Ok (claimImpl_object claim));
  PaymentChannelService.ListClaims :=
    try! claims := lockingPaymentChannelService_ListClaims h in
    Ret (Ok (claimImpl_object <$> claims));
  PaymentChannelService.StartPaymentTransaction := fun payment =>
    try! transaction := lockingPaymentChannelService_StartPaymentTransaction h payment in
    Ret (Ok (paymentTransaction_object transaction));
  PaymentChannelService.PaymentChannelFromBlockChain :=
    lockingPaymentChannelService_PaymentChannelFromBlockChain h |}.

(** [NewPaymentChannelService] *)
Definition NewPaymentChannelService (storage : PaymentChannelStorage E)
    (paymentStorage : PaymentStorage E) (blockchainReader : BlockchainChannelReader E)
    (locker : Locker E) (channelPaymentValidator : ChannelPaymentValidator E)
    (groupIdReader : bytes32 * option error) : lockingPaymentChannelService E :=
  mkLockingPaymentChannelService storage paymentStorage blockchainReader locker
    channelPaymentValidator groupIdReader.
End service.
Arguments claimImpl E : clear implicits.
Arguments paymentTransaction E : clear implicits.

(** ** The current state of a channel

    [current_channel group storage blockchain] is what [PaymentChannel] answers
    for the state found in the storage and the answer of the blockchain. *)
Definition current_channel (group : bytes32) (storage : option PaymentChannelData)
    (blockchain : result (option PaymentChannelData)) : result (option PaymentChannelData) :=
  match storage, blockchain with
  | None, Ok (Some channel) =>
      result_map (fun _ => Some channel)
        (verifyGroupId group (PaymentChannelData.GroupID channel))
  | None, _ => blockchain
  | Some storage, Ok (Some blockchain) =>
      Ok (Some (MergeStorageAndBlockchainChannelState storage blockchain))
  | Some storage, _ => Ok (Some storage)
  end.

Section facts.
Context `{!GoEthereum, !EscrowCodec} {E : Type -> Type}.

(** The last part of [PaymentChannel]. *)
Lemma PaymentChannel_answer (h : lockingPaymentChannelService E) key :
  exists k, lockingPaymentChannelService_PaymentChannel h key
    = bind_ok (PaymentChannelStorage_Get (service_storage h) key) (fun storageChannel =>
        bind (GetChannelStateFromBlockchain (service_blockchainReader h) key)
             (k storageChannel)) /\
    forall storage blockchain, k storage blockchain
      = Ret (current_channel (service_replicaGroupID h).1 storage blockchain).
Proof.
  eexists. split; [reflexivity|]. intros [storage|] [[blockchain|]|e]; try done.
  simpl. destruct (service_replicaGroupID h) as [group e]. simpl.
  by destruct (verifyGroupId group (PaymentChannelData.GroupID blockchain)).
Qed.

Lemma verifyGroupId_ok group group' u : verifyGroupId group group' = Ok u <-> group' = group.
Proof. unfold verifyGroupId. case_decide; destruct u; split; congruence. Qed.

(** A channel that is found comes from the storage, from the blockchain, or
    from both. *)
Lemma current_channel_inv group storage blockchain c :
  current_channel group storage blockchain = Ok (Some c) ->
  (exists bc, storage = None /\ blockchain = Ok (Some bc) /\
     PaymentChannelData.GroupID bc = group /\ c = bc) \/
  (exists sc, storage = Some sc /\ c = sc) \/
  (exists sc bc, storage = Some sc /\ blockchain = Ok (Some bc) /\
     c = MergeStorageAndBlockchainChannelState sc bc).
Proof.
  destruct storage as [sc|], blockchain as [[bc|]|e]; simpl; intros Hc; simplify_eq;
    try (right; left; by eauto); try (right; right; by eauto 6).
  destruct (verifyGroupId group (PaymentChannelData.GroupID bc)) eqn:Hg; simplify_eq/=.
  apply verifyGroupId_ok in Hg. left. eauto.
Qed.

(** After a payment is committed, the current state is the committed one, up to
    the amount and expiration that the blockchain has now. *)
Lemma current_channel_committed group old answer p c :
  current_channel group old answer = Ok (Some c) ->
  exists c', current_channel group (Some (norm_channel (committed_channel p c))) answer
             = Ok (Some c') /\
    PaymentChannelData.Nonce c' = PaymentChannelData.Nonce c /\
    PaymentChannelData.Signer c' = PaymentChannelData.Signer c /\
    PaymentChannelData.AuthorizedAmount c' = Payment.Amount p /\
    PaymentChannelData.Signature c' = norm_slice (Payment.Signature p).
Proof.
  intros Hc. destruct answer as [[bc|]|e]; [|cbn; eexists; by repeat split..].
  assert (PaymentChannelData.Nonce bc <= PaymentChannelData.Nonce c) as Hle.
  { pose proof (current_channel_inv _ _ _ _ Hc) as [(bc' & _ & [= <-] & _ & ->)|
      [(sc & -> & ->)|(sc & bc' & -> & [= <-] & ->)]]; [lia| |].
    - cbn in Hc. injection Hc. unfold MergeStorageAndBlockchainChannelState.
      destruct (Z.compare_spec (PaymentChannelData.Nonce sc) (PaymentChannelData.Nonce bc));
        intros; subst; simpl in *; lia.
    - unfold MergeStorageAndBlockchainChannelState.
      destruct (Z.compare_spec (PaymentChannelData.Nonce sc) (PaymentChannelData.Nonce bc));
        simpl; lia. }
  cbn. unfold MergeStorageAndBlockchainChannelState. cbn.
  destruct (Z.compare_spec (PaymentChannelData.Nonce c) (PaymentChannelData.Nonce bc));
    [..|lia|]; eexists; by repeat split.
Qed.
End facts.
