(* ===== verification/EscrowHandler.v ===== *)
(** * The escrow payment handler

    [escrow/income.go] and [escrow/payment_handler.go]: the validation of the
    income of a call, and the payment handler that turns call metadata into a
    payment transaction. *)
From S2P Require Import Prelude Prog Bytes Blockchain PaymentChannelApi PaymentChannelStorage.
From S2P Require Import Validation Escrow Handler.
Import Payment (Payment) PaymentChannelData (PaymentChannelData)
  PaymentTransaction (PaymentTransaction) PaymentHandler (PaymentHandler)
  PaymentChannelService (PaymentChannelService).
Local Open Scope Z_scope.

(** ** [income.go] *)

Record IncomeData := mkIncomeData {
  IncomeData_Income : Z;
  IncomeData_GrpcContext : GrpcStreamContext }.

Record IncomeValidator (E : Type -> Type) := mkIncomeValidator {
  IncomeValidator_Validate : IncomeData -> prog E (result unit) }.
Arguments IncomeValidator_Validate {E} _ _.

(** The price is a pointer that may be nil. *)
Record incomeValidator := mk_incomeValidator { incomeValidator_priceInCogs : option Z }.

Definition incomeValidator_Validate {E} (validator : incomeValidator) (data : IncomeData)
  : prog E (result unit) :=
  match incomeValidator_priceInCogs validator with
  | None => Panic nil_dereference
  | Some price =>
      if negb (IncomeData_Income data =? price) then
        Ret (Err (NewPaymentError Unauthenticated "income %d does not equal to price %d"
                    [pretty (IncomeData_Income data); pretty price]))
      else Ret (Ok tt)
  end.

Definition NewIncomeValidator {E} (priceInCogs : option Z) : IncomeValidator E :=
  mkIncomeValidator E (incomeValidator_Validate (mk_incomeValidator priceInCogs)).

(** ** [payment_handler.go] *)

Definition PaymentChannelIDHeader : string := "snet-payment-channel-id".
Definition PaymentChannelNonceHeader : string := "snet-payment-channel-nonce".
Definition PaymentChannelAmountHeader : string := "snet-payment-channel-amount".
Definition PaymentChannelSignatureHeader : string := "snet-payment-channel-signature-bin".
Definition EscrowPaymentType : string := "escrow".

(** The message of a payment error is passed as the format string. *)
Definition paymentErrorToGrpcError (err : option error) : option GrpcError :=
  match err with
  | None => None
  | Some (ErrorPayment e) =>
      let grpcCode :=
        if PaymentError_Code e =? Internal then codes_Internal
        else if PaymentError_Code e =? Unauthenticated then codes_Unauthenticated
        else if PaymentError_Code e =? FailedPrecondition then codes_FailedPrecondition
        else if PaymentError_Code e =? IncorrectNonce then grpc_IncorrectNonce
        else codes_Internal in
      Some (NewGrpcErrorf grpcCode (PaymentError_Message e) [])
  | Some err => Some (NewGrpcErrorf codes_Internal "internal error: %v" [Error err])
  end.

Section handler.
Context {E : Type -> Type}.

(** The service returns [*paymentTransaction] values only, so the type
    assertions of [Complete] and [CompleteAfterError] do not fail. *)
Record paymentChannelPaymentHandler := mkPaymentChannelPaymentHandler {
  handler_service : PaymentChannelService E;
  handler_mpeContractAddress : Address;
  handler_incomeValidator : IncomeValidator E }.

Definition getPaymentFromContext (h : paymentChannelPaymentHandler)
    (context : GrpcStreamContext) : Payment + GrpcError :=
  match GetBigInt (Context_MD context) PaymentChannelIDHeader with
  | inr err => inr err
  | inl channelID =>
      match GetBigInt (Context_MD context) PaymentChannelNonceHeader with
      | inr err => inr err
      | inl channelNonce =>
          match GetBigInt (Context_MD context) PaymentChannelAmountHeader with
          | inr err => inr err
          | inl amount =>
              match GetBytes (Context_MD context) PaymentChannelSignatureHeader with
              | inr err => inr err
              | inl signature =>
                  inl (Payment.mk (handler_mpeContractAddress h) channelID channelNonce
                         amount (Some signature))
              end
          end
      end
  end.

(** The error of a failed [err *GrpcError] conversion is never nil here. *)
Definition grpc_error_of (e : error) : GrpcError :=
  default (mkGrpcError None) (paymentErrorToGrpcError (Some e)).

Definition paymentChannelPaymentHandler_Payment (h : paymentChannelPaymentHandler)
    (context : GrpcStreamContext) : prog E (PaymentTransaction E + GrpcError) :=
  match getPaymentFromContext h context with
  | inr err => Ret (inr err)
  | inl internalPayment =>
      let! transaction := PaymentChannelService.StartPaymentTransaction
                            (handler_service h) internalPayment in
      match transaction with
      | Err e => Ret (inr (grpc_error_of e))
      | Ok transaction =>
          let income := Payment.Amount internalPayment
            - PaymentChannelData.AuthorizedAmount (PaymentTransaction.Channel transaction) in
          let! e := IncomeValidator_Validate (handler_incomeValidator h)
                      (mkIncomeData income context) in
          match e with
          | Err e =>
              let! _ := PaymentTransaction.Rollback transaction in
              Ret (inr (grpc_error_of e))
          | Ok _ => Ret (inl transaction)
          end
      end
  end.

Definition paymentChannelPaymentHandler_Complete (payment : PaymentTransaction E)
  : prog E (option GrpcError) :=
  let! r := PaymentTransaction.Commit payment in
  Ret (paymentErrorToGrpcError (err_of r)).

Definition paymentChannelPaymentHandler_CompleteAfterError
    (payment : PaymentTransaction E) (result : error) : prog E (option GrpcError) :=
  let! r := PaymentTransaction.Rollback payment in
  Ret (paymentErrorToGrpcError (err_of r)).

Definition paymentChannelPaymentHandler_object (h : paymentChannelPaymentHandler)
  : PaymentHandler E :=
  PaymentHandler.mk E (PaymentTransaction E) EscrowPaymentType
    (paymentChannelPaymentHandler_Payment h)
    paymentChannelPaymentHandler_Complete
    paymentChannelPaymentHandler_CompleteAfterError.

Definition NewPaymentHandler (service : PaymentChannelService E)
    (processor : Processor E) (incomeValidator : IncomeValidator E)
  : paymentChannelPaymentHandler :=
  mkPaymentChannelPaymentHandler service (Processor_escrowContractAddress processor)
    incomeValidator.
End handler.
Arguments paymentChannelPaymentHandler E : clear implicits.

(** ** Lemmas *)

Lemma internal_error_status s :
  NewGrpcErrorf codes_Internal "internal error: %v" [s]
  = mkGrpcError (Some (mkStatus codes_Internal ("internal error: " +:+ s))).
Proof.
  unfold NewGrpcErrorf. change (Sprintf _ [s]) with ("internal error: " +:+ (s +:+ "")).
  by rewrite string_app_empty_r.
Qed.

(** The code the client sees for a payment error code. *)
Definition client_code (code : Z) : Z :=
  if code =? Unauthenticated then codes_Unauthenticated
  else if code =? FailedPrecondition then codes_FailedPrecondition
  else if code =? IncorrectNonce then grpc_IncorrectNonce
  else codes_Internal.

(** a payment error is reported to the client with the gRPC code of its
    kind, any other error as an internal error; the message is kept as long as
    it has no percent sign, and no error is lost. *)
Lemma payment_errors_reach_the_client (e : error) :
  match e with
  | ErrorPayment (mkPaymentError code message) =>
      string_in percent message = false ->
      paymentErrorToGrpcError (Some e)
      = Some (mkGrpcError (Some (mkStatus (client_code code) message)))
  | _ => paymentErrorToGrpcError (Some e)
         = Some (mkGrpcError (Some (mkStatus codes_Internal ("internal error: " +:+ Error e))))
  end.
Proof.
  destruct e as [msg|[code message]|status].
  - cbn [paymentErrorToGrpcError]. by rewrite internal_error_status.
  - intros Hm. cbn [paymentErrorToGrpcError PaymentError_Code PaymentError_Message].
    unfold NewGrpcErrorf, client_code. rewrite Sprintf_plain by done.
    destruct (Z.eqb_spec code Internal) as [->|]; done.
  - cbn [paymentErrorToGrpcError]. by rewrite internal_error_status.
Qed.
