(* ===== verification/StateService.v ===== *)
(** * The payment channel state service

    [escrow/state_service.go]: the latest state of a channel for its signer. *)
From S2P Require Import Prelude Prog Bytes Blockchain PaymentChannelApi Validation.
Import PaymentChannelData (PaymentChannelData) PaymentChannelService (PaymentChannelService).
Local Open Scope Z_scope.

Module ChannelStateRequest.
Record ChannelStateRequest := mk { ChannelId : bytes; Signature : option bytes }.
End ChannelStateRequest.
Import ChannelStateRequest (ChannelStateRequest).

(** Nil byte fields are empty. *)
Module ChannelStateReply.
Record ChannelStateReply := mk {
  CurrentNonce : bytes;
  CurrentSignedAmount : bytes;
  CurrentSignature : bytes }.
End ChannelStateReply.
Import ChannelStateReply (ChannelStateReply).

Section state_service.
Context `{!GoEthereum} {E : Type -> Type}.

Record PaymentChannelStateService := mkPaymentChannelStateService {
  state_channelService : PaymentChannelService E }.

Definition NewPaymentChannelStateService (channelService : PaymentChannelService E)
  : PaymentChannelStateService := mkPaymentChannelStateService channelService.

Definition GetChannelState (service : PaymentChannelStateService)
    (request : ChannelStateRequest) : prog E (result ChannelStateReply) :=
  let channelID := bytesToBigInt (ChannelStateRequest.ChannelId request) in
  let signature := ChannelStateRequest.Signature request in
  match getSignerAddressFromMessage (bigIntToBytes channelID) signature with
  | Err _ => Ret (Err (ErrorString "incorrect signature"))
  | Ok sender =>
      let! channel := PaymentChannelService.PaymentChannel (state_channelService service)
                        (mkPaymentChannelKey channelID) in
      match channel with
      | Err err => Ret (Err (ErrorString ("channel error:" +:+ Error err)))
      | Ok None =>
          Ret (Err (Errorf "channel is not found, channelId: %v" [pretty channelID]))
      | Ok (Some channel) =>
          if decide (PaymentChannelData.Signer channel <> sender) then
            Ret (Err (ErrorString "only channel signer can get latest channel state"))
          else
            match PaymentChannelData.Signature channel with
            | None =>
                Ret (Ok (ChannelStateReply.mk
                  (bigIntToBytes (PaymentChannelData.Nonce channel)) [] []))
            | Some signature =>
                Ret (Ok (ChannelStateReply.mk
                  (bigIntToBytes (PaymentChannelData.Nonce channel))
                  (bigIntToBytes (PaymentChannelData.AuthorizedAmount channel))
                  signature))
            end
      end
  end.
End state_service.
Arguments PaymentChannelStateService E : clear implicits.
