(* ===== verification/ControlService.v ===== *)
(** * The provider control service

    [escrow/control_service.go]: the requests of the service provider: lists
    of unclaimed payments and of claims in progress, and the start of a
    claim. *)
From S2P Require Import Prelude Prog Bytes Blockchain PaymentChannelApi Validation.
Import Payment (Payment) PaymentChannelData (PaymentChannelData) Claim (Claim)
  PaymentChannelService (PaymentChannelService) ServiceMetadata (ServiceMetadata).
Local Open Scope Z_scope.

(** ** Messages: nil byte fields are empty. [CurrentBlock] is a [uint64]. *)

Module GetPaymentsListRequest.
Record GetPaymentsListRequest := mk {
  MpeAddress : string;
  CurrentBlock : Z;
  Signature : bytes }.
End GetPaymentsListRequest.
Import GetPaymentsListRequest (GetPaymentsListRequest).

Module StartClaimRequest.
Record StartClaimRequest := mk {
  MpeAddress : string;
  ChannelId : bytes;
  Signature : bytes }.
End StartClaimRequest.
Import StartClaimRequest (StartClaimRequest).

Module PaymentReply.
Record PaymentReply := mk {
  ChannelId : bytes;
  ChannelNonce : bytes;
  SignedAmount : bytes;
  Signature : bytes }.
End PaymentReply.
Import PaymentReply (PaymentReply).

Record PaymentsListReply := mkPaymentsListReply { Payments : list PaymentReply }.

Section control_service.
Context `{!GoEthereum} {E : Type -> Type}.

(** [control_Dial] opens a connection to the configured Ethereum endpoint. *)
Record ProviderControlService := mkProviderControlService {
  control_channelService : PaymentChannelService E;
  control_serviceMetaData : ServiceMetadata;
  control_Dial : prog E (result (EthereumClient E)) }.

Definition NewProviderControlService (channelService : PaymentChannelService E)
    (metaData : ServiceMetadata) (Dial : prog E (result (EthereumClient E)))
  : ProviderControlService := mkProviderControlService channelService metaData Dial.

(** ** Checks *)

Definition checkMpeAddress (service : ProviderControlService) (mpeAddress : string)
  : result unit :=
  if decide (ServiceMetadata.MpeAddress (control_serviceMetaData service) = mpeAddress)
  then Ok tt
  else Err (Errorf "the mpeAddress: %s passed does not match to what has been registered"
              [mpeAddress]).

Definition verifyPaymentAddress (service : ProviderControlService) (address : Address)
  : result unit :=
  if decide (GetPaymentAddress (control_serviceMetaData service) = address) then Ok tt
  else Err (Errorf "the payment Address: %s  does not match to what has been registered"
              [AddressToHex address]).

Definition verifySigner (service : ProviderControlService) (message : bytes)
    (signature : option bytes) : result unit :=
  match getSignerAddressFromMessage message signature with
  | Err err => Err err
  | Ok signer =>
      match verifyPaymentAddress service signer with
      | Err err => Err err
      | Ok _ => Ok tt
      end
  end.

(** [abi.U256(big.NewInt(int64(request.CurrentBlock)))] *)
Definition getMessageBytes (service : ProviderControlService) (prefixMessage : string)
    (request : GetPaymentsListRequest) : bytes :=
  bytes_of_string prefixMessage
  ++ vec_to_list (GetMpeAddress (control_serviceMetaData service))
  ++ U256 (Int64 (GetPaymentsListRequest.CurrentBlock request)).

Definition verifySignerForListUnclaimed (service : ProviderControlService)
    (request : GetPaymentsListRequest) : result unit :=
  verifySigner service (getMessageBytes service "__list_unclaimed" request)
    (Some (GetPaymentsListRequest.Signature request)).

Definition verifySignerForListInProgress (service : ProviderControlService)
    (request : GetPaymentsListRequest) : result unit :=
  verifySigner service (getMessageBytes service "__list_in_progress" request)
    (Some (GetPaymentsListRequest.Signature request)).

(** The package function [currentBlock]: opens a client for the call. *)
Definition control_currentBlock (service : ProviderControlService)
  : prog E (result Z) :=
  try! ethClient := GetEthereumClient (control_Dial service) in
  let! r := RawClient_CallBlockNumber ethClient in
  match r with
  | Err err => Ret (Err (Errorf "error determining current block: %v" [Error err]))
  | Ok currentBlockHex => Ret (Ok (SetBytes (FromHex currentBlockHex)))
  end.

(** [x.Cmp(y)] *)
Definition Cmp (x y : Z) : Z :=
  match x ?= y with Lt => -1 | Eq => 0 | Gt => 1 end.

Definition compareWithLatestBlockNumber (service : ProviderControlService)
    (blockNumberPassed : Z) : prog E (result unit) :=
  try! latestBlockNumber := control_currentBlock service in
  let differenceInBlockNumber := Cmp latestBlockNumber blockNumberPassed in
  if (-5 <=? differenceInBlockNumber) || (differenceInBlockNumber <=? 5) then Ret (Ok tt)
  else
    Ret (Err (Errorf
      ("difference between the latest block chain number and the block number"
       +:+ " passed is %v ") [pretty blockNumberPassed])).

Definition start_claim_message (service : ProviderControlService) (channelId : Z)
    (nonce : Z) : bytes :=
  bytes_of_string "__start_claim"
  ++ vec_to_list (GetMpeAddress (control_serviceMetaData service))
  ++ bigIntToBytes channelId ++ bigIntToBytes nonce.

(** No error when the channel is not found. *)
Definition verifySignerForStartClaim (service : ProviderControlService)
    (startClaim : StartClaimRequest) : prog E (result unit) :=
  let channelId := bytesToBigInt (StartClaimRequest.ChannelId startClaim) in
  let signature := StartClaimRequest.Signature startClaim in
  try! latestChannel := PaymentChannelService.PaymentChannel
                          (control_channelService service)
                          (mkPaymentChannelKey channelId) in
  match latestChannel with
  | None => Ret (Ok tt)
  | Some latestChannel =>
      Ret (verifySigner service
             (start_claim_message service channelId
                (PaymentChannelData.Nonce latestChannel)) (Some signature))
  end.

(** ** Lists *)

(** One iteration of the loop of [listChannels]: the channels with nothing to
    claim are skipped. *)
Definition unclaimed_reply (channel : PaymentChannelData) : option PaymentReply :=
  if Int64 (PaymentChannelData.AuthorizedAmount channel) =? 0 then None
  else Some (PaymentReply.mk (bigIntToBytes (PaymentChannelData.ChannelID channel))
               (bigIntToBytes (PaymentChannelData.Nonce channel))
               (bigIntToBytes (PaymentChannelData.AuthorizedAmount channel)) []).

Definition listChannels (service : ProviderControlService)
  : prog E (result PaymentsListReply) :=
  try! channels := PaymentChannelService.ListChannels (control_channelService service) in
  Ret (Ok (mkPaymentsListReply (omap unclaimed_reply channels))).

Definition in_progress_reply (payment : Payment) : option PaymentReply :=
  match Payment.Signature payment with
  | None => None
  | Some signature =>
      if Int64 (Payment.Amount payment) =? 0 then None
      else Some (PaymentReply.mk (bigIntToBytes (Payment.ChannelID payment))
                   (bigIntToBytes (Payment.ChannelNonce payment))
                   (bigIntToBytes (Payment.Amount payment)) signature)
  end.

Definition listClaims (service : ProviderControlService)
  : prog E (result PaymentsListReply) :=
  try! claimsRetrieved := PaymentChannelService.ListClaims (control_channelService service) in
  Ret (Ok (mkPaymentsListReply
    (omap (fun claimRetrieved => in_progress_reply (Claim.claim_Payment claimRetrieved))
       claimsRetrieved))).

(** The loop of [removeClaimedPayments]: it ends without an error at the first
    payment whose channel the blockchain does not have. *)
Fixpoint remove_claimed (service : ProviderControlService) (claims : list (Claim E))
  : prog E (result unit) :=
  match claims with
  | [] => Ret (Ok tt)
  | claimRetrieved :: claims =>
      let payment := Claim.claim_Payment claimRetrieved in
      try! blockChainChannel := PaymentChannelService.PaymentChannelFromBlockChain
                                  (control_channelService service)
                                  (mkPaymentChannelKey (Payment.ChannelID payment)) in
      match blockChainChannel with
      | None => Ret (Ok tt)
      | Some blockChainChannel =>
          if Payment.ChannelNonce payment <? PaymentChannelData.Nonce blockChainChannel
          then
            try! _ := Claim.Finish claimRetrieved in
            remove_claimed service claims
          else remove_claimed service claims
      end
  end.

Definition removeClaimedPayments (service : ProviderControlService)
  : prog E (result unit) :=
  let! claimsRetrieved :=
    PaymentChannelService.ListClaims (control_channelService service) in
  match claimsRetrieved with
  | Err _ => Ret (Err (ErrorString "error in retrieving claims"))
  | Ok claimsRetrieved => remove_claimed service claimsRetrieved
  end.

(** The channel that is not found is a nil pointer. *)
Definition beginClaimOnChannel (service : ProviderControlService) (channelId : Z)
  : prog E (result PaymentReply) :=
  try! latestChannel := PaymentChannelService.PaymentChannel
                          (control_channelService service)
                          (mkPaymentChannelKey channelId) in
  match latestChannel with
  | None => Panic nil_dereference
  | Some latestChannel =>
      if Int64 (PaymentChannelData.AuthorizedAmount latestChannel) =? 0 then
        Ret (Err (Errorf
          ("authorized amount is zero , hence nothing to claim on the channel Id: %v")
          [pretty channelId]))
      else
        try! claim := PaymentChannelService.StartClaim (control_channelService service)
                        (mkPaymentChannelKey channelId) IncrementChannelNonce in
        let payment := Claim.claim_Payment claim in
        Ret (Ok (PaymentReply.mk (bigIntToBytes channelId)
          (bigIntToBytes (Payment.ChannelNonce payment))
          (bigIntToBytes (Payment.Amount payment))
          (default [] (Payment.Signature payment))))
  end.

(** ** Requests *)

Definition GetListUnclaimed (service : ProviderControlService)
    (request : GetPaymentsListRequest) : prog E (result PaymentsListReply) :=
  match checkMpeAddress service (GetPaymentsListRequest.MpeAddress request) with
  | Err err => Ret (Err err)
  | Ok _ =>
      try! _ := compareWithLatestBlockNumber service
                  (Int64 (GetPaymentsListRequest.CurrentBlock request)) in
      match verifySignerForListUnclaimed service request with
      | Err err => Ret (Err err)
      | Ok _ => listChannels service
      end
  end.

Definition GetListInProgress (service : ProviderControlService)
    (request : GetPaymentsListRequest) : prog E (result PaymentsListReply) :=
  match checkMpeAddress service (GetPaymentsListRequest.MpeAddress request) with
  | Err err => Ret (Err err)
  | Ok _ =>
      try! _ := compareWithLatestBlockNumber service
                  (Int64 (GetPaymentsListRequest.CurrentBlock request)) in
      match verifySignerForListInProgress service request with
      | Err err => Ret (Err err)
      | Ok _ =>
          try! _ := removeClaimedPayments service in
          listClaims service
      end
  end.

Definition ProviderControlService_StartClaim (service : ProviderControlService)
    (startClaim : StartClaimRequest) : prog E (result PaymentReply) :=
  match checkMpeAddress service (StartClaimRequest.MpeAddress startClaim) with
  | Err err => Ret (Err err)
  | Ok _ =>
      try! _ := verifySignerForStartClaim service startClaim in
      try! _ := removeClaimedPayments service in
      beginClaimOnChannel service
        (bytesToBigInt (StartClaimRequest.ChannelId startClaim))
  end.
End control_service.
Arguments ProviderControlService E : clear implicits.

(** ** Lemmas *)

(** The list of unclaimed payments leaves out exactly the channels whose
    authorized amount is a multiple of 2^64: those with nothing to claim, and
    those whose amount has no low 64 bits. *)
Lemma unclaimed_list_skips `{!GoEthereum} (channel : PaymentChannelData) :
  unclaimed_reply channel = None <->
  PaymentChannelData.AuthorizedAmount channel mod 2 ^ 64 = 0.
Proof.
  unfold unclaimed_reply. rewrite <-Int64_zero.
  destruct (Z.eqb_spec (Int64 (PaymentChannelData.AuthorizedAmount channel)) 0);
    split; congruence.
Qed.
