(* ===== verification/World.v ===== *)
(** * The daemon and its world

    The effects of the payment code ([DaemonE]): the requests to the atomic
    storage, the reads of the MultiPartyEscrow contract and of the latest
    block. [snetd/cmd/components.go] wires the parts together; the
    constructors below do the same over these effects. *)
From S2P Require Import Prelude Prog Bytes AtomicStorage Lock Blockchain PaymentChannelApi.
From S2P Require Import PaymentChannelStorage Validation Escrow Handler EscrowHandler.
From S2P Require Import StateService ControlService.
Import AtomicStorage MultiPartyEscrowChannel ServiceMetadata.
Local Open Scope Z_scope.

(** ** Effects *)

(** [Dial] opens a connection to the Ethereum endpoint. *)
Inductive DaemonE : Type -> Type :=
| StorageEvent {X} (e : StorageE X) : DaemonE X
| Channels (channelID : Z) : DaemonE (result MultiPartyEscrowChannel)
| Dial : DaemonE (result unit)
| BlockNumber : DaemonE (result string).

(** The [channels] mapping of the contract, by the 256-bit encoding of the
    channel id: a mapping of the EVM has a value, zero by default, for every
    key. *)
Definition ContractState := bytes -> MultiPartyEscrowChannel.

(** [history] has the earlier states of the contract, the latest first. *)
Record World := mkWorld {
  store : gmap string string;
  contract_state : ContractState;
  history : list ContractState;
  block : Z }.

Definition set_store (m : gmap string string) (w : World) : World :=
  mkWorld m (contract_state w) (history w) (block w).

Lemma set_store_id w : set_store (store w) w = w.
Proof. by destruct w. Qed.

(** The worlds differ in the storage only. *)
Definition store_step (w w' : World) : Prop := w' = set_store (store w') w.

#[export] Instance store_step_refl : Reflexive store_step.
Proof. intros w. unfold store_step. by rewrite set_store_id. Qed.
#[export] Instance store_step_trans : Transitive store_step.
Proof. unfold store_step. intros w1 w2 w3 -> ->. done. Qed.

Definition contract_states (w : World) : list ContractState :=
  contract_state w :: history w.

Class EthereumNode := print_hex : Z -> string.

Section world.
Context `{!GoEthereum}.

(** Every request may fail; a failed storage request may have been applied. *)
Definition daemon_contract {X} (e : DaemonE X) (w : World) : X -> World -> Prop :=
  match e in DaemonE X return X -> World -> Prop with
  | StorageEvent e => fun r w' =>
      exists m, storage_contract e (store w) r m /\ w' = set_store m w
  | Channels channelID => fun r w' => w' = w /\
      (is_err r \/ r = Ok (contract_state w (U256 channelID)))
  | Dial => fun r w' => w' = w
  | BlockNumber => fun r w' => w' = w /\
      (is_err r \/ exists s, r = Ok s /\ SetBytes (FromHex s) = block w)
  end.

#[export] Instance DaemonE_contract : Contract DaemonE World :=
  fun X e => daemon_contract e.

(** A world without faults: the in-memory storage, a reachable endpoint whose
    node prints block numbers with [print_hex]. *)
Definition daemon_call `{!EthereumNode} {X} (e : DaemonE X) (w : World)
  : X * World :=
  match e in DaemonE X return X * World with
  | StorageEvent e =>
      let '(r, m) := memoryStorage_call e (store w) in (r, set_store m w)
  | Channels channelID => (Ok (contract_state w (U256 channelID)), w)
  | Dial => (Ok tt, w)
  | BlockNumber => (Ok (print_hex (block w)), w)
  end.

#[export] Instance DaemonE_implementation `{!EthereumNode} : Implementation DaemonE World :=
  fun X e => daemon_call e.

(** The node prints block numbers the way [FromHex] reads them. *)
Definition hex_readable `{!EthereumNode} : Prop :=
  forall b, 0 <= b -> SetBytes (FromHex (print_hex b)) = b.

(** ** Components *)

Definition daemon_storage : AtomicStorage DaemonE :=
  storage_object (fun X (e : StorageE X) => StorageEvent e).

Definition daemon_client : EthereumClient DaemonE := mkEthereumClient (trigger BlockNumber).

Definition daemon_Dial : prog DaemonE (result (EthereumClient DaemonE)) :=
  try! _ := trigger Dial in Ret (Ok daemon_client).

Definition daemon_Channels (channelID : Z) : prog DaemonE (result MultiPartyEscrowChannel) :=
  trigger (Channels channelID).

(** What [NewProcessor] makes when the blockchain is enabled and the endpoint
    reachable. *)
Definition daemon_processor (metadata : ServiceMetadata) : Processor DaemonE :=
  mkProcessor true (GetMpeAddress metadata) daemon_Channels (trigger BlockNumber).

Context `{!EscrowCodec}.

Definition Components_PaymentChannelService (metadata : ServiceMetadata)
  : lockingPaymentChannelService DaemonE :=
  NewPaymentChannelService
    (NewPaymentChannelStorage daemon_storage)
    (NewPaymentStorage daemon_storage)
    (NewBlockchainChannelReader (daemon_processor metadata) metadata)
    (NewEtcdLocker daemon_storage)
    (NewChannelPaymentValidator (daemon_processor metadata) metadata)
    (GetDaemonGroupID metadata, None).

Definition Components_EscrowPaymentHandler (metadata : ServiceMetadata)
  : paymentChannelPaymentHandler DaemonE :=
  NewPaymentHandler
    (lockingPaymentChannelService_object (Components_PaymentChannelService metadata))
    (daemon_processor metadata)
    (NewIncomeValidator (GetPriceInCogs metadata)).

(** Without the blockchain the calls are not checked. *)
Definition Components_GrpcPaymentValidationInterceptor (blockchainEnabled : bool)
    (metadata : ServiceMetadata) (md : option MD) (handler : prog DaemonE (result unit))
  : prog DaemonE (result unit) :=
  if negb blockchainEnabled then NoOpInterceptor handler
  else
    GrpcPaymentValidationInterceptor
      (paymentChannelPaymentHandler_object (Components_EscrowPaymentHandler metadata)) []
      md handler.

Definition Components_PaymentChannelStateService (metadata : ServiceMetadata)
  : PaymentChannelStateService DaemonE :=
  NewPaymentChannelStateService
    (lockingPaymentChannelService_object (Components_PaymentChannelService metadata)).

Definition Components_ProviderControlService (metadata : ServiceMetadata)
  : ProviderControlService DaemonE :=
  NewProviderControlService
    (lockingPaymentChannelService_object (Components_PaymentChannelService metadata))
    metadata daemon_Dial.

(** ** Lemmas *)

#[export] Instance daemon_storage_spec : StorageSpec daemon_storage store store_step.
Proof.
  intros X e w. destruct e; intros x w' (m & Hm & ->); exists x; (split; [done|]); by split.
Qed.

End world.

(** [NewProcessor] makes the processor of the components. *)
Lemma NewProcessor_daemon `{!GoEthereum} metadata w :
  wp (NewProcessor true daemon_Dial (fun _ _ => Ok daemon_Channels) (GetMpeAddress metadata))
     (fun o w' => w' = w /\ exists p err, o = Returned (p, err) /\
        (err = None -> p = daemon_processor metadata)) w.
Proof.
  unfold NewProcessor, GetEthereumClient, daemon_Dial. simpl. intros [[]|e] w' ->; simpl.
  - split; [done|]. eauto.
  - split; [done|]. do 2 eexists. split; [done|]. discriminate.
Qed.
