(* ===== verification/Reference.v ===== *)
(** * Reference instances

    Concrete functions for the interfaces of code outside the repository, used
    by the examples and witnesses: a codec of the stored types, and a toy
    go-ethereum whose signature carries the signer's address and a checksum of
    the signed hash. The theorems hold for every instance that keeps the laws;
    these show that the laws can be kept. *)
From stdpp Require Import countable.
From S2P Require Import Prelude Prog Bytes AtomicStorage Blockchain PaymentChannelApi.
From S2P Require Import PaymentChannelStorage Validation World.
Import Payment (Payment) PaymentChannelData (PaymentChannelData).
Local Open Scope Z_scope.

(** ** A codec: values as lists of numbers, printed as one decimal number *)

Definition print_numbers (l : list Z) : string := pretty (Zpos (encode l)).

Definition parse_numbers (s : string) : option (list Z) :=
  match Int_UnmarshalText s with
  | Some (Zpos p) => decode p
  | _ => None
  end.

Lemma parse_print_numbers l : parse_numbers (print_numbers l) = Some l.
Proof. unfold parse_numbers, print_numbers. by rewrite Int_UnmarshalText_pretty, decode_encode. Qed.

Definition numbers_codec {T} (to : T -> list Z) (from : list Z -> option T) : GobCodec T := {|
  gob_encode x := Ok (print_numbers (to x));
  gob_decode s :=
    match parse_numbers s with
    | None => Err (ErrorString "malformed data")
    | Some l => match from l with
                | None => Err (ErrorString "malformed data")
                | Some x => Ok x
                end
    end |}.

Lemma numbers_codec_laws {T} (to : T -> list Z) from norm :
  (forall x, from (to x) = Some (norm x)) ->
  @GobLaws T (numbers_codec to from) norm.
Proof.
  intros Hof. split.
  - intros x. by eexists.
  - intros x s [= <-]. simpl. by rewrite parse_print_numbers, Hof.
Qed.

Definition array_number {n} (a : vec byte n) : Z := SetBytes (vec_to_list a).
Definition number_array (n : nat) (z : Z) : vec byte n := copy_array n (be_bytes n z).

Lemma number_array_number {n} (a : vec byte n) : number_array n (array_number a) = a.
Proof.
  unfold number_array, array_number. rewrite <-(copy_array_vec n a) at 2. f_equal.
  rewrite <-(length_vec_to_list a) at 1. apply be_bytes_SetBytes.
Qed.

Definition slice_numbers (s : option bytes) : list Z := byte_val <$> default [] s.
Definition numbers_slice (l : list Z) : option bytes :=
  match l with [] => None | _ => Some (byte_of <$> l) end.

Lemma bytes_of_vals (l : bytes) : byte_of <$> (byte_val <$> l) = l.
Proof.
  rewrite <-list_fmap_compose. rewrite <-(list_fmap_id l) at 2.
  apply list_fmap_ext. intros i b _. apply byte_of_val.
Qed.

Lemma numbers_slice_numbers s : numbers_slice (slice_numbers s) = norm_slice s.
Proof.
  destruct s as [[|b l]|]; [done| |done]. unfold slice_numbers. cbn [default from_option id].
  simpl. by rewrite byte_of_val, bytes_of_vals.
Qed.

Definition key_numbers (k : PaymentChannelKey) : list Z := [PaymentChannelKey_ID k].
Definition numbers_key (l : list Z) : option PaymentChannelKey :=
  match l with [id] => Some (mkPaymentChannelKey id) | _ => None end.

Definition string_numbers (s : string) : list Z := byte_val <$> bytes_of_string s.
Definition numbers_string (l : list Z) : option string :=
  Some (string_of_bytes (byte_of <$> l)).

Definition payment_numbers (p : Payment) : list Z :=
  array_number (Payment.MpeContractAddress p) :: Payment.ChannelID p
  :: Payment.ChannelNonce p :: Payment.Amount p :: slice_numbers (Payment.Signature p).
Definition numbers_payment (l : list Z) : option Payment :=
  match l with
  | mpe :: id :: nonce :: amount :: sig =>
      Some (Payment.mk (number_array 20 mpe) id nonce amount (numbers_slice sig))
  | _ => None
  end.

Definition channel_numbers (c : PaymentChannelData) : list Z :=
  PaymentChannelData.ChannelID c :: PaymentChannelData.Nonce c
  :: PaymentChannelData.State c :: array_number (PaymentChannelData.Sender c)
  :: array_number (PaymentChannelData.Recipient c)
  :: array_number (PaymentChannelData.GroupID c) :: PaymentChannelData.FullAmount c
  :: PaymentChannelData.Expiration c :: array_number (PaymentChannelData.Signer c)
  :: PaymentChannelData.AuthorizedAmount c
  :: slice_numbers (PaymentChannelData.Signature c).
Definition numbers_channel (l : list Z) : option PaymentChannelData :=
  match l with
  | id :: nonce :: state :: sender :: recipient :: group :: full :: expiration :: signer
    :: auth :: sig =>
      Some (PaymentChannelData.mk id nonce state (number_array 20 sender)
        (number_array 20 recipient) (number_array 32 group) full expiration
        (number_array 20 signer) auth (numbers_slice sig))
  | _ => None
  end.

#[export] Instance reference_codec : EscrowCodec := {|
  key_codec := numbers_codec key_numbers numbers_key;
  channel_codec := numbers_codec channel_numbers numbers_channel;
  string_codec := numbers_codec string_numbers numbers_string;
  payment_codec := numbers_codec payment_numbers numbers_payment |}.

#[export] Instance reference_codec_laws : EscrowCodecLaws.
Proof.
  split; apply numbers_codec_laws.
  - by intros [].
  - intros [id nonce state sender recipient group full expiration signer auth sig].
    cbn [channel_numbers numbers_channel PaymentChannelData.ChannelID PaymentChannelData.Nonce
      PaymentChannelData.State PaymentChannelData.Sender PaymentChannelData.Recipient
      PaymentChannelData.GroupID PaymentChannelData.FullAmount PaymentChannelData.Expiration
      PaymentChannelData.Signer PaymentChannelData.AuthorizedAmount
      PaymentChannelData.Signature].
    by rewrite !number_array_number, numbers_slice_numbers.
  - intros s. unfold numbers_string, string_numbers. rewrite bytes_of_vals.
    f_equal. apply String.string_of_list_byte_of_string.
  - intros [mpe id nonce amount sig].
    cbn [payment_numbers numbers_payment Payment.MpeContractAddress Payment.ChannelID
      Payment.ChannelNonce Payment.Amount Payment.Signature].
    by rewrite number_array_number, numbers_slice_numbers.
Qed.

(** ** A toy go-ethereum *)

(** The signature: the signer's address, a checksum of the hash, padding. *)
Definition checksum (hash : bytes) : byte := byte_of (foldl (fun acc b => acc * 7 + byte_val b) 1 hash).

Definition toy_SigToPub (hash signature : bytes) : result bytes :=
  if decide (signature !! 20%nat = Some (checksum hash)) then Ok (take 20 signature)
  else Err (ErrorString "recovery failed").

Definition toy_sign (signer : Address) (hash : bytes) : bytes :=
  vec_to_list signer ++ checksum hash :: replicate 44 Byte.x00.

#[export] Instance reference_GoEthereum : GoEthereum := {|
  BigToHash v := copy_array 32 (be_bytes 32 (Z.abs v));
  U256 v := be_bytes 32 v;
  Keccak256 m := m;
  SigToPub := toy_SigToPub;
  PubkeyToAddress p := copy_array 20 p;
  HexToAddress s := copy_array 20 (bytes_of_string s);
  FromHex := bytes_of_string;
  Address_Hex a := string_of_bytes (vec_to_list a) |}.

Lemma vec_to_list_copy_array n l : length l = n -> vec_to_list (copy_array n l) = l.
Proof.
  intros <-. apply list_eq. intros i.
  destruct (decide (i < length l)%nat) as [Hi|Hi].
  - destruct (lookup_lt_is_Some_2 l i Hi) as [b Hb].
    transitivity (Some (copy_array (length l) l !!! nat_to_fin Hi)).
    + apply vlookup_lookup'. by exists Hi.
    + unfold copy_array. rewrite lookup_fun_to_vec, fin_to_nat_to_fin, Hb. done.
  - rewrite !lookup_ge_None_2; [done|lia|rewrite length_vec_to_list; lia].
Qed.

#[export] Instance reference_GoEthereum_laws : GoEthereumLaws.
Proof. split; [|done]. intros v. apply vec_to_list_copy_array, length_be_bytes. Qed.

(** A node that prints block numbers as bytes. *)
#[export] Instance reference_node : EthereumNode := fun b =>
  string_of_bytes (be_bytes (S (Z.to_nat (Z.log2 b))) b).

Lemma reference_hex_readable : hex_readable.
Proof.
  intros b Hb. change (FromHex ?s) with (bytes_of_string s).
  unfold print_hex, reference_node,
    bytes_of_string, string_of_bytes. rewrite String.list_byte_of_string_of_list_byte.
  rewrite SetBytes_be_bytes, Z.mod_small; [done|]. split; [done|].
  destruct (decide (b = 0)) as [->|Hne]; [done|].
  pose proof (Z.log2_spec b ltac:(lia)) as [_ Hlog]. pose proof (Z.log2_nonneg b).
  eapply Z.lt_le_trans; [exact Hlog|].
  rewrite Nat2Z.inj_succ, Z2Nat.id by done.
  apply Z.pow_le_mono_l. lia.
Qed.
