(* ===== verification/Concurrency.v ===== *)
(** * Rely and guarantee of the daemon's requests

    The state of the daemon as its concurrent requests see it: the world and,
    for every channel, the request that holds its lock. The guarantee of a
    request says how it may change the records of channels and of claims; the
    invariant says what is true of the records at all times. *)
From S2P Require Import Prelude Prog Bytes AtomicStorage Lock Blockchain PaymentChannelApi.
From S2P Require Import PaymentChannelStorage Validation Escrow World RelyGuarantee.
Import AtomicStorage.
Import Payment (Payment) PaymentChannelData (PaymentChannelData)
  ServiceMetadata (ServiceMetadata).
Local Open Scope Z_scope.

(** The owner of a channel's lock is not part of the storage, which only has
    the word "locked": it is read off the transitions of that entry, with the
    world in which the lock was taken. *)
Record State := mkState { world : World; locks : Z -> option (nat * World) }.

Definition owner (s : State) (id : Z) : option nat := fst <$> locks s id.

(** The world in which the lock of the channel was taken; of a channel that is
    not locked, the present one. *)
Definition lock_world (s : State) (id : Z) : World := default (world s) (snd <$> locks s id).

(** Time passes from [w] to [w']: blocks are mined, the contract changes, and its
    earlier states are kept. *)
Definition grown (w w' : World) : Prop :=
  contract_states w `suffix_of` contract_states w' /\ block w <= block w'.

Definition channel_key (id : Z) : PaymentChannelKey := mkPaymentChannelKey id.

Definition lock_key (id : Z) : string :=
  prefixed_key locker_prefix (PaymentChannelKey_String (channel_key id)).

Definition without_lock (id : Z) (w : World) : World :=
  set_store (delete (lock_key id) (store w)) w.

Definition next_owner {A} (a : A) (m m' : gmap string string) (o : Z -> option A) (id : Z)
  : option A :=
  if decide (m' !! lock_key id = Some locked) then
    if decide (m !! lock_key id = Some locked) then o id else Some a
  else None.

(** A read leaves the owners alone. *)
Definition next_owners {A} (a : A) (m m' : gmap string string) (o : Z -> option A)
  : Z -> option A :=
  if decide (m' = m) then o else next_owner a m m' o.

Definition next (t : nat) (s : State) (w : World) : State :=
  mkState w (next_owners (t, world s) (store (world s)) (store w) (locks s)).

Lemma next_same t s : next t s (world s) = s.
Proof. destruct s. unfold next, next_owners. by rewrite decide_True. Qed.

(** What a request owns when it stops is nobody's. *)
Definition disown (t : nat) (s : State) : State :=
  mkState (world s) (fun id => if decide (owner s id = Some t) then None else locks s id).

Section daemon.
Context `{!GoEthereum, !EscrowCodec} (metadata : ServiceMetadata).

Definition stored (s : State) (id : Z) : result (option PaymentChannelData) :=
  stored_channel (store (world s)) (channel_key id).

(** The claim of a channel and nonce. *)
Definition claim_id (id nonce : Z) : string :=
  Payment_ID (Payment.mk (zero_array 20) id nonce 0 None).

Definition claimed (s : State) (id nonce : Z) : result (option Payment) :=
  stored_payment (store (world s)) (claim_id id nonce).

(** The answer of the contract in the state [c]. *)
Definition blockchain_answer (c : ContractState) (id : Z)
  : result (option PaymentChannelData) :=
  let ch := c (U256 id) in
  if decide (MultiPartyEscrowChannel.Sender ch = zeroAddress) then Ok None
  else if decide (GetPaymentAddress metadata <> MultiPartyEscrowChannel.Recipient ch)
  then Err (ErrorString ("recipient Address from service metadata does not Match"
              +:+ " on what was retrieved from Channel"))
  else Ok (Some (channel_of_blockchain (channel_key id) ch)).

(** An answer the contract gave at a moment between the world [w] and now, or an
    error of the connection. *)
Definition chain_answer (w : World) (s : State) (id : Z)
    (r : result (option PaymentChannelData)) : Prop :=
  is_err r \/ exists w', grown w w' /\ grown w' (world s) /\
    r = blockchain_answer (contract_state w') id.

(** The latest block at a moment between the world [w] and now is so far before
    the expiration of the channel as the metadata of the service say. *)
Definition unexpired (w : World) (s : State) (c : PaymentChannelData) : Prop :=
  exists threshold b, GetPaymentExpirationThreshold metadata = Some threshold /\
    block w <= b <= block (world s) /\ not_near_expiration b threshold c.

(** ** What a request may do to a channel record *)

(** A request that has held the lock since the world [w] accepts the payment [p]
    for the channel [id] with the stored record [old]: the payment passes all the
    checks, made since then, against the current state [c] of the channel and adds
    exactly the price to the authorized amount. *)
Record payment_accepted (w : World) (s : State) (id : Z) (old : option PaymentChannelData)
    (p : Payment) (c : PaymentChannelData) : Prop := {
  accepted_current : exists answer, chain_answer w s id answer /\
    current_channel (GetDaemonGroupID metadata) old answer = Ok (Some c);
  accepted_mpe : Payment.MpeContractAddress p = GetMpeAddress metadata;
  accepted_id : Payment.ChannelID p = id;
  accepted_fits : payment_fits p c;
  accepted_expiration : unexpired w s c;
  accepted_price : exists price, GetPriceInCogs metadata = Some price /\
    Payment.Amount p = PaymentChannelData.AuthorizedAmount c + price }.

(** Either a payment of the current state of the channel, or the start of a
    claim on the stored state. *)
Inductive channel_update (s : State) (id : Z) (old : option PaymentChannelData)
  : PaymentChannelData -> Prop :=
| update_pay p c :
    payment_accepted (lock_world s id) s id old p c ->
    channel_update s id old (norm_channel (committed_channel p c))
| update_claim c :
    old = Some c ->
    channel_update s id old (norm_channel (IncrementChannelNonce c)).

Definition legal_update (s : State) (id : Z) (s' : State) : Prop :=
  exists old new, stored s id = Ok old /\ stored s' id = Ok (Some new) /\
                  channel_update s id old new.

(** ** Records that can be claimed *)

(** The signature in a record is what the contract asks for the amount: the
    payment that [Validate] accepted. *)
Definition signed (id nonce amount : Z) (signature : option bytes) (signer : Address)
  : Prop :=
  (amount = 0 /\ signature = None) \/
  getSignerAddressFromPayment
    (Payment.mk (GetMpeAddress metadata) id nonce amount signature) = Ok signer.

Definition channel_ok (id : Z) (c : PaymentChannelData) : Prop :=
  PaymentChannelData.ChannelID c = id /\
  0 <= PaymentChannelData.AuthorizedAmount c <= PaymentChannelData.FullAmount c /\
  signed id (PaymentChannelData.Nonce c) (PaymentChannelData.AuthorizedAmount c)
    (PaymentChannelData.Signature c) (PaymentChannelData.Signer c).

(** ** What a request may do to a claim record

    The owner of the lock writes the claim of the state it has just replaced,
    where there was none; a claim is removed when the blockchain has seen a
    later nonce. *)
Inductive claim_update (t : nat) (s : State) (id nonce : Z) (s' : State) : Prop :=
| update_start c :
    owner s id = Some t ->
    PaymentChannelData.Nonce c = nonce ->
    channel_ok id c ->
    stored s id = Ok (Some (norm_channel (IncrementChannelNonce c))) ->
    (forall p, claimed s id nonce <> Ok (Some p)) ->
    claimed s' id nonce = Ok (Some (norm_payment (getPaymentFromChannel c))) ->
    claim_update t s id nonce s'
| update_finish c :
    In c (contract_states (world s)) ->
    nonce < MultiPartyEscrowChannel.Nonce (c (U256 id)) ->
    claimed s' id nonce = Ok None ->
    claim_update t s id nonce s'.

(** ** The invariant *)

Definition claim_ok (s : State) (id nonce : Z) (p : Payment) : Prop :=
  Payment.ChannelID p = id /\ Payment.ChannelNonce p = nonce /\ 0 <= Payment.Amount p /\
  (exists signer, signed id nonce (Payment.Amount p) (Payment.Signature p) signer) /\
  exists c, stored s id = Ok (Some c) /\ nonce < PaymentChannelData.Nonce c.

(** The numbers of the contract are unsigned. *)
Definition contract_ok (c : ContractState) : Prop :=
  forall i, 0 <= MultiPartyEscrowChannel.Value (c i).

Record state_ok (s : State) : Prop := {
  ok_owner id t : owner s id = Some t ->
    store (world s) !! lock_key id = Some locked;
  ok_lock_world id : grown (lock_world s id) (world s);
  ok_contract c : In c (contract_states (world s)) -> contract_ok c;
  ok_channel id c : stored s id = Ok (Some c) -> channel_ok id c;
  ok_claim id nonce p : claimed s id nonce = Ok (Some p) -> claim_ok s id nonce p }.

(** ** Rely and guarantee *)

Record guarantee (t : nat) (s s' : State) : Prop := {
  guar_grown : grown (world s) (world s');
  guar_ok : state_ok s -> state_ok s';
  guar_locks id u : owner s id = Some u -> u <> t -> locks s' id = locks s id;
  guar_locked id : store (world s) !! lock_key id = Some locked -> owner s id <> Some t ->
    store (world s') !! lock_key id = Some locked /\ locks s' id = locks s id;
  guar_channel id : stored s' id = stored s id \/
    (owner s id = Some t /\ legal_update s id s');
  guar_claim id nonce : claimed s' id nonce = claimed s id nonce \/
    claim_update t s id nonce s' }.

Record rely (t : nat) (s s' : State) : Prop := {
  rely_grown : grown (world s) (world s');
  rely_ok : state_ok s -> state_ok s';
  rely_locks id : owner s id = Some t -> locks s' id = locks s id;
  rely_channel id : owner s id = Some t -> stored s' id = stored s id;
  rely_claim id nonce : owner s id = Some t ->
    claimed s' id nonce = claimed s id nonce \/ claimed s' id nonce = Ok None }.

(** Blocks are mined and transactions change the contract. The storage is changed
    by the requests, and by the operator: the unlock command removes the lock of a
    channel whose owner has stopped. *)
Inductive environment_step (s : State) : State -> Prop :=
| env_block b :
    block (world s) <= b ->
    environment_step s
      (mkState (mkWorld (store (world s)) (contract_state (world s))
                  (history (world s)) b) (locks s))
| env_contract c :
    contract_ok c ->
    environment_step s
      (mkState (mkWorld (store (world s)) c (contract_states (world s))
                  (block (world s))) (locks s))
| env_unlock id :
    owner s id = None ->
    environment_step s
      (mkState (without_lock id (world s)) (locks s)).

(** A write of the record of a channel that was applied is a legal update by the
    owner of its lock, also when it leaves the record as it was. *)
Definition writes_legally (t : nat) {X} (e : DaemonE X) (s : State) : X -> State -> Prop :=
  match e in DaemonE X return X -> State -> Prop with
  | StorageEvent e =>
      match e in StorageE X return X -> State -> Prop with
      | SPut k v => fun x s' => x = Ok tt ->
          forall id c, (forall m, <[k := v]> m = put_channel (channel_key id) c m) ->
          owner s id = Some t /\ legal_update s id s'
      | _ => fun _ _ => True
      end
  | _ => fun _ _ => True
  end.

Definition daemon_rely_guarantee : RelyGuarantee DaemonE State := {|
  thread_step t X e s x s' := exists w, contract e (world s) x w /\ s' = next t s w;
  stop_step t s s' := s' = disown t s;
  env_step := environment_step;
  Inv := state_ok;
  Rely := rely;
  Guar t X e s x s' := guarantee t s s' /\ writes_legally t e s x s' |}.

End daemon.

(** ** Owners *)

Section owners.
Context {A : Type}.
Implicit Types (a b : A) (o : Z -> option A).

Lemma next_owners_taken a m m' o id :
  m !! lock_key id <> Some locked -> m' !! lock_key id = Some locked ->
  next_owners a m m' o id = Some a.
Proof.
  intros Hm Hm'. unfold next_owners, next_owner. rewrite decide_False by congruence.
  by rewrite decide_True, decide_False.
Qed.

Lemma next_owners_self a m m' o id b :
  next_owners a m m' o id = Some b -> m' !! lock_key id = m !! lock_key id -> o id = Some b.
Proof.
  unfold next_owners, next_owner. destruct (decide (m' = m)); [done|]. intros Ho Heq.
  rewrite Heq in Ho. by destruct (decide _).
Qed.

Lemma next_owners_cases a m m' o id b :
  next_owners a m m' o id = Some b -> o id = Some b \/ a = b.
Proof.
  unfold next_owners, next_owner. destruct (decide (m' = m)); [by left|].
  destruct (decide _); [|done]. destruct (decide _); [by left|]. intros [= ->]. by right.
Qed.

Lemma next_owners_locked a m m' o id b :
  (o id = Some b -> m !! lock_key id = Some locked) ->
  next_owners a m m' o id = Some b -> m' !! lock_key id = Some locked.
Proof.
  unfold next_owners, next_owner. destruct (decide (m' = m)) as [->|]; [auto|]. by case_decide.
Qed.

Lemma next_owners_kept a m m' o id :
  m !! lock_key id = Some locked -> m' !! lock_key id = Some locked ->
  next_owners a m m' o id = o id.
Proof.
  intros Hm Hm'. unfold next_owners, next_owner. destruct (decide (m' = m)); [done|].
  by rewrite !decide_True.
Qed.
End owners.

Lemma owner_Some s id t : owner s id = Some t <-> exists w, locks s id = Some (t, w).
Proof.
  unfold owner. destruct (locks s id) as [[u w]|]; simpl; split; [|by intros (w' & [= -> _])|done|by intros []].
  intros [= ->]. by exists w.
Qed.

(** The owners change as the locks do. *)
Lemma owner_next t s w id :
  owner (next t s w) id = next_owners t (store (world s)) (store w) (owner s) id.
Proof. unfold owner. simpl. unfold next_owners, next_owner. by repeat case_decide. Qed.

(** Time. *)
Lemma grown_refl w : grown w w.
Proof. by split. Qed.

Lemma grown_trans w1 w2 w3 : grown w1 w2 -> grown w2 w3 -> grown w1 w3.
Proof. intros [Hs Hb] [Hs' Hb']. split; [by etrans|lia]. Qed.

(** A change of the storage only. *)
Lemma grown_store m w : grown w (set_store m w).
Proof. by split. Qed.

#[export] Instance grown_preorder : PreOrder grown.
Proof. split; [intros w; apply grown_refl|intros w1 w2 w3; apply grown_trans]. Qed.

Lemma grown_contract w w' : grown w w' -> In (contract_state w) (contract_states w').
Proof. intros [[l Hl] _]. rewrite Hl. apply in_or_app. right. by left. Qed.

Lemma grown_contracts w w' : grown w w' -> incl (contract_states w) (contract_states w').
Proof. intros [[l ->] _] c Hc. apply in_or_app. by right. Qed.

Lemma lock_world_same s s' id :
  is_Some (locks s id) -> locks s' id = locks s id -> lock_world s' id = lock_world s id.
Proof. intros [[t w] Hw] Heq. unfold lock_world. by rewrite Heq, Hw. Qed.

Lemma owner_locks s id t : owner s id = Some t -> is_Some (locks s id).
Proof. intros [w Hw]%owner_Some. by eexists. Qed.

Lemma lock_key_inj id id' : lock_key id = lock_key id' -> id = id'.
Proof. unfold lock_key. intros Heq%(inj _)%(inj _). by simplify_eq. Qed.

(** ** Channel records *)

Section records.
Context `{!GoEthereum, !EscrowCodec, !EscrowCodecLaws} (metadata : ServiceMetadata).
Hypothesis price_nonneg :
  forall price, GetPriceInCogs metadata = Some price -> 0 <= price.

Lemma norm_slice_signed payment a :
  getSignerAddressFromPayment payment = Ok a ->
  norm_slice (Payment.Signature payment) = Payment.Signature payment.
Proof.
  intros Ha. destruct (signed_signature payment a Ha) as (s & -> & Hs). by destruct s.
Qed.

Lemma signed_norm id nonce amount signature signer :
  signed metadata id nonce amount signature signer ->
  signed metadata id nonce amount (norm_slice signature) signer.
Proof.
  intros [[-> ->]|Hs]; [by left|right]. pose proof (norm_slice_signed _ _ Hs) as Hn.
  simpl in Hn. by rewrite Hn.
Qed.

Lemma channel_ok_norm id c : channel_ok metadata id c -> channel_ok metadata id (norm_channel c).
Proof. intros (Hid & Hb & Hs). split; [done|]. split; [done|]. by apply signed_norm. Qed.

(** The key spaces of locks, channels and claims do not meet. *)
Lemma stored_write_lock m id v key :
  stored_channel (<[lock_key id := v]> m) key = stored_channel m key.
Proof. by apply stored_channel_other, prefix_disjoint. Qed.

Lemma claimed_write_lock m id v pid :
  stored_payment (<[lock_key id := v]> m) pid = stored_payment m pid.
Proof. by apply stored_payment_other, prefix_disjoint. Qed.

Lemma stored_delete_lock m id key :
  stored_channel (delete (lock_key id) m) key = stored_channel m key.
Proof. by apply stored_channel_delete_other, prefix_disjoint. Qed.

Lemma claimed_delete_lock m id pid :
  stored_payment (delete (lock_key id) m) pid = stored_payment m pid.
Proof. by apply stored_payment_delete_other, prefix_disjoint. Qed.

(** Blockchain and operator leave the records alone, and the owners. *)
Lemma environment_records s s' :
  environment_step s s' ->
  (forall id, stored s' id = stored s id) /\
  (forall id nonce, claimed s' id nonce = claimed s id nonce) /\ locks s' = locks s.
Proof.
  intros [b Hb|c Hc|id Hid]; [done..|]. split; [|split; [|done]].
  - intros id'. apply stored_delete_lock.
  - intros id' n. apply claimed_delete_lock.
Qed.

(** The current state of a channel: its id and amount, and how far it is from
    the stored state. *)
Lemma current_channel_ok w s id old answer c :
  state_ok metadata s -> stored s id = Ok old -> chain_answer metadata w s id answer ->
  current_channel (GetDaemonGroupID metadata) old answer = Ok (Some c) ->
  PaymentChannelData.ChannelID c = id /\ 0 <= PaymentChannelData.AuthorizedAmount c /\
  forall sc, old = Some sc -> PaymentChannelData.Nonce sc <= PaymentChannelData.Nonce c /\
    (PaymentChannelData.Nonce sc = PaymentChannelData.Nonce c ->
     PaymentChannelData.AuthorizedAmount sc = PaymentChannelData.AuthorizedAmount c).
Proof.
  intros Hs Hold Hans Hc.
  assert (forall bc, answer = Ok (Some bc) -> PaymentChannelData.ChannelID bc = id /\
            PaymentChannelData.AuthorizedAmount bc = 0) as Hbc.
  { intros bc ->. destruct Hans as [[]|(w' & _ & _ & Ha)]. unfold blockchain_answer in Ha.
    destruct (decide _); [done|]. destruct (decide _); [done|]. by simplify_eq. }
  assert (forall sc, old = Some sc -> PaymentChannelData.ChannelID sc = id /\
            0 <= PaymentChannelData.AuthorizedAmount sc) as Hsc.
  { intros sc ->. destruct (ok_channel _ _ Hs id sc Hold) as (? & ? & ?). split; [done|lia]. }
  apply current_channel_inv in Hc as [(bc & -> & Hb & _ & ->)|[(sc & -> & ->)|
    (sc & bc & -> & Hb & ->)]].
  - destruct (Hbc bc Hb) as [? ->]. split; [done|]. split; [lia|]. done.
  - destruct (Hsc sc eq_refl). split; [done|]. split; [done|]. by intros ? [= ->].
  - destruct (Hsc sc eq_refl), (Hbc bc Hb) as [? Hz].
    unfold MergeStorageAndBlockchainChannelState.
    destruct (Z.compare_spec (PaymentChannelData.Nonce sc) (PaymentChannelData.Nonce bc));
      simpl; (split; [done|]); (split; [lia|]); intros ? [= <-]; split; try lia; done.
Qed.

(** The record that a request writes satisfies the invariant, and its nonce
    does not decrease. *)
Lemma channel_update_ok s id old new :
  state_ok metadata s -> stored s id = Ok old -> channel_update metadata s id old new ->
  channel_ok metadata id new /\
  forall sc, old = Some sc -> PaymentChannelData.Nonce sc <= PaymentChannelData.Nonce new.
Proof.
  intros Hs Hold [p c [(answer & Hans & Hc) Hm Hid Hfit _ (price & Hprice & Ha)]|c ->].
  - destruct (current_channel_ok _ _ _ _ _ _ Hs Hold Hans Hc) as (Hcid & Hcauth & Hmono).
    pose proof (price_nonneg _ Hprice). destruct Hfit as (Hnonce & Hsigner & Hfull).
    split; [|intros sc Hsc; simpl; by apply Hmono].
    apply channel_ok_norm. split; [done|]. simpl. split; [lia|]. right.
    rewrite <-Hsigner. f_equal. destruct p; simpl in *. congruence.
  - pose proof (ok_channel _ _ Hs id c Hold) as (Hcid & Hb & _).
    split; [|intros sc [= <-]; simpl; lia].
    apply channel_ok_norm. split; [done|]. simpl. split; [lia|by left].
Qed.

Lemma claim_started_ok s id c :
  state_ok metadata s -> channel_ok metadata id c ->
  stored s id = Ok (Some (norm_channel (IncrementChannelNonce c))) ->
  claim_ok metadata s id (PaymentChannelData.Nonce c) (norm_payment (getPaymentFromChannel c)).
Proof.
  intros Hs (Hid & Hb & Hsig) Hst. split; [done|]. split; [done|]. simpl. split; [lia|].
  split; [|eexists; split; [done|simpl; lia]].
  eexists. by apply signed_norm.
Qed.
End records.

(** ** The logic of the daemon's requests *)

Section logic.
Context `{!GoEthereum, !EscrowCodec, !EscrowCodecLaws} (metadata : ServiceMetadata).
Hypothesis price_nonneg :
  forall price, GetPriceInCogs metadata = Some price -> 0 <= price.

#[local] Instance logic : RelyGuarantee DaemonE State := daemon_rely_guarantee metadata.

Lemma chain_answer_grows w s s' id r :
  grown (world s) (world s') -> chain_answer metadata w s id r -> chain_answer metadata w s' id r.
Proof.
  intros Hg [He|(w' & Hw & Hw' & Hr)]; [by left|right]. exists w'. split; [done|].
  split; [by etrans|done].
Qed.

Lemma unexpired_grows w s s' c :
  grown (world s) (world s') -> unexpired metadata w s c -> unexpired metadata w s' c.
Proof.
  intros [_ Hg] (threshold & b & Ht & Hb & Hc). exists threshold, b. split; [done|].
  split; [lia|done].
Qed.

(** Blocks are only added, so the channel was far enough from its expiration in the
    world [w] already. *)
Lemma unexpired_then w s c :
  grown w (world s) ->
  unexpired metadata w s c <-> exists threshold,
    GetPaymentExpirationThreshold metadata = Some threshold /\
    not_near_expiration (block w) threshold c.
Proof.
  intros [_ Hg]. split.
  - intros (threshold & b & Ht & Hb & Hc). exists threshold. split; [done|].
    unfold not_near_expiration in *. lia.
  - intros (threshold & Ht & Hc). exists threshold, (block w). split; [done|]. split; [lia|done].
Qed.

(** The moments after [w] are after an earlier world too. *)
Lemma chain_answer_since w w' s id r :
  grown w w' -> chain_answer metadata w' s id r -> chain_answer metadata w s id r.
Proof. intros Hg [He|(w1 & Hw & ?)]; [by left|right]. exists w1. split; [by etrans|done]. Qed.

Lemma unexpired_since w w' s c :
  grown w w' -> unexpired metadata w' s c -> unexpired metadata w s c.
Proof.
  intros [_ Hg] (threshold & b & Ht & Hb & Hc). exists threshold, b. split; [done|].
  split; [lia|done].
Qed.

(** The invariant of the same records and claims. *)
Lemma state_ok_same_records s s' :
  state_ok metadata s ->
  grown (world s) (world s') ->
  (forall c, In c (contract_states (world s')) -> contract_ok c) ->
  (forall id, stored s' id = stored s id) ->
  (forall id nonce, claimed s' id nonce = claimed s id nonce) ->
  (forall id, locks s' id = None \/ locks s' id = locks s id /\
     (store (world s) !! lock_key id = Some locked -> store (world s') !! lock_key id = Some locked)) ->
  state_ok metadata s'.
Proof.
  intros Hs Hg Hk Hst Hcl Ho. split; [| |exact Hk|..].
  - intros id t [w Hw]%owner_Some. destruct (Ho id) as [?|[Heq Hl]]; [congruence|].
    apply Hl, (ok_owner _ _ Hs id t), owner_Some. exists w. congruence.
  - intros id. unfold lock_world. destruct (Ho id) as [->|[-> _]]; [apply grown_refl|].
    pose proof (ok_lock_world _ _ Hs id) as Hw. unfold lock_world in Hw.
    destruct (locks s id) as [[t w]|]; simpl in *; [by etrans|apply grown_refl].
  - intros id c. rewrite Hst. apply Hs.
  - intros id n p. rewrite Hcl. intros (? & ? & ? & ? & c & Hc & Hn)%(ok_claim _ _ Hs).
    repeat (split; [done|]). exists c. by rewrite Hst.
Qed.

Lemma rely_owner t s s' id : rely metadata t s s' -> owner s id = Some t -> owner s' id = Some t.
Proof. intros Hr Ho. rewrite <-Ho. unfold owner. by rewrite (rely_locks _ _ _ _ Hr). Qed.

Lemma rely_lock_world t s s' id :
  rely metadata t s s' -> owner s id = Some t -> lock_world s' id = lock_world s id.
Proof.
  intros Hr Ho. apply lock_world_same; [by eapply owner_locks|by apply (rely_locks _ _ _ _ Hr)].
Qed.

Lemma guar_owner t s s' id u :
  guarantee metadata t s s' -> owner s id = Some u -> u <> t -> owner s' id = Some u.
Proof. intros Hg Ho Hu. rewrite <-Ho. unfold owner. by rewrite (guar_locks _ _ _ _ Hg id u). Qed.

Lemma daemon_rely_refl t s : rely metadata t s s.
Proof. split; auto using grown_refl. Qed.

Lemma daemon_rely_trans t s1 s2 s3 :
  rely metadata t s1 s2 -> rely metadata t s2 s3 -> rely metadata t s1 s3.
Proof.
  intros R1 R2. pose proof (fun id => rely_owner _ _ _ id R1) as O1.
  destruct R1 as [G1 K1 L1 C1 P1], R2 as [G2 K2 L2 C2 P2]. split; [by etrans|auto|..].
  - intros id Hid. rewrite L2, L1; auto.
  - intros id Hid. rewrite C2, C1; auto.
  - intros id n Hid. destruct (P2 id n (O1 id Hid)) as [->|]; auto.
Qed.

(** The guarantee of the others implies what a thread relies on. *)
Lemma daemon_guar_rely t u s s' :
  t <> u -> guarantee metadata u s s' -> rely metadata t s s'.
Proof.
  intros Htu [Hh K O _ C P]. split; [done|done|by eauto|..].
  - intros id Hid. destruct (C id) as [?|[Hu _]]; [done|]. congruence.
  - intros id n Hid. destruct (P id n) as [?|[c Hu|c]]; [by left| |by right]. congruence.
Qed.

Lemma env_grown s s' : environment_step s s' -> grown (world s) (world s').
Proof.
  intros [b Hb|c Hc|id Hid]; split; simpl; try done; try lia.
  by apply suffix_cons_r.
Qed.

Lemma daemon_env_rely t s s' : environment_step s s' -> rely metadata t s s'.
Proof.
  intros He. pose proof (env_grown _ _ He) as Hg.
  destruct (environment_records _ _ He) as (Hst & Hcl & Hl). split; [done| |by rewrite Hl|done|by left].
  intros Hs. apply (state_ok_same_records s); [done..| |done|done|].
  - intros c. destruct He as [b Hb|c' Hc|id Hid]; [by apply Hs| |by apply Hs].
    intros [<-|Hin]; [done|]. by apply Hs.
  - intros id. rewrite Hl. destruct He as [b Hb|c' Hc|id' Hid]; [by right..|].
    destruct (decide (id' = id)) as [->|Hne].
    + left. unfold owner in Hid. by destruct (locks s id).
    + right. split; [done|]. simpl. rewrite lookup_delete_ne; [done|]. by intros ?%lock_key_inj.
Qed.

(** A request that stops leaves the records and the locks of the others. *)
Lemma disown_locks t s id :
  owner s id <> Some t -> locks (disown t s) id = locks s id.
Proof. intros Ho. simpl. by rewrite decide_False. Qed.

Lemma disown_owner t s id u : owner (disown t s) id = Some u <-> owner s id = Some u /\ u <> t.
Proof.
  unfold owner at 1. simpl. case_decide as Ho.
  - split; [done|intros []; congruence].
  - change (fst <$> locks s id) with (owner s id). split; [|by intros []].
    intros Hu. split; [done|congruence].
Qed.

Lemma disown_ok t s : state_ok metadata s -> state_ok metadata (disown t s).
Proof.
  intros Hs. apply (state_ok_same_records s); [done|apply grown_refl|apply Hs|done|done|].
  intros id. simpl. case_decide; [by left|by right].
Qed.

Lemma daemon_stop_rely t u s : t <> u -> rely metadata t s (disown u s).
Proof.
  intros Htu. split; [apply grown_refl|apply disown_ok| |done|by left].
  intros id Ho. apply disown_locks. congruence.
Qed.

#[local] Instance logic_laws : RelyGuaranteeLaws DaemonE State.
Proof.
  split; simpl.
  - apply daemon_rely_refl.
  - apply daemon_rely_trans.
  - by intros t s s' [].
  - by intros t X e s x s' [[] _].
  - intros t u X e s x s' Htu [Hg _]. by eapply daemon_guar_rely.
  - intros t s s' ->. apply disown_ok.
  - intros t u s s' Htu ->. by apply daemon_stop_rely.
  - apply daemon_env_rely.
Qed.

(** *** Steps and their guarantees *)

(** Every operation changes the storage only. *)
Lemma contract_store {X} (e : DaemonE X) w x w' :
  contract e w x w' -> w' = set_store (store w') w.
Proof.
  destruct e; [by intros (m & _ & ->)|intros [-> _]|intros ->|intros [-> _]];
    by rewrite set_store_id.
Qed.

Definition lock_step (t : nat) (s : State) (m : gmap string string) : Prop :=
  forall id, m !! lock_key id = store (world s) !! lock_key id \/
    store (world s) !! lock_key id <> Some locked \/ owner s id = Some t.

Definition channel_step (t : nat) (s s' : State) : Prop :=
  forall id, stored s' id = stored s id \/
    (owner s id = Some t /\ legal_update metadata s id s').

Definition claim_step (t : nat) (s s' : State) : Prop :=
  forall id nonce, claimed s' id nonce = claimed s id nonce \/
    claim_update metadata t s id nonce s'.

(** Nonces of records do not decrease. *)
Lemma channel_step_nonce t s s' id c :
  state_ok metadata s -> channel_step t s s' -> stored s id = Ok (Some c) ->
  exists c', stored s' id = Ok (Some c') /\
    PaymentChannelData.Nonce c <= PaymentChannelData.Nonce c'.
Proof.
  intros Hs Hc Hst. destruct (Hc id) as [->|(_ & old & new & Hold & Hnew & Hu)].
  - eexists. split; [done|lia].
  - apply channel_update_ok in Hu as [_ Hmono]; [|done..].
    exists new. split; [done|]. apply Hmono. congruence.
Qed.

Lemma claim_ok_step t s s' id nonce p :
  state_ok metadata s -> channel_step t s s' -> claim_ok metadata s id nonce p ->
  claim_ok metadata s' id nonce p.
Proof.
  intros Hs Hc (? & ? & ? & ? & c & Hst & Hn). repeat (split; [done|]).
  destruct (channel_step_nonce _ _ _ _ _ Hs Hc Hst) as (c' & Hst' & Hn').
  exists c'. split; [done|lia].
Qed.

Lemma guarantee_intro t s m :
  state_ok metadata s -> let s' := next t s (set_store m (world s)) in
  lock_step t s m -> channel_step t s s' -> claim_step t s s' ->
  guarantee metadata t s s'.
Proof.
  intros Hs s' Hl Hc Hp. split; [apply grown_store|..]; try done.
  - intros _. split.
    + intros id u [w Hw]%owner_Some. revert Hw. apply next_owners_locked. intros Hw.
      apply (ok_owner _ _ Hs _ u), owner_Some. by exists w.
    + intros id. unfold lock_world. simpl.
      destruct (next_owners _ _ _ _ id) as [l|] eqn:Hn; [|apply grown_refl]. simpl.
      apply next_owners_cases in Hn as [Hn|<-]; [|apply grown_store].
      pose proof (ok_lock_world _ _ Hs id) as Hw. unfold lock_world in Hw. by rewrite Hn in Hw.
    + apply (ok_contract _ _ Hs).
    + intros id c Hst. destruct (Hc id) as [Heq|(_ & old & new & Hold & Hnew & Hu)].
      { apply (ok_channel _ _ Hs). congruence. }
      apply channel_update_ok in Hu as [Hu _]; [|done..]. congruence.
    + intros id n p Hst. eapply claim_ok_step; [done..|].
      destruct (Hp id n) as [Heq|[c ? <- ? ? ? Heq|c ? ? Heq]].
      * apply (ok_claim _ _ Hs). congruence.
      * rewrite Hst in Heq. simplify_eq. by apply claim_started_ok.
      * congruence.
  - intros id u Hu Hne. subst s'. simpl.
    pose proof (ok_owner _ _ Hs _ _ Hu) as Hk.
    destruct (Hl id) as [Heq|[?|?]]; [|congruence..].
    rewrite next_owners_kept; [done|done|by rewrite Heq].
  - intros id Hk Ho. destruct (Hl id) as [Heq|[?|?]]; [|done..]. cbn.
    rewrite Heq, next_owners_kept; [done|done|by rewrite Heq].
Qed.

Lemma claim_id_inj id n id' n' : claim_id id n = claim_id id' n' -> id = id' /\ n = n'.
Proof. apply Payment_ID_inj. Qed.

(** A read. *)
Lemma guar_read t s :
  state_ok metadata s -> guarantee metadata t s (next t s (world s)).
Proof.
  intros Hs. rewrite <-(set_store_id (world s)).
  apply guarantee_intro; [done|..]; by left.
Qed.

(** Taking a free lock, or releasing one's own. *)
Lemma guar_write_lock t s id v :
  state_ok metadata s ->
  store (world s) !! lock_key id <> Some locked \/ owner s id = Some t ->
  guarantee metadata t s
    (next t s (set_store (<[lock_key id := v]> (store (world s))) (world s))).
Proof.
  intros Hs Hlock. apply guarantee_intro; [done|..].
  - intros id'. destruct (decide (id = id')) as [<-|Hne]; [by right|left].
    apply lookup_insert_ne. by intros ?%lock_key_inj.
  - intros id'. left. apply stored_write_lock.
  - intros id' n. left. apply claimed_write_lock.
Qed.

Lemma put_channel_legal t s id old new :
  stored s id = Ok old -> channel_update metadata s id old (norm_channel new) ->
  legal_update metadata s id
    (next t s (set_store (put_channel (channel_key id) new (store (world s))) (world s))).
Proof.
  intros Hold Hu. exists old, (norm_channel new). split; [done|]. split; [|done].
  apply stored_put_channel.
Qed.

(** Writing the record of a channel whose lock one holds. *)
Lemma guar_put_channel t s id old new :
  state_ok metadata s -> owner s id = Some t -> stored s id = Ok old ->
  channel_update metadata s id old (norm_channel new) ->
  guarantee metadata t s
    (next t s (set_store (put_channel (channel_key id) new (store (world s))) (world s))).
Proof.
  intros Hs Ho Hold Hu. apply guarantee_intro; [done|..].
  - intros id'. left. by apply lookup_put_channel_other, prefix_disjoint.
  - intros id'. destruct (decide (id = id')) as [<-|Hne].
    + right. split; [done|]. by eapply put_channel_legal.
    + left. apply stored_put_channel_ne. by intros [= ?].
  - intros id' n. left. apply stored_payment_put_channel.
Qed.

(** An entry is the record of one channel at most. *)
Lemma put_channel_key key c id c' :
  (forall m, put_channel key c m = put_channel (channel_key id) c' m) -> key = channel_key id.
Proof.
  intros Hm. destruct (decide (key = channel_key id)) as [|Hne]; [done|].
  specialize (Hm ∅). apply (f_equal (fun m => stored_channel m (channel_key id))) in Hm.
  rewrite stored_put_channel_ne, stored_put_channel in Hm by done.
  unfold stored_channel in Hm. destruct (serialize (channel_key id)); [|done].
  by rewrite lookup_empty in Hm.
Qed.

Lemma put_other_key k v id c :
  String.prefix (prefixed_key channel_storage_prefix "") k = false ->
  ~ (forall m, <[k := v]> m = put_channel (channel_key id) c m).
Proof.
  intros Hk Hm. specialize (Hm ∅). apply (f_equal (fun m => m !! k)) in Hm.
  rewrite lookup_put_channel_other, lookup_insert_eq, lookup_empty in Hm by done. done.
Qed.

(** Writing the claim of the state just replaced. *)
Lemma guar_put_claim t s c :
  let id := PaymentChannelData.ChannelID c in
  state_ok metadata s -> owner s id = Some t -> channel_ok metadata id c ->
  stored s id = Ok (Some (norm_channel (IncrementChannelNonce c))) ->
  (forall p, claimed s id (PaymentChannelData.Nonce c) <> Ok (Some p)) ->
  guarantee metadata t s
    (next t s (set_store (put_payment (getPaymentFromChannel c) (store (world s)))
                 (world s))).
Proof.
  intros id Hs Ho Hok Hst Hcl. apply guarantee_intro; [done|..].
  - intros id'. left. by apply lookup_put_payment_other, prefix_disjoint.
  - intros id'. left. apply stored_channel_put_payment.
  - intros id' n.
    destruct (decide (claim_id id (PaymentChannelData.Nonce c) = claim_id id' n)) as [Heq|Hne].
    + apply claim_id_inj in Heq as [<- <-]. right.
      apply update_start with c; try done. apply stored_put_payment.
    + left. by apply stored_put_payment_ne.
Qed.

(** Removing a claim that the blockchain has seen. *)
Lemma guar_delete_claim t s p c :
  state_ok metadata s -> In c (contract_states (world s)) ->
  Payment.ChannelNonce p < MultiPartyEscrowChannel.Nonce (c (U256 (Payment.ChannelID p))) ->
  guarantee metadata t s
    (next t s (set_store (delete_payment p (store (world s))) (world s))).
Proof.
  intros Hs Hc Hn. apply guarantee_intro; [done|..].
  - intros id'. left. by apply lookup_delete_payment_other, prefix_disjoint.
  - intros id'. left. apply stored_channel_delete_payment.
  - intros id' n.
    destruct (decide (Payment_ID p = claim_id id' n)) as [Heq|Hne].
    + apply Payment_ID_inj in Heq as [Hid Hnonce]. simpl in *. subst. right.
      apply update_finish with c; try done. unfold claimed.
      change (claim_id _ _) with (Payment_ID p). apply stored_delete_payment.
    + left. by apply stored_delete_payment_ne.
Qed.
End logic.
