(* ===== verification/Requests.v ===== *)
(** * The requests of the daemon, run concurrently

    The functions of the payment channel service against the guarantee of
    [Concurrency], and the theorems on every execution of the server: any
    number of calls, state requests and control requests, interleaved at their
    storage and blockchain operations, with a storage that may fail. *)
From S2P Require Import Prelude Prog Bytes AtomicStorage Lock Blockchain PaymentChannelApi.
From S2P Require Import PaymentChannelStorage Validation Escrow Handler EscrowHandler.
From S2P Require Import StateService ControlService World RelyGuarantee Concurrency.
Import AtomicStorage.
Import Payment (Payment) PaymentChannelData (PaymentChannelData) Claim (Claim)
  PaymentTransaction (PaymentTransaction) PaymentHandler (PaymentHandler)
  PaymentChannelService (PaymentChannelService) ServiceMetadata (ServiceMetadata).
Local Open Scope Z_scope.

#[local] Arguments rg : simpl never.
#[local] Arguments lockingPaymentChannelService_StartPaymentTransaction : simpl never.
#[local] Arguments lockingPaymentChannelService_PaymentChannel : simpl never.
#[local] Arguments lockingPaymentChannelService_StartClaim : simpl never.
#[local] Arguments lockingPaymentChannelService_ListClaims : simpl never.
#[local] Arguments lockingPaymentChannelService_ListChannels : simpl never.
#[local] Arguments paymentTransaction_Commit : simpl never.
#[local] Arguments paymentTransaction_Rollback : simpl never.
#[local] Arguments getPaymentFromContext : simpl never.

(** A program that makes at most one operation. *)
Definition leaf {E A} (p : prog E A) : Prop :=
  match p with Vis _ _ => False | _ => True end.

Definition single {E A} (p : prog E A) : Prop :=
  match p with Vis e k => forall x, leaf (k x) | _ => True end.

Section requests.
Context `{!GoEthereum, !EscrowCodec, !EscrowCodecLaws} (metadata : ServiceMetadata).
Hypothesis price_nonneg :
  forall price, GetPriceInCogs metadata = Some price -> 0 <= price.

#[local] Instance requests_logic : RelyGuarantee DaemonE State :=
  daemon_rely_guarantee metadata.
#[local] Instance requests_laws : RelyGuaranteeLaws DaemonE State :=
  logic_laws metadata.

Local Abbreviation service := (Components_PaymentChannelService metadata).

(** ** Rules *)

(** If [p] writes the record of a channel, then legally. *)
Definition legal_event {A} (t : nat) (p : prog DaemonE A) (s : State) : Prop :=
  match p with
  | Vis e _ => forall x w, contract e (world s) x w -> writes_legally metadata t e s x (next t s w)
  | _ => True
  end.

(** A read writes nothing. *)
Lemma read_writes_legally t {X} (e : DaemonE X) s x s' :
  (forall w x w', contract e w x w' -> w' = w) -> writes_legally metadata t e s x s'.
Proof.
  intros He. destruct e as [X e|id| |]; [|done..]. destruct e as [k|p|k v|k v|k p n|k]; try done.
  exfalso. specialize (He (set_store ∅ (world s)) (Ok tt) (set_store {[k := v]} (world s))).
  assert (set_store {[k := v]} (world s) = set_store ∅ (world s)) as Heq%(f_equal store).
  { apply He. by eexists. }
  simpl in Heq. by apply (insert_non_empty ∅ k v) in Heq.
Qed.

Lemma read_legal_event {A} t (p : prog DaemonE A) (expected : World -> outcome A -> Prop) s :
  single p -> (forall w, wp p (fun o w' => w' = w /\ expected w o) w) -> legal_event t p s.
Proof.
  intros Hp Hw. destruct p as [a|m|X e k]; [done..|]. intros x w _. apply read_writes_legally.
  clear x w. intros w x w' Hc. specialize (Hw w x w' Hc). specialize (Hp x).
  destruct (k x) as [a|m|]; [..|done]; apply Hw.
Qed.

(** The specification of a single operation is proved of its contract. *)
Lemma rg_single {A} t (p : prog DaemonE A) Q s :
  single p -> (forall s', rely metadata t s s' -> state_ok metadata s' -> legal_event t p s') ->
  (forall s', rely metadata t s s' -> state_ok metadata s' ->
     wp p (fun o w => guarantee metadata t s' (next t s' w) /\
       forall s3, rely metadata t (next t s' w) s3 -> state_ok metadata s3 -> Q o s3)
       (world s')) ->
  rg t p Q s.
Proof.
  intros Hp Hl HQ. destruct p as [a|m|X e k]; simpl in *.
  - intros s' Hr Hs. apply (HQ s' Hr Hs); [rewrite next_same; apply daemon_rely_refl|done].
  - intros s' Hr Hs. apply (HQ s' Hr Hs); [rewrite next_same; apply daemon_rely_refl|done].
  - intros s' x s'' Hr Hs (w & Hw & ->). specialize (HQ s' Hr Hs x w Hw).
    specialize (Hl s' Hr Hs x w Hw).
    specialize (Hp x). destruct (k x) as [a|m|]; [..|done]; destruct HQ; by split; [split|].
Qed.

(** A storage request: what it may do, whether it succeeds or not. *)
Lemma rg_storage {X} t (e : StorageE X) (Q : outcome X -> State -> Prop) s :
  match e with SPut _ _ => False | _ => True end ->
  (forall s' x m, rely metadata t s s' -> state_ok metadata s' ->
     storage_contract e (store (world s')) x m ->
     let s'' := next t s' (set_store m (world s')) in
     guarantee metadata t s' s'' /\
     forall s3, rely metadata t s'' s3 -> state_ok metadata s3 -> Q (Returned x) s3) ->
  rg t (call_storage daemon_storage e) Q s.
Proof.
  intros He HQ. apply rg_single; [by destruct e|by destruct e|].
  intros s' Hr Hs. eapply wp_mono; [apply daemon_storage_spec|].
  intros o w (x & -> & Hc & ->). by apply HQ.
Qed.

Definition returns {A} (Q : A -> State -> Prop) (o : outcome A) (s : State) : Prop :=
  exists a, o = Returned a /\ Q a s.

Lemma rg_bind_returns {A B} t (p : prog DaemonE A) (f : A -> prog DaemonE B) Q R s :
  state_ok metadata s ->
  rg t p (returns R) s ->
  (forall a s', R a s' -> state_ok metadata s' -> rg t (f a) Q s') ->
  rg t (bind p f) Q s.
Proof.
  intros Hs Hp Hf. apply rg_bind; [|done]. eapply rg_mono; [exact Hp|].
  intros o s' Hs' (a & -> & Ha). by apply Hf.
Qed.

Lemma rg_ret {A} t (a : A) (Q : outcome A -> State -> Prop) s :
  (forall s', rely metadata t s s' -> state_ok metadata s' -> Q (Returned a) s') ->
  rg t (Ret a) Q s.
Proof. done. Qed.

Lemma rg_panic {A} t m (Q : outcome A -> State -> Prop) s :
  (forall s', rely metadata t s s' -> state_ok metadata s' -> Q (Panicked m) s') ->
  rg t (Panic m) Q s.
Proof. done. Qed.

(** ** Locks *)

Local Abbreviation locker := (mkEtcdLocker DaemonE
  (PrefixedAtomicStorage_object (NewLockerStorage daemon_storage))).

Definition lock_name (id : Z) : string := PaymentChannelKey_String (channel_key id).

Definition owns (t : nat) (id : Z) (s : State) : Prop := owner s id = Some t.

Lemma owner_after_lock t s id v :
  store (world s) !! lock_key id <> Some locked -> v = locked ->
  owns t id (next t s (set_store (<[lock_key id := v]> (store (world s))) (world s))).
Proof.
  intros Hk ->. apply owner_Some. exists (world s). apply next_owners_taken; [done|].
  apply lookup_insert_eq.
Qed.

(** A request that writes the lock entry to take the lock, or does nothing. *)
Lemma rg_take_lock t id (e : StorageE (result bool)) s :
  match e with SPut _ _ => False | _ => True end ->
  (forall m x m', storage_contract e m x m' ->
     (x = Ok true \/ m' <> m -> m !! lock_key id <> Some locked /\
        m' = <[lock_key id := locked]> m)) ->
  rg t (call_storage daemon_storage e)
     (returns (fun r s' => r = Ok true -> owns t id s')) s.
Proof.
  intros Hp He. apply rg_storage; [done|]. intros s' x m _ Hs' Hx s''. specialize (He _ _ _ Hx).
  split.
  - subst s''. destruct (decide (m = store (world s'))) as [->|Hm].
    + rewrite set_store_id. by apply guar_read.
    + destruct (He (or_intror Hm)) as [Hk ->]. apply guar_write_lock; auto.
  - intros s3 Hr _. eexists. split; [done|]. intros ->.
    destruct (He (or_introl eq_refl)) as [Hk ->]. apply (rely_owner _ _ _ _ _ Hr).
    by apply owner_after_lock.
Qed.

Lemma cas_takes k m x m' :
  storage_contract (SCompareAndSwap k unlocked locked) m x m' ->
  x = Ok true \/ m' <> m -> m !! k <> Some locked /\ m' = <[k := locked]> m.
Proof.
  destruct x as [[|]|e]; simpl.
  - intros [-> ->] _. done.
  - by intros [_ ->] [?|?].
  - intros [->|[-> ->]] [?|?]; done.
Qed.

Lemma put_takes k m x m' :
  storage_contract (SPutIfAbsent k locked) m x m' ->
  x = Ok true \/ m' <> m -> m !! k <> Some locked /\ m' = <[k := locked]> m.
Proof.
  destruct x as [[|]|e]; simpl.
  - intros [-> ->] _. done.
  - by intros [_ ->] [?|?].
  - intros [->|[-> ->]] [?|?]; done.
Qed.

(** A thread that gets the lock owns the channel. *)
Lemma rg_Lock t id s :
  state_ok metadata s ->
  rg t (etcdLocker_Lock locker (lock_name id))
     (returns (fun r s' => forall l, r = Ok (Some l) ->
        l = lockType locker (lock_name id) /\ owns t id s')) s.
Proof.
  intros Hs. unfold etcdLocker_Lock, bind_ok.
  apply (rg_bind_returns _ _ _ _ (fun _ _ => True)).
  { done. }
  { apply (rg_storage t (SGet (lock_key id))); [done|]. intros s' x m _ Hs' [-> _] s''. subst s''.
    split; [rewrite set_store_id; by apply guar_read|]. intros s3 _ _. by eexists. }
  clear s Hs. intros [[v|]|e] s _ Hs; [case_decide|..];
    try (apply rg_ret; intros; by eexists);
    apply (rg_bind_returns _ _ _ _ (fun r s' => r = Ok true -> owns t id s')); try done.
  1: apply (rg_take_lock t id (SCompareAndSwap (lock_key id) unlocked locked)); [done|apply cas_takes].
  2: apply (rg_take_lock t id (SPutIfAbsent (lock_key id) locked)); [done|apply put_takes].
  all: intros [[|]|e] s' Ho Hs'; simpl; apply rg_ret; intros s3 Hr _;
    eexists; (split; [done|]); try done.
  all: intros l [= <-]; split; [done|]; by apply (rely_owner _ _ _ _ _ Hr), Ho.
Qed.

(** Releasing one's own lock. *)
Lemma rg_Unlock t id s :
  state_ok metadata s -> owns t id s ->
  rg t (lockType_Unlock locker (lock_name id)) (returns (fun _ _ => True)) s.
Proof.
  intros Hs Ho. unfold lockType_Unlock, bind_ok.
  apply (rg_bind_returns _ _ _ _ (fun _ _ => True)); [done| |].
  - apply (rg_storage t (SCompareAndSwap (lock_key id) locked unlocked)); [done|].
    intros s' x m Hr Hs' Hx s''. subst s''. split; [|intros; by eexists].
    apply (rely_owner _ _ _ _ _ Hr) in Ho.
    assert (m = store (world s') \/ m = <[lock_key id := unlocked]> (store (world s')))
      as [->| ->].
    { destruct x as [[|]|e]; [right; apply Hx|left; apply Hx|].
      destruct Hx as [?|[_ ?]]; auto. }
    + rewrite set_store_id. by apply guar_read.
    + apply guar_write_lock; auto.
  - intros [?|?] s' _ _; apply rg_ret; intros; by eexists.
Qed.

(** ** Reads *)

(** A read changes nothing, so afterwards the state is one the thread could
    also rely on. *)
Lemma rg_single_read {A} t (p : prog DaemonE A) (expected : World -> outcome A -> Prop) s :
  single p ->
  (forall w, wp p (fun o w' => w' = w /\ expected w o) w) ->
  rg t p (fun o s' => rely metadata t s s' /\
            exists s0, rely metadata t s s0 /\ rely metadata t s0 s' /\ state_ok metadata s0 /\
                       expected (world s0) o) s.
Proof.
  intros Hp He. apply rg_single; [done|intros; by eapply read_legal_event|]. intros s' Hr Hs'.
  eapply wp_mono; [apply He|]. intros o w [-> Ho]. split; [by apply guar_read|].
  rewrite next_same. intros s3 Hr3 _. split; [by eapply daemon_rely_trans|]. by exists s'.
Qed.

(** The reads of the storage, by their specification. *)
Lemma wp_read_post {A} (p : prog DaemonE (result A)) expected w :
  wp p (read_post (contents := store) (frame := store_step)
          w expected) w ->
  wp p (fun o w' => w' = w /\ exists r, o = Returned r /\ (is_err r \/ expected r)) w.
Proof.
  intros Hp. eapply wp_mono; [exact Hp|]. intros o w' (-> & Hc & r & -> & Hr).
  simpl in Hc. rewrite Hc, set_store_id. eauto.
Qed.

Lemma single_channel_get key :
  single (PaymentChannelStorage_Get (NewPaymentChannelStorage daemon_storage) key).
Proof.
  unfold PaymentChannelStorage_Get. simpl.
  destruct (serialize key); simpl; [|done].
  intros [[v|]|]; simpl; [|done..]. by destruct (deserialize v).
Qed.

Lemma rg_channel_get t id s :
  owns t id s ->
  rg t (PaymentChannelStorage_Get (NewPaymentChannelStorage daemon_storage) (channel_key id))
     (returns (fun r s' => rely metadata t s s' /\ (is_err r \/ stored s' id = r))) s.
Proof.
  intros Ho. eapply rg_mono; [apply rg_single_read; [apply single_channel_get|]|].
  - intros w. apply wp_read_post, PaymentChannelStorage_Get_spec.
  - intros o s' _ (Hr & s0 & Hr0 & Hr1 & _ & r & -> & [He| ->]);
      eexists; (split; [done|]); (split; [done|]); [by left|right].
    apply (rely_channel _ _ _ _ Hr1). by apply (rely_owner _ _ _ _ _ Hr0).
Qed.

(** The same without the lock: nothing is known of the answer. *)
Lemma rg_channel_get_any t key s :
  rg t (PaymentChannelStorage_Get (NewPaymentChannelStorage daemon_storage) key)
     (returns (fun _ s' => rely metadata t s s')) s.
Proof.
  eapply rg_mono; [apply rg_single_read; [apply single_channel_get|]|].
  - intros w. apply wp_read_post, PaymentChannelStorage_Get_spec.
  - intros o s' _ (Hr & s0 & _ & _ & _ & r & -> & _). by eexists.
Qed.

Local Abbreviation reader :=
  (NewBlockchainChannelReader (daemon_processor metadata) metadata).

Lemma GetChannelState_wp id w :
  wp (GetChannelStateFromBlockchain reader (channel_key id))
     (fun o w' => w' = w /\ exists r, o = Returned r /\
        (is_err r \/ r = blockchain_answer metadata (contract_state w) id)) w.
Proof.
  unfold GetChannelStateFromBlockchain, bind_ok, blockchain_answer. simpl.
  intros x w' [-> Hx]. destruct Hx as [Hx| ->].
  - destruct x as [ch|e]; [done|]. simpl. eauto.
  - simpl. case_decide; simpl; [eauto 6|].
    destruct (contract_state w (U256 id)) eqn:Hch. simpl in *.
    case_decide; simpl; eauto 6.
Qed.

Lemma single_chain id : single (GetChannelStateFromBlockchain reader (channel_key id)).
Proof.
  unfold GetChannelStateFromBlockchain, bind_ok. simpl. intros [ch|e]; simpl; [|done].
  case_decide; simpl; [done|]. by case_decide.
Qed.

Lemma rg_chain t id s :
  rg t (GetChannelStateFromBlockchain reader (channel_key id))
     (returns (fun r s' => rely metadata t s s' /\ chain_answer metadata (world s) s' id r)) s.
Proof.
  eapply rg_mono; [apply rg_single_read; [apply single_chain|apply GetChannelState_wp]|].
  intros o s' _ (Hr & s0 & Hr0 & Hr1 & _ & r & -> & Ha). eexists. split; [done|].
  split; [done|]. destruct Ha as [Ha| ->]; [by left|right]. exists (world s0).
  split; [apply (rely_grown _ _ _ _ Hr0)|]. split; [apply (rely_grown _ _ _ _ Hr1)|done].
Qed.

(** [PaymentChannel] under the lock. *)
Lemma rg_PaymentChannel t id s :
  state_ok metadata s -> owns t id s ->
  rg t (lockingPaymentChannelService_PaymentChannel service (channel_key id))
     (returns (fun r s' => rely metadata t s s' /\ forall c, r = Ok (Some c) ->
        exists old answer, stored s' id = Ok old /\
          chain_answer metadata (lock_world s' id) s' id answer /\
          current_channel (GetDaemonGroupID metadata) old answer = Ok (Some c))) s.
Proof.
  intros Hs Ho. destruct (PaymentChannel_answer service (channel_key id)) as (k & -> & Hk).
  unfold bind_ok. eapply rg_bind_returns; [done|by apply rg_channel_get|].
  intros r s1 [Hr1 Hst] Hs1. destruct r as [old|e].
  2: { apply rg_ret. intros s2 Hr2 _. eexists. split; [done|].
       split; [by eapply daemon_rely_trans|done]. }
  destruct Hst as [[]|Hst].
  eapply rg_bind_returns; [done|apply rg_chain|]. intros answer s2 [Hr2 Ha] _.
  rewrite Hk. apply rg_ret. intros s3 Hr3 _. eexists. split; [done|].
  pose proof (rely_owner _ _ _ _ _ Hr1 Ho) as Ho1.
  assert (rely metadata t s1 s3) as Hr13 by by eapply daemon_rely_trans.
  split; [by eapply daemon_rely_trans|]. intros c Hc. exists old, answer. split; [|split; [|done]].
  - by rewrite (rely_channel _ _ _ _ Hr13).
  - rewrite (rely_lock_world _ _ _ _ _ Hr13 Ho1).
    eapply chain_answer_since; [apply (ok_lock_world _ _ Hs1)|].
    by eapply chain_answer_grows; [apply (rely_grown _ _ _ _ Hr3)|].
Qed.

(** Without the lock. *)
Lemma rg_PaymentChannel_any t key s :
  state_ok metadata s ->
  rg t (lockingPaymentChannelService_PaymentChannel service key)
     (returns (fun _ s' => rely metadata t s s')) s.
Proof.
  intros Hs. destruct key as [id].
  destruct (PaymentChannel_answer service (channel_key id)) as (k & Heq & Hk).
  unfold channel_key in Heq. rewrite Heq. clear Heq.
  unfold bind_ok. eapply rg_bind_returns; [done|apply rg_channel_get_any|].
  intros [old|e] s1 Hr1 Hs1.
  2: { apply rg_ret. intros s2 Hr2 _. eexists. split; [done|]. by eapply daemon_rely_trans. }
  eapply rg_bind_returns; [done|apply rg_chain|]. intros answer s2 [Hr2 Ha] _.
  rewrite Hk. apply rg_ret. intros s3 Hr3 _. eexists. split; [done|].
  eapply daemon_rely_trans; [done|]. by eapply daemon_rely_trans.
Qed.

(** ** Validation *)

Local Abbreviation validator :=
  (NewChannelPaymentValidator (daemon_processor metadata) metadata).

Lemma rg_block t s :
  rg t (Processor_CurrentBlock (daemon_processor metadata))
     (returns (fun r s' => rely metadata t s s' /\
        forall b, r = Ok b -> block (world s) <= b <= block (world s'))) s.
Proof.
  eapply rg_mono; [apply (rg_single_read _ _ (fun w o => exists r, o = Returned r /\
    forall b, r = Ok b -> b = block w))|].
  - intros [x|e]; done.
  - intros w. simpl. intros x w' [-> Hx]. destruct x as [x|e]; simpl.
    + destruct Hx as [[]|(hex & [= ->] & Hb)]. split; [done|]. eexists.
      split; [done|]. by intros b [= <-].
    + split; [done|]. eexists. by split.
  - intros o s' _ (Hr & s0 & Hr0 & Hr1 & _ & r & -> & Hb). eexists. split; [done|].
    split; [done|]. intros b Hrb. pose proof (proj2 (rely_grown _ _ _ _ Hr0)).
    pose proof (proj2 (rely_grown _ _ _ _ Hr1)). specialize (Hb b Hrb). lia.
Qed.

(** A payment that passes has been compared with a block of the chain. *)
Lemma rg_Validate t payment c s :
  state_ok metadata s ->
  rg t (ChannelPaymentValidator_Validate validator payment c)
     (fun o s' => rely metadata t s s' /\ forall u, o = Returned (Ok u) ->
        payment_fits payment c /\ unexpired metadata (world s) s' c) s.
Proof.
  intros Hs. destruct (GetPaymentExpirationThreshold metadata) as [threshold|] eqn:Ht.
  - destruct (Validate_cases validator payment c threshold Ht) as [(r & -> & Hr)|(k & -> & Hk)].
    + apply rg_ret. intros s' Hr' _. split; [done|]. intros u [= ->]. destruct u.
      pose proof (proj1 (validate_answer_ok _ _ _ _) (Hr (Err (ErrorString "")))) as
        (_ & b & ? & _). done.
    + eapply rg_bind_returns; [done|apply rg_block|]. intros block s1 [Hr1 Hb] _.
      destruct (Hk block) as (r & -> & Hr). apply rg_ret. intros s2 Hr2 _.
      split; [by eapply daemon_rely_trans|]. intros [] [= ->].
      apply validate_answer_ok in Hr as (Hf & b & -> & Hexp).
      split; [done|]. exists threshold, b. split; [done|]. split; [|done].
      pose proof (proj2 (rely_grown _ _ _ _ Hr2)). specialize (Hb b eq_refl). lia.
  - unfold ChannelPaymentValidator_Validate.
    destruct (negb _); [by apply rg_ret|].
    destruct (getSignerAddressFromPayment payment); [|by apply rg_ret].
    case_decide; [by apply rg_ret|].
    eapply rg_bind_returns; [done|apply rg_block|]. intros [b|e] s1 [Hr1 _] _.
    + change (validator_paymentExpirationThreshold validator)
        with (GetPaymentExpirationThreshold metadata). rewrite Ht.
      apply rg_panic. intros s2 Hr2 _. split; [by eapply daemon_rely_trans|done].
    + apply rg_ret. intros s2 Hr2 _. split; [by eapply daemon_rely_trans|done].
Qed.

(** ** Payment transactions *)

Local Abbreviation the_lock id := (lockType locker (lock_name id)).

(** A transaction that a thread has in hand: it owns the lock, and the channel
    is the current state of the record, which nobody else can change. *)
Definition open_transaction (t : nat) (payment : Payment)
    (transaction : paymentTransaction DaemonE) (s : State) : Prop :=
  let id := Payment.ChannelID payment in
  exists c old answer,
    transaction = mkPaymentTransaction payment c service (the_lock id) /\
    owns t id s /\ stored s id = Ok old /\ chain_answer metadata (lock_world s id) s id answer /\
    current_channel (GetDaemonGroupID metadata) old answer = Ok (Some c) /\
    payment_fits payment c /\ unexpired metadata (lock_world s id) s c.

Lemma open_transaction_rely t payment transaction s s' :
  rely metadata t s s' -> open_transaction t payment transaction s ->
  open_transaction t payment transaction s'.
Proof.
  intros Hr (c & old & answer & -> & Ho & Hst & Ha & Hc & Hf & He).
  pose proof (rely_grown _ _ _ _ Hr) as Hg.
  exists c, old, answer. split; [done|]. split; [by apply (rely_owner _ _ _ _ _ Hr)|].
  split; [by rewrite (rely_channel _ _ _ _ Hr)|]. rewrite (rely_lock_world _ _ _ _ _ Hr Ho).
  split; [by eapply chain_answer_grows|]. split; [done|]. split; [done|]. by eapply unexpired_grows.
Qed.

(** Unlocking in a deferred function. *)
Lemma rg_defer_unlock {A} t id (o : outcome A) s :
  state_ok metadata s -> owns t id s ->
  rg t (let! _ := Lock_Unlock (the_lock id) in resume o) (fun o' _ => o' = o) s.
Proof.
  intros Hs Ho. eapply rg_bind_returns; [done|by apply rg_Unlock|].
  intros r s' _ _. destruct o; [by apply rg_ret|by apply rg_panic].
Qed.

Lemma rg_StartPaymentTransaction t payment s :
  state_ok metadata s ->
  rg t (lockingPaymentChannelService_StartPaymentTransaction service payment)
     (fun o s' => forall transaction, o = Returned (Ok transaction) ->
        open_transaction t payment transaction s') s.
Proof.
  intros Hs. unfold lockingPaymentChannelService_StartPaymentTransaction.
  set (id := Payment.ChannelID payment).
  eapply rg_bind_returns; [done|apply (rg_Lock t id s Hs)|].
  intros r s1 Hl Hs1. destruct r as [[l|]|e]; [|by apply rg_ret..].
  destruct (Hl l eq_refl) as [-> Ho]. clear Hl. unfold defer. apply rg_catch; [|done].
  eapply rg_mono with (Q := fun o s' => owns t id s' /\ forall transaction,
     o = Returned (Ok transaction) -> open_transaction t payment transaction s').
  - eapply rg_bind_returns; [done|by apply rg_PaymentChannel|].
    intros r s2 [Hr2 Hc] Hs2. pose proof (rely_owner _ _ _ _ _ Hr2 Ho) as Ho2.
    destruct r as [[c|]|e]; [|by apply rg_ret; intros s3 Hr3 _;
      split; [by apply (rely_owner _ _ _ _ _ Hr3)|]..].
    destruct (Hc c eq_refl) as (old & answer & Hst & Ha & Hcur). clear Hc.
    unfold bind_ok. apply rg_bind; [|done]. eapply rg_mono; [by apply rg_Validate|].
    intros [r|m] s3 Hs3 [Hr3 Hv].
    2: { apply rg_panic. intros s4 Hr4 _. split; [|done].
         by apply (rely_owner _ _ _ _ _ Hr4), (rely_owner _ _ _ _ _ Hr3). }
    destruct r as [u|e].
    2: { apply rg_ret. intros s4 Hr4 _. split; [|done].
         by apply (rely_owner _ _ _ _ _ Hr4), (rely_owner _ _ _ _ _ Hr3). }
    destruct (Hv u eq_refl) as (Hf & Hb).
    apply rg_ret. intros s4 Hr4 _.
    split; [by apply (rely_owner _ _ _ _ _ Hr4), (rely_owner _ _ _ _ _ Hr3)|].
    intros transaction [= <-]. eapply open_transaction_rely; [exact Hr4|].
    pose proof (rely_grown _ _ _ _ Hr3) as Hg.
    exists c, old, answer. split; [done|]. split; [by apply (rely_owner _ _ _ _ _ Hr3)|].
    fold id. split; [by rewrite (rely_channel _ _ _ _ Hr3)|].
    rewrite (rely_lock_world _ _ _ _ _ Hr3 Ho2). split; [by eapply chain_answer_grows|]. split; [done|]. split; [done|].
    eapply unexpired_since; [apply (ok_lock_world _ _ Hs2)|done].
  - intros o s2 Hs2 [Ho2 Hopen]. destruct o as [[transaction|e]|m].
    + intros s3 Hr3 _ transaction' [= <-].
      eapply open_transaction_rely; [exact Hr3|]. by apply Hopen.
    + eapply rg_mono; [by apply rg_defer_unlock|]. by intros o s3 _ ->.
    + by intros s3 _ _.
Qed.

(** *** Writes *)

Lemma single_channel_put key c :
  single (PaymentChannelStorage_Put (NewPaymentChannelStorage daemon_storage) key c).
Proof.
  unfold PaymentChannelStorage_Put. simpl.
  destruct (serialize key); simpl; [|done]. by destruct (serialize c).
Qed.

Lemma single_payment_put p :
  single (PaymentStorage_Put (NewPaymentStorage daemon_storage) p).
Proof.
  unfold PaymentStorage_Put. simpl.
  destruct (serialize (Payment_ID p)); simpl; [|done]. by destruct (serialize p).
Qed.

Lemma single_payment_delete p :
  single (PaymentStorage_Delete (NewPaymentStorage daemon_storage) p).
Proof.
  unfold PaymentStorage_Delete. simpl.
  by destruct (serialize (Payment_ID p)).
Qed.

(** The writes of records, and of claims, which are none. *)
Lemma channel_put_legal t s id c :
  owns t id s -> legal_update metadata s id
    (next t s (set_store (put_channel (channel_key id) c (store (world s))) (world s))) ->
  legal_event t (PaymentChannelStorage_Put (NewPaymentChannelStorage daemon_storage)
    (channel_key id) c) s.
Proof.
  intros Ho Hl. unfold PaymentChannelStorage_Put. simpl.
  destruct (serialize (channel_key id)) as [k|] eqn:Hk; simpl; [|done].
  destruct (serialize c) as [v|] eqn:Hv; simpl; [|done].
  intros x w (m & Hm & ->) -> id' c' Hput.
  assert (forall m, <[prefixed_key channel_storage_prefix k := v]> m
    = put_channel (channel_key id) c m) as Hput'.
  { intros m'. unfold put_channel. by rewrite Hk, Hv. }
  assert (channel_key id = channel_key id') as [= <-].
  { apply (put_channel_key _ c _ c'). intros m'. by rewrite <-Hput', Hput. }
  simpl in Hm. subst m. rewrite Hput'. by split.
Qed.

Lemma payment_put_legal t s p :
  legal_event t (PaymentStorage_Put (NewPaymentStorage daemon_storage) p) s.
Proof.
  unfold PaymentStorage_Put. simpl. destruct (serialize (Payment_ID p)); simpl; [|done].
  destruct (serialize p); simpl; [|done]. intros x w _ _ id c Hput.
  exfalso. by apply put_other_key in Hput; [|apply prefix_disjoint].
Qed.

Lemma payment_delete_legal t s p :
  legal_event t (PaymentStorage_Delete (NewPaymentStorage daemon_storage) p) s.
Proof. unfold PaymentStorage_Delete. simpl. by destruct (serialize (Payment_ID p)). Qed.

(** A write by its specification: the two states it may leave. *)
Lemma rg_single_write t (p : prog DaemonE (result unit)) update (Q : result unit -> State -> Prop) s :
  single p ->
  (forall w, wp p (write_post (contents := store) (frame := store_step) w update) w) ->
  (forall s', rely metadata t s s' -> state_ok metadata s' -> legal_event t p s') ->
  (forall s', rely metadata t s s' -> state_ok metadata s' ->
     let s'' := next t s' (set_store (update (store (world s'))) (world s')) in
     guarantee metadata t s' s'' /\
     forall r s3, rely metadata t s'' s3 -> state_ok metadata s3 -> Q r s3) ->
  (forall r s', rely metadata t s s' -> is_err r -> Q r s') ->
  rg t p (returns Q) s.
Proof.
  intros Hp Hw Hl Hup Herr. apply rg_single; [done..|]. intros s' Hr Hs'.
  eapply wp_mono; [apply Hw|]. intros o w (Hf & r & -> & Hu). unfold store_step in Hf.
  destruct (Hup s' Hr Hs') as [Hg HQ].
  assert (store w = update (store (world s')) \/ (is_err r /\ store w = store (world s')))
    as [Hst|[He Hst]] by (destruct r; simpl in Hu; [by left|destruct Hu; [by right|by left]]).
  - rewrite Hst in Hf. rewrite Hf. split; [done|]. intros s3 Hr3 Hs3. eexists. eauto.
  - rewrite Hst, set_store_id in Hf. subst w. split; [by apply guar_read|].
    rewrite next_same. intros s3 Hr3 _. eexists. split; [done|]. apply Herr; [|done].
    by eapply daemon_rely_trans.
Qed.

(** One keeps a lock one does not write. *)
Lemma owns_next t id s m :
  state_ok metadata s -> owns t id s ->
  m !! lock_key id = store (world s) !! lock_key id ->
  owns t id (next t s (set_store m (world s))).
Proof.
  intros Hs Ho Hm. pose proof (ok_owner _ _ Hs _ _ Ho) as Hk. unfold owns, owner. simpl.
  rewrite next_owners_kept; [done|done|by rewrite Hm].
Qed.

(** The payment that the handler accepts pays the price. *)
Definition pays (payment : Payment) (c : PaymentChannelData) : Prop :=
  Payment.MpeContractAddress payment = GetMpeAddress metadata /\
  exists price, GetPriceInCogs metadata = Some price /\
    Payment.Amount payment = PaymentChannelData.AuthorizedAmount c + price.

(** The payment of a transaction is accepted as long as the lock is held. *)
Lemma open_transaction_accepted t payment transaction s :
  let id := Payment.ChannelID payment in
  open_transaction t payment transaction s -> pays payment (transaction_channel transaction) ->
  owns t id s /\ exists old, stored s id = Ok old /\
    payment_accepted metadata (lock_world s id) s id old payment (transaction_channel transaction).
Proof.
  intros id (c & old & answer & -> & Ho & Hst & Ha & Hc & Hf & Hexp) [Hmpe Hprice].
  split; [done|]. exists old. split; [done|]. split; eauto.
Qed.

Lemma rg_Commit t payment transaction s :
  state_ok metadata s -> open_transaction t payment transaction s ->
  pays payment (transaction_channel transaction) ->
  rg t (paymentTransaction_Commit transaction) (fun _ _ => True) s.
Proof.
  intros Hs Hopen Hpays.
  pose proof Hopen as (c & _ & _ & -> & Ho & _). simpl in *.
  set (id := Payment.ChannelID payment) in *.
  unfold paymentTransaction_Commit, defer. simpl. apply rg_catch; [|done].
  eapply rg_mono with (Q := fun _ s' => owns t id s').
  2: { intros o s' Hs' Ho'. eapply rg_mono; [by apply rg_defer_unlock|done]. }
  assert (forall s', rely metadata t s s' -> owns t id s' /\
    exists old, stored s' id = Ok old /\
      channel_update metadata s' id old (norm_channel (committed_channel payment c))) as Hupdate.
  { intros s' Hr. apply (open_transaction_rely _ _ _ _ _ Hr) in Hopen.
    destruct (open_transaction_accepted _ _ _ _ Hopen Hpays) as (Ho' & old & Hst & Hacc).
    split; [done|]. exists old. split; [done|]. by apply update_pay. }
  eapply (rg_bind_returns _ _ _ _ (fun _ s' => owns t id s')); [done| |].
  - apply (rg_single_write _ _ (put_channel (channel_key id) (committed_channel payment c))).
    + apply single_channel_put.
    + intros w. apply PaymentChannelStorage_Put_spec.
    + intros s' Hr _. destruct (Hupdate s' Hr) as (Ho' & old & Hst & Hu).
      by eapply channel_put_legal, put_channel_legal.
    + intros s' Hr Hs' s''. destruct (Hupdate s' Hr) as (Ho' & old & Hst & Hu).
      split; [by eapply guar_put_channel|]. intros r s3 Hr3 _. apply (rely_owner _ _ _ _ _ Hr3). apply owns_next; [done..|].
      by apply lookup_put_channel_other, prefix_disjoint.
    + intros r s' Hr _. by apply (rely_owner _ _ _ _ _ Hr).
  - intros [u|e] s' Ho' _; apply rg_ret; intros s3 Hr3 _; by apply (rely_owner _ _ _ _ _ Hr3).
Qed.

Lemma rg_Rollback t payment transaction s :
  state_ok metadata s -> open_transaction t payment transaction s ->
  rg t (paymentTransaction_Rollback transaction) (fun _ _ => True) s.
Proof.
  intros Hs (c & old & answer & -> & Ho & _).
  eapply rg_mono; [by apply (rg_defer_unlock t (Payment.ChannelID payment)
                                  (Returned (Ok tt)))|done].
Qed.

(** ** Claims *)

(** The claim of the current nonce does not exist yet. *)
Lemma not_claimed s id c :
  state_ok metadata s -> stored s id = Ok (Some c) ->
  forall p, claimed s id (PaymentChannelData.Nonce c) <> Ok (Some p).
Proof.
  intros Hs Hst p Hp. destruct (ok_claim _ _ Hs _ _ _ Hp) as (_ & _ & _ & _ & c' & Hst' & Hn).
  rewrite Hst in Hst'. simplify_eq. lia.
Qed.

Lemma rg_start_claim_put t id c s :
  state_ok metadata s -> owns t id s -> stored s id = Ok (Some c) ->
  rg t (PaymentChannelStorage_Put (NewPaymentChannelStorage daemon_storage)
          (channel_key id) (IncrementChannelNonce c))
     (returns (fun r s' => owns t id s' /\ (~ is_err r ->
        stored s' id = Ok (Some (norm_channel (IncrementChannelNonce c))) /\
        forall p, claimed s' id (PaymentChannelData.Nonce c) <> Ok (Some p)))) s.
Proof.
  intros Hs Ho Hst.
  apply (rg_single_write _ _ (put_channel (channel_key id) (IncrementChannelNonce c))).
  - apply single_channel_put.
  - intros w. apply PaymentChannelStorage_Put_spec.
  - intros s' Hr _. pose proof (rely_channel _ _ _ _ Hr _ Ho) as Hst'. rewrite Hst in Hst'.
    eapply channel_put_legal; [by apply (rely_owner _ _ _ _ _ Hr)|].
    by eapply put_channel_legal, update_claim.
  - intros s' Hr Hs' s''. pose proof (rely_owner _ _ _ _ _ Hr Ho) as Ho'.
    pose proof (rely_channel _ _ _ _ Hr _ Ho) as Hst'. rewrite Hst in Hst'.
    split; [by eapply guar_put_channel, update_claim|].
    intros r s3 Hr3 _.
    assert (owns t id s'') as Ho''.
    { apply owns_next; [done..|]. by apply lookup_put_channel_other, prefix_disjoint. }
    split; [by apply (rely_owner _ _ _ _ _ Hr3)|]. intros _. split.
    + rewrite (rely_channel _ _ _ _ Hr3) by done. apply stored_put_channel.
    + intros p. pose proof (not_claimed _ _ _ Hs' Hst' p) as Hno.
      destruct (rely_claim _ _ _ _ Hr3 id (PaymentChannelData.Nonce c) Ho'') as [->| ->]; [|done].
      intros Heq. apply Hno. rewrite <-Heq. symmetry. apply stored_payment_put_channel.
  - intros r s' Hr He. split; [by apply (rely_owner _ _ _ _ _ Hr)|]. done.
Qed.

Lemma rg_claim_put t id c s :
  state_ok metadata s -> owns t id s -> channel_ok metadata id c ->
  stored s id = Ok (Some (norm_channel (IncrementChannelNonce c))) ->
  (forall p, claimed s id (PaymentChannelData.Nonce c) <> Ok (Some p)) ->
  rg t (PaymentStorage_Put (NewPaymentStorage daemon_storage) (getPaymentFromChannel c))
     (returns (fun _ s' => owns t id s')) s.
Proof.
  intros Hs Ho Hok Hst Hno.
  apply (rg_single_write _ _ (put_payment (getPaymentFromChannel c))).
  - apply single_payment_put.
  - intros w. apply PaymentStorage_Put_spec.
  - intros s' _ _. apply payment_put_legal.
  - intros s' Hr Hs' s''. pose proof (rely_owner _ _ _ _ _ Hr Ho) as Ho'.
    pose proof (rely_channel _ _ _ _ Hr _ Ho) as Hst'. rewrite Hst in Hst'.
    pose proof (proj1 Hok) as <-. split.
    + apply guar_put_claim; try done. intros p.
      destruct (rely_claim _ _ _ _ Hr _ (PaymentChannelData.Nonce c) Ho) as [->| ->]; [|done].
      apply Hno.
    + intros r s3 Hr3 _. apply (rely_owner _ _ _ _ _ Hr3). apply owns_next; [done..|].
      by apply lookup_put_payment_other, prefix_disjoint.
  - intros r s' Hr _. by apply (rely_owner _ _ _ _ _ Hr).
Qed.

Lemma rg_StartClaim t id s :
  state_ok metadata s ->
  rg t (lockingPaymentChannelService_StartClaim service (channel_key id) IncrementChannelNonce)
     (fun _ _ => True) s.
Proof.
  intros Hs. unfold lockingPaymentChannelService_StartClaim.
  eapply rg_bind_returns; [done|apply (rg_Lock t id s Hs)|].
  intros [[l|]|e] s1 Hl Hs1; [|by apply rg_ret..].
  destruct (Hl l eq_refl) as [-> Ho]. clear Hl. unfold defer. apply rg_catch; [|done].
  eapply rg_mono with (Q := fun _ s' => owns t id s').
  2: { intros o s' Hs' Ho'. eapply rg_mono; [by apply rg_defer_unlock|done]. }
  unfold bind_ok. eapply rg_bind_returns; [done|by apply rg_channel_get|].
  intros r s2 [Hr2 Hst] Hs2. pose proof (rely_owner _ _ _ _ _ Hr2 Ho) as Ho2.
  destruct r as [[c|]|e]; [|by apply rg_ret; intros s3 Hr3 _; apply (rely_owner _ _ _ _ _ Hr3)..].
  destruct Hst as [[]|Hst].
  eapply rg_bind_returns; [done|by apply rg_start_claim_put|].
  intros r s3 [Ho3 Hput] Hs3.
  destruct r as [u|e]; [|by apply rg_ret; intros s4 Hr4 _; apply (rely_owner _ _ _ _ _ Hr4)].
  destruct Hput as [Hst3 Hno]; [by intros []|].
  eapply rg_bind_returns; [done|apply (rg_claim_put t id); try done; by apply (ok_channel _ _ Hs2)|].
  intros [u'|e] s4 Ho4 _; apply rg_ret; intros s5 Hr5 _; by apply (rely_owner _ _ _ _ _ Hr5).
Qed.

(** ** Service calls *)

Local Abbreviation escrow_handler := (Components_EscrowPaymentHandler metadata).

Lemma getPaymentFromContext_mpe context payment :
  getPaymentFromContext escrow_handler context = inl payment ->
  Payment.MpeContractAddress payment = GetMpeAddress metadata.
Proof.
  unfold getPaymentFromContext. intros Hp. by split_matches.
Qed.

(** What [Payment] hands to the interceptor. *)
Definition accepted (t : nat) (context : GrpcStreamContext)
    (r : PaymentTransaction DaemonE + GrpcError) (s : State) : Prop :=
  forall transaction, r = inl transaction ->
  exists payment tx, transaction = paymentTransaction_object tx /\
    getPaymentFromContext escrow_handler context = inl payment /\
    open_transaction t payment tx s /\ pays payment (transaction_channel tx).

Lemma rg_Payment t context s :
  state_ok metadata s ->
  rg t (paymentChannelPaymentHandler_Payment escrow_handler context)
     (fun o s' => forall r, o = Returned r -> accepted t context r s') s.
Proof.
  intros Hs. unfold paymentChannelPaymentHandler_Payment.
  destruct (getPaymentFromContext escrow_handler context) as [payment|e] eqn:Hp.
  2: { apply rg_ret. by intros s' _ _ r [= <-]. }
  pose proof (getPaymentFromContext_mpe _ _ Hp) as Hmpe.
  apply rg_bind; [|done]. simpl. unfold bind_ok. apply rg_bind; [|done].
  eapply rg_mono; [by apply rg_StartPaymentTransaction|].
  intros [[tx|e]|m] s1 Hs1 Hopen; cbn [rg];
    [|by intros s2 _ _ s3 _ _ r [= <-]|by intros s2 _ _ s3 _ _].
  specialize (Hopen tx eq_refl). intros s2 Hr2 Hs2.
  apply (open_transaction_rely _ _ _ _ _ Hr2) in Hopen. clear s1 Hs1 Hr2.
  unfold incomeValidator_Validate. simpl.
  destruct (GetPriceInCogs metadata) as [price|] eqn:Hprice in |- *; [|by apply rg_panic].
  destruct (Z.eqb_spec (Payment.Amount payment
    - PaymentChannelData.AuthorizedAmount (paymentTransaction_Channel tx)) price) as [He|He].
  - cbn [negb bind]. apply rg_ret. intros s3 Hr3 _ r [= <-] transaction [= <-].
    exists payment, tx. split; [done|]. split; [done|]. split; [by eapply open_transaction_rely|].
    split; [done|]. exists price. split; [done|].
    unfold paymentTransaction_Channel in He. lia.
  - cbn [negb bind]. apply rg_bind; [|done].
    eapply rg_mono; [by eapply rg_Rollback|].
    intros [r|m] s3 _ _; [apply rg_ret|by apply rg_panic]. by intros s4 _ _ r' [= <-].
Qed.

(** The completion of a call: the payment is committed when the service
    handler succeeded and rolled back otherwise. *)
Lemma rg_complete_payment t payment tx o s :
  state_ok metadata s -> open_transaction t payment tx s ->
  pays payment (transaction_channel tx) ->
  rg t (complete_payment (paymentChannelPaymentHandler_object escrow_handler)
          (paymentTransaction_object tx) o) (fun _ _ => True) s.
Proof.
  intros Hs Hopen Hpays. destruct o as [[u|e]|m]; simpl.
  - unfold paymentChannelPaymentHandler_Complete. simpl. apply rg_bind; [|done].
    apply rg_bind; [|done]. eapply rg_mono; [by eapply rg_Commit|].
    intros [r|m] s1 _ _; cbn [rg]; [|done].
    intros s2 _ _. by destruct (paymentErrorToGrpcError (err_of r)).
  - unfold paymentChannelPaymentHandler_CompleteAfterError. simpl. apply rg_bind; [|done].
    apply rg_bind; [|done]. eapply rg_mono; [by eapply rg_Rollback|].
    intros [r|m] s1 _ _; cbn [rg]; [|done].
    intros s2 _ _. by destruct (paymentErrorToGrpcError (err_of r)).
  - unfold paymentChannelPaymentHandler_CompleteAfterError. simpl. apply rg_bind; [|done].
    apply rg_bind; [|done]. eapply rg_mono; [by eapply rg_Rollback|].
    intros [r|m'] s1 _ _; cbn [rg]; done.
Qed.

(** The only registered handler is the escrow handler. *)
Lemma getPaymentHandler_only (h h' : PaymentHandler DaemonE) context :
  getPaymentHandler (newPaymentValidationInterceptor h []) context = inl h' -> h' = h.
Proof.
  unfold getPaymentHandler. simpl. intros Hh. split_matches; [|by simplify_eq..].
  apply lookup_singleton_Some in Heqo0 as [_ ->]. done.
Qed.

Lemma rg_intercept t md o s :
  state_ok metadata s ->
  rg t (Components_GrpcPaymentValidationInterceptor true metadata md (resume o))
     (fun _ _ => True) s.
Proof.
  intros Hs. unfold Components_GrpcPaymentValidationInterceptor,
    GrpcPaymentValidationInterceptor, paymentValidationInterceptor_intercept.
  cbn [negb].
  destruct (getGrpcContext md) as [context|e]; [|by apply rg_ret].
  destruct (getPaymentHandler _ context) as [h|e] eqn:Hh; [|by apply rg_ret].
  apply getPaymentHandler_only in Hh as ->. simpl. apply rg_bind; [|done].
  eapply rg_mono; [by apply rg_Payment|].
  intros [[transaction|e]|m] s1 Hs1 Hacc; [|by apply rg_ret|by apply rg_panic].
  destruct (Hacc _ eq_refl transaction eq_refl) as (payment & tx & -> & _ & Hopen & Hpays).
  apply rg_catch; [|done]. destruct o as [r|m]; [apply rg_ret|apply rg_panic];
    intros s2 Hr2 Hs2; eapply rg_complete_payment; try done; by eapply open_transaction_rely.
Qed.

(** ** State and control requests *)

Definition anything {A} (_ : outcome A) (_ : State) : Prop := True.

Lemma rg_bind_any {A B} t (p : prog DaemonE A) (f : A -> prog DaemonE B) s :
  state_ok metadata s -> rg t p anything s ->
  (forall a s', state_ok metadata s' -> rg t (f a) anything s') ->
  rg t (bind p f) anything s.
Proof.
  intros Hs Hp Hf. apply rg_bind; [|done]. eapply rg_mono; [exact Hp|].
  intros [a|m] s' Hs' _; [by apply Hf|by apply rg_panic].
Qed.

Lemma rg_bind_ok_any {A B} t (p : prog DaemonE (result A))
    (f : A -> prog DaemonE (result B)) s :
  state_ok metadata s -> rg t p anything s ->
  (forall a s', state_ok metadata s' -> rg t (f a) anything s') ->
  rg t (bind_ok p f) anything s.
Proof.
  intros Hs Hp Hf. apply rg_bind_any; [done..|].
  intros [a|e] s' Hs'; [by apply Hf|by apply rg_ret].
Qed.

Lemma rg_any {A} t (p : prog DaemonE A) Q s : rg t p Q s -> rg t p anything s.
Proof. intros Hp. by eapply rg_mono. Qed.

(** A read of which nothing is needed. *)
Lemma rg_read_any {A} t (p : prog DaemonE A) expected s :
  single p -> (forall w, wp p (fun o w' => w' = w /\ expected w o) w) -> rg t p anything s.
Proof. intros Hp Hw. by eapply rg_any, rg_single_read. Qed.

Lemma rg_GetChannelState t request s :
  state_ok metadata s ->
  rg t (GetChannelState (Components_PaymentChannelStateService metadata) request) anything s.
Proof.
  intros Hs. unfold GetChannelState. destruct (getSignerAddressFromMessage _ _);
    [|by apply rg_ret].
  apply rg_bind_any; [done|by eapply rg_any, rg_PaymentChannel_any|].
  intros [[c|]|e] s' Hs'; [|by apply rg_ret..]. case_decide; [by apply rg_ret|].
  destruct (PaymentChannelData.Signature c); by apply rg_ret.
Qed.

Local Abbreviation control := (Components_ProviderControlService metadata).

Lemma rg_vis_read {X A} t (e : DaemonE X) (k : X -> prog DaemonE A) s :
  (forall w x w', contract e w x w' -> w' = w) ->
  (forall x s', state_ok metadata s' -> rg t (k x) anything s') ->
  rg t (Vis e k) anything s.
Proof.
  intros He Hk s' x s'' Hr Hs' (w & Hw & ->). rewrite (He _ _ _ Hw).
  pose proof (guar_read metadata price_nonneg t s' Hs') as Hg.
  split; [split; [done|by apply read_writes_legally]|]. apply Hk. by apply (guar_ok _ _ _ _ Hg).
Qed.

Lemma rg_compare t b s :
  state_ok metadata s -> rg t (compareWithLatestBlockNumber control b) anything s.
Proof.
  intros Hs. apply (rg_vis_read t Dial); [by intros|].
  intros [[]|e] s1 Hs1; [|by apply rg_ret].
  apply (rg_vis_read t BlockNumber); [by intros ??? []|].
  intros [x|e] s2 Hs2; [|by apply rg_ret]. simpl. by destruct (_ || _); apply rg_ret.
Qed.

Lemma rg_verifySignerForStartClaim t request s :
  state_ok metadata s -> rg t (verifySignerForStartClaim control request) anything s.
Proof.
  intros Hs. unfold verifySignerForStartClaim.
  apply rg_bind_ok_any; [done|by eapply rg_any, rg_PaymentChannel_any|].
  by intros [c|] s' Hs'; apply rg_ret.
Qed.

(** The claims that [ListClaims] makes of payments. *)
Definition claim_of (payment : Payment) : Claim DaemonE :=
  claimImpl_object (mkClaimImpl (NewPaymentStorage daemon_storage) payment).

Lemma rg_Finish t payment c s :
  state_ok metadata s -> In c (contract_states (world s)) ->
  Payment.ChannelNonce payment
    < MultiPartyEscrowChannel.Nonce (c (U256 (Payment.ChannelID payment))) ->
  rg t (Claim.Finish (claim_of payment)) (returns (fun _ _ => True)) s.
Proof.
  intros Hs Hc Hn. apply (rg_single_write _ _ (delete_payment payment)).
  - apply single_payment_delete.
  - intros w. apply PaymentStorage_Delete_spec.
  - intros s' _ _. apply payment_delete_legal.
  - intros s' Hr Hs' s''. split; [|done]. apply guar_delete_claim with c; try done.
    by apply (grown_contracts _ _ (rely_grown _ _ _ _ Hr)).
  - done.
Qed.

Lemma rg_remove_claimed t payments s :
  state_ok metadata s ->
  rg t (remove_claimed control (claim_of <$> payments)) anything s.
Proof.
  revert s. induction payments as [|p payments IH]; intros s Hs; [by apply rg_ret|].
  rewrite fmap_cons. cbn [remove_claimed]. unfold bind_ok.
  eapply rg_bind_returns; [done|apply (rg_chain t (Payment.ChannelID p))|].
  intros [[bc|]|e] s1 [Hr1 Ha] Hs1; [|by apply rg_ret..].
  destruct Ha as [[]|(w & _ & Hc%grown_contract & Ha)]. unfold blockchain_answer in Ha.
  destruct (decide _); [done|]. destruct (decide _); [done|]. simplify_eq. simpl.
  case_match eqn:Hlt; [|by apply IH].
  apply Z.ltb_lt in Hlt. eapply rg_bind_returns; [done|by eapply rg_Finish|].
  intros [u|e] s2 _ Hs2; [by apply IH|by apply rg_ret].
Qed.

Lemma rg_ListClaims t s :
  state_ok metadata s ->
  rg t (PaymentChannelService.ListClaims (lockingPaymentChannelService_object service))
     (returns (fun r _ => forall claims, r = Ok claims ->
        exists payments, claims = claim_of <$> payments)) s.
Proof.
  intros Hs. simpl. unfold lockingPaymentChannelService_ListClaims, PaymentStorage_GetAll.
  apply rg_single.
  - simpl. intros [vs|e]; simpl; [|done]. by destruct (deserialize_all deserialize vs).
  - done.
  - intros s' Hr Hs'. intros x w (m & [-> _] & ->). rewrite set_store_id.
    destruct x as [vs|e]; simpl; [destruct (deserialize_all deserialize vs) as [l|e]|];
      simpl; (split; [by apply guar_read|]); intros s3 _ _; eexists; (split; [done|]); try done.
    intros claims [= <-]. exists l. by rewrite <-list_fmap_compose.
Qed.

Lemma rg_removeClaimedPayments t s :
  state_ok metadata s -> rg t (removeClaimedPayments control) anything s.
Proof.
  intros Hs. unfold removeClaimedPayments.
  eapply rg_bind_returns; [done|by apply rg_ListClaims|].
  intros [claims|e] s1 Hcl Hs1; [|by apply rg_ret].
  destruct (Hcl claims eq_refl) as [payments ->]. by apply rg_remove_claimed.
Qed.

Lemma rg_listClaims t s : state_ok metadata s -> rg t (listClaims control) anything s.
Proof.
  intros Hs. apply rg_bind_ok_any; [done|by eapply rg_any, rg_ListClaims|].
  intros; by apply rg_ret.
Qed.

Lemma rg_listChannels t s : state_ok metadata s -> rg t (listChannels control) anything s.
Proof.
  intros Hs. apply rg_bind_ok_any; [done| |intros; by apply rg_ret].
  simpl. unfold lockingPaymentChannelService_ListChannels.
  eapply rg_read_any; [|intros w; apply wp_read_post, PaymentChannelStorage_GetAll_spec].
  intros [vs|e]; simpl; [|done]. by destruct (deserialize_all deserialize vs).
Qed.

Lemma rg_beginClaimOnChannel t id s :
  state_ok metadata s -> rg t (beginClaimOnChannel control id) anything s.
Proof.
  intros Hs. unfold beginClaimOnChannel.
  apply rg_bind_ok_any; [done|by eapply rg_any, rg_PaymentChannel_any|].
  intros [c|] s1 Hs1; [|by apply rg_panic]. destruct (_ =? _); [by apply rg_ret|].
  apply rg_bind_ok_any; [done| |intros; by apply rg_ret].
  simpl. apply rg_bind_ok_any; [done| |intros; by apply rg_ret].
  by eapply rg_any, rg_StartClaim.
Qed.

(** ** The server *)

Definition ignore_result {A} (p : prog DaemonE A) : prog DaemonE unit :=
  let! _ := p in Ret tt.

(** The requests the daemon serves with the blockchain enabled. The service
    handler of a call is an external process: it ends in any of the three
    ways a handler can end. *)
Inductive Request : prog DaemonE unit -> Prop :=
| request_call md o :
    Request (ignore_result
      (Components_GrpcPaymentValidationInterceptor true metadata md (resume o)))
| request_channel_state r :
    Request (ignore_result
      (GetChannelState (Components_PaymentChannelStateService metadata) r))
| request_list_unclaimed r :
    Request (ignore_result (GetListUnclaimed control r))
| request_list_in_progress r :
    Request (ignore_result (GetListInProgress control r))
| request_start_claim r :
    Request (ignore_result (ProviderControlService_StartClaim control r)).

Lemma rg_ignore {A} t (p : prog DaemonE A) s :
  state_ok metadata s -> rg t p anything s -> rg t (ignore_result p) (fun _ _ => True) s.
Proof. intros Hs Hp. apply rg_bind_any; [done..|]. intros. by apply rg_ret. Qed.

(** Every request keeps the guarantee. *)
Lemma requests_verified : verified Request.
Proof.
  intros p t s Hp Hs. destruct Hp; apply rg_ignore; try done.
  - by apply rg_intercept.
  - by apply rg_GetChannelState.
  - unfold GetListUnclaimed. destruct (checkMpeAddress _ _); [|by apply rg_ret].
    apply rg_bind_ok_any; [done|by apply rg_compare|]. intros u s1 Hs1.
    destruct (verifySignerForListUnclaimed _ _); [|by apply rg_ret]. by apply rg_listChannels.
  - unfold GetListInProgress. destruct (checkMpeAddress _ _); [|by apply rg_ret].
    apply rg_bind_ok_any; [done|by apply rg_compare|]. intros u s1 Hs1.
    destruct (verifySignerForListInProgress _ _); [|by apply rg_ret].
    apply rg_bind_ok_any; [done|by apply rg_removeClaimedPayments|].
    intros u' s2 Hs2. by apply rg_listClaims.
  - unfold ProviderControlService_StartClaim. destruct (checkMpeAddress _ _); [|by apply rg_ret].
    apply rg_bind_ok_any; [done|by apply rg_verifySignerForStartClaim|]. intros u s1 Hs1.
    apply rg_bind_ok_any; [done|by apply rg_removeClaimedPayments|].
    intros u' s2 Hs2. by apply rg_beginClaimOnChannel.
Qed.
End requests.
