(* ===== verification/Safety.v ===== *)
(** * Safety of the server

    What holds in every execution of the server: any number of requests,
    started at any time, interleaved at their storage and blockchain
    operations, with storage and blockchain errors at any point. *)
From S2P Require Import Prelude Prog Bytes AtomicStorage Lock Blockchain PaymentChannelApi.
From S2P Require Import PaymentChannelStorage Validation Escrow World RelyGuarantee Concurrency.
From S2P Require Import Requests.
Import Payment (Payment) PaymentChannelData (PaymentChannelData)
  ServiceMetadata (ServiceMetadata).
Local Open Scope Z_scope.

(** The requests in progress and the state they run in. *)
Definition server := (list (prog DaemonE unit) * State)%type.

Section safety.
Context `{!GoEthereum, !EscrowCodec, !EscrowCodecLaws} (metadata : ServiceMetadata).

#[local] Instance safety_logic : RelyGuarantee DaemonE State :=
  daemon_rely_guarantee metadata.

(** A step of the server: an operation of a request, a new request, or a step
    of the blockchain. *)
Definition server_step : server -> server -> Prop := pool_step (Request metadata).

Definition reachable (s0 : State) (c : server) : Prop := rtc server_step ([], s0) c.

(** A price is not negative. *)
Definition price_ok : Prop :=
  forall price, GetPriceInCogs metadata = Some price -> 0 <= price.

Section steps.
Hypothesis price_nonneg : price_ok.

#[local] Instance safety_laws : RelyGuaranteeLaws DaemonE State := logic_laws metadata.

Lemma reachable_ok s0 c :
  state_ok metadata s0 -> reachable s0 c -> pool_ok c.
Proof.
  intros Hs0 Hr. eapply pool_reachable_ok; [by apply requests_verified|exact Hr|].
  by apply pool_ok_nil.
Qed.

Lemma server_step_ok c c' : pool_ok c -> server_step c c' -> pool_ok c'.
Proof. intros Hc Hs. eapply pool_step_ok; [by apply requests_verified|done..]. Qed.

(** The records change by guaranteed steps only. *)
Lemma server_step_records c c' :
  pool_ok c -> server_step c c' ->
  (forall id, stored c'.2 id = stored c.2 id \/ legal_update metadata c.2 id c'.2) /\
  (forall id nonce, claimed c'.2 id nonce = claimed c.2 id nonce \/
     exists t, claim_update metadata t c.2 id nonce c'.2).
Proof.
  intros Hc Hs. eapply pool_step_guar in Hs as [->|[He|[t [(X & e & x & Hg & _)| ->]]]];
    [by split; left| | |by split; left|by apply requests_verified|done].
  - apply environment_records in He as (Hst & Hcl & _). by split; left.
  - split; [intros id|intros id nonce].
    + destruct (guar_channel _ _ _ _ Hg id) as [?|[_ ?]]; auto.
    + destruct (guar_claim _ _ _ _ Hg id nonce); eauto.
Qed.

(** How a record progresses. *)
Definition record_le (c c' : PaymentChannelData) : Prop :=
  PaymentChannelData.Nonce c < PaymentChannelData.Nonce c' \/
  (PaymentChannelData.Nonce c = PaymentChannelData.Nonce c' /\
   PaymentChannelData.AuthorizedAmount c <= PaymentChannelData.AuthorizedAmount c').

Lemma record_le_refl c : record_le c c.
Proof. right. split; [done|lia]. Qed.

Lemma record_le_trans c1 c2 c3 : record_le c1 c2 -> record_le c2 c3 -> record_le c1 c3.
Proof. unfold record_le. lia. Qed.

Lemma legal_update_progress s id s' c :
  state_ok metadata s -> legal_update metadata s id s' -> stored s id = Ok (Some c) ->
  exists c', stored s' id = Ok (Some c') /\ record_le c c'.
Proof.
  intros Hs (old & new & Hold & Hnew & Hu) Hc. rewrite Hc in Hold. simplify_eq.
  exists new. split; [done|].
  destruct Hu as [p c' [(answer & Ha & Hcur) _ _ _ _ (price & Hprice & Hamount)]|c' [= <-]].
  - destruct (current_channel_ok _ _ _ _ _ _ _ Hs Hc Ha Hcur) as (_ & _ & Hmono).
    destruct (Hmono c eq_refl) as [Hle Heq]. pose proof (price_nonneg _ Hprice).
    unfold record_le. simpl. lia.
  - left. simpl. lia.
Qed.
Lemma records_progress_aux s0 c c' id ch :
  state_ok metadata s0 -> reachable s0 c -> rtc server_step c c' ->
  stored c.2 id = Ok (Some ch) ->
  exists ch', stored c'.2 id = Ok (Some ch') /\ record_le ch ch'.
Proof.
  intros Hs0 Hr Hsteps Hst. pose proof (reachable_ok _ _ Hs0 Hr) as Hok.
  clear Hr. revert ch Hst. induction Hsteps as [c|c1 c2 c3 Hs _ IH]; intros ch Hst.
  { exists ch. split; [done|apply record_le_refl]. }
  assert (exists ch', stored c2.2 id = Ok (Some ch') /\ record_le ch ch') as (ch2 & Hst2 & Hle).
  { destruct (server_step_records _ _ Hok Hs) as [Hrec _].
    destruct (Hrec id) as [->|Hu]; [exists ch; split; [done|apply record_le_refl]|].
    by eapply legal_update_progress; [apply Hok|..]. }
  destruct (IH (server_step_ok _ _ Hok Hs) ch2 Hst2) as (ch3 & Hst3 & Hle3).
  exists ch3. split; [done|by eapply record_le_trans].
Qed.
End steps.

(** C1: every change of the record of a channel, in any interleaving, is a
    payment of the current state of the channel that passes all the checks and
    pays exactly the price, or the start of a claim: there are no lost updates
    and no double spending of a state. The checks are those that the request
    has made since it took the lock of the channel: the answer of the contract
    and the latest block, which the expiration of the channel is compared with,
    are of that time. *)
Theorem channel_updates_are_legal (s0 : State) (c c' : server) (id : Z) :
  price_ok -> state_ok metadata s0 -> reachable s0 c -> server_step c c' ->
  stored c'.2 id = stored c.2 id \/ legal_update metadata c.2 id c'.2.
Proof.
  intros Hp Hs0 Hr Hstep. by apply server_step_records; [|eapply reachable_ok|].
Qed.

(** C6: while a channel is locked, only the operations of the request that owns
    the lock change the record of the channel or release the lock. Whatever else
    happens, the record stays as it is and the lock stays where it is: when its
    owner crashes the channel stays locked by nobody, until the operator unlocks
    it. *)
Theorem lock_excludes_others (s0 : State) ps s ps' s' id :
  price_ok -> state_ok metadata s0 -> reachable s0 (ps, s) -> server_step (ps, s) (ps', s') ->
  store (world s) !! lock_key id = Some locked ->
  (exists t X (e : DaemonE X) k x, owner s id = Some t /\ ps !! t = Some (Vis e k) /\
     ps' = <[t := k x]> ps /\ thread_step t e s x s') \/
  stored s' id = stored s id /\
  (store (world s') !! lock_key id = Some locked /\
   (owner s' id = owner s id \/
    exists t, owner s id = Some t /\ ps' = <[t := crashed]> ps /\ owner s' id = None) \/
   owner s id = None /\ ps' = ps /\ world s' = without_lock id (world s)).
Proof.
  intros Hp Hs0 Hr Hs Hl. pose proof (reachable_ok Hp _ _ Hs0 Hr) as [Hi Hok].
  inversion Hs as [? ? t X e k x ? Ht Hstep|? ? p Hp'|? ? t p ? Ht Hstop|? ? ? He]; simplify_eq.
  - destruct (decide (owner s id = Some t)) as [Ho|Ho]; [left; by eauto 10|right].
    pose proof (Hok _ _ Ht s x s' (daemon_rely_refl _ _ _) Hi Hstep) as [[Hg _] _].
    destruct (guar_locked _ _ _ _ Hg id Hl Ho) as [Hl' Ho'].
    assert (owner s' id = owner s id) by (unfold owner; by rewrite Ho').
    destruct (guar_channel _ _ _ _ Hg id) as [?|[? _]]; [by auto|done].
  - right. by auto.
  - right. rewrite Hstop. split; [done|left]. split; [done|]. unfold owner at 1 4. simpl.
    case_decide; [by eauto|by left].
  - right. destruct (environment_records _ _ He) as (Hst & _ & Heq).
    rewrite Hst. unfold owner at 1 2 4. rewrite Heq.
    split; [done|]. destruct He as [b Hb|c Hc|id' Hid]; [by auto..|].
    destruct (decide (id' = id)) as [->|Hne]; [by right|left]. simpl.
    rewrite lookup_delete_ne; [by auto|]. by intros ?%lock_key_inj.
Qed.

(** C3: at all times the authorized amount of every record is between zero and
    the amount of the channel, and is zero or covered by a signature that the
    channel's signer gave for this contract, channel, nonce and amount: the
    provider can claim what the records say. *)
Theorem records_are_claimable (s0 : State) (c : server) id ch :
  price_ok -> state_ok metadata s0 -> reachable s0 c ->
  stored c.2 id = Ok (Some ch) ->
  PaymentChannelData.ChannelID ch = id /\
  0 <= PaymentChannelData.AuthorizedAmount ch <= PaymentChannelData.FullAmount ch /\
  signed metadata id (PaymentChannelData.Nonce ch)
    (PaymentChannelData.AuthorizedAmount ch) (PaymentChannelData.Signature ch)
    (PaymentChannelData.Signer ch).
Proof.
  intros Hp Hs0 Hr Hst. pose proof (reachable_ok Hp _ _ Hs0 Hr) as [Hi _].
  by apply (ok_channel _ _ Hi).
Qed.

(** C5: the record of a channel never goes back: the nonce does not decrease,
    and with the same nonce the authorized amount does not decrease. *)
Theorem records_progress (s0 : State) (c c' : server) id ch :
  price_ok -> state_ok metadata s0 -> reachable s0 c -> rtc server_step c c' ->
  stored c.2 id = Ok (Some ch) ->
  exists ch', stored c'.2 id = Ok (Some ch') /\ record_le ch ch'.
Proof. intros Hp Hs0 Hr Hsteps Hst. by eapply records_progress_aux. Qed.

(** C2: if calls are not free, a payment is accepted at most once: when the record
    of the channel says what the payment authorizes, no later state accepts the
    same payment, whenever a request took the lock. *)
Theorem payments_are_not_replayed (s0 : State) (c c' : server) id ch p old ch' w :
  price_ok -> GetPriceInCogs metadata <> Some 0 ->
  state_ok metadata s0 -> reachable s0 c -> rtc server_step c c' ->
  stored c.2 id = Ok (Some ch) ->
  PaymentChannelData.Nonce ch = Payment.ChannelNonce p ->
  PaymentChannelData.AuthorizedAmount ch = Payment.Amount p ->
  stored c'.2 id = Ok old -> ~ payment_accepted metadata w c'.2 id old p ch'.
Proof.
  intros Hp Hfree Hs0 Hr Hsteps Hst Hn Ha Hold
    [(answer & Hans & Hcur) _ _ (Hnonce & _) _ (price & Hprice & Hamount)].
  assert (reachable s0 c') as Hr' by (unfold reachable in *; by etrans).
  pose proof (reachable_ok Hp _ _ Hs0 Hr') as [Hi _].
  destruct (records_progress_aux Hp _ _ _ _ _ Hs0 Hr Hsteps Hst) as (ch2 & Hst2 & Hle).
  rewrite Hst2 in Hold. simplify_eq.
  destruct (current_channel_ok _ _ _ _ _ _ _ Hi Hst2 Hans Hcur) as (_ & _ & Hmono).
  destruct (Hmono ch2 eq_refl) as [Hle' Heq]. pose proof (Hp _ Hprice).
  assert (price <> 0) by congruence. unfold record_le in Hle. lia.
Qed.

(** C4: a claim that was started stays as it was written until the blockchain
    has passed its nonce; it is never overwritten. *)
Theorem claims_are_kept (s0 : State) (c c' : server) id nonce p :
  price_ok -> state_ok metadata s0 -> reachable s0 c -> server_step c c' ->
  claimed c.2 id nonce = Ok (Some p) ->
  claimed c'.2 id nonce = Ok (Some p) \/
  (claimed c'.2 id nonce = Ok None /\
   exists st, In st (contract_states (world c.2)) /\
     nonce < MultiPartyEscrowChannel.Nonce (st (U256 id))).
Proof.
  intros Hp Hs0 Hr Hstep Hst. pose proof (reachable_ok Hp _ _ Hs0 Hr) as Hok.
  destruct (server_step_records Hp _ _ Hok Hstep) as [_ Hrec].
  destruct (Hrec id nonce) as [->|[t [ch _ _ _ _ Hno _|st Hin Hlt Hnone]]]; [by left| |eauto].
  by destruct (Hno p).
Qed.

(** C7: the claim of a channel state is covered by the signature of the payment
    it claims, and the channel has moved on to a later nonce, so that no more
    payments are accepted for the claimed state. *)
Theorem claims_are_covered (s0 : State) (c : server) id nonce p :
  price_ok -> state_ok metadata s0 -> reachable s0 c ->
  claimed c.2 id nonce = Ok (Some p) ->
  (exists signer, signed metadata id nonce (Payment.Amount p) (Payment.Signature p) signer) /\
  exists ch, stored c.2 id = Ok (Some ch) /\ nonce < PaymentChannelData.Nonce ch.
Proof.
  intros Hp Hs0 Hr Hst. pose proof (reachable_ok Hp _ _ Hs0 Hr) as [Hi _].
  by destruct (ok_claim _ _ Hi _ _ _ Hst) as (_ & _ & _ & Hsig & Hch).
Qed.
End safety.
