(* ===== verification/Sequential.v ===== *)
(** * One request at a time

    What a request does, to the last entry of the storage, when no other
    request runs and neither the storage nor the blockchain fails: the
    functional behaviour of payments, claims and state requests. *)
From S2P Require Import Prelude Prog Bytes AtomicStorage Lock Blockchain PaymentChannelApi.
From S2P Require Import PaymentChannelStorage Validation Escrow Handler EscrowHandler.
From S2P Require Import StateService ControlService World Concurrency.
Import AtomicStorage.
Import Payment (Payment) PaymentChannelData (PaymentChannelData) Claim (Claim)
  PaymentTransaction (PaymentTransaction) PaymentHandler (PaymentHandler)
  PaymentChannelService (PaymentChannelService) ServiceMetadata (ServiceMetadata).
Local Open Scope Z_scope.

Section sequential.
Context `{!GoEthereum, !EscrowCodec, !EscrowCodecLaws, !EthereumNode}
  (metadata : ServiceMetadata).

Local Abbreviation service := (Components_PaymentChannelService metadata).

(** ** The state of a lock *)

Definition lock_held (id : Z) (m : gmap string string) : Prop :=
  m !! lock_key id = Some locked.

Definition lock_free (id : Z) (m : gmap string string) : Prop :=
  m !! lock_key id = None \/ m !! lock_key id = Some unlocked.

Definition with_lock (id : Z) (v : string) (w : World) : World :=
  set_store (<[lock_key id := v]> (store w)) w.

Local Abbreviation locker := (mkEtcdLocker DaemonE
  (PrefixedAtomicStorage_object (NewLockerStorage daemon_storage))).
Local Abbreviation the_lock id := (lockType locker (PaymentChannelKey_String (channel_key id))).

(** ** Single operations *)

Lemma run_catch {A B} (p : prog DaemonE A) (h : outcome A -> prog DaemonE B) w :
  run (catch p h) w = let '(o, w') := run p w in run (h o) w'.
Proof. revert w. induction p as [a|m|X e k IH]; intros w; simpl; auto. Qed.

Lemma run_defer {A B} (d : outcome A -> prog DaemonE B) (p : prog DaemonE A) w :
  run (defer d p) w =
  let '(o, w1) := run p w in
  match run (d o) w1 with
  | (Returned _, w2) => (o, w2)
  | (Panicked m, w2) => (Panicked m, w2)
  end.
Proof.
  unfold defer. rewrite run_catch. destruct (run p w) as [o w1]. rewrite run_bind.
  destruct (run (d o) w1) as [[b|m] w2]; [|done]. by destruct o.
Qed.

Lemma run_storage {X} (e : StorageE X) w :
  run (call_storage daemon_storage e) w
  = (Returned (memoryStorage_call e (store w)).1,
     set_store (memoryStorage_call e (store w)).2 w).
Proof.
  assert (call_storage daemon_storage e = trigger (StorageEvent e)) as -> by by destruct e.
  cbn. by destruct (memoryStorage_call e (store w)).
Qed.

Lemma memory_get k m : memoryStorage_call (SGet k) m = (Ok (m !! k), m).
Proof. simpl. unfold memoryStorage_Get, memoryStorage_unsafeGet. by destruct (m !! k). Qed.

Lemma memory_put_if_absent k v m :
  m !! k = None -> memoryStorage_call (SPutIfAbsent k v) m = (Ok true, <[k:=v]> m).
Proof.
  intros Hk. simpl. unfold memoryStorage_PutIfAbsent, memoryStorage_unsafeGet. by rewrite Hk.
Qed.

Lemma memory_compare_and_swap k p n m :
  m !! k = Some p -> memoryStorage_call (SCompareAndSwap k p n) m = (Ok true, <[k:=n]> m).
Proof.
  intros Hk. simpl. unfold memoryStorage_CompareAndSwap, memoryStorage_unsafeGet.
  by rewrite Hk, decide_False by auto.
Qed.

Lemma run_Lock_free id w :
  lock_free id (store w) ->
  run (etcdLocker_Lock locker (PaymentChannelKey_String (channel_key id))) w
  = (Returned (Ok (Some (the_lock id))), with_lock id locked w).
Proof.
  intros Hl. unfold etcdLocker_Lock, bind_ok. rewrite run_bind.
  change (run (Get _ _) w) with (run (call_storage daemon_storage (SGet (lock_key id))) w).
  rewrite run_storage, memory_get. cbn [fst snd]. rewrite set_store_id.
  destruct Hl as [Hl|Hl]; rewrite Hl.
  - rewrite run_bind. change (run (PutIfAbsent _ _ _) w)
      with (run (call_storage daemon_storage (SPutIfAbsent (lock_key id) locked)) w).
    by rewrite run_storage, memory_put_if_absent.
  - rewrite decide_False by done.
    rewrite run_bind. change (run (CompareAndSwap _ _ _ _) w)
      with (run (call_storage daemon_storage (SCompareAndSwap (lock_key id) unlocked locked)) w).
    by rewrite run_storage, memory_compare_and_swap.
Qed.

Lemma run_Lock_held id w :
  lock_held id (store w) ->
  run (etcdLocker_Lock locker (PaymentChannelKey_String (channel_key id))) w
  = (Returned (Ok None), w).
Proof.
  intros Hl. unfold etcdLocker_Lock, bind_ok. rewrite run_bind.
  change (run (Get _ _) w) with (run (call_storage daemon_storage (SGet (lock_key id))) w).
  rewrite run_storage, memory_get. cbn [fst snd]. rewrite set_store_id.
  by rewrite Hl, decide_True.
Qed.

Lemma run_Unlock id w :
  lock_held id (store w) ->
  run (Lock_Unlock (the_lock id)) w = (Returned (Ok tt), with_lock id unlocked w).
Proof.
  intros Hl. unfold lockType, lockType_Unlock, bind_ok. cbn [Lock_Unlock]. rewrite run_bind.
  change (run (CompareAndSwap _ _ _ _) w)
    with (run (call_storage daemon_storage (SCompareAndSwap (lock_key id) locked unlocked)) w).
  by rewrite run_storage, memory_compare_and_swap.
Qed.

Lemma run_channel_get key w :
  run (PaymentChannelStorage_Get (NewPaymentChannelStorage daemon_storage) key) w
  = (Returned (stored_channel (store w) key), w).
Proof.
  unfold PaymentChannelStorage_Get, stored_channel, bind_ok.
  cbn [PaymentChannelStorage_delegate NewPaymentChannelStorage TypedAtomicStorage.Get
    TypedAtomicStorageImpl_object TypedAtomicStorageImpl_Get Typed_keySerializer
    Typed_atomicStorage Typed_valueDeserializer]. unfold bind_ok.
  destruct (serialize key) as [k|e]; [|done]. rewrite !run_bind.
  change (run (Get _ _) w) with
    (run (call_storage daemon_storage (SGet (prefixed_key channel_storage_prefix k))) w).
  rewrite run_storage, memory_get. cbn [fst snd]. rewrite set_store_id.
  destruct (store w !! _) as [v|]; [|done]. cbn. by destruct (deserialize v).
Qed.

Lemma run_channel_put key c w :
  run (PaymentChannelStorage_Put (NewPaymentChannelStorage daemon_storage) key c) w
  = (Returned (Ok tt), set_store (put_channel key c (store w)) w).
Proof.
  unfold PaymentChannelStorage_Put, TypedAtomicStorageImpl_Put, put_channel. cbn.
  destruct (serialize_ok key) as [k ->], (serialize_ok c) as [v ->]. done.
Qed.

Lemma run_payment_put p w :
  run (PaymentStorage_Put (NewPaymentStorage daemon_storage) p) w
  = (Returned (Ok tt), set_store (put_payment p (store w)) w).
Proof.
  unfold PaymentStorage_Put, put_payment.
  cbn [PaymentStorage_delegate NewPaymentStorage TypedAtomicStorage.Put
    TypedAtomicStorageImpl_object TypedAtomicStorageImpl_Put Typed_keySerializer
    Typed_valueSerializer Typed_atomicStorage].
  destruct (serialize_ok (Payment_ID p)) as [k ->], (serialize_ok p) as [v ->]. done.
Qed.

Lemma run_chain id w :
  run (GetChannelStateFromBlockchain
         (NewBlockchainChannelReader (daemon_processor metadata) metadata) (channel_key id)) w
  = (Returned (blockchain_answer metadata (contract_state w) id), w).
Proof.
  unfold GetChannelStateFromBlockchain, blockchain_answer. cbn.
  case_decide; cbn; [done|]. destruct (contract_state w (U256 id)) eqn:Hch. cbn in *.
  by case_decide.
Qed.

(** The answer of [PaymentChannel]. *)
Definition channel_now (id : Z) (w : World) : result (option PaymentChannelData) :=
  match stored_channel (store w) (channel_key id) with
  | Err e => Err e
  | Ok old => current_channel (GetDaemonGroupID metadata) old
                (blockchain_answer metadata (contract_state w) id)
  end.

Lemma run_PaymentChannel id w :
  run (lockingPaymentChannelService_PaymentChannel service (channel_key id)) w
  = (Returned (channel_now id w), w).
Proof.
  destruct (PaymentChannel_answer service (channel_key id)) as (k & -> & Hk).
  unfold bind_ok. rewrite run_bind.
  change (service_storage service) with (NewPaymentChannelStorage daemon_storage).
  rewrite run_channel_get. unfold channel_now.
  destruct (stored_channel (store w) (channel_key id)) as [old|e]; [|done].
  rewrite run_bind.
  change (service_blockchainReader service)
    with (NewBlockchainChannelReader (daemon_processor metadata) metadata).
  by rewrite run_chain, Hk.
Qed.

(** ** Frames *)

Lemma lock_other_channel id v m key :
  stored_channel (<[lock_key id := v]> m) key = stored_channel m key.
Proof. by apply stored_channel_other, prefix_disjoint. Qed.

Lemma lock_other_payment id v m pid :
  stored_payment (<[lock_key id := v]> m) pid = stored_payment m pid.
Proof. by apply stored_payment_other, prefix_disjoint. Qed.

Lemma channel_now_lock id id' v w : channel_now id (with_lock id' v w) = channel_now id w.
Proof. unfold channel_now, with_lock. simpl. by rewrite lock_other_channel. Qed.

Lemma put_channel_lock id v key c m :
  put_channel key c (<[lock_key id := v]> m) = <[lock_key id := v]> (put_channel key c m).
Proof.
  unfold put_channel. destruct (serialize key) as [k|], (serialize c); try done.
  apply insert_insert_ne. intros Heq.
  assert (String.prefix (prefixed_key channel_storage_prefix "") (lock_key id) = false)
    as Hp by by apply prefix_disjoint.
  by rewrite <-Heq, (prefixed_key_app _ k), string_prefix_app in Hp.
Qed.

Lemma put_payment_lock id v p m :
  put_payment p (<[lock_key id := v]> m) = <[lock_key id := v]> (put_payment p m).
Proof.
  unfold put_payment. destruct (serialize (Payment_ID p)) as [k|], (serialize p); try done.
  apply insert_insert_ne. intros Heq.
  assert (String.prefix (prefixed_key payment_storage_prefix "") (lock_key id) = false)
    as Hp by by apply prefix_disjoint.
  by rewrite <-Heq, (prefixed_key_app _ k), string_prefix_app in Hp.
Qed.

Lemma with_lock_held id w : lock_held id (store (with_lock id locked w)).
Proof. unfold lock_held, with_lock. simpl. apply lookup_insert_eq. Qed.

Lemma lock_held_put_channel id key c m :
  lock_held id m -> lock_held id (put_channel key c m).
Proof.
  unfold lock_held. intros Hl. by rewrite lookup_put_channel_other by by apply prefix_disjoint.
Qed.

Lemma lock_held_put_payment id p m : lock_held id m -> lock_held id (put_payment p m).
Proof.
  unfold lock_held. intros Hl. by rewrite lookup_put_payment_other by by apply prefix_disjoint.
Qed.

Lemma with_lock_twice id v v' w : with_lock id v (with_lock id v' w) = with_lock id v w.
Proof. unfold with_lock, set_store. simpl. by rewrite insert_insert_eq. Qed.

(** ** Payments *)

(** The payment passes the checks against the channel's current state. *)
Definition acceptable (w : World) (payment : Payment) (c : PaymentChannelData) : Prop :=
  channel_now (Payment.ChannelID payment) w = Ok (Some c) /\
  payment_fits payment c /\
  exists threshold, GetPaymentExpirationThreshold metadata = Some threshold /\
    not_near_expiration (block w) threshold c.

Lemma decide_acceptable w payment :
  (exists c, acceptable w payment c) \/ ~ (exists c, acceptable w payment c).
Proof.
  unfold acceptable, payment_fits, not_near_expiration.
  destruct (channel_now _ w) as [[c|]|e]; [|by right; intros (? & [=] & _)..].
  destruct (GetPaymentExpirationThreshold metadata) as [threshold|]; [|by right; intros (? & _ & _ & ? & [=] & _)].
  destruct (decide ((Payment.ChannelNonce payment = PaymentChannelData.Nonce c /\
    getSignerAddressFromPayment payment = Ok (PaymentChannelData.Signer c) /\
    Payment.Amount payment <= PaymentChannelData.FullAmount c) /\
    block w + threshold < PaymentChannelData.Expiration c)) as [Hd|Hd].
  - left. exists c. split; [done|]. destruct Hd. split; [done|]. by exists threshold.
  - right. intros (c' & [= <-] & Hf & t & [= <-] & He). by apply Hd.
Qed.

Hypothesis readable : hex_readable.

Local Abbreviation validator :=
  (NewChannelPaymentValidator (daemon_processor metadata) metadata).

Lemma run_block w :
  0 <= block w ->
  run (Processor_CurrentBlock (daemon_processor metadata)) w = (Returned (Ok (block w)), w).
Proof. intros Hb. cbn. by rewrite readable. Qed.

Lemma run_Validate payment c threshold w :
  GetPaymentExpirationThreshold metadata = Some threshold -> 0 <= block w ->
  exists r, run (ChannelPaymentValidator_Validate validator payment c) w = (Returned r, w) /\
    validate_answer payment c (Ok (block w)) threshold r.
Proof.
  intros Ht Hb. destruct (Validate_cases validator payment c threshold Ht)
    as [(r & -> & Hr)|(k & -> & Hk)]; [by exists r|].
  destruct (Hk (Ok (block w))) as (r & Hkr & Hr). exists r. split; [|done].
  rewrite run_bind. change (validator_currentBlock validator)
    with (Processor_CurrentBlock (daemon_processor metadata)).
  by rewrite run_block, Hkr.
Qed.

Definition transaction_of (payment : Payment) (c : PaymentChannelData)
  : paymentTransaction DaemonE :=
  mkPaymentTransaction payment c service (the_lock (Payment.ChannelID payment)).

Lemma run_start_accepted payment c w :
  0 <= block w -> lock_free (Payment.ChannelID payment) (store w) ->
  acceptable w payment c ->
  run (lockingPaymentChannelService_StartPaymentTransaction service payment) w
  = (Returned (Ok (transaction_of payment c)),
     with_lock (Payment.ChannelID payment) locked w).
Proof.
  intros Hb Hl (Hc & Hf & threshold & Ht & He).
  unfold lockingPaymentChannelService_StartPaymentTransaction.
  rewrite run_bind. change (Locker_Lock _ _)
    with (etcdLocker_Lock locker
            (PaymentChannelKey_String (channel_key (Payment.ChannelID payment)))).
  rewrite run_Lock_free by done. rewrite run_defer, run_bind, run_PaymentChannel.
  rewrite channel_now_lock, Hc. unfold bind_ok. rewrite run_bind.
  destruct (run_Validate payment c threshold (with_lock (Payment.ChannelID payment) locked w)
              Ht Hb) as (r & Hrun & Hr).
  change (service_validator service) with validator. rewrite Hrun.
  assert (r = Ok tt) as ->; [|done].
  destruct Hf as (? & ? & ?). inversion Hr; simplify_eq; try done; simpl in *; lia.
Qed.

(** A payment that is refused leaves the lock free and everything else as it
    was. *)
Lemma run_start_refused payment w :
  0 <= block w -> lock_free (Payment.ChannelID payment) (store w) ->
  is_Some (GetPaymentExpirationThreshold metadata) ->
  (forall c, ~ acceptable w payment c) ->
  exists e,
    run (lockingPaymentChannelService_StartPaymentTransaction service payment) w
    = (Returned (Err (ErrorPayment e)), with_lock (Payment.ChannelID payment) unlocked w).
Proof.
  intros Hb Hl [threshold Ht] Hno.
  unfold lockingPaymentChannelService_StartPaymentTransaction.
  rewrite run_bind. change (Locker_Lock _ _)
    with (etcdLocker_Lock locker
            (PaymentChannelKey_String (channel_key (Payment.ChannelID payment)))).
  rewrite run_Lock_free by done. rewrite run_defer, run_bind, run_PaymentChannel.
  rewrite channel_now_lock.
  set (w1 := with_lock (Payment.ChannelID payment) locked w).
  assert (run (Lock_Unlock (the_lock (Payment.ChannelID payment))) w1
          = (Returned (Ok tt), with_lock (Payment.ChannelID payment) unlocked w)) as Hun.
  { rewrite run_Unlock by apply with_lock_held. unfold w1. by rewrite with_lock_twice. }
  destruct (channel_now _ w) as [[c|]|e] eqn:Hc.
  - unfold bind_ok. rewrite run_bind. change (service_validator service) with validator.
    destruct (run_Validate payment c threshold w1 Ht Hb) as (r & -> & Hr).
    assert (exists e, r = Err (ErrorPayment e)) as [e ->].
    { destruct Hr; eauto. destruct (Hno c). simplify_eq/=. split; [done|]. eauto. }
    cbn [run bind]. rewrite Hun. eauto.
  - cbn [run bind]. rewrite Hun. eauto.
  - cbn [run bind]. rewrite Hun. eauto.
Qed.

(** Without a threshold the validation panics and the lock stays taken. *)
Lemma run_start_no_threshold payment c w :
  0 <= block w -> GetPaymentExpirationThreshold metadata = None ->
  lock_free (Payment.ChannelID payment) (store w) ->
  channel_now (Payment.ChannelID payment) w = Ok (Some c) ->
  Payment.ChannelNonce payment = PaymentChannelData.Nonce c ->
  getSignerAddressFromPayment payment = Ok (PaymentChannelData.Signer c) ->
  run (lockingPaymentChannelService_StartPaymentTransaction service payment) w
  = (Panicked nil_dereference, with_lock (Payment.ChannelID payment) locked w).
Proof.
  intros Hb Ht Hl Hc Hn Hs.
  unfold lockingPaymentChannelService_StartPaymentTransaction.
  rewrite run_bind. change (Locker_Lock _ _)
    with (etcdLocker_Lock locker
            (PaymentChannelKey_String (channel_key (Payment.ChannelID payment)))).
  rewrite run_Lock_free by done. rewrite run_defer, run_bind, run_PaymentChannel.
  rewrite channel_now_lock, Hc. unfold bind_ok. rewrite run_bind.
  change (service_validator service) with validator.
  unfold ChannelPaymentValidator_Validate.
  rewrite Hn, Z.eqb_refl, Hs, decide_False by auto. cbn [negb].
  rewrite run_bind. change (validator_currentBlock validator)
    with (Processor_CurrentBlock (daemon_processor metadata)).
  rewrite run_block by done.
  change (validator_paymentExpirationThreshold validator)
    with (GetPaymentExpirationThreshold metadata). by rewrite Ht.
Qed.

Lemma run_start_held payment w :
  lock_held (Payment.ChannelID payment) (store w) ->
  run (lockingPaymentChannelService_StartPaymentTransaction service payment) w
  = (Returned (Err (NewPaymentError FailedPrecondition
       "another transaction on channel: %v is in progress"
       [PaymentChannelKey_String (channel_key (Payment.ChannelID payment))])), w).
Proof.
  intros Hl. unfold lockingPaymentChannelService_StartPaymentTransaction.
  rewrite run_bind. change (Locker_Lock _ _)
    with (etcdLocker_Lock locker
            (PaymentChannelKey_String (channel_key (Payment.ChannelID payment)))).
  by rewrite run_Lock_held by done.
Qed.

Definition charged (payment : Payment) (c : PaymentChannelData) (w : World) : World :=
  set_store (put_channel (channel_key (Payment.ChannelID payment))
               (committed_channel payment c) (store w)) w.

Lemma run_Commit payment c w :
  lock_held (Payment.ChannelID payment) (store w) ->
  run (paymentTransaction_Commit (transaction_of payment c)) w
  = (Returned (Ok tt),
     with_lock (Payment.ChannelID payment) unlocked (charged payment c w)).
Proof.
  intros Hl. unfold paymentTransaction_Commit. rewrite run_defer, run_bind.
  change (service_storage (transaction_service (transaction_of payment c)))
    with (NewPaymentChannelStorage daemon_storage).
  rewrite run_channel_put.
  change (transaction_lock (transaction_of payment c))
    with (the_lock (Payment.ChannelID payment)).
  cbn [run]. rewrite run_Unlock; [done|]. by apply lock_held_put_channel.
Qed.

Lemma run_Rollback payment c w :
  lock_held (Payment.ChannelID payment) (store w) ->
  run (paymentTransaction_Rollback (transaction_of payment c)) w
  = (Returned (Ok tt), with_lock (Payment.ChannelID payment) unlocked w).
Proof.
  intros Hl. unfold paymentTransaction_Rollback. rewrite run_defer.
  change (transaction_lock (transaction_of payment c))
    with (the_lock (Payment.ChannelID payment)).
  cbn [run]. by rewrite run_Unlock.
Qed.
End sequential.
