(* ===== verification/Calls.v ===== *)
(** * Calls, claims and state requests

    The functional behaviour of whole requests, one at a time and without
    faults: a paid call is charged exactly when it is served, a claim moves
    the authorized amount of the channel to the claim, and the state service
    answers with the last accepted payment. *)
From S2P Require Import Prelude Prog Bytes AtomicStorage Lock Blockchain PaymentChannelApi.
From S2P Require Import PaymentChannelStorage Validation Escrow Handler EscrowHandler.
From S2P Require Import StateService ControlService World Concurrency Sequential.
Import Payment (Payment) PaymentChannelData (PaymentChannelData) Claim (Claim)
  PaymentTransaction (PaymentTransaction) PaymentHandler (PaymentHandler)
  PaymentChannelService (PaymentChannelService) ServiceMetadata (ServiceMetadata).
Local Open Scope Z_scope.

(** ** Reading payments from call metadata *)

(** The metadata a client sends for a payment. *)
Definition payment_metadata (p : Payment) : MD :=
  list_to_map
    [(PaymentTypeHeader, [EscrowPaymentType]);
     (PaymentChannelIDHeader, [pretty (Payment.ChannelID p)]);
     (PaymentChannelNonceHeader, [pretty (Payment.ChannelNonce p)]);
     (PaymentChannelAmountHeader, [pretty (Payment.Amount p)]);
     (PaymentChannelSignatureHeader,
       [string_of_bytes (default [] (Payment.Signature p))])].

Lemma GetSingleValue_one md key v : MD_Get md key = [v] -> GetSingleValue md key = inl v.
Proof. intros Hk. unfold GetSingleValue. by rewrite Hk. Qed.

Lemma GetBigInt_pretty md key z : MD_Get md key = [pretty z] -> GetBigInt md key = inl z.
Proof.
  intros Hk. unfold GetBigInt. rewrite (GetSingleValue_one _ _ _ Hk).
  by rewrite Int_UnmarshalText_pretty.
Qed.

Lemma GetBytes_one md key v :
  HasSuffix key "-bin" = true -> MD_Get md key = [v] ->
  GetBytes md key = inl (bytes_of_string v).
Proof.
  intros Hs Hk. unfold GetBytes. by rewrite Hs, (GetSingleValue_one _ _ _ Hk).
Qed.

(** C22: the payment that a client writes to the metadata in decimal is the
    payment the handler reads. *)
Theorem payment_metadata_roundtrip {E} (h : paymentChannelPaymentHandler E) (p : Payment) :
  Payment.MpeContractAddress p = handler_mpeContractAddress h ->
  is_Some (Payment.Signature p) ->
  getPaymentFromContext h (mkGrpcStreamContext (payment_metadata p)) = inl p.
Proof.
  intros Hm [s Hs]. unfold getPaymentFromContext.
  rewrite (GetBigInt_pretty _ PaymentChannelIDHeader (Payment.ChannelID p)) by reflexivity.
  rewrite (GetBigInt_pretty _ PaymentChannelNonceHeader (Payment.ChannelNonce p)) by reflexivity.
  rewrite (GetBigInt_pretty _ PaymentChannelAmountHeader (Payment.Amount p)) by reflexivity.
  rewrite (GetBytes_one _ PaymentChannelSignatureHeader
    (string_of_bytes (default [] (Payment.Signature p)))) by reflexivity.
  rewrite Hs, <-Hm. unfold bytes_of_string, string_of_bytes. simpl.
  rewrite String.list_byte_of_string_of_list_byte, <-Hs. by destruct p.
Qed.

(** ** Calls *)

Section calls.
Context `{!GoEthereum, !EscrowCodec, !EscrowCodecLaws, !EthereumNode}
  (metadata : ServiceMetadata).

Local Abbreviation service := (Components_PaymentChannelService metadata).
Local Abbreviation escrow_handler := (Components_EscrowPaymentHandler metadata).

(** The metadata carries the payment [p] for the escrow handler. *)
Definition pays_with (md : MD) (p : Payment) : Prop :=
  md !! PaymentTypeHeader = Some [EscrowPaymentType] /\
  getPaymentFromContext escrow_handler (mkGrpcStreamContext md) = inl p.

Definition priced (p : Payment) (c : PaymentChannelData) : Prop :=
  exists price, GetPriceInCogs metadata = Some price /\
    Payment.Amount p = PaymentChannelData.AuthorizedAmount c + price.

Local Abbreviation call md handler :=
  (Components_GrpcPaymentValidationInterceptor true metadata (Some md) handler).

(** The request up to the service handler. *)
Lemma run_call md p handler w :
  pays_with md p ->
  run (call md handler) w =
  match run (paymentChannelPaymentHandler_Payment escrow_handler
               (mkGrpcStreamContext md)) w with
  | (Returned (inl payment), w') =>
      run (catch handler (complete_payment
             (paymentChannelPaymentHandler_object escrow_handler) payment)) w'
  | (Returned (inr err), w') => (Returned (GrpcError_Err err), w')
  | (Panicked m, w') => (Panicked m, w')
  end.
Proof.
  intros [Ht _]. unfold Components_GrpcPaymentValidationInterceptor,
    GrpcPaymentValidationInterceptor, paymentValidationInterceptor_intercept.
  cbn [negb getGrpcContext]. unfold getPaymentHandler. cbn [Context_MD]. rewrite Ht.
  cbn [newPaymentValidationInterceptor interceptor_paymentHandlers foldl].
  change (PaymentHandler.handler_Type _) with EscrowPaymentType.
  rewrite lookup_singleton_eq, run_bind.
  change (PaymentHandler.handler_Payment _) with
    (paymentChannelPaymentHandler_Payment escrow_handler).
  by destruct (run _ w) as [[[t|e]|m] w'].
Qed.

Lemma run_handler_Payment md p w :
  pays_with md p ->
  run (paymentChannelPaymentHandler_Payment escrow_handler (mkGrpcStreamContext md)) w =
  match run (lockingPaymentChannelService_StartPaymentTransaction service p) w with
  | (Returned (Ok tx), w1) =>
      run (let! e := incomeValidator_Validate
                       (mk_incomeValidator (GetPriceInCogs metadata))
                       (mkIncomeData (Payment.Amount p
                          - PaymentChannelData.AuthorizedAmount (transaction_channel tx))
                          (mkGrpcStreamContext md)) in
           match e with
           | Err e =>
               let! _ := paymentTransaction_Rollback tx in Ret (inr (grpc_error_of e))
           | Ok _ => Ret (inl (paymentTransaction_object tx))
           end) w1
  | (Returned (Err e), w1) => (Returned (inr (grpc_error_of e)), w1)
  | (Panicked m, w1) => (Panicked m, w1)
  end.
Proof.
  intros [_ Hp]. unfold paymentChannelPaymentHandler_Payment. rewrite Hp, run_bind.
  change (PaymentChannelService.StartPaymentTransaction (handler_service escrow_handler) p)
    with (try! tx := lockingPaymentChannelService_StartPaymentTransaction service p in
          Ret (Ok (paymentTransaction_object tx))).
  unfold bind_ok. rewrite run_bind.
  by destruct (run (lockingPaymentChannelService_StartPaymentTransaction service p) w)
    as [[[tx|e]|m] w1].
Qed.

Local Abbreviation channel_of p := (Payment.ChannelID p).

Lemma run_handler_Payment_accepted md p c w :
  hex_readable -> 0 <= block w -> pays_with md p -> lock_free (channel_of p) (store w) ->
  acceptable metadata w p c -> priced p c ->
  run (paymentChannelPaymentHandler_Payment escrow_handler (mkGrpcStreamContext md)) w
  = (Returned (inl (paymentTransaction_object (transaction_of metadata p c))),
     with_lock (channel_of p) locked w).
Proof.
  intros readable Hb Hmd Hl Ha (price & Hprice & Hamount). rewrite (run_handler_Payment _ p) by done.
  rewrite (run_start_accepted _ readable _ c) by done.
  unfold incomeValidator_Validate. cbn [incomeValidator_priceInCogs]. rewrite Hprice.
  cbn [IncomeData_Income]. cbn [transaction_channel transaction_of].
  rewrite (proj2 (Z.eqb_eq _ _)) by lia. done.
Qed.

Lemma grpc_error_status e :
  exists status, grpc_error_of (ErrorPayment e) = mkGrpcError (Some status) /\
    Status_Code status <> codes_OK.
Proof.
  eexists. split; [reflexivity|]. cbn [Status_Code].
  by repeat (destruct (_ =? _); [done|]).
Qed.

Lemma GrpcError_Err_status status :
  Status_Code status <> codes_OK ->
  GrpcError_Err (mkGrpcError (Some status)) = Err (ErrorStatus status).
Proof.
  unfold GrpcError_Err, GrpcError_Status, Status_Err. intros Hs.
  by destruct (Z.eqb_spec (Status_Code status) codes_OK).
Qed.

Lemma run_call_charged md p c w :
  hex_readable -> 0 <= block w ->
  pays_with md p -> lock_free (channel_of p) (store w) ->
  acceptable metadata w p c -> priced p c ->
  run (call md (Ret (Ok tt))) w
  = (Returned (Ok tt), with_lock (channel_of p) unlocked (charged p c w)).
Proof.
  intros readable Hb Hmd Hl Ha Hprice. rewrite (run_call _ p) by done.
  rewrite (run_handler_Payment_accepted _ p c) by done.
  cbn [catch]. unfold complete_payment. rewrite run_bind.
  change (PaymentHandler.Complete _) with (@paymentChannelPaymentHandler_Complete DaemonE).
  unfold paymentChannelPaymentHandler_Complete. rewrite run_bind.
  change (PaymentTransaction.Commit (paymentTransaction_object ?tx))
    with (paymentTransaction_Commit tx).
  rewrite run_Commit by apply with_lock_held. cbn [run err_of paymentErrorToGrpcError].
  f_equal. unfold charged, with_lock, set_store. simpl. by rewrite put_channel_lock, insert_insert_eq.
Qed.

(** C16: a call that pays correctly on a free channel is served and charged:
    when the service handler succeeds, the call succeeds, the record of the
    channel is the committed state, and the lock is free again. *)
Theorem served_call_is_charged md p c w :
  hex_readable -> 0 <= block w ->
  pays_with md p -> lock_free (channel_of p) (store w) ->
  acceptable metadata w p c -> priced p c ->
  run (call md (Ret (Ok tt))) w
  = (Returned (Ok tt), with_lock (channel_of p) unlocked (charged p c w)).
Proof. apply run_call_charged. Qed.

(** How a call that is not served ends for the client. *)
Definition call_failure (o : outcome (result unit)) : outcome (result unit) :=
  match o with
  | Panicked _ => Panicked "re-panic after payment handler error handling"
  | _ => o
  end.

(** C17: a call whose service handler fails or panics is not charged: the error
    is the handler's, the records are untouched and the lock is free again. *)
Theorem failed_call_is_not_charged md p c w o :
  hex_readable -> 0 <= block w ->
  pays_with md p -> lock_free (channel_of p) (store w) ->
  acceptable metadata w p c -> priced p c -> o <> Returned (Ok tt) ->
  run (call md (resume o)) w = (call_failure o, with_lock (channel_of p) unlocked w).
Proof.
  intros readable Hb Hmd Hl Ha Hprice Ho. rewrite (run_call _ p) by done.
  rewrite (run_handler_Payment_accepted _ p c) by done.
  assert (forall e, run (PaymentHandler.CompleteAfterError
            (paymentChannelPaymentHandler_object escrow_handler)
            (paymentTransaction_object (transaction_of metadata p c)) e)
            (with_lock (channel_of p) locked w)
          = (Returned None, with_lock (channel_of p) unlocked w)) as Hrb.
  { intros e. change (PaymentHandler.CompleteAfterError _)
      with (@paymentChannelPaymentHandler_CompleteAfterError DaemonE).
    unfold paymentChannelPaymentHandler_CompleteAfterError. rewrite run_bind.
    change (PaymentTransaction.Rollback (paymentTransaction_object ?tx))
      with (paymentTransaction_Rollback tx).
    rewrite run_Rollback by apply with_lock_held. by rewrite with_lock_twice. }
  destruct o as [[[]|e]|m]; [done|..]; cbn [resume catch complete_payment];
    rewrite run_bind, Hrb; done.
Qed.

(** C18: a call whose payment does not pass the checks, or does not pay exactly
    the price, is refused with a gRPC error before the service handler runs;
    the records are untouched and the lock is free again. *)
Theorem refused_call_changes_nothing md p handler w :
  hex_readable -> 0 <= block w ->
  is_Some (GetPaymentExpirationThreshold metadata) ->
  is_Some (GetPriceInCogs metadata) ->
  pays_with md p -> lock_free (channel_of p) (store w) ->
  (forall c, acceptable metadata w p c -> ~ priced p c) ->
  exists status, Status_Code status <> codes_OK /\
    run (call md handler) w
    = (Returned (Err (ErrorStatus status)), with_lock (channel_of p) unlocked w).
Proof.
  intros readable Hb Ht [price Hprice] Hmd Hl Hno.
  rewrite (run_call _ p) by done. rewrite (run_handler_Payment _ p) by done.
  destruct (decide_acceptable metadata w p) as [[c Ha]|Hna].
  - rewrite (run_start_accepted _ readable _ c) by done.
    unfold incomeValidator_Validate. cbn [incomeValidator_priceInCogs]. rewrite Hprice.
    cbn [IncomeData_Income transaction_channel transaction_of].
    destruct (Z.eqb_spec (Payment.Amount p - PaymentChannelData.AuthorizedAmount c) price)
      as [He|He]; [destruct (Hno c Ha); exists price; split; [done|lia]|].
    cbn [negb bind]. rewrite run_bind, run_Rollback by apply with_lock_held.
    rewrite with_lock_twice. eexists. by split; [|reflexivity].
  - destruct (run_start_refused metadata readable p w Hb Hl Ht) as [e ->].
    { intros c Ha. by apply Hna; exists c. }
    destruct (grpc_error_status e) as (status & Hs & Hc). cbn [run].
    exists status. split; [done|]. by rewrite Hs, GrpcError_Err_status.
Qed.

(** while another transaction holds the lock of the channel, a call is
    refused at once with the code FailedPrecondition; nothing changes. *)
Lemma busy_channel_refuses_call md p handler w :
  pays_with md p -> lock_held (channel_of p) (store w) ->
  exists m, run (call md handler) w
    = (Returned (Err (ErrorStatus (mkStatus codes_FailedPrecondition m))), w).
Proof.
  intros Hmd Hl. rewrite (run_call _ p) by done. rewrite (run_handler_Payment _ p) by done.
  rewrite run_start_held by done. by eexists.
Qed.

(** C36: when the metadata has no expiration threshold, a correctly signed payment
    panics in the validation and leaves the channel locked: as long as nobody
    unlocks it, every later call on the channel, whatever it pays and whoever makes
    it, is refused as busy and changes nothing. *)
Theorem missing_threshold_leaves_channel_locked md p c w handler :
  hex_readable -> 0 <= block w -> GetPaymentExpirationThreshold metadata = None ->
  pays_with md p -> lock_free (channel_of p) (store w) ->
  channel_now metadata (channel_of p) w = Ok (Some c) ->
  Payment.ChannelNonce p = PaymentChannelData.Nonce c ->
  getSignerAddressFromPayment p = Ok (PaymentChannelData.Signer c) ->
  let w' := with_lock (channel_of p) locked w in
  run (call md handler) w = (Panicked nil_dereference, w') /\
  lock_held (channel_of p) (store w') /\
  forall later md' p' handler', lock_held (channel_of p) (store later) ->
    pays_with md' p' -> channel_of p' = channel_of p ->
    exists m, run (call md' handler') later
      = (Returned (Err (ErrorStatus (mkStatus codes_FailedPrecondition m))), later).
Proof.
  intros readable Hb Ht Hmd Hl Hc Hn Hs w'. split; [|split].
  - rewrite (run_call _ p) by done. rewrite (run_handler_Payment _ p) by done.
    by rewrite (run_start_no_threshold _ readable _ c).
  - apply with_lock_held.
  - intros later md' p' handler' Hheld Hmd' Hid. apply (busy_channel_refuses_call _ p'); [done|].
    by rewrite Hid.
Qed.

(** ** The state of a channel after a call *)

Lemma channel_now_charged p c w v :
  acceptable metadata w p c ->
  exists c', channel_now metadata (channel_of p) (with_lock (channel_of p) v (charged p c w))
             = Ok (Some c') /\
    PaymentChannelData.Nonce c' = Payment.ChannelNonce p /\
    PaymentChannelData.Signer c' = PaymentChannelData.Signer c /\
    PaymentChannelData.AuthorizedAmount c' = Payment.Amount p /\
    PaymentChannelData.Signature c' = Payment.Signature p.
Proof.
  intros (Hc & (Hn & Hsig & _) & _). pose proof (norm_slice_signed p _ Hsig) as Hnorm.
  rewrite channel_now_lock. unfold channel_now, charged in *. cbn [store set_store contract_state].
  rewrite stored_put_channel.
  destruct (stored_channel (store w) _) as [old|e]; [|done].
  destruct (current_channel_committed _ _ _ p c Hc) as (c' & Hc' & Hn' & Hs' & Ha' & Hg').
  exists c'. rewrite Hnorm in Hg'. repeat split; congruence.
Qed.

(** C20: after a call has been charged, the state service tells the signer of the
    channel, and nobody else, the nonce, the amount and the signature of that
    call. *)
Theorem state_reports_last_payment md p c w signer request :
  hex_readable -> 0 <= block w ->
  pays_with md p -> lock_free (channel_of p) (store w) ->
  acceptable metadata w p c -> priced p c ->
  bytesToBigInt (ChannelStateRequest.ChannelId request) = channel_of p ->
  getSignerAddressFromMessage (bigIntToBytes (channel_of p))
    (ChannelStateRequest.Signature request) = Ok signer ->
  let w' := (run (call md (Ret (Ok tt))) w).2 in
  run (GetChannelState (Components_PaymentChannelStateService metadata) request) w'
  = (Returned
       (if decide (signer = PaymentChannelData.Signer c) then
          Ok (ChannelStateReply.mk (bigIntToBytes (Payment.ChannelNonce p))
            (bigIntToBytes (Payment.Amount p)) (slice_bytes (Payment.Signature p)))
        else Err (ErrorString "only channel signer can get latest channel state")), w').
Proof.
  intros readable Hb Hmd Hl Ha Hp Hid Hsig w'. subst w'.
  rewrite (run_call_charged _ p c) by done. cbn [snd].
  unfold GetChannelState. rewrite Hid, Hsig, run_bind.
  change (PaymentChannelService.PaymentChannel _)
    with (lockingPaymentChannelService_PaymentChannel service).
  change (mkPaymentChannelKey (channel_of p)) with (channel_key (channel_of p)).
  rewrite run_PaymentChannel.
  destruct (channel_now_charged p c w unlocked Ha) as (c' & -> & Hn & Hs & Hamount & Hg).
  destruct Ha as (_ & (_ & Hsigner & _) & _).
  destruct (signed_signature _ _ Hsigner) as (s & Hsome & _).
  rewrite Hs, Hg, Hsome, Hn, Hamount. cbn [slice_bytes default from_option].
  destruct (decide (signer = PaymentChannelData.Signer c)) as [->|Hne].
  - by rewrite decide_False by auto.
  - by rewrite decide_True by congruence.
Qed.
End calls.

(** ** Channel numbers above 256 bits *)

Section aliases.
Context `{!GoEthereum, !GoEthereumLaws, !EscrowCodec, !EscrowCodecLaws, !EthereumNode}
  (metadata : ServiceMetadata).

Local Abbreviation alias id := (id + 2 ^ 256).

Lemma U256_alias id : U256 (alias id) = U256 id.
Proof.
  rewrite !U256_spec. rewrite <-be_bytes_mod, <-(be_bytes_mod 32 id). f_equal.
  change (256 ^ Z.of_nat 32) with (2 ^ 256). by rewrite <-(Z.mul_1_l (2 ^ 256)) at 1;
    rewrite Z.mod_add.
Qed.

(** The contract has the same channel under both numbers. *)
Lemma alias_channel_now id c w :
  stored_channel (store w) (channel_key id) = Ok None ->
  stored_channel (store w) (channel_key (alias id)) = Ok None ->
  channel_now metadata id w = Ok (Some c) ->
  exists c', channel_now metadata (alias id) w = Ok (Some c') /\
    PaymentChannelData.Nonce c' = PaymentChannelData.Nonce c /\
    PaymentChannelData.Signer c' = PaymentChannelData.Signer c /\
    PaymentChannelData.FullAmount c' = PaymentChannelData.FullAmount c /\
    PaymentChannelData.Expiration c' = PaymentChannelData.Expiration c /\
    PaymentChannelData.AuthorizedAmount c' = PaymentChannelData.AuthorizedAmount c.
Proof.
  unfold channel_now. intros -> ->. unfold blockchain_answer. rewrite U256_alias.
  destruct (decide _); [done|]. destruct (decide _); [done|]. cbn.
  destruct (verifyGroupId _ _); [|done]. intros [= <-]. eexists. by repeat split.
Qed.

Lemma acceptable_alias p c w :
  0 <= Payment.ChannelID p ->
  stored_channel (store w) (channel_key (Payment.ChannelID p)) = Ok None ->
  stored_channel (store w) (channel_key (alias (Payment.ChannelID p))) = Ok None ->
  acceptable metadata w p c -> priced metadata p c ->
  exists c', acceptable metadata w (alias_payment p) c' /\ priced metadata (alias_payment p) c'.
Proof.
  intros Hid Hst Hst' (Hc & (Hn & Hsig & Ha) & threshold & Ht & He) (price & Hp & Hamount).
  destruct (alias_channel_now _ _ _ Hst Hst' Hc) as (c' & Hc' & En & Es & Ef & Ee & Ea).
  exists c'. split; [split; [done|]|].
  - split; [|exists threshold; split; [done|]; unfold not_near_expiration; by rewrite Ee].
    unfold payment_fits. rewrite alias_payment_signer, En, Es, Ef by done. done.
  - exists price. rewrite Ea. done.
Qed.

(** C35: channel numbers are not bounded, and the message that a payment signs
    has the low 256 bits of the number only, as the contract has: the same
    signed payment is served and charged a second time for the number of the
    channel plus 2^256, which has a record and a lock of its own. *)
Theorem payment_is_accepted_again_under_alias md md' p c w :
  hex_readable -> 0 <= block w -> 0 <= Payment.ChannelID p ->
  pays_with metadata md p -> pays_with metadata md' (alias_payment p) ->
  lock_free (Payment.ChannelID p) (store w) ->
  lock_free (alias (Payment.ChannelID p)) (store w) ->
  stored_channel (store w) (channel_key (Payment.ChannelID p)) = Ok None ->
  stored_channel (store w) (channel_key (alias (Payment.ChannelID p))) = Ok None ->
  acceptable metadata w p c -> priced metadata p c ->
  let call md := Components_GrpcPaymentValidationInterceptor true metadata (Some md)
                   (Ret (Ok tt)) in
  let first := run (call md) w in
  first.1 = Returned (Ok tt) /\ (run (call md') first.2).1 = Returned (Ok tt) /\
  Payment.Signature (alias_payment p) = Payment.Signature p.
Proof.
  intros readable Hb Hid Hmd Hmd' Hl Hl' Hst Hst' Ha Hp call first. subst first call.
  cbv beta. rewrite (run_call_charged _ md p c) by done. cbn [fst snd].
  split; [done|]. split; [|done].
  set (w' := with_lock _ _ _).
  destruct (acceptable_alias _ _ _ Hid Hst Hst' Ha Hp) as (c' & Ha' & Hp').
  assert (Payment.ChannelID p <> alias (Payment.ChannelID p)) as Hne by lia.
  rewrite (run_call_charged _ md' (alias_payment p) c'); try done.
  - unfold lock_free, w', with_lock, charged. cbn [store set_store].
    rewrite !lookup_insert_ne by by intros ?%lock_key_inj.
    rewrite !lookup_put_channel_other by by apply prefix_disjoint. done.
  - destruct Ha' as (Hc' & Hrest). split; [|done]. unfold w'. rewrite channel_now_lock.
    revert Hc'. unfold channel_now, charged. cbn [store set_store contract_state].
    rewrite stored_put_channel_ne; [done|]. intros [= Heq]. by apply Hne.
Qed.
End aliases.
