(* ===== verification/Claims.v ===== *)
(** * Claims of the provider

    Starting and finishing claims, one request at a time and without faults,
    and the checks of the control requests. *)
From S2P Require Import Prelude Prog Bytes AtomicStorage Lock Blockchain PaymentChannelApi.
From S2P Require Import PaymentChannelStorage Validation Escrow Handler EscrowHandler.
From S2P Require Import StateService ControlService World Concurrency Sequential.
Import Payment (Payment) PaymentChannelData (PaymentChannelData) Claim (Claim)
  PaymentChannelService (PaymentChannelService) ServiceMetadata (ServiceMetadata).
Local Open Scope Z_scope.

Section claims.
Context `{!GoEthereum, !EscrowCodec, !EscrowCodecLaws, !EthereumNode}
  (metadata : ServiceMetadata).

Local Abbreviation service := (Components_PaymentChannelService metadata).
Local Abbreviation control := (Components_ProviderControlService metadata).

(** The world after a claim on the channel state [c] was started. *)
Definition claim_started (id : Z) (update : ChannelUpdate) (c : PaymentChannelData)
    (w : World) : World :=
  set_store (put_payment (getPaymentFromChannel c)
    (put_channel (channel_key id) (update c) (store w))) w.

Definition claim_impl (payment : Payment) : claimImpl DaemonE :=
  mkClaimImpl (NewPaymentStorage daemon_storage) payment.

Lemma run_StartClaim id update c w :
  lock_free id (store w) -> stored_channel (store w) (channel_key id) = Ok (Some c) ->
  run (lockingPaymentChannelService_StartClaim service (channel_key id) update) w
  = (Returned (Ok (claim_impl (getPaymentFromChannel c))),
     with_lock id unlocked (claim_started id update c w)).
Proof.
  intros Hl Hc. unfold lockingPaymentChannelService_StartClaim.
  rewrite run_bind. change (Locker_Lock _ _)
    with (etcdLocker_Lock (mkEtcdLocker DaemonE
            (PrefixedAtomicStorage_object (NewLockerStorage daemon_storage)))
            (PaymentChannelKey_String (channel_key id))).
  rewrite run_Lock_free by done. rewrite run_defer. unfold bind_ok. rewrite !run_bind.
  change (service_storage service) with (NewPaymentChannelStorage daemon_storage).
  change (service_paymentStorage service) with (NewPaymentStorage daemon_storage).
  rewrite run_channel_get. unfold with_lock at 1. cbn [store set_store].
  rewrite lock_other_channel, Hc, run_bind, run_channel_put, run_bind, run_payment_put.
  cbn [run]. rewrite run_Unlock.
  - f_equal. unfold claim_started, with_lock, set_store. simpl.
    by rewrite put_channel_lock, put_payment_lock, insert_insert_eq.
  - apply lock_held_put_payment, lock_held_put_channel, with_lock_held.
Qed.

(** C19: starting a claim takes the authorized amount out of the channel and
    records it, with the signature that covers it, as the claim of the old
    nonce: together they are the amount the channel had; the channel continues
    with the next nonce, nothing authorized, and a free lock. *)
Theorem start_claim_moves_authorized_amount id c w :
  lock_free id (store w) -> stored_channel (store w) (channel_key id) = Ok (Some c) ->
  exists claim w' next p,
    run (lockingPaymentChannelService_StartClaim service (channel_key id)
           IncrementChannelNonce) w = (Returned (Ok claim), w') /\
    lock_free id (store w') /\
    stored_channel (store w') (channel_key id) = Ok (Some next) /\
    stored_payment (store w') (claim_id (PaymentChannelData.ChannelID c)
                                 (PaymentChannelData.Nonce c)) = Ok (Some p) /\
    claimImpl_Payment claim = getPaymentFromChannel c /\
    Payment.Amount p = PaymentChannelData.AuthorizedAmount c /\
    Payment.Signature p = norm_slice (PaymentChannelData.Signature c) /\
    PaymentChannelData.Nonce next = PaymentChannelData.Nonce c + 1 /\
    PaymentChannelData.AuthorizedAmount next = 0 /\
    PaymentChannelData.FullAmount next + Payment.Amount p = PaymentChannelData.FullAmount c.
Proof.
  intros Hl Hc. exists (claim_impl (getPaymentFromChannel c)),
    (with_lock id unlocked (claim_started id IncrementChannelNonce c w)),
    (norm_channel (IncrementChannelNonce c)), (norm_payment (getPaymentFromChannel c)).
  split; [by apply run_StartClaim|]. unfold with_lock, claim_started. cbn [store set_store].
  split; [right; apply lookup_insert_eq|].
  rewrite lock_other_channel, lock_other_payment, stored_channel_put_payment,
    stored_put_channel.
  split; [done|]. split; [apply stored_put_payment|].
  repeat (split; [done|]). simpl. lia.
Qed.

(** a claim cannot be started while a payment transaction holds the lock of
    the channel, nor on a channel that was never paid; nothing is written. *)
Lemma start_claim_refused id update w :
  (lock_held id (store w) ->
   exists e, run (lockingPaymentChannelService_StartClaim service (channel_key id) update) w
     = (Returned (Err e), w)) /\
  (lock_free id (store w) -> stored_channel (store w) (channel_key id) = Ok None ->
   exists e, run (lockingPaymentChannelService_StartClaim service (channel_key id) update) w
     = (Returned (Err e), with_lock id unlocked w)).
Proof.
  unfold lockingPaymentChannelService_StartClaim.
  rewrite run_bind. change (Locker_Lock _ _)
    with (etcdLocker_Lock (mkEtcdLocker DaemonE
            (PrefixedAtomicStorage_object (NewLockerStorage daemon_storage)))
            (PaymentChannelKey_String (channel_key id))).
  split.
  - intros Hl. rewrite run_Lock_held by done. cbn [run]. eauto.
  - intros Hl Hc. rewrite run_Lock_free by done. rewrite run_defer. unfold bind_ok.
    rewrite !run_bind.
    change (service_storage service) with (NewPaymentChannelStorage daemon_storage).
    rewrite run_channel_get. unfold with_lock at 1. cbn [store set_store].
    rewrite lock_other_channel, Hc. cbn [run].
    rewrite run_Unlock by apply with_lock_held. rewrite with_lock_twice. eauto.
Qed.

(** ** The block number check *)

Lemma run_compareWithLatestBlockNumber blockNumberPassed w :
  run (compareWithLatestBlockNumber control blockNumberPassed) w = (Returned (Ok tt), w).
Proof.
  unfold compareWithLatestBlockNumber, control_currentBlock. cbn [bind_ok bind run].
  cbn. unfold Cmp. by destruct (_ ?= _).
Qed.

(** the check of the block number of a control request accepts every number,
    however far it is from the latest block: an old signed request is accepted
    for ever. *)
Lemma every_block_number_is_accepted blockNumberPassed w :
  run (compareWithLatestBlockNumber control blockNumberPassed) w = (Returned (Ok tt), w).
Proof. apply run_compareWithLatestBlockNumber. Qed.

(** ** The signature check of [StartClaim] *)

(** the check of the signature of a claim request lets through exactly the
    requests that the provider's payment address signed for the current nonce
    of the channel, and every request for a channel that does not exist. *)
Lemma start_claim_signature_check request w :
  let id := bytesToBigInt (StartClaimRequest.ChannelId request) in
  run (verifySignerForStartClaim control request) w
  = (Returned (match channel_now metadata id w with
               | Err e => Err e
               | Ok None => Ok tt
               | Ok (Some c) => verifySigner control
                   (start_claim_message control id (PaymentChannelData.Nonce c))
                   (Some (StartClaimRequest.Signature request))
               end), w).
Proof.
  intros id. unfold verifySignerForStartClaim, bind_ok. rewrite run_bind.
  change (PaymentChannelService.PaymentChannel _)
    with (lockingPaymentChannelService_PaymentChannel service).
  change (mkPaymentChannelKey _) with (channel_key id).
  rewrite run_PaymentChannel. by destruct (channel_now metadata id w) as [[c|]|e].
Qed.

Lemma run_ListClaims_empty w :
  matching_values (prefixed_key payment_storage_prefix "") (store w) = [] ->
  run (PaymentChannelService.ListClaims (lockingPaymentChannelService_object service)) w
  = (Returned (Ok []), w).
Proof.
  intros Hm. cbn [PaymentChannelService.ListClaims lockingPaymentChannelService_object].
  unfold lockingPaymentChannelService_ListClaims, PaymentStorage_GetAll, bind_ok.
  cbn [service_paymentStorage Components_PaymentChannelService NewPaymentChannelService
    PaymentStorage_delegate NewPaymentStorage TypedAtomicStorage.GetAll
    TypedAtomicStorageImpl_object TypedAtomicStorageImpl_GetAll]. unfold bind_ok.
  rewrite !run_bind.
  change (run (AtomicStorage.GetByKeyPrefix _ _) w)
    with (run (call_storage daemon_storage
                 (SGetByKeyPrefix (prefixed_key payment_storage_prefix ""))) w).
  rewrite run_storage. cbn [memoryStorage_call memoryStorage_GetByKeyPrefix fst snd].
  pose proof (matching_values_memory (prefixed_key payment_storage_prefix "") (store w)) as Hp.
  rewrite Hm in Hp. apply Permutation_nil_r in Hp. rewrite Hp, set_store_id. done.
Qed.

(** a request to claim a channel that does not exist, signed by anybody,
    reaches the channel as a nil pointer: the request panics. *)
Lemma start_claim_on_unknown_channel_panics request w :
  ServiceMetadata.MpeAddress metadata = StartClaimRequest.MpeAddress request ->
  channel_now metadata (bytesToBigInt (StartClaimRequest.ChannelId request)) w = Ok None ->
  matching_values (prefixed_key payment_storage_prefix "") (store w) = [] ->
  run (ProviderControlService_StartClaim control request) w = (Panicked nil_dereference, w).
Proof.
  intros Hmpe Hc Hm. unfold ProviderControlService_StartClaim, checkMpeAddress.
  rewrite decide_True by done. unfold bind_ok. rewrite run_bind.
  assert (run (verifySignerForStartClaim control request) w = (Returned (Ok tt), w)) as ->.
  { unfold verifySignerForStartClaim, bind_ok. rewrite run_bind.
    change (PaymentChannelService.PaymentChannel _)
      with (lockingPaymentChannelService_PaymentChannel service).
    change (mkPaymentChannelKey ?k) with (channel_key k).
    by rewrite run_PaymentChannel, Hc. }
  rewrite run_bind. unfold removeClaimedPayments. rewrite run_bind.
  change (control_channelService control) with (lockingPaymentChannelService_object service).
  rewrite run_ListClaims_empty by done. cbn [remove_claimed run].
  unfold beginClaimOnChannel, bind_ok. rewrite run_bind.
  change (PaymentChannelService.PaymentChannel _)
    with (lockingPaymentChannelService_PaymentChannel service).
  change (mkPaymentChannelKey ?k) with (channel_key k).
  by rewrite run_PaymentChannel, Hc.
Qed.
End claims.
