(* ===== verification/Commands.v ===== *)
(** * Commands of the operator

    [snetd/cmd/channel.go], [snetd/cmd/list_channels.go] and
    [snetd/cmd/list_claims.go]: releasing the lock of a channel by hand, and
    printing the records of channels and claims. *)
From S2P Require Import Prelude Prog Bytes AtomicStorage Lock Blockchain PaymentChannelApi.
From S2P Require Import PaymentChannelStorage Validation Escrow Handler EscrowHandler World.
From S2P Require Import Concurrency Sequential Calls.
Import AtomicStorage.
Import Payment (Payment) PaymentChannelData (PaymentChannelData) Claim (Claim)
  PaymentChannelService (PaymentChannelService) ServiceMetadata (ServiceMetadata).
Local Open Scope Z_scope.

Definition newline : string := String (Ascii.ascii_of_nat 10) EmptyString.

Section commands.
Context {E : Type -> Type}.

(** ** [snetd channel --unlock] *)

Record channelCommand := mkChannelCommand {
  command_storage : PrefixedAtomicStorage E;
  command_paymentChannelId : option Z }.

(** The text of the flag; the error of [big.Int.UnmarshalText] quotes it. *)
Definition getPaymentChannelId (paymentChannelId : string) : result (option Z) :=
  if bool_decide (paymentChannelId = EmptyString) then Ok None
  else match Int_UnmarshalText paymentChannelId with
       | Some id => Ok (Some id)
       | None => Err (Errorf "Incorrect decimal number format: %v, error: %v"
                   [paymentChannelId; "math/big: cannot unmarshal " +:+ dquote
                      +:+ paymentChannelId +:+ dquote +:+ " into a *big.Int"])
       end.

Definition newChannelCommand (paymentChannelId : string) (storage : PrefixedAtomicStorage E)
  : result channelCommand :=
  match getPaymentChannelId paymentChannelId with
  | Err err => Err err
  | Ok channelId => Ok (mkChannelCommand storage channelId)
  end.

(** What is printed, and the error of the command. *)
Definition unlockChannel (command : channelCommand) (id : Z) : prog E (string * result unit) :=
  let key := PaymentChannelKey_String (mkPaymentChannelKey id) in
  let! value := PrefixedAtomicStorage_Get (command_storage command) key in
  match value with
  | Ok None => Ret (Sprintf "Error: Channel %s not found" [key] +:+ newline, Ok tt)
  | Err err => Ret (Sprintf "Error: Channel %s not found" [key] +:+ newline, Err err)
  | Ok (Some _) =>
      let! deleted := PrefixedAtomicStorage_Delete (command_storage command) key in
      match deleted with
      | Err err =>
          Ret (Sprintf "Error: Unable to unlock the channel -%s" [key] +:+ newline, Err err)
      | Ok _ => Ret (Sprintf "Success: Channel %s unlocked" [key] +:+ newline, Ok tt)
      end
  end.

Definition channelCommand_Run (command : channelCommand) : prog E (string * result unit) :=
  match command_paymentChannelId command with
  | None => Ret (EmptyString, Err (ErrorString "--unlock channel-id must be set"))
  | Some id => unlockChannel command id
  end.

(** ** [snetd list] *)

(** [print_address] is what [%v] prints of an address. *)
Context `{!GoEthereum} (print_address : Address -> string).

Definition Payment_String (p : Payment) : string :=
  Sprintf ("{MpeContractAddress: %v, ChannelID: %v, ChannelNonce: %v, Amount: %v,"
           +:+ " Signature: %v}")
    [AddressToHex (Payment.MpeContractAddress p); pretty (Payment.ChannelID p);
     pretty (Payment.ChannelNonce p); pretty (Payment.Amount p);
     BytesToBase64 (slice_bytes (Payment.Signature p))].

Definition PaymentChannelData_String (data : PaymentChannelData) : string :=
  Sprintf ("{ChannelID: %v, Nonce: %v, State: %v, Sender: %v, Recipient: %v, GroupId: %v,"
           +:+ " FullAmount: %v, Expiration: %v, Signer: %v, AuthorizedAmount: %v,"
           +:+ " Signature: %v")
    [pretty (PaymentChannelData.ChannelID data); pretty (PaymentChannelData.Nonce data);
     default "%!v(PANIC=String method: runtime error: index out of range)"
       (PaymentChannelState_String (PaymentChannelData.State data));
     AddressToHex (PaymentChannelData.Sender data);
     AddressToHex (PaymentChannelData.Recipient data);
     print_byte_array (PaymentChannelData.GroupID data);
     pretty (PaymentChannelData.FullAmount data); pretty (PaymentChannelData.Expiration data);
     print_address (PaymentChannelData.Signer data);
     pretty (PaymentChannelData.AuthorizedAmount data);
     BytesToBase64 (slice_bytes (PaymentChannelData.Signature data))].

Definition line (key value : string) : string := Sprintf "%v: %v" [key; value] +:+ newline.

Definition lines (l : list string) : string := foldr String.append EmptyString l.

Definition listChannelsCommand_Run (channelService : PaymentChannelService E)
  : prog E (string * result unit) :=
  let! channels := PaymentChannelService.ListChannels channelService in
  match channels with
  | Err err => Ret (EmptyString, Err err)
  | Ok channels =>
      Ret ((if bool_decide (length channels = 0%nat)
            then "no channels in shared storage" +:+ newline else EmptyString)
           +:+ lines ((fun channel => line (pretty (PaymentChannelData.ChannelID channel))
                                        (PaymentChannelData_String channel)) <$> channels),
           Ok tt)
  end.

Definition listClaimsCommand_Run (channelService : PaymentChannelService E)
  : prog E (string * result unit) :=
  let! claims := PaymentChannelService.ListClaims channelService in
  match claims with
  | Err err => Ret (EmptyString, Err err)
  | Ok claims =>
      Ret ((if bool_decide (length claims = 0%nat)
            then "no claims in shared storage" +:+ newline else EmptyString)
           +:+ lines ((fun claim => line (Payment_ID (Claim.claim_Payment claim))
                                      (Payment_String (Claim.claim_Payment claim))) <$> claims),
           Ok tt)
  end.
End commands.
Arguments channelCommand E : clear implicits.

(** ** Releasing a lock *)

Section unlock.
Context `{!GoEthereum, !EscrowCodec, !EscrowCodecLaws, !EthereumNode}
  (metadata : ServiceMetadata).

(** The command over the storage of the locks. *)
Definition unlock_command (id : Z) : channelCommand DaemonE :=
  mkChannelCommand (NewLockerStorage daemon_storage) (Some id).

Lemma acceptable_without_lock id w p c :
  acceptable metadata w p c -> acceptable metadata (without_lock id w) p c.
Proof.
  intros (Hc & Hf & Ht). split; [|by split]. unfold channel_now, without_lock in *. simpl.
  by rewrite stored_delete_lock.
Qed.

Lemma run_unlock id w :
  run (channelCommand_Run (unlock_command id)) w =
  match store w !! lock_key id with
  | None => (Returned (Sprintf "Error: Channel %s not found"
               [PaymentChannelKey_String (channel_key id)] +:+ newline, Ok tt), w)
  | Some _ => (Returned (Sprintf "Success: Channel %s unlocked"
               [PaymentChannelKey_String (channel_key id)] +:+ newline, Ok tt),
              without_lock id w)
  end.
Proof.
  unfold channelCommand_Run, unlockChannel. cbn [command_paymentChannelId unlock_command].
  rewrite run_bind. change (run (PrefixedAtomicStorage_Get _ _) w)
    with (run (call_storage daemon_storage (SGet (lock_key id))) w).
  rewrite run_storage, memory_get. cbn [fst snd]. rewrite set_store_id.
  destruct (store w !! lock_key id) as [v|]; [|done].
  rewrite run_bind. change (run (PrefixedAtomicStorage_Delete _ _) w)
    with (run (call_storage daemon_storage (SDelete (lock_key id))) w).
  by rewrite run_storage.
Qed.

(** A channel that was left locked is served again after the operator
    unlocks it: the command removes the lock of this channel and nothing else,
    and the next correctly paid call is charged. *)
Lemma unlock_restores_service md p c w :
  hex_readable -> 0 <= block w ->
  pays_with metadata md p -> lock_held (Payment.ChannelID p) (store w) ->
  acceptable metadata w p c -> priced metadata p c ->
  let unlocked_world := without_lock (Payment.ChannelID p) w in
  run (channelCommand_Run (unlock_command (Payment.ChannelID p))) w
  = (Returned (Sprintf "Success: Channel %s unlocked"
       [PaymentChannelKey_String (channel_key (Payment.ChannelID p))] +:+ newline, Ok tt),
     unlocked_world) /\
  (forall id, id <> Payment.ChannelID p ->
     store unlocked_world !! lock_key id = store w !! lock_key id) /\
  (forall key, stored_channel (store unlocked_world) key = stored_channel (store w) key) /\
  (run (Components_GrpcPaymentValidationInterceptor true metadata (Some md) (Ret (Ok tt)))
     unlocked_world).1 = Returned (Ok tt).
Proof.
  intros readable Hb Hmd Hl Ha Hp uw. split.
  { rewrite run_unlock. by rewrite Hl. }
  split.
  { intros id Hid. apply lookup_delete_ne. intros ?%lock_key_inj. congruence. }
  split; [intros key; apply stored_delete_lock|].
  rewrite (run_call_charged metadata md p c); [done|done|done|done| |by apply acceptable_without_lock|done].
  left. apply lookup_delete_eq.
Qed.
End unlock.
