(* ===== verification/Forwarding.v ===== *)
(** * Forwarding of calls to the service

    [codec/codec.go] and [handler/grpc.go]: the codec that passes messages on
    as bytes, and the stream handlers that hand a call to the service: over
    gRPC ([Proxy]), as a JSON-RPC request, to a process, or back to the
    caller. *)
From Stdlib Require Import Ascii.
From S2P Require Import Prelude Prog Bytes Blockchain Config.
Import ServiceMetadata (ServiceMetadata).
Local Open Scope Z_scope.

(** ** [codec/codec.go] *)

Record GrpcFrame := mkGrpcFrame { Data : bytes }.

#[export] Instance GrpcFrame_eq_dec : EqDecision GrpcFrame.
Proof. solve_decision. Defined.

(** The dynamic types of the values given to a codec: frames, protobuf messages
    and the rest. *)
Inductive CodecValue (M O : Type) :=
| VFrame (f : GrpcFrame)
| VMessage (m : M)
| VOther (o : O).
Arguments VFrame {M O} _.
Arguments VMessage {M O} _.
Arguments VOther {M O} _.

(** [proto.Marshal], [proto.Unmarshal] and the text that [%+v] prints. *)
Class ProtoLibrary (M O : Type) := {
  proto_Marshal : M -> result bytes;
  proto_Unmarshal : bytes -> M -> result M;
  print_value : CodecValue M O -> string }.

Section codec.
Context {M O : Type} `{!ProtoLibrary M O}.

(** [Unmarshal] writes to the object of its pointer: here it returns it. *)
Record Codec := mkCodec {
  Codec_Marshal : CodecValue M O -> outcome (result bytes);
  Codec_Unmarshal : bytes -> CodecValue M O -> outcome (result (CodecValue M O));
  Codec_Name : string }.

Definition not_a_message : string := "interface conversion: interface is not proto.Message".

Definition protoCodec_Marshal (v : CodecValue M O) : outcome (result bytes) :=
  match v with
  | VMessage m => Returned (proto_Marshal m)
  | _ => Panicked not_a_message
  end.

Definition protoCodec_Unmarshal (data : bytes) (v : CodecValue M O)
  : outcome (result (CodecValue M O)) :=
  match v with
  | VMessage m => Returned (result_map VMessage (proto_Unmarshal data m))
  | _ => Panicked not_a_message
  end.

Definition protoCodec : Codec := mkCodec protoCodec_Marshal protoCodec_Unmarshal "proto".

Record bytesCodec := mkBytesCodec {
  bytesCodec_name : string;
  bytesCodec_fallback : option Codec }.

Definition not_a_frame (v : CodecValue M O) : error :=
  Errorf "object %+v not of type codec.GrpcFrame" [print_value v].

Definition bytesCodec_Marshal (s : bytesCodec) (v : CodecValue M O) : outcome (result bytes) :=
  match v with
  | VFrame m => Returned (Ok (Data m))
  | _ =>
      match bytesCodec_fallback s with
      | None => Returned (Err (not_a_frame v))
      | Some fallback => Codec_Marshal fallback v
      end
  end.

Definition bytesCodec_Unmarshal (s : bytesCodec) (data : bytes) (v : CodecValue M O)
  : outcome (result (CodecValue M O)) :=
  match v with
  | VFrame _ => Returned (Ok (VFrame (mkGrpcFrame data)))
  | _ =>
      match bytesCodec_fallback s with
      | None => Returned (Err (not_a_frame v))
      | Some fallback => Codec_Unmarshal fallback data v
      end
  end.

Definition BytesCodec (name : string) (fallback : option Codec) : Codec :=
  let s := mkBytesCodec name fallback in
  mkCodec (bytesCodec_Marshal s) (bytesCodec_Unmarshal s) (bytesCodec_name s).

(** The codecs [init] registers, by name. *)
Definition registered_codecs : list Codec :=
  [BytesCodec "proto" (Some protoCodec); BytesCodec "json" None].

(** With either codec a frame is sent as its bytes and any bytes are received
    as a frame, so that what is received is what was sent; the other values go
    to protobuf, and are an error for the codec "json". No value makes the
    codecs panic unless it is neither a frame nor a protobuf message. *)
Lemma registered_codecs_pass_frames c f g b :
  In c registered_codecs -> Codec_Marshal c (VFrame f) = Returned (Ok b) ->
  b = Data f /\ Codec_Unmarshal c b (VFrame g) = Returned (Ok (VFrame f)).
Proof. destruct f as [d]. by intros [<-|[<-|[]]]; simpl; intros [= <-]. Qed.
End codec.
Arguments Codec M O : clear implicits.

(** ** [handler/grpc.go]: handlers that answer with one message *)

(** What [RecvMsg] and [SendMsg] of a stream return other than a message: the
    sentinel [io.EOF] or another error. *)
Inductive StreamError := EOF | StreamErr (e : error).

#[export] Instance StreamError_eq_dec : EqDecision StreamError.
Proof. solve_decision. Defined.

Definition to_error (e : StreamError) : error :=
  match e with EOF => ErrorString "EOF" | StreamErr e => e end.

(** [status.Errorf(codes.Internal, ...)] *)
Definition internal (format : string) (args : list string) : error :=
  ErrorStatus (mkStatus codes_Internal (Sprintf format args)).

(** [github.com/gorilla/rpc/v2/json2], [encoding/json] and whether
    [http.NewRequest] accepts an address. *)
Class JsonRpc := {
  json_value : Type;
  json_Unmarshal : bytes -> result json_value;
  json_Marshal : json_value -> result bytes;
  json2_DecodeClientResponse : result bytes -> result json_value;
  http_NewRequest_ok : string -> result unit }.

(** The operations of a handler: the stream of the caller, the HTTP client, a
    child process. The identifier in an encoded JSON-RPC request is random. *)
Inductive ServiceE `{!JsonRpc} : Type -> Type :=
| RecvMsg : ServiceE (GrpcFrame + StreamError)
| SendMsg (f : GrpcFrame) : ServiceE (result unit)
| EncodeClientRequest (method : string) (params : json_value) : ServiceE (result bytes)
| HttpDo (url : string) (headers : list (string * string)) (body : bytes)
  : ServiceE (result (result bytes))
| StdinPipe : ServiceE (result unit)
| Stdin_Write (data : bytes) : ServiceE (result unit)
| Stdin_Close : ServiceE unit
| CombinedOutput (executable : string) (args : list string) : ServiceE (result bytes).

Record grpcHandler := mkGrpcHandler {
  handler_grpcConn : option string;
  handler_enc : string;
  handler_passthroughEndpoint : string;
  handler_executable : string }.

(** The last part of the full method name. *)
Definition method_segment (method : string) : string :=
  List.last (Split "/"%char method) EmptyString.

Definition no_method : error :=
  internal "could not determine method from server stream" [].

Section handlers.
Context `{!JsonRpc}.

Local Abbreviation fail format e := (Ret (Err (internal format [Error e]))).

(** The method is the one [grpc.MethodFromServerStream] finds, if any. *)
Definition grpcToJSONRPC (g : grpcHandler) (method : option string)
  : prog ServiceE (result unit) :=
  match method with
  | None => Ret (Err no_method)
  | Some method =>
      let method := method_segment method in
      let! received := trigger RecvMsg in
      match received with
      | inr err => fail "error receiving request; error: %+v" (to_error err)
      | inl f =>
          match json_Unmarshal (Data f) with
          | Err err => fail "error unmarshaling request; error: %+v" err
          | Ok params =>
              let! jsonRPCReq := trigger (EncodeClientRequest method params) in
              match jsonRPCReq with
              | Err err => fail "error encoding request; error: %+v" err
              | Ok jsonRPCReq =>
                  match http_NewRequest_ok (handler_passthroughEndpoint g) with
                  | Err err => fail "error creating http request; error: %+v" err
                  | Ok _ =>
                      let! httpResp := trigger (HttpDo (handler_passthroughEndpoint g)
                        [("content-type", "application/json")] jsonRPCReq) in
                      match httpResp with
                      | Err err => fail "error executing http call; error: %+v" err
                      | Ok body =>
                          match json2_DecodeClientResponse body with
                          | Err err => fail "json-rpc error; error: %+v" err
                          | Ok result =>
                              match json_Marshal result with
                              | Err err => fail "error marshaling response; error: %+v" err
                              | Ok respBytes =>
                                  let! e := trigger (SendMsg (mkGrpcFrame respBytes)) in
                                  match e with
                                  | Err err => fail "error sending response; error: %+v" err
                                  | Ok _ => Ret (Ok tt)
                                  end
                              end
                          end
                      end
                  end
              end
          end
      end
  end.

(** The request is written to the pipe before the process is started. *)
Definition grpcToProcess (g : grpcHandler) (method : option string)
  : prog ServiceE (result unit) :=
  match method with
  | None => Ret (Err no_method)
  | Some method =>
      let method := method_segment method in
      let! received := trigger RecvMsg in
      match received with
      | inr err => fail "error receiving request; error: %+v" (to_error err)
      | inl f =>
          let! stdin := trigger StdinPipe in
          match stdin with
          | Err err => fail "error creating stdin pipe; error: %+v" err
          | Ok _ =>
              let! written := trigger (Stdin_Write (Data f)) in
              match written with
              | Err err => fail "error writing to stdin; error: %+v" err
              | Ok _ =>
                  let! _ := trigger Stdin_Close in
                  let! out := trigger (CombinedOutput (handler_executable g) [method]) in
                  match out with
                  | Err err => fail "error executing process; error: %+v" err
                  | Ok out =>
                      let! e := trigger (SendMsg (mkGrpcFrame out)) in
                      match e with
                      | Err err => fail "error sending response; error: %+v" err
                      | Ok _ => Ret (Ok tt)
                      end
                  end
              end
          end
      end
  end.

Definition grpcLoopback : prog ServiceE (result unit) :=
  let! received := trigger RecvMsg in
  match received with
  | inr err => fail "error receiving request; error: %+v" (to_error err)
  | inl f =>
      let! e := trigger (SendMsg f) in
      match e with
      | Err err => fail "error sending response; error: %+v" err
      | Ok _ => Ret (Ok tt)
      end
  end.
End handlers.

(** *** [NewGrpcHandler]

    The stream handlers by their functions; [nil] is [None]. *)
Inductive StreamHandler :=
| Handler_Loopback
| Handler_GrpcToGRPC (g : grpcHandler)
| Handler_GrpcToJSONRPC (g : grpcHandler)
| Handler_GrpcToProcess (g : grpcHandler).

Definition PassthroughEnabledKey : string := "passthrough_enabled".
Definition ExecutablePathKey : string := "executable_path".

(** [url_Host] is the host of [url.Parse]'s URL, [grpc_Dial] whether a
    connection to a host can be made. *)
Definition NewGrpcHandler (vip : Viper) (url_Host : string -> result string)
    (grpc_Dial : string -> result unit) (serviceMetadata : ServiceMetadata)
  : outcome (option StreamHandler) :=
  let passthroughEnabled := GetBool vip PassthroughEnabledKey in
  if negb passthroughEnabled then Returned (Some Handler_Loopback)
  else
    let h conn := mkGrpcHandler conn (GetWireEncoding serviceMetadata)
                    (GetString vip PassthroughEndpointKey) (GetString vip ExecutablePathKey) in
    let serviceType := GetServiceType serviceMetadata in
    if decide (serviceType = "grpc") then
      match url_Host (GetString vip PassthroughEndpointKey) with
      | Err _ => Panicked "error parsing passthrough endpoint"
      | Ok host =>
          match grpc_Dial host with
          | Err _ => Panicked "error dialing service"
          | Ok _ => Returned (Some (Handler_GrpcToGRPC (h (Some host))))
          end
      end
    else if decide (serviceType = "jsonrpc") then
      Returned (Some (Handler_GrpcToJSONRPC (h None)))
    else if decide (serviceType = "process") then
      Returned (Some (Handler_GrpcToProcess (h None)))
    else Returned None.

(** A service type that is not one of the three gets no handler, and no error. *)
Lemma NewGrpcHandler_unknown vip url_Host grpc_Dial serviceMetadata :
  NewGrpcHandler vip url_Host grpc_Dial serviceMetadata = Returned None <->
  GetBool vip PassthroughEnabledKey = true /\
  ~ In (GetServiceType serviceMetadata) ["grpc"; "jsonrpc"; "process"].
Proof.
  unfold NewGrpcHandler. destruct (GetBool vip _); simpl; [|by split; [|intros []]].
  repeat case_decide; repeat case_match; simpl; intuition congruence.
Qed.

(** ** What the handlers exchange with the caller and the service *)

Section exchanges.
Context `{!JsonRpc}.

Inductive Exchange :=
| Received (r : GrpcFrame + StreamError)
| Sent (f : GrpcFrame) (r : result unit)
| Encoded (method : string) (params : json_value) (r : result bytes)
| Posted (url : string) (headers : list (string * string)) (body : bytes)
    (r : result (result bytes))
| Piped (r : result unit)
| Written (data : bytes) (r : result unit)
| Closed
| Executed (executable : string) (args : list string) (r : result bytes).

Definition exchange {X} (e : ServiceE X) : X -> Exchange :=
  match e in ServiceE X return X -> Exchange with
  | RecvMsg => Received
  | SendMsg f => Sent f
  | EncodeClientRequest m p => Encoded m p
  | HttpDo u h b => Posted u h b
  | StdinPipe => Piped
  | Stdin_Write d => Written d
  | Stdin_Close => fun _ => Closed
  | CombinedOutput exe args => Executed exe args
  end.

(** Any answer; the exchange is recorded. *)
#[export] Instance ServiceE_contract : Contract ServiceE (list Exchange) :=
  fun X e w x w' => w' = w ++ [exchange e x].

Definition is_internal (e : error) : Prop := exists m, e = ErrorStatus (mkStatus codes_Internal m).

Definition is_sent (x : Exchange) : bool := match x with Sent _ _ => true | _ => false end.
Definition is_posted (x : Exchange) : bool :=
  match x with Posted _ _ _ _ => true | _ => false end.

(** A JSON-RPC call: the value in the caller's message is posted as the
    parameters of the method, and the value in the answer is sent back. *)
Definition jsonrpc_exchange (g : grpcHandler) (method : string) (l : list Exchange) : Prop :=
  exists f params request body value text,
    l = [Received (inl f); Encoded (method_segment method) params (Ok request);
         Posted (handler_passthroughEndpoint g) [("content-type", "application/json")] request
           (Ok body);
         Sent (mkGrpcFrame text) (Ok tt)] /\
    json_Unmarshal (Data f) = Ok params /\ json2_DecodeClientResponse body = Ok value /\
    json_Marshal value = Ok text.

Definition process_exchange (g : grpcHandler) (method : string) (l : list Exchange) : Prop :=
  exists f out,
    l = [Received (inl f); Piped (Ok tt); Written (Data f) (Ok tt); Closed;
         Executed (handler_executable g) [method_segment method] (Ok out);
         Sent (mkGrpcFrame out) (Ok tt)].

(** How a handler ends: without an error after the exchange [complete], or with
    an internal error; at most one request is posted and one message sent. *)
Definition answers (complete : list Exchange -> Prop) (o : outcome (result unit))
    (w : list Exchange) : Prop :=
  exists r, o = Returned r /\
    match r with Ok _ => complete w | Err e => is_internal e end /\
    (length (List.filter is_sent w) <= 1)%nat /\ (length (List.filter is_posted w) <= 1)%nat.

Ltac failed := eexists; split; [reflexivity|]; split; [by eexists|split; cbn; lia].

Ltac step x := intros x ? ->; cbn [bind app exchange]; destruct x as [?|?]; [|failed].

Lemma jsonrpc_answers g method :
  wp (grpcToJSONRPC g method)
     (answers (fun l => exists m, method = Some m /\ jsonrpc_exchange g m l)) [].
Proof.
  unfold grpcToJSONRPC. destruct method as [method|]; [|failed].
  step received. destruct (json_Unmarshal (Data g0)) as [params|e] eqn:Hp; [|failed].
  step request. destruct (http_NewRequest_ok (handler_passthroughEndpoint g)); [|failed].
  step response. destruct (json2_DecodeClientResponse a1) as [value|e] eqn:Hd; [|failed].
  destruct (json_Marshal value) as [text|e] eqn:Hm; [|failed].
  step sent. destruct a2. eexists. split; [done|]. split; [|by split; cbn; lia].
  exists method. split; [done|]. by exists g0, params, a, a1, value, text.
Qed.

Lemma process_answers g method :
  wp (grpcToProcess g method)
     (answers (fun l => exists m, method = Some m /\ process_exchange g m l)) [].
Proof.
  unfold grpcToProcess. destruct method as [method|]; [|failed].
  step received. step piped. step written. intros [] w ->. cbn [bind app exchange].
  step out. step sent. destruct a, a0, a2. eexists. split; [done|].
  split; [|by split; cbn; lia]. exists method. split; [done|]. by exists g0, a1.
Qed.

Lemma loopback_answers :
  wp grpcLoopback
     (answers (fun l => exists f, l = [Received (inl f); Sent f (Ok tt)])) [].
Proof.
  unfold grpcLoopback. step received. step sent. destruct a. eexists. split; [done|].
  split; [by eexists|by split; cbn; lia].
Qed.

(** C33: The handlers of services that are not gRPC never panic and end without an
    error only after one complete exchange: the JSON value of the caller's
    message is posted as the parameters of the method and the value in the
    answer is sent back; the message is written to the executable run with the
    method and its output is sent back; the message is sent back. Otherwise the
    error is internal; no call posts two requests or sends two messages. *)
Theorem one_message_handlers_answer (g : grpcHandler) (method : string) :
  wp (grpcToJSONRPC g (Some method)) (answers (jsonrpc_exchange g method)) [] /\
  wp (grpcToProcess g (Some method)) (answers (process_exchange g method)) [] /\
  wp grpcLoopback (answers (fun l => exists f, l = [Received (inl f); Sent f (Ok tt)])) [].
Proof.
  split; [|split; [|apply loopback_answers]].
  - eapply wp_mono; [apply jsonrpc_answers|]. intros o w (r & -> & Hr & Hc).
    exists r. split; [done|]. split; [|done]. destruct r; [|done].
    by destruct Hr as (m & [= <-] & Hr).
  - eapply wp_mono; [apply process_answers|]. intros o w (r & -> & Hr & Hc).
    exists r. split; [done|]. split; [|done]. destruct r; [|done].
    by destruct Hr as (m & [= <-] & Hr).
Qed.
End exchanges.

(** ** A process with its standard input

    The write to the pipe of the standard input returns when the pipe has taken
    all the bytes. It holds [capacity] bytes, and nobody reads from it before
    the process is started: the write of a larger message never returns. *)
Section process.
Context `{!JsonRpc} (capacity : nat)
  (program : string -> list string -> bytes -> result bytes).

Record Process := mkProcess {
  process_incoming : GrpcFrame + StreamError;
  process_stdin : option bytes;
  process_replies : list GrpcFrame;
  process_runs : list (string * list string * bytes) }.

(** One operation: no result when it blocks. *)
Definition process_call {X} (e : ServiceE X) (w : Process) : option (X * Process) :=
  match e in ServiceE X return option (X * Process) with
  | RecvMsg => Some (process_incoming w, w)
  | SendMsg f =>
      Some (Ok tt, mkProcess (process_incoming w) (process_stdin w)
                     (process_replies w ++ [f]) (process_runs w))
  | EncodeClientRequest _ _ => Some (Err (ErrorString "not used"), w)
  | HttpDo _ _ _ => Some (Err (ErrorString "not used"), w)
  | StdinPipe =>
      Some (Ok tt, mkProcess (process_incoming w) (Some []) (process_replies w)
                     (process_runs w))
  | Stdin_Write data =>
      match process_stdin w with
      | None => Some (Err (ErrorString "exec: Stdin not set"), w)
      | Some b =>
          if (length b + length data <=? capacity)%nat then
            Some (Ok tt, mkProcess (process_incoming w) (Some (b ++ data))
                           (process_replies w) (process_runs w))
          else None
      end
  | Stdin_Close => Some (tt, w)
  | CombinedOutput executable args =>
      let stdin := default [] (process_stdin w) in
      Some (program executable args stdin,
            mkProcess (process_incoming w) (process_stdin w) (process_replies w)
              (process_runs w ++ [(executable, args, stdin)]))
  end.

(** The run of a program some of whose operations block for ever. *)
Fixpoint run_blocking {A} (p : prog ServiceE A) (w : Process)
  : option (outcome A * Process) :=
  match p with
  | Ret a => Some (Returned a, w)
  | Panic m => Some (Panicked m, w)
  | Vis e k =>
      match process_call e w with
      | None => None
      | Some (x, w) => run_blocking (k x) w
      end
  end.

Definition waiting_process (f : GrpcFrame) : Process := mkProcess (inl f) None [] [].

(** A call to a process is answered with the output of the executable, run once
    with the method and the message as its input, when the message fits in the
    pipe; a larger message blocks the call for ever and the process is never
    started, since the message is written before the start. *)
Lemma process_request_size_is_limited (g : grpcHandler) (method : string) (f : GrpcFrame) :
  let run := run_blocking (grpcToProcess g (Some method)) (waiting_process f) in
  let input := (handler_executable g, [method_segment method], Data f) in
  ((length (Data f) <= capacity)%nat ->
   exists w, process_runs w = [input] /\
     match program (handler_executable g) [method_segment method] (Data f) with
     | Ok out => run = Some (Returned (Ok tt), w) /\ process_replies w = [mkGrpcFrame out]
     | Err e => run = Some (Returned (Err (internal "error executing process; error: %+v"
                                                [Error e])), w) /\ process_replies w = []
     end) /\
  ((capacity < length (Data f))%nat -> run = None).
Proof.
  intros run input. subst run. simpl. split; intros Hl.
  - rewrite (proj2 (Nat.leb_le _ _) Hl). simpl.
    destruct (program _ _ _) as [out|e]; simpl; eexists; by repeat split.
  - by rewrite (proj2 (Nat.leb_gt _ _) Hl).
Qed.
End process.

(** ** An example: a pipe of four bytes and a process that echoes its input *)

#[local] Instance no_json : JsonRpc := {|
  json_value := unit;
  json_Unmarshal := fun _ => Err (ErrorString "no JSON");
  json_Marshal := fun _ => Err (ErrorString "no JSON");
  json2_DecodeClientResponse := fun _ => Err (ErrorString "no JSON");
  http_NewRequest_ok := fun _ => Ok tt |}.

Definition ex_handler : grpcHandler := mkGrpcHandler None "proto" "" "/bin/echo".
Definition ex_frame (s : string) : GrpcFrame := mkGrpcFrame (bytes_of_string s).
Definition ex_echo (_ : string) (_ : list string) (stdin : bytes) : result bytes := Ok stdin.

Lemma process_request_size_is_limited_witness :
  (exists w, run_blocking 4 ex_echo (grpcToProcess ex_handler (Some "/example.Service/add"))
               (waiting_process (ex_frame "1+1")) = Some (Returned (Ok tt), w) /\
             process_runs w = [("/bin/echo", ["add"], bytes_of_string "1+1")]) /\
  run_blocking 4 ex_echo (grpcToProcess ex_handler (Some "/example.Service/add"))
    (waiting_process (ex_frame "1+1+1")) = None.
Proof.
  destruct (process_request_size_is_limited 4 ex_echo ex_handler "/example.Service/add"
    (ex_frame "1+1")) as [Hsmall _].
  destruct (process_request_size_is_limited 4 ex_echo ex_handler "/example.Service/add"
    (ex_frame "1+1+1")) as [_ Hlarge].
  split; [|apply Hlarge; vm_compute; lia].
  destruct Hsmall as (w & Hruns & Hrun & _); [vm_compute; lia|]. by exists w.
Defined.
