(* ===== verification/Proxy.v ===== *)
(** * The gRPC proxy

    [grpcToGRPC] of [handler/grpc.go]: two goroutines forward the messages of a
    call, from the caller to the service and back, and report the error that
    ended them on a channel; the handler waits for the reports. The three run
    concurrently: the proxy is a machine whose steps are the operations of one
    of them, with the answers of the streams. *)
From S2P Require Import Prelude Prog Bytes Handler Forwarding.
Local Open Scope Z_scope.

(** ** One direction: [forwardServerToClient], [forwardClientToServer] *)

(** The goroutine: in [RecvMsg]; in [Header] and [SendHeader] with the first
    message; in [SendMsg]; about to send its error on the channel; ended after
    that. *)
Inductive Forwarder :=
| Receiving
| ReadingHeader (f : GrpcFrame)
| SendingHeader (f : GrpcFrame) (md : MD)
| Sending (f : GrpcFrame)
| Reporting (e : StreamError)
| Done (e : StreamError).

(** [dir_chan] is the buffer of the channel, of capacity one; [dir_received] and
    [dir_sent] have the messages so far; [dir_first] is [i == 0]. *)
Record Direction := mkDirection {
  dir_state : Forwarder;
  dir_chan : option StreamError;
  dir_received : list GrpcFrame;
  dir_sent : list GrpcFrame;
  dir_first : bool;
  dir_header : option MD }.

(** An operation of the goroutine with its answer. *)
Inductive Operation :=
| Recv (r : GrpcFrame + StreamError)
| ReadHeader (r : MD + StreamError)
| SendHeader (r : option StreamError)
| Send (r : option StreamError)
| Report.

Definition set_state (s : Forwarder) (d : Direction) : Direction :=
  mkDirection s (dir_chan d) (dir_received d) (dir_sent d) (dir_first d) (dir_header d).

(** A step of the goroutine, no result when it is at another operation, or
    blocked. [with_header]: the header of the source is passed on before the
    first message ([forwardClientToServer]). *)
Definition forward (with_header : bool) (d : Direction) (op : Operation) : option Direction :=
  match op, dir_state d with
  | Recv (inr err), Receiving => Some (set_state (Reporting err) d)
  | Recv (inl f), Receiving =>
      Some (mkDirection (if with_header && dir_first d then ReadingHeader f else Sending f)
              (dir_chan d) (dir_received d ++ [f]) (dir_sent d) (dir_first d) (dir_header d))
  | ReadHeader (inr err), ReadingHeader f => Some (set_state (Reporting err) d)
  | ReadHeader (inl md), ReadingHeader f => Some (set_state (SendingHeader f md) d)
  | SendHeader (Some err), SendingHeader f md => Some (set_state (Reporting err) d)
  | SendHeader None, SendingHeader f md =>
      Some (mkDirection (Sending f) (dir_chan d) (dir_received d) (dir_sent d) (dir_first d)
              (Some md))
  | Send (Some err), Sending f => Some (set_state (Reporting err) d)
  | Send None, Sending f =>
      Some (mkDirection Receiving (dir_chan d) (dir_received d) (dir_sent d ++ [f]) false
              (dir_header d))
  | Report, Reporting err =>
      match dir_chan d with
      | Some _ => None
      | None => Some (mkDirection (Done err) (Some err) (dir_received d) (dir_sent d) (dir_first d)
                        (dir_header d))
      end
  | _, _ => None
  end.

Definition new_direction : Direction := mkDirection Receiving None [] [] true None.

(** What is received from the channel is no longer in it. *)
Definition drained (d : Direction) : Direction :=
  mkDirection (dir_state d) None (dir_received d) (dir_sent d) (dir_first d) (dir_header d).

(** ** The handler *)

(** In the [i]-th turn of the loop, or returned. *)
Inductive Loop := Selecting (i : nat) | Finished (r : result unit).

Record Proxy := mkProxy {
  s2c : Direction;
  c2s : Direction;
  loop : Loop;
  close_sent : bool;
  cancelled : bool;
  trailer : option MD }.

Definition never_reached : error :=
  internal "gRPC proxying should never reach this stage." [].

Definition next_turn (i : nat) : Loop :=
  if decide (i + 1 < 2)%nat then Selecting (i + 1) else Finished (Err never_reached).

(** The cases of the [select]: a report of the caller's direction, a report of
    the service's direction with the trailer of the service's stream. *)
Definition select_s2c (p : Proxy) : option Proxy :=
  match loop p, dir_chan (s2c p) with
  | Selecting i, Some EOF =>
      Some (mkProxy (drained (s2c p)) (c2s p) (next_turn i) true (cancelled p) (trailer p))
  | Selecting i, Some (StreamErr e) =>
      Some (mkProxy (drained (s2c p)) (c2s p)
              (Finished (Err (internal "failed proxying s2c: %v" [Error e])))
              (close_sent p) true (trailer p))
  | _, _ => None
  end.

Definition select_c2s (md : MD) (p : Proxy) : option Proxy :=
  match loop p, dir_chan (c2s p) with
  | Selecting i, Some c2sErr =>
      Some (mkProxy (s2c p) (drained (c2s p))
              (Finished (match c2sErr with EOF => Ok tt | StreamErr e => Err e end))
              (close_sent p) (cancelled p) (Some md))
  | _, _ => None
  end.

Inductive ProxyEvent :=
| FromCaller (op : Operation)
| FromService (op : Operation)
| Select_s2c
| Select_c2s (md : MD).

Definition proxy_step (p : Proxy) (ev : ProxyEvent) : option Proxy :=
  match ev with
  | FromCaller op =>
      match forward false (s2c p) op with
      | Some d => Some (mkProxy d (c2s p) (loop p) (close_sent p) (cancelled p) (trailer p))
      | None => None
      end
  | FromService op =>
      match forward true (c2s p) op with
      | Some d => Some (mkProxy (s2c p) d (loop p) (close_sent p) (cancelled p) (trailer p))
      | None => None
      end
  | Select_s2c => select_s2c p
  | Select_c2s md => select_c2s md p
  end.

Fixpoint proxy_run (p : Proxy) (l : list ProxyEvent) : option Proxy :=
  match l with
  | [] => Some p
  | ev :: l =>
      match proxy_step p ev with
      | Some p => proxy_run p l
      | None => None
      end
  end.

Definition new_proxy : Proxy := mkProxy new_direction new_direction (Selecting 0) false false None.

(** What comes before the goroutines: the method and metadata of the call, and
    the stream to the service, opened with the caller's metadata and the
    encoding of the service. *)
Definition grpcToGRPC (g : grpcHandler) (method : option string) (md : option MD)
    (NewStream : MD -> string -> string -> result unit) : Proxy + error :=
  match method with
  | None => inr no_method
  | Some method =>
      match md with
      | None => inr (internal "could not get metadata from incoming context" [])
      | Some md =>
          match NewStream md method (handler_enc g) with
          | Err err => inr err
          | Ok _ => inl new_proxy
          end
      end
  end.

(** ** Invariants *)

(** The message in hand. *)
Definition in_hand (s : Forwarder) : list GrpcFrame :=
  match s with
  | ReadingHeader f | SendingHeader f _ | Sending f => [f]
  | _ => []
  end.

(** Everything received was sent, but for the message in hand, or the one that
    could not be sent. *)
Record direction_ok (with_header : bool) (d : Direction) : Prop := {
  dir_order : exists rest, dir_received d = dir_sent d ++ in_hand (dir_state d) ++ rest /\
    (length (in_hand (dir_state d) ++ rest) <= 1)%nat /\
    (match dir_state d with Reporting _ | Done _ => True | _ => rest = [] end);
  dir_report : match dir_state d with
               | Done e => dir_chan d = Some e \/ dir_chan d = None
               | _ => dir_chan d = None
               end;
  dir_starts : dir_first d = true <-> dir_sent d = [];
  dir_with_header : with_header = true ->
    dir_sent d <> [] \/ (exists f, dir_state d = Sending f) -> dir_header d <> None }.

Lemma direction_ok_new b : direction_ok b new_direction.
Proof.
  split; simpl; [by exists []; split; [|split; [simpl; lia|]]|done|done|].
  intros _ [[]|[f [=]]]; done.
Qed.

Lemma direction_ok_drained b d : direction_ok b d -> direction_ok b (drained d).
Proof. intros [O R S H]. split; try done. simpl. case_match; auto. Qed.

(** An operation fails: the goroutine goes on to its report. *)
Lemma direction_ok_fail b d e :
  dir_chan d = None -> direction_ok b d -> direction_ok b (set_state (Reporting e) d).
Proof.
  intros Hd [(rest & O & L & P) R S H]. split; simpl.
  - exists (in_hand (dir_state d) ++ rest). by repeat split.
  - done.
  - done.
  - intros Hb [Hs|[g [=]]]. by apply H; [|left].
Qed.

Lemma forward_ok b d op d' : forward b d op = Some d' -> direction_ok b d -> direction_ok b d'.
Proof.
  intros Hf Hd. pose proof Hd as [(rest & O & L & P) R S H].
  destruct op as [[f|e]|[md|e]|[e|]|[e|]|]; unfold forward in Hf;
    destruct (dir_state d) as [|f'|f' md'|f'|e'|e'] eqn:Hs; try discriminate;
    try (injection Hf as <-; by apply direction_ok_fail).
  - (* a message is received *)
    injection Hf as <-. subst rest. split; simpl; [| |done|].
    + exists []. destruct (b && dir_first d); simpl in *; rewrite O, !app_nil_r;
        by repeat split.
    + by destruct (b && dir_first d).
    + intros -> [Hsent|[g Hg]]; [by apply H; [|left]|].
      destruct (dir_first d) eqn:Hfirst; [done|]. apply H; [done|]. left.
      intros Hn. by apply S in Hn.
  - (* the header is read *)
    injection Hf as <-. split; simpl; [by exists rest|done|done|].
    intros Hb [Hsent|[g [=]]]. by apply H; [|left].
  - (* the header is sent *)
    injection Hf as <-. split; simpl; [by exists rest|done|done|done].
  - (* the message is sent *)
    injection Hf as <-. subst rest. split; simpl; [|done| |].
    + exists []. simpl in O. rewrite O, !app_nil_r. by repeat split; simpl; lia.
    + split; [done|]. by destruct (dir_sent d).
    + intros Hb _. apply H; [done|]. right. by eexists.
  - (* the error is reported *)
    rewrite R in Hf. injection Hf as <-. split; simpl; [by exists rest|by left|done|].
    intros Hb [Hsent|[g [=]]]. by apply H; [|left].
Qed.

(** The report of a goroutine that has ended is still in the channel. *)
Definition unread (d : Direction) : Prop := forall e, dir_state d = Done e -> dir_chan d = Some e.

Lemma forward_unread b d op d' :
  direction_ok b d -> forward b d op = Some d' -> unread d'.
Proof.
  intros Hd. pose proof (dir_report _ _ Hd) as R. intros Hf.
  destruct op as [[f|e]|[md|e]|[e|]|[e|]|]; unfold forward in Hf;
    destruct (dir_state d) as [|f'|f' md'|f'|e'|e'] eqn:Hs; try discriminate;
    try (injection Hf as <-; by intros e''; simpl; try destruct (b && dir_first d)).
  rewrite R in Hf. injection Hf as <-. by intros e'' [= ->].
Qed.

(** An ended goroutine makes no step. *)
Lemma forward_done b d e op : dir_state d = Done e -> forward b d op = None.
Proof. intros Hd. unfold forward. rewrite Hd. by destruct op as [[]|[]|[]|[]|]. Qed.

(** What the handler returns for the report of the service's direction. *)
Definition service_result (e : StreamError) : result unit :=
  match e with EOF => Ok tt | StreamErr e => Err e end.

Definition caller_failed (e : error) : error := internal "failed proxying s2c: %v" [Error e].

(** The loop has at most two turns: the second after the caller has closed its
    direction. The handler returns on the report of the service's direction, or
    on a failure of the caller's, and cancels the call then. *)
Definition loop_ok (p : Proxy) : Prop :=
  match loop p with
  | Selecting i =>
      unread (c2s p) /\ trailer p = None /\ cancelled p = false /\
      (i = 0%nat /\ close_sent p = false /\ unread (s2c p) \/
       i = 1%nat /\ close_sent p = true /\ dir_state (s2c p) = Done EOF /\
         dir_chan (s2c p) = None)
  | Finished r =>
      (exists e, dir_state (c2s p) = Done e /\ trailer p <> None /\ cancelled p = false /\
         r = service_result e) \/
      (exists e, dir_state (s2c p) = Done (StreamErr e) /\ trailer p = None /\
         cancelled p = true /\ r = Err (caller_failed e))
  end.

Record proxy_ok (p : Proxy) : Prop := {
  ok_s2c : direction_ok false (s2c p);
  ok_c2s : direction_ok true (c2s p);
  ok_loop : loop_ok p }.

Lemma proxy_ok_new : proxy_ok new_proxy.
Proof.
  split; [apply direction_ok_new..|]. split; [done|]. split; [done|]. split; [done|].
  by left.
Qed.

Lemma proxy_step_ok p ev p' : proxy_step p ev = Some p' -> proxy_ok p -> proxy_ok p'.
Proof.
  intros Hs [Hd1 Hd2 Hl]. destruct ev as [op|op| |md]; simpl in Hs.
  - destruct (forward false (s2c p) op) as [d|] eqn:Hf; [|done]. injection Hs as <-.
    split; simpl; [by eapply forward_ok|done|].
    assert (forall e, dir_state (s2c p) <> Done e) as Hnd.
    { intros e He. by rewrite (forward_done _ _ _ _ He) in Hf. }
    pose proof (forward_unread _ _ _ _ Hd1 Hf) as Hu.
    unfold loop_ok in *. simpl. destruct (loop p).
    + destruct Hl as (? & ? & ? & [(? & ? & _)|(_ & _ & He & _)]); [auto 8|].
      by destruct (Hnd _ He).
    + destruct Hl as [?|(e & He & _)]; [by left|by destruct (Hnd _ He)].
  - destruct (forward true (c2s p) op) as [d|] eqn:Hf; [|done]. injection Hs as <-.
    split; simpl; [done|by eapply forward_ok|].
    assert (forall e, dir_state (c2s p) <> Done e) as Hnd.
    { intros e He. by rewrite (forward_done _ _ _ _ He) in Hf. }
    pose proof (forward_unread _ _ _ _ Hd2 Hf) as Hu.
    unfold loop_ok in *. simpl. destruct (loop p).
    + destruct Hl as (_ & Hl). auto.
    + destruct Hl as [(e & He & _)|?]; [by destruct (Hnd _ He)|by right].
  - unfold select_s2c in Hs. unfold loop_ok in Hl.
    destruct (loop p) as [i|] eqn:Hlp; [|done].
    destruct Hl as (Hu & Ht & Hc & [(-> & Hcs & Hu1)|(_ & _ & _ & Hn)]);
      [|by rewrite Hn in Hs].
    destruct (dir_chan (s2c p)) as [e|] eqn:Hch; [|done].
    assert (dir_state (s2c p) = Done e) as Hdone.
    { pose proof (dir_report _ _ Hd1) as R. rewrite Hch in R.
      destruct (dir_state (s2c p)) as [| | | | |e'] eqn:Hst; try done.
      by destruct R as [[= ->]|]. }
    destruct e as [|e]; injection Hs as <-; (split; simpl; [by apply direction_ok_drained|done|]).
    + unfold loop_ok, next_turn. simpl. split; [done|]. split; [done|]. split; [done|].
      right. auto.
    + right. exists e. auto.
  - unfold select_c2s in Hs. unfold loop_ok in Hl.
    destruct (loop p) as [i|] eqn:Hlp; [|done].
    destruct Hl as (Hu & Ht & Hc & _).
    destruct (dir_chan (c2s p)) as [e|] eqn:Hch; [|done].
    assert (dir_state (c2s p) = Done e) as Hdone.
    { pose proof (dir_report _ _ Hd2) as R. rewrite Hch in R.
      destruct (dir_state (c2s p)) as [| | | | |e'] eqn:Hst; try done.
      by destruct R as [[= ->]|]. }
    injection Hs as <-. split; simpl; [done|by apply direction_ok_drained|].
    left. exists e. by repeat split.
Qed.

Lemma proxy_run_ok p l p' : proxy_run p l = Some p' -> proxy_ok p -> proxy_ok p'.
Proof.
  revert p. induction l as [|ev l IH]; intros p; simpl; [by intros [= <-]|].
  destruct (proxy_step p ev) as [p1|] eqn:Hs; [|done]. intros Hr Hp.
  eapply IH; [done|]. by eapply proxy_step_ok.
Qed.

(** *** The end of the service's stream

    Sending to the caller does not fail with [io.EOF]: the documentation of
    [grpc.ServerStream] lets it return status errors only. *)
Definition caller_status_errors (ev : ProxyEvent) : Prop :=
  match ev with
  | FromService (ReadHeader (inr EOF)) | FromService (SendHeader (Some EOF))
  | FromService (Send (Some EOF)) => False
  | _ => True
  end.

Definition ends_after_all (d : Direction) : Prop :=
  dir_state d = Reporting EOF \/ dir_state d = Done EOF -> dir_sent d = dir_received d.

Lemma ends_after_all_step p ev p' :
  caller_status_errors ev -> proxy_step p ev = Some p' -> proxy_ok p ->
  ends_after_all (c2s p) -> ends_after_all (c2s p').
Proof.
  intros Hev Hs [_ Hd _] He. destruct ev as [op|op| |md]; simpl in Hs.
  - destruct (forward false (s2c p) op); [|done]. by injection Hs as <-.
  - destruct (forward true (c2s p) op) as [d|] eqn:Hf; [|done]. injection Hs as <-. simpl.
    pose proof (dir_order _ _ Hd) as (rest & O & _ & P). unfold ends_after_all in *.
    destruct op as [[f|e]|[md|e]|[e|]|[e|]|]; unfold forward in Hf;
      destruct (dir_state (c2s p)) as [|f'|f' md'|f'|e'|e'] eqn:Hst; try discriminate;
      try (injection Hf as <-; simpl; intros [[= ->]|[= ->]]; done).
    + injection Hf as <-. simpl. by destruct (dir_first (c2s p)); intros [|].
    + injection Hf as <-. simpl. intros _. subst rest. by rewrite O, !app_nil_r.
    + destruct (dir_chan (c2s p)); [done|]. injection Hf as <-. simpl.
      intros [[=]|[= ->]]. apply He. by left.
  - unfold select_s2c in Hs. repeat case_match; try done; by injection Hs as <-.
  - unfold select_c2s in Hs. repeat case_match; try done; by injection Hs as <-.
Qed.

Lemma ends_after_all_run p l p' :
  Forall caller_status_errors l -> proxy_run p l = Some p' -> proxy_ok p ->
  ends_after_all (c2s p) -> ends_after_all (c2s p').
Proof.
  intros Hl. revert p. induction Hl as [|ev l Hev _ IH]; intros p; simpl; [by intros [= <-]|].
  destruct (proxy_step p ev) as [p1|] eqn:Hs; [|done]. intros Hr Hp He.
  eapply IH; [done|by eapply proxy_step_ok|by eapply ends_after_all_step].
Qed.

(** ** Properties of every run *)

(** C31: In every interleaving of the two goroutines, the handler and the streams,
    each side has been sent exactly what the other side sent, in order and
    without gaps, but for at most the last message; and the caller gets the
    header of the service's stream before any message. *)
Theorem proxy_forwards_in_order (l : list ProxyEvent) (p : Proxy) :
  proxy_run new_proxy l = Some p ->
  (exists rest, dir_received (s2c p) = dir_sent (s2c p) ++ rest /\ (length rest <= 1)%nat) /\
  (exists rest, dir_received (c2s p) = dir_sent (c2s p) ++ rest /\ (length rest <= 1)%nat) /\
  (dir_sent (c2s p) <> [] -> dir_header (c2s p) <> None).
Proof.
  intros Hr. pose proof (proxy_run_ok _ _ _ Hr proxy_ok_new) as [[O1 _ _ _] [O2 _ _ H2] _].
  split; [|split].
  - destruct O1 as (rest & O1 & L & _). eauto.
  - destruct O2 as (rest & O2 & L & _). eauto.
  - intros Hs. apply H2; [done|by left].
Qed.

(** C32: The handler returns what ended the service's stream: no error for its end,
    and then every message of the service has been sent to the caller, and the
    error itself otherwise; or, after a failure in the other direction, an
    internal error, and then the call to the service is cancelled. It never
    returns the error it has for a third turn of its loop. *)
Theorem proxy_result (l : list ProxyEvent) (p : Proxy) (r : result unit) :
  proxy_run new_proxy l = Some p -> loop p = Finished r ->
  ((exists e, dir_state (c2s p) = Done e /\ trailer p <> None /\ r = service_result e) \/
   (exists e, dir_state (s2c p) = Done (StreamErr e) /\ cancelled p = true /\
      r = Err (caller_failed e))) /\
  (r = Ok tt -> Forall caller_status_errors l ->
   dir_state (c2s p) = Done EOF /\ dir_sent (c2s p) = dir_received (c2s p)).
Proof.
  intros Hr Hl. pose proof (proxy_run_ok _ _ _ Hr proxy_ok_new) as [_ _ Hok].
  unfold loop_ok in Hok. rewrite Hl in Hok. split.
  - destruct Hok as [(e & He & Ht & _ & ->)|(e & He & _ & Hc & ->)]; [left|right]; eauto.
  - intros -> Hreg. destruct Hok as [(e & He & _ & _ & Heq)|(e & _ & _ & _ & [=])].
    destruct e as [|e]; [|done]. split; [done|].
    apply (ends_after_all_run _ _ _ Hreg Hr proxy_ok_new); [by intros [|]|by right].
Qed.

(** The handler does not hang: a goroutine that has failed can always report
    and end, the loop waits at most twice, and it returns as soon as the
    direction of the service has ended, or that of the caller with an error. *)
Lemma proxy_returns (l : list ProxyEvent) (p : Proxy) (i : nat) :
  proxy_run new_proxy l = Some p -> loop p = Selecting i ->
  (i <= 1)%nat /\
  (forall b d e, (d = s2c p \/ d = c2s p) -> dir_state d = Reporting e ->
     exists d', forward b d Report = Some d' /\ dir_state d' = Done e) /\
  (forall e md, dir_state (c2s p) = Done e -> exists p',
     proxy_step p (Select_c2s md) = Some p' /\ loop p' = Finished (service_result e)) /\
  (forall e, dir_state (s2c p) = Done (StreamErr e) -> exists p',
     proxy_step p Select_s2c = Some p' /\ loop p' = Finished (Err (caller_failed e))).
Proof.
  intros Hr Hl. pose proof (proxy_run_ok _ _ _ Hr proxy_ok_new) as [Hd1 Hd2 Hok].
  unfold loop_ok in Hok. rewrite Hl in Hok. destruct Hok as (Hu & _ & _ & Hi).
  split; [destruct Hi as [[-> _]|[-> _]]; lia|]. split; [|split].
  - intros b d e Hd Hs.
    assert (dir_chan d = None) as Hch.
    { destruct Hd as [-> | ->]; [pose proof (dir_report _ _ Hd1) as R|
        pose proof (dir_report _ _ Hd2) as R]; by rewrite Hs in R. }
    unfold forward. rewrite Hs, Hch. by eexists.
  - intros e md He. simpl. unfold select_c2s. rewrite Hl, (Hu e He). by eexists.
  - intros e He. destruct Hi as [(_ & _ & Hu1)|(_ & _ & He' & _)]; [|congruence].
    simpl. unfold select_s2c. rewrite Hl, (Hu1 _ He). by eexists.
Qed.

(** ** An example: one message each way, then the service ends the call *)

Definition ex_ping : GrpcFrame := mkGrpcFrame (bytes_of_string "ping").
Definition ex_pong : GrpcFrame := mkGrpcFrame (bytes_of_string "pong").

Definition ex_exchange : list ProxyEvent :=
  [FromCaller (Recv (inl ex_ping)); FromCaller (Send None);
   FromService (Recv (inl ex_pong)); FromCaller (Recv (inr EOF));
   FromService (ReadHeader (inl ∅)); FromCaller Report; FromService (SendHeader None);
   Select_s2c; FromService (Send None); FromService (Recv (inr EOF)); FromService Report].

Definition ex_open : Proxy := default new_proxy (proxy_run new_proxy ex_exchange).

Definition ex_closed : Proxy :=
  default new_proxy (proxy_run new_proxy (ex_exchange ++ [Select_c2s ∅])).

Lemma ex_exchange_run : proxy_run new_proxy ex_exchange = Some ex_open.
Proof. by vm_compute. Qed.

Lemma ex_closed_run : proxy_run new_proxy (ex_exchange ++ [Select_c2s ∅]) = Some ex_closed.
Proof. by vm_compute. Qed.

Lemma proxy_forwards_in_order_witness :
  dir_sent (c2s ex_closed) = [ex_pong] /\ dir_header (c2s ex_closed) <> None.
Proof.
  split; [by vm_compute|].
  apply (proxy_forwards_in_order (ex_exchange ++ [Select_c2s ∅]) ex_closed);
    [apply ex_closed_run|by vm_compute].
Defined.

Lemma proxy_result_witness :
  dir_state (c2s ex_closed) = Done EOF /\ dir_sent (c2s ex_closed) = dir_received (c2s ex_closed).
Proof.
  apply (proxy_result (ex_exchange ++ [Select_c2s ∅]) ex_closed (Ok tt)).
  - apply ex_closed_run.
  - by vm_compute.
  - reflexivity.
  - by repeat constructor.
Defined.

Lemma proxy_returns_witness :
  exists p', proxy_step ex_open (Select_c2s ∅) = Some p' /\ loop p' = Finished (Ok tt).
Proof.
  assert (loop ex_open = Selecting 1) as Hl by by vm_compute.
  destruct (proxy_returns ex_exchange ex_open 1 ex_exchange_run Hl) as (_ & _ & Hret & _).
  apply (Hret EOF ∅). by vm_compute.
Defined.
