(* ===== verification/HttpHandler.v ===== *)
(** * HTTP passthrough, rate limits and IPFS files

    [handler/httphandler/http.go], [ratelimit/rateLimit.go] and
    [ipfsutils/ipfsutils.go]. *)
From Stdlib Require Import Ascii Floats.SpecFloat.
From S2P Require Import Prelude Prog Bytes Config Handler Forwarding.
Local Open Scope Z_scope.

(** ** [ratelimit/rateLimit.go] *)

Definition BurstSize : string := "burst_size".
Definition RateLimitPerMinute : string := "rate_limit_per_minute".
Definition MaxInt32 : Z := 2 ^ 31 - 1.

(** The conversions and operations of [float64] (IEEE 754 binary64), and the
    conversion to an integer, which truncates. *)
Definition float64 (z : Z) : spec_float := binary_normalize 53 1024 z 0 false.

Definition float_mul : spec_float -> spec_float -> spec_float := SFmul 53 1024.
Definition float_div : spec_float -> spec_float -> spec_float := SFdiv 53 1024.

Definition truncate (f : spec_float) : Z :=
  match f with
  | S754_finite s m e =>
      let v := if 0 <=? e then Zpos m * 2 ^ e else Zpos m / 2 ^ (- e) in
      if s then - v else v
  | _ => 0
  end.

Definition Millisecond : Z := 1000000.

(** [golang.org/x/time/rate]: limits, and a limiter with the tokens it has left.
    [Allow] takes the time of the call and gives the limiter it leaves. *)
Class RateLibrary := {
  rate_Limit : Type;
  rate_Inf : rate_Limit;
  rate_Every : Z -> rate_Limit;
  rate_Limiter : Type;
  rate_NewLimiter : rate_Limit -> Z -> rate_Limiter;
  rate_Allow : Z -> rate_Limiter -> bool * rate_Limiter }.

(** What its documentation says: a limit of no interval is no limit; a new
    limiter of a burst of at least one admits an event; at one time a limiter
    with a limit admits as many events as its burst. *)
Fixpoint admitted `{!RateLibrary} (times : list Z) (l : rate_Limiter) : list bool :=
  match times with
  | [] => []
  | t :: times => let '(b, l) := rate_Allow t l in b :: admitted times l
  end.

Class RateLaws `{!RateLibrary} : Prop := {
  rate_Every_zero d : d <= 0 -> rate_Every d = rate_Inf;
  rate_first limit burst t : 1 <= burst -> (rate_Allow t (rate_NewLimiter limit burst)).1 = true;
  rate_burst d burst t n : 0 < d -> 0 <= burst ->
    admitted (replicate n t) (rate_NewLimiter (rate_Every d) burst)
    = replicate (Nat.min n (Z.to_nat burst)) true
      ++ replicate (n - Z.to_nat burst) false }.

Section rate.
Context `{!RateLibrary}.

(** [time.Duration((1/float64(ratePerMin))*60*1000) * time.Millisecond] *)
Definition interval (ratePerMin : Z) : Z :=
  truncate (float_mul (float_mul (float_div (float64 1) (float64 ratePerMin)) (float64 60))
              (float64 1000)) * Millisecond.

Definition getLimit (vip : Viper) : rate_Limit :=
  let ratePerMin := GetInt vip RateLimitPerMinute in
  if ratePerMin =? 0 then rate_Inf
  else rate_Every (interval ratePerMin).

Definition NewRateLimiter (vip : Viper) : rate_Limiter :=
  let burstSize := GetInt vip BurstSize in
  rate_NewLimiter (getLimit vip) (if burstSize =? 0 then MaxInt32 else burstSize).
End rate.

(** The interval is a minute divided by the rate, in whole milliseconds, for
    these rates; the rates of more than one call a millisecond have none. *)
Lemma interval_exact :
  forallb (fun r => interval r =? 60000 / r * Millisecond) (seqZ 1 60) = true.
Proof. by vm_compute. Qed.

Lemma interval_none : interval 60001 = 0 /\ interval 1000000 = 0.
Proof. by vm_compute. Qed.

(** ** [handler/httphandler/http.go] *)

Abbreviation Header := (gmap string (list string)).

(** The body is a reader, which may fail. *)
Record HttpRequest := mkHttpRequest {
  Request_Method : string;
  Request_Header : Header;
  Request_Body : result string }.

(** What is written to the [ResponseWriter]. *)
Record HttpReply := mkHttpReply {
  Reply_Status : Z;
  Reply_Header : Header;
  Reply_Body : string }.

Definition StatusOK : Z := 200.
Definition StatusTooManyRequests : Z := 429.
Definition StatusInternalServerError : Z := 500.

(** [http.Error] after the headers [h] have been set. *)
Definition http_Error (h : Header) (msg : string) (code : Z) : HttpReply :=
  mkHttpReply code
    (<["X-Content-Type-Options" := ["nosniff"]]>
       (<["Content-Type" := ["text/plain; charset=utf-8"]]> h))
    (msg +:+ String (ascii_of_nat 10) EmptyString).

(** A first [Write] sends the status OK. *)
Definition write_body (h : Header) (body : string) : HttpReply := mkHttpReply StatusOK h body.

(** [resp.Header().Add] for every value of the service's headers. *)
Definition add_headers (h h2 : Header) : Header := union_with (fun a b => Some (a ++ b)) h h2.

Section http.
Context `{!RateLibrary}.

Record httpHandler := mkHttpHandler {
  http_passthroughEnabled : bool;
  http_passthroughEndpoint : string;
  http_rateLimiter : rate_Limiter }.

Definition NewHTTPHandler (vip : Viper) : httpHandler :=
  mkHttpHandler (GetBool vip PassthroughEnabledKey) (GetString vip PassthroughEndpointKey)
    (NewRateLimiter vip).

(** The [net/http] client: whether a request can be made, and the answer of the
    service: status, headers and body. *)
Record HttpClient := mkHttpClient {
  http_NewRequest : string -> string -> result unit;
  http_Do : string -> string -> Header -> result string -> result (Z * Header * result string) }.

Context (client : HttpClient).

(** The method has a value receiver: [h] is a copy, with a limiter of its own,
    and what [Allow] does to it is dropped. *)
Definition ServeHTTP (h : httpHandler) (now : Z) (req : HttpRequest) : HttpReply :=
  if http_passthroughEnabled h then
    let '(allowed, _) := rate_Allow now (http_rateLimiter h) in
    if negb allowed then http_Error ∅ "Too Many Requests" StatusTooManyRequests
    else
      match http_NewRequest client (Request_Method req) (http_passthroughEndpoint h) with
      | Err err => http_Error ∅ (Error err) StatusInternalServerError
      | Ok _ =>
          match http_Do client (Request_Method req) (http_passthroughEndpoint h)
                  (Request_Header req) (Request_Body req) with
          | Ok (_, header2, body2) =>
              let header := add_headers ∅ header2 in
              match body2 with
              | Ok body => write_body header body
              | Err err => http_Error header (Error err) StatusInternalServerError
              end
          | Err err => http_Error ∅ (Error err) StatusInternalServerError
          end
      end
  else
    match Request_Body req with
    | Ok body => write_body ∅ body
    | Err err => http_Error ∅ (Error err) StatusInternalServerError
    end.

(** A server with the handler [h], and the requests it gets with their times. *)
Definition http_serve (h : httpHandler) (requests : list (Z * HttpRequest)) : list HttpReply :=
  map (fun r => ServeHTTP h r.1 r.2) requests.

(** The gRPC interceptor is a pointer: its calls share the limiter. *)
Record rateLimitInterceptor := mkRateLimitInterceptor { interceptor_rateLimiter : rate_Limiter }.

Definition GrpcRateLimitInterceptor (vip : Viper) : rateLimitInterceptor :=
  mkRateLimitInterceptor (NewRateLimiter vip).

Definition grpc_admits (i : rateLimitInterceptor) (times : list Z) : list bool :=
  admitted times (interceptor_rateLimiter i).

(** *** What the caller sees *)

Lemma http_Error_status h msg code : Reply_Status (http_Error h msg code) = code.
Proof. done. Qed.

(** An answer of the service is passed on with its headers and its body, but the
    status is always OK. *)
Lemma passthrough_reply h now req status header body :
  http_passthroughEnabled h = true -> (rate_Allow now (http_rateLimiter h)).1 = true ->
  http_NewRequest client (Request_Method req) (http_passthroughEndpoint h) = Ok tt ->
  http_Do client (Request_Method req) (http_passthroughEndpoint h) (Request_Header req)
    (Request_Body req) = Ok (status, header, Ok body) ->
  ServeHTTP h now req = mkHttpReply StatusOK header body.
Proof.
  intros Hp Ha Hn Hd. unfold ServeHTTP. rewrite Hp. destruct (rate_Allow _ _) as [b l].
  simpl in Ha. subst b. cbn [negb]. rewrite Hn, Hd. unfold write_body, add_headers. f_equal.
  apply map_eq. intros k. rewrite lookup_union_with, lookup_empty. by destruct (header !! k).
Qed.

Lemma reply_status h now req :
  (rate_Allow now (http_rateLimiter h)).1 = true ->
  Reply_Status (ServeHTTP h now req) = StatusOK \/
  Reply_Status (ServeHTTP h now req) = StatusInternalServerError.
Proof.
  intros Ha. unfold ServeHTTP. destruct (rate_Allow _ _) as [b l]. simpl in Ha. subst b.
  cbn [negb]. split_matches; auto.
Qed.

(** C34: The answer of a service behind the HTTP passthrough reaches the caller with
    its headers and body, but always with the status OK, so that an error of
    the service looks like a success; and whatever limit is configured, no
    number of requests is ever refused for the limit: every request is checked
    against a fresh copy of the limiter. *)
Theorem http_passthrough_replies `{!RateLaws} (vip : Viper)
    (requests : list (Z * HttpRequest)) :
  0 <= GetInt vip BurstSize ->
  let h := NewHTTPHandler vip in
  Forall (fun reply => Reply_Status reply <> StatusTooManyRequests) (http_serve h requests) /\
  forall now req status header body,
    http_passthroughEnabled h = true ->
    http_NewRequest client (Request_Method req) (http_passthroughEndpoint h) = Ok tt ->
    http_Do client (Request_Method req) (http_passthroughEndpoint h) (Request_Header req)
      (Request_Body req) = Ok (status, header, Ok body) ->
    In (now, req) requests ->
    In (mkHttpReply StatusOK header body) (http_serve h requests).
Proof.
  intros Hb h.
  assert (forall now, (rate_Allow now (http_rateLimiter h)).1 = true) as Hallow.
  { intros now. unfold h, NewHTTPHandler, NewRateLimiter. cbn [http_rateLimiter].
    apply rate_first. destruct (Z.eqb_spec (GetInt vip BurstSize) 0); unfold MaxInt32; lia. }
  split.
  - apply List.Forall_map, List.Forall_forall. intros r _.
    by destruct (reply_status h r.1 r.2 (Hallow _)) as [-> | ->].
  - intros now req status header body Hp Hn Hd Hin. apply in_map_iff. exists (now, req).
    split; [|done]. by apply (passthrough_reply h now req status).
Qed.

(** The gRPC calls share one limiter: of the calls that arrive at one time, as
    many as the configured burst are admitted and the rest are refused, unless
    no rate is configured. *)
Lemma grpc_calls_share_the_limit `{!RateLaws} (vip : Viper) (t : Z) (n : nat) :
  GetInt vip RateLimitPerMinute <> 0 -> 0 < interval (GetInt vip RateLimitPerMinute) ->
  0 < GetInt vip BurstSize ->
  let burst := Z.to_nat (GetInt vip BurstSize) in
  grpc_admits (GrpcRateLimitInterceptor vip) (replicate n t)
  = replicate (Nat.min n burst) true ++ replicate (n - burst) false.
Proof.
  intros Hr Hi Hb burst. unfold grpc_admits, GrpcRateLimitInterceptor, NewRateLimiter, getLimit.
  cbn [interceptor_rateLimiter]. rewrite (proj2 (Z.eqb_neq _ _) Hr).
  rewrite (proj2 (Z.eqb_neq _ _)) by lia. apply rate_burst; [done|lia].
Qed.
End http.

(** ** [ipfsutils/ipfsutils.go]

    [Cat] gives a reader for the content of a hash; [Add] with [OnlyHash]
    computes the hash of a content. *)
Definition IpfsEndPoint : string := "ipfs_end_point".
Definition IpfsTimeout : string := "ipfs_timeout".

(** The client: the address, and the time in nanoseconds after which a request
    is given up; none when it is 0. *)
Record Shell := mkShell { Shell_Url : string; Shell_Timeout : Z }.

(** [time.Duration(config.GetInt(config.IpfsTimeout)) * time.Second], in 64
    bits. *)
Definition GetIpfsShell (vip : Viper) : Shell :=
  mkShell (GetString vip IpfsEndPoint) (Int64 (GetInt vip IpfsTimeout * 1000000000)).

(** The time is the configured one when it fits, about 292 years. *)
Lemma GetIpfsShell_timeout vip :
  0 <= GetInt vip IpfsTimeout <= 9223372036 ->
  Shell_Timeout (GetIpfsShell vip) = GetInt vip IpfsTimeout * 1000000000.
Proof.
  intros Ht. unfold GetIpfsShell, Int64. cbn [Shell_Timeout].
  set (t := GetInt vip IpfsTimeout * 1000000000).
  assert (0 <= t < 2 ^ 63) as H by (subst t; change (2 ^ 63) with 9223372036854775808; lia).
  rewrite (proj2 (Z.ltb_ge t 0)), Z.abs_eq by lia. change (2 ^ 64) with (2 * 2 ^ 63) in *.
  rewrite (Z.mod_small t), Z.mod_small by lia. lia.
Qed.

Section ipfs.
Context (Cat : string -> result (result string)) (Add : string -> result string).

Definition GetIpfsFile (hash : string) : outcome string :=
  match Cat hash with
  | Err _ => Panicked "error executing the cat command in ipfs"
  | Ok cid =>
      match cid with
      | Err _ => Panicked "error: in Reading the meta data file %s"
      | Ok jsondata =>
          match Add jsondata with
          | Err _ =>
              Panicked "error in generating the hash for the meta data read from IPFS : %v"
          | Ok newHash =>
              if decide (newHash <> hash) then
                Panicked ("IPFS hash verification failed. Generated hash doesnt match with"
                  +:+ " expected hash %s")
              else Returned jsondata
          end
      end
  end.

(** A file is returned exactly when it was read and has the hash it was asked
    for. *)
Lemma GetIpfsFile_verified hash file :
  GetIpfsFile hash = Returned file <-> Cat hash = Ok (Ok file) /\ Add file = Ok hash.
Proof.
  unfold GetIpfsFile. destruct (Cat hash) as [[f|]|]; [|by split; [|intros []]..].
  destruct (Add f) as [h|] eqn:Ha; [|split; [done|intros [[= ->] ?]; congruence]].
  case_decide as Hh; (split; [|intros [[= ->] ?]; try congruence]); [done|].
  intros [= ->]. destruct (decide (h = hash)) as [->|]; [by rewrite Ha|done].
Qed.
End ipfs.
