(* ===== verification/Settings.v ===== *)
(** * Loading of the configuration

    The rest of [config/config.go]: the defaults, the configuration file and the
    sections of the configuration; [snetd/cmd/init.go] and the loading of the
    file in [snetd/cmd/components.go]. The library [viper] is a parameter. *)
From Stdlib Require Import Ascii.
From S2P Require Import Prelude Prog Bytes Config Handler.
Local Open Scope Z_scope.

(** [github.com/spf13/viper] and [github.com/spf13/cast]: configurations with
    their settings, values set explicitly before those of the configuration
    file before defaults. A method that changes a configuration returns it. *)
Class ViperLibrary := {
  viper : Type;
  value : Type;
  viper_New : viper;
  viper_Set : string -> value -> viper -> viper;
  viper_SetDefault : string -> value -> viper -> viper;
  viper_SetEnvPrefix : string -> viper -> viper;
  viper_AutomaticEnv : viper -> viper;
  viper_AddConfigPath : string -> viper -> viper;
  viper_SetConfigType : string -> viper -> viper;
  viper_SetConfigFile : string -> viper -> viper;
  viper_ReadConfig : string -> viper -> result viper;
  viper_ReadInConfig : (string -> result string) -> viper -> result viper;
  viper_WriteConfig : viper -> string;
  viper_AllSettings : viper -> gmap string value;
  viper_InConfig : string -> viper -> bool;
  viper_Sub : string -> viper -> option viper;
  viper_Get : string -> viper -> option value;
  viper_GetStringSlice : string -> viper -> list string;
  viper_GetDuration : string -> viper -> Z;
  viper_getters : viper -> Viper;
  cast_ToStringMap : value -> gmap string value;
  cast_String : string -> value }.

(** What is documented of it: a new configuration has no settings, and a value
    that is set is among the settings under its key in lower case; keys with a
    dot are paths. *)
Definition plain_key (k : string) : Prop := ToLower k = k /\ string_in "."%char k = false.

Class ViperLaws `{!ViperLibrary} : Prop := {
  AllSettings_New : viper_AllSettings viper_New = ∅;
  AllSettings_Set k v s : plain_key k ->
    viper_AllSettings (viper_Set k v s) = <[k := v]> (viper_AllSettings s) }.

(** [defaultConfigJson]: the value of the text; numbers, lists and booleans by
    their texts. *)
Definition defaultConfigJson : gmap string json := list_to_map
  [("auto_ssl_domain", JString "");
   ("auto_ssl_cache_dir", JString ".certs");
   ("blockchain_enabled", JOther "true");
   ("blockchain_network_selected", JString "local");
   ("daemon_end_point", JString "127.0.0.1:8080");
   ("daemon_group_name", JString "default_group");
   ("daemon_type", JString "grpc");
   ("hdwallet_index", JOther "0");
   ("hdwallet_mnemonic", JString "");
   ("ipfs_end_point", JString "http://localhost:5002/");
   ("ipfs_timeout", JOther "30");
   ("max_message_size_in_mb", JOther "4");
   ("monitoring_enabled", JOther "true");
   ("monitoring_svc_end_point", JString "https://n4rzw9pu76.execute-api.us-east-1.amazonaws.com/beta");
   ("organization_id", JString "ExampleOrganizationId");
   ("passthrough_enabled", JOther "false");
   ("service_id", JString "ExampleServiceId");
   ("private_key", JString "");
   ("ssl_cert", JString "");
   ("ssl_key", JString "");
   ("log", JObject (list_to_map
      [("level", JString "info");
       ("timezone", JString "UTC");
       ("formatter", JObject (list_to_map
        [("type", JString "text");
         ("timestamp_format", JString "2006-01-02T15:04:05.999999999Z07:00")]));
       ("output", JObject (list_to_map
        [("type", JString "file");
         ("file_pattern", JString "./snet-daemon.%Y%m%d.log");
         ("current_link", JString "./snet-daemon.log");
         ("rotation_time_in_sec", JOther "86400");
         ("max_age_in_sec", JOther "604800");
         ("rotation_count", JOther "0")]));
       ("hooks", JOther "[]")]));
   ("payment_channel_storage_type", JString "etcd");
   ("payment_channel_storage_client", JObject (list_to_map
      [("connection_timeout", JString "5s");
       ("request_timeout", JString "3s");
       ("endpoints", JOther "[http://127.0.0.1:2379]")]));
   ("payment_channel_storage_server", JObject (list_to_map
      [("id", JString "storage-1");
       ("scheme", JString "http");
       ("host", JString "127.0.0.1");
       ("client_port", JOther "2379");
       ("peer_port", JOther "2380");
       ("token", JString "unique-token");
       ("cluster", JString "storage-1=http://127.0.0.1:2380");
       ("startup_timeout", JString "1m");
       ("data_dir", JString "storage-data-dir-1.etcd");
       ("log_level", JString "info");
       ("enabled", JOther "true")]));
   ("alerts_email", JString "");
   ("service_heartbeat_type", JString "http");
   ("heartbeat_svc_end_point", JString "http://demo3208027.mockable.io/heartbeat");
   ("notification_svc_end_point", JString "http://demo3208027.mockable.io")].

Section settings.
Context `{!ViperLibrary}.

(** ** Defaults *)

Definition ReadConfigFromJsonString (config : viper) (json : string) : result viper :=
  viper_ReadConfig json (viper_SetConfigType "json" config).

(** A Go loop over a map: the keys differ, so that their order does not matter. *)
Definition SetDefaultFromConfig (config defaults : viper) : viper :=
  map_fold viper_SetDefault config (viper_AllSettings defaults).

(** [init] *)
Definition config_init (defaults_text : string) : outcome viper :=
  let vip := viper_AutomaticEnv (viper_SetEnvPrefix "SNET" viper_New) in
  match ReadConfigFromJsonString viper_New defaults_text with
  | Err err => Panicked (Sprintf "Cannot load default config: %v" [Error err])
  | Ok defaults => Returned (viper_AddConfigPath "." (SetDefaultFromConfig vip defaults))
  end.

(** ** Files

    [read] is the content of a file, [exists_] whether the error of [os.Stat] is
    another than that the file does not exist. *)
Section files.
Context (read : string -> result string) (exists_ : string -> bool).

Definition LoadConfig (configFile : string) (vip : viper) : result viper :=
  viper_ReadInConfig read (viper_SetConfigFile configFile vip).

(** The text that is written to the file. *)
Definition WriteConfig (configFile : string) (vip : viper) : string :=
  viper_WriteConfig (viper_SetConfigFile configFile vip).

(** A flag of the command line: its value, and whether the user has set it. *)
Record Flag := mkFlag { Flag_Value : string; Flag_Changed : bool }.

Definition isFileExist (fileName : string) : bool := exists_ fileName.

Definition loadConfigFileFromCommandLine (configFlag : Flag) (vip : viper) : outcome viper :=
  let configFile := Flag_Value configFlag in
  if Flag_Changed configFlag || isFileExist configFile then
    match LoadConfig configFile vip with
    | Err _ => Panicked "Error reading configuration file"
    | Ok vip => Returned vip
    end
  else Returned vip.

(** [InitCmd]: the text that is written, or the fatal message. [write] is
    whether the file can be written. *)
Definition InitCmd_Run (write : string -> result unit) (configFlag : Flag) (vip : viper)
  : string + string :=
  let configFile := Flag_Value configFlag in
  if isFileExist configFile then inr "configFile already exists, please remove file first"
  else
    match write configFile with
    | Err _ => inr "Cannot write default configuration"
    | Ok _ => inl (WriteConfig configFile vip)
    end.
End files.

(** ** Sections *)

(** The section [key] with its defaults, nil when there is none. *)
Definition SubWithDefault (config : viper) (key : string) : option viper :=
  match viper_AllSettings config !! ToLower key with
  | None => None
  | Some allSettingsByKey =>
      Some (map_fold viper_Set viper_New (cast_ToStringMap allSettingsByKey))
  end.

Definition GetBigInt (key : string) (vip : viper) : Z :=
  Int64 (GetInt (viper_getters vip) key).

Definition GetBigIntFromViper (config : viper) (key : string) : result Z :=
  let text := GetString (viper_getters config) key in
  match Int_UnmarshalText text with
  | Some value => Ok value
  | None => Err (Errorf "math/big: cannot unmarshal %q into a *big.Int" [text])
  end.

(** [SubWithDefault] has exactly the settings of the section, the defaults
    included. *)
Lemma SubWithDefault_settings `{!ViperLaws} config key v :
  viper_AllSettings config !! ToLower key = Some v ->
  map_Forall (fun k _ => plain_key k) (cast_ToStringMap v) ->
  viper_AllSettings <$> SubWithDefault config key = Some (cast_ToStringMap v).
Proof.
  intros Hv. unfold SubWithDefault. rewrite Hv. cbn [fmap option_fmap option_map].
  generalize (cast_ToStringMap v) as m. intros m. 
  apply (map_fold_weak_ind (fun s m => map_Forall (fun k _ => plain_key k) m ->
    Some (viper_AllSettings s) = Some m)); [by rewrite AllSettings_New|].
  intros k x m' s Hk IH Hm. rewrite AllSettings_Set by (apply (Hm k x), lookup_insert_eq).
  do 2 f_equal. apply (inj Some), IH. intros k' x' Hk'. apply (Hm k' x').
  rewrite lookup_insert_ne; [done|]. congruence.
Qed.
End settings.
