(* ===== verification/EtcdSetup.v ===== *)
(** * The etcd server and the connections of the etcd client

    [etcddb/etcddb_conf.go], [etcddb/etcddb_server.go] and the set-up of the
    client of [etcddb/etcddb_client.go]: configurations, start and end of the
    embedded server, connection and session of the client. *)
From Stdlib Require Import Ascii.
From S2P Require Import Prelude Prog Bytes Config Handler Settings.
Local Open Scope Z_scope.

(** ** Configurations ([etcddb_conf.go])

    Durations are nanoseconds. *)

Definition PaymentChannelStorageTypeKey : string := "payment_channel_storage_type".
Definition PaymentChannelStorageClientKey : string := "payment_channel_storage_client".
Definition PaymentChannelStorageServerKey : string := "payment_channel_storage_server".

Record EtcdClientConf := mkEtcdClientConf {
  ConnectionTimeout : Z;
  RequestTimeout : Z;
  Endpoints : list string }.

Record EtcdServerConf := mkEtcdServerConf {
  conf_ID : string;
  conf_Scheme : string;
  conf_Host : string;
  conf_ClientPort : Z;
  conf_PeerPort : Z;
  conf_Token : string;
  conf_Cluster : string;
  conf_StartupTimeout : Z;
  conf_Enabled : bool;
  conf_DataDir : string;
  conf_LogLevel : string }.

Definition no_client_conf : EtcdClientConf := mkEtcdClientConf 0 0 [].

Definition no_server_conf : EtcdServerConf :=
  mkEtcdServerConf "" "" "" 0 0 "" "" 0 false "" "".

(** [conf.Enabled = true] *)
Definition set_Enabled (conf : EtcdServerConf) : EtcdServerConf :=
  mkEtcdServerConf (conf_ID conf) (conf_Scheme conf) (conf_Host conf) (conf_ClientPort conf)
    (conf_PeerPort conf) (conf_Token conf) (conf_Cluster conf) (conf_StartupTimeout conf) true
    (conf_DataDir conf) (conf_LogLevel conf).

(** The levels of [github.com/coreos/pkg/capnslog]; a level is a number, and the
    last case is a number that is none of them. *)
Inductive LogLevel :=
| CRITICAL | ERROR | WARNING | NOTICE | INFO | DEBUG | TRACE | OtherLevel (n : Z).

(** Decoding of settings into a structure, which keeps the fields that have no
    setting; the loggers of [capnslog]. *)
Class EtcdLibrary `{!ViperLibrary} := {
  Unmarshal_client : viper -> EtcdClientConf -> result EtcdClientConf;
  Unmarshal_server : viper -> EtcdServerConf -> result EtcdServerConf;
  UnmarshalKey_server : string -> viper -> EtcdServerConf -> result EtcdServerConf;
  capnslog_GetRepoLogger : string -> result unit;
  capnslog_ParseLevel : string -> result LogLevel }.

Definition to_upper (c : ascii) : ascii :=
  let n := nat_of_ascii c in
  if bool_decide (97 <= n <= 122)%nat then ascii_of_nat (n - 32) else c.

Fixpoint ToUpper (s : string) : string :=
  match s with EmptyString => EmptyString | String c s => String (to_upper c) (ToUpper s) end.

(** [strings.Replace(conf, "_", "", -1)] *)
Fixpoint normalizeDefaultConf (conf : string) : string :=
  match conf with
  | EmptyString => EmptyString
  | String c conf =>
      if decide (c = "_"%char) then normalizeDefaultConf conf
      else String c (normalizeDefaultConf conf)
  end.

(** The call of logrus that prints an entry of a level. *)
Inductive LogCall := LogError | LogWarning | LogInfo | LogDebug | LogUnknownLevel (n : Z).

Definition capnslogToLogrusLogFormatter_Format (level : LogLevel) : LogCall :=
  match level with
  | CRITICAL | ERROR => LogError
  | WARNING | NOTICE => LogWarning
  | INFO => LogInfo
  | DEBUG | TRACE => LogDebug
  | OtherLevel n => LogUnknownLevel n
  end.

Section conf.
Context `{!ViperLibrary, !EtcdLibrary}.

(** The method [Unmarshal] of a nil configuration dereferences it. *)
Definition GetEtcdClientConf (vip : viper) : outcome (result EtcdClientConf) :=
  match SubWithDefault vip PaymentChannelStorageClientKey with
  | None => Panicked nil_dereference
  | Some subVip => Returned (Unmarshal_client subVip no_client_conf)
  end.

(** The level that is set for the loggers of etcd. *)
Definition initEtcdLogger (conf : EtcdServerConf) : result LogLevel :=
  match capnslog_GetRepoLogger "github.com/coreos/etcd" with
  | Err err => Err err
  | Ok _ => capnslog_ParseLevel (ToUpper (conf_LogLevel conf))
  end.

Definition GetEtcdServerConf (vip : viper) : outcome (result EtcdServerConf) :=
  let key := PaymentChannelStorageServerKey in
  match SubWithDefault vip key with
  | None => Panicked nil_dereference
  | Some subVip =>
      Returned
        match Unmarshal_server subVip no_server_conf with
        | Err err => Err err
        | Ok conf =>
            if negb (viper_InConfig (ToLower key) vip) then Ok conf
            else
              match UnmarshalKey_server key vip (set_Enabled conf) with
              | Err err => Err err
              | Ok conf =>
                  match initEtcdLogger conf with
                  | Err err => Err err
                  | Ok _ => Ok conf
                  end
              end
        end
  end.

(** ** The server ([etcddb_server.go]) *)

Definition IsEtcdServerEnabledInVip (vip : viper) : outcome (result bool) :=
  match GetEtcdServerConf vip with
  | Panicked msg => Panicked msg
  | Returned (Err err) => Returned (Err err)
  | Returned (Ok conf) => Returned (Ok (conf_Enabled conf))
  end.

(** An [EtcdServer] by its configuration, nil when the server is disabled. *)
Definition GetEtcdServerFromVip (vip : viper) : outcome (result (option EtcdServerConf)) :=
  match GetEtcdServerConf vip with
  | Panicked msg => Panicked msg
  | Returned (Err err) => Returned (Err err)
  | Returned (Ok conf) => Returned (Ok (if conf_Enabled conf then Some conf else None))
  end.
End conf.

Record URL := mkURL { URL_Scheme : string; URL_Host : string }.

(** The fields of [embed.Config] that are set. *)
Record EmbedConfig := mkEmbedConfig {
  Name : string;
  Dir : string;
  LCUrls : list URL;
  ACUrls : list URL;
  LPUrls : list URL;
  APUrls : list URL;
  InitialCluster : string;
  InitialClusterToken : string;
  ClusterState : string }.

Definition getEtcdConf (conf : EtcdServerConf) : EmbedConfig :=
  let clientURL :=
    mkURL (conf_Scheme conf) (conf_Host conf +:+ ":" +:+ pretty (conf_ClientPort conf)) in
  let peerURL :=
    mkURL (conf_Scheme conf) (conf_Host conf +:+ ":" +:+ pretty (conf_PeerPort conf)) in
  mkEmbedConfig (conf_ID conf) (conf_DataDir conf) [clientURL] [clientURL] [peerURL] [peerURL]
    (conf_Cluster conf) (conf_Token conf) "new".

(** ** Operations

    Servers, client connections and sessions are numbers. [AwaitReady] waits
    until the server is ready or the time is over. *)
Inductive EtcdSetupE : Type -> Type :=
| StartEtcd (conf : EmbedConfig) : EtcdSetupE (result nat)
| AwaitReady (etcd : nat) (timeout : Z) : EtcdSetupE bool
| StopServer (etcd : nat) : EtcdSetupE unit
| CloseEtcd (etcd : nat) : EtcdSetupE unit
| NewClientv3 (endpoints : list string) (dialTimeout : Z) : EtcdSetupE (result nat)
| NewSession (etcdv3 : nat) : EtcdSetupE (result nat)
| CloseClientv3 (etcdv3 : nat) : EtcdSetupE (result unit)
| CloseSession (session : nat) : EtcdSetupE (result unit).

Definition startEtcdServer (conf : EtcdServerConf) : prog EtcdSetupE (result nat) :=
  try! etcd := trigger (StartEtcd (getEtcdConf conf)) in
  let! ready := trigger (AwaitReady etcd (conf_StartupTimeout conf)) in
  if (ready : bool) then Ret (Ok etcd)
  else
    let! _ := trigger (StopServer etcd) in
    Ret (Err (ErrorString ("etcd server took too long to start: " +:+ conf_ID conf))).

(** An [EtcdServer] whose [etcd] has been started. *)
Record EtcdServer := mkEtcdServer { server_conf : EtcdServerConf; server_etcd : nat }.

Definition EtcdServer_Start (conf : EtcdServerConf) : prog EtcdSetupE (result EtcdServer) :=
  try! etcd := startEtcdServer conf in Ret (Ok (mkEtcdServer conf etcd)).

Definition EtcdServer_Close (server : EtcdServer) : prog EtcdSetupE unit :=
  trigger (CloseEtcd (server_etcd server)).

(** ** The client ([etcddb_client.go]) *)

Record EtcdClientObject := mkEtcdClient {
  client_timeout : Z;
  client_session : nat;
  client_etcdv3 : nat }.

Definition NewEtcdClientFromVip `{!ViperLibrary, !EtcdLibrary} (vip : viper)
  : prog EtcdSetupE (result EtcdClientObject) :=
  let! conf := resume (GetEtcdClientConf vip) in
  match conf with
  | Err err => Ret (Err err)
  | Ok conf =>
      try! etcdv3 := trigger (NewClientv3 (Endpoints conf) (ConnectionTimeout conf)) in
      try! session := trigger (NewSession etcdv3) in
      Ret (Ok (mkEtcdClient (RequestTimeout conf) session etcdv3))
  end.

(** The deferred calls run in reverse order: the connection is closed first. *)
Definition EtcdClient_Close (client : EtcdClientObject) : prog EtcdSetupE unit :=
  defer (fun _ => trigger (CloseSession (client_session client)))
    (defer (fun _ => trigger (CloseClientv3 (client_etcdv3 client))) (Ret tt)).

(** ** Resources

    The servers that run, the connections that are open and the leases of
    sessions that etcd keeps, each with its connection. *)
Record EtcdResources := mkEtcdResources {
  running : gset nat;
  connections : gset nat;
  leases : gmap nat nat }.

(** What the libraries document: a server, a connection or a session is a new
    one; the lease of a session is revoked over its connection when the session
    is closed, which fails when the connection is closed. *)
Definition etcd_setup {X} (e : EtcdSetupE X) (r : EtcdResources)
  : X -> EtcdResources -> Prop :=
  match e in EtcdSetupE X return X -> EtcdResources -> Prop with
  | StartEtcd _ => fun x r' =>
      (exists err, x = Err err /\ r' = r) \/
      (exists n, x = Ok n /\ n ∉ running r /\
         r' = mkEtcdResources ({[n]} ∪ running r) (connections r) (leases r))
  | AwaitReady _ _ => fun _ r' => r' = r
  | StopServer n | CloseEtcd n => fun _ r' =>
      r' = mkEtcdResources (running r ∖ {[n]}) (connections r) (leases r)
  | NewClientv3 _ _ => fun x r' =>
      (exists err, x = Err err /\ r' = r) \/
      (exists n, x = Ok n /\ n ∉ connections r /\
         r' = mkEtcdResources (running r) ({[n]} ∪ connections r) (leases r))
  | NewSession c => fun x r' =>
      (exists err, x = Err err /\ r' = r) \/
      (exists n, x = Ok n /\ c ∈ connections r /\ leases r !! n = None /\
         r' = mkEtcdResources (running r) (connections r) (<[n := c]> (leases r)))
  | CloseClientv3 c => fun _ r' =>
      r' = mkEtcdResources (running r) (connections r ∖ {[c]}) (leases r)
  | CloseSession s => fun x r' =>
      (exists err, x = Err err /\ r' = r) \/
      (exists c, x = Ok tt /\ leases r !! s = Some c /\ c ∈ connections r /\
         r' = mkEtcdResources (running r) (connections r) (delete s (leases r)))
  end.

#[export] Instance EtcdSetupE_contract : Contract EtcdSetupE EtcdResources := @etcd_setup.

(** A server that does not get ready in time is stopped, and no other server is
    affected: either the server of the result runs, or none was added. *)
Lemma startEtcdServer_runs conf r :
  wp (startEtcdServer conf)
    (fun o r' => connections r' = connections r /\ leases r' = leases r /\
       match o with
       | Returned (Ok n) => n ∉ running r /\ running r' = {[n]} ∪ running r
       | Returned (Err _) => running r' = running r
       | Panicked _ => False
       end) r.
Proof.
  intros x r' [(err & -> & ->)|(n & -> & Hn & ->)]; [done|].
  intros ready r' ->. destruct ready; [done|]. intros [] r' ->. cbn. split; [done|].
  split; [done|]. set_solver.
Qed.

(** Closing a client ends its connection, and leaves the lease of its session
    in etcd, where it ends with its time to live. *)
Lemma EtcdClient_Close_keeps_lease client r :
  leases r !! client_session client = Some (client_etcdv3 client) ->
  wp (EtcdClient_Close client)
    (fun o r' => o = Returned tt /\ client_etcdv3 client ∉ connections r' /\
       leases r' = leases r) r.
Proof.
  intros Hs x r' ->. cbn. intros y r'' [(err & -> & ->)|(c & -> & Hc & Hin & ->)].
  - split; [done|]. set_solver.
  - cbn in Hc, Hin. rewrite Hs in Hc. injection Hc as <-. set_solver.
Qed.

(** When no session can be made the connection stays open. *)
Lemma NewEtcdClientFromVip_resources `{!ViperLibrary, !EtcdLibrary} vip r :
  wp (NewEtcdClientFromVip vip)
    (fun o r' => running r' = running r /\
       match o with
       | Returned (Ok client) => client_etcdv3 client ∈ connections r' /\
           leases r' !! client_session client = Some (client_etcdv3 client)
       | Returned (Err _) => leases r' = leases r /\ connections r ⊆ connections r'
       | Panicked _ => r' = r
       end) r.
Proof.
  unfold NewEtcdClientFromVip. destruct (GetEtcdClientConf vip) as [[conf|err]|msg]; [|done..].
  intros x r' [(err & -> & ->)|(n & -> & Hn & ->)]; [done|].
  intros y r' [(err & -> & ->)|(s & -> & Hc & Hs & ->)]; cbn; (split; [done|]); [set_solver|].
  split; [set_solver|]. apply lookup_insert_eq.
Qed.
