(* ===== verification/TestTools.v ===== *)
(** * The tools of tests and builds

    [blockchain/ethereum_test_util.go]: the simulated blockchain that the tests of
    the contracts run on, with the calls of the contracts that prepare a channel;
    [resources/installBlockchainDependencies/main.go], which fetches what the
    generation of the contract bindings needs. *)
From S2P Require Import Prelude Prog Bytes.
Local Open Scope Z_scope.

(** ** Operations

    Keys, signers, backends and deployed contracts are numbers. *)

(** [bind.TransactOpts]: no value is nil, a gas limit of 0 is estimated. *)
Record TransactOpts := mkTransactOpts {
  Opts_From : Address;
  Opts_Signer : nat;
  Opts_Value : option Z;
  Opts_GasLimit : Z }.

(** The calls of [crypto], of the simulated backend and of the generated
    bindings; a deployed contract has an address and a binding. *)
Inductive SimulatedE : Type -> Type :=
| GenerateKey : SimulatedE (result nat)
| NewKeyedTransactor (key : nat) : SimulatedE TransactOpts
| NewSimulatedBackend (alloc : list (Address * Z)) : SimulatedE nat
| BackendCommit (backend : nat) : SimulatedE unit
| DeploySingularityNetToken (opts : TransactOpts) (backend : nat)
  : SimulatedE (result (Address * nat))
| DeployMultiPartyEscrow (opts : TransactOpts) (backend : nat) (token : Address)
  : SimulatedE (result (Address * nat))
| TransferTokens (token : nat) (opts : TransactOpts) (to : Address) (amount : Z)
  : SimulatedE (result unit)
| Approve (token : nat) (opts : TransactOpts) (spender : Address) (amount : Z)
  : SimulatedE (result unit)
| Deposit (mpe : nat) (opts : TransactOpts) (amount : Z) : SimulatedE (result unit)
| OpenChannel (mpe : nat) (opts : TransactOpts) (signer recipient : Address) (groupId : bytes32)
    (amount expiration : Z) : SimulatedE (result unit).

Record SimulatedEthereumEnvironment := mkSimulatedEthereumEnvironment {
  SingnetPrivateKey : nat;
  SingnetWallet : TransactOpts;
  ClientWallet : TransactOpts;
  ClientPrivateKey : nat;
  ServerWallet : TransactOpts;
  ServerPrivateKey : nat;
  Backend : nat;
  SingularityNetToken : nat;
  MultiPartyEscrowAddress : Address;
  MultiPartyEscrow : nat }.

(** ** Gas *)

Definition EstimateGas (wallet : TransactOpts) : TransactOpts :=
  mkTransactOpts (Opts_From wallet) (Opts_Signer wallet) None 0.

Definition SetGas (wallet : TransactOpts) (gasLimit : Z) : TransactOpts :=
  mkTransactOpts (Opts_From wallet) (Opts_Signer wallet) None gasLimit.

(** ** Steps of a test

    [if err != nil { panic(fmt.Sprintf(message, err)) }] *)
Definition must {A} (message : string) (p : prog SimulatedE (result A)) : prog SimulatedE A :=
  let! r := p in
  match r with
  | Ok a => Ret a
  | Err err => Panic (Sprintf message [Error err])
  end.

Section environment.
Context (env : SimulatedEthereumEnvironment).

(** The methods return the environment, for the next step. *)
Definition SnetTransferTokens (to : TransactOpts) (amount : Z)
  : prog SimulatedE SimulatedEthereumEnvironment :=
  let! _ := must "Unable to transfer tokens: %v"
    (trigger (TransferTokens (SingularityNetToken env) (EstimateGas (SingnetWallet env))
                (Opts_From to) amount)) in
  Ret env.

Definition SnetApproveMpe (from : TransactOpts) (amount : Z)
  : prog SimulatedE SimulatedEthereumEnvironment :=
  let! _ := must "Unable to aprove tokens transfer to MPE: %v"
    (trigger (Approve (SingularityNetToken env) (EstimateGas from)
                (MultiPartyEscrowAddress env) amount)) in
  Ret env.

Definition MpeDeposit (from : TransactOpts) (amount : Z)
  : prog SimulatedE SimulatedEthereumEnvironment :=
  let! _ := must "Unable to deposit tokens to MPE: %v"
    (trigger (Deposit (MultiPartyEscrow env) (EstimateGas from) amount)) in
  Ret env.

Definition MpeOpenChannel (from to : TransactOpts) (amount expiration : Z) (groupId : bytes32)
  : prog SimulatedE SimulatedEthereumEnvironment :=
  let! _ := must "Unable to open MPE payment channel: %v"
    (trigger (OpenChannel (MultiPartyEscrow env) (EstimateGas from) (Opts_From from)
                (Opts_From to) groupId amount expiration)) in
  Ret env.

Definition Simulated_Commit : prog SimulatedE SimulatedEthereumEnvironment :=
  let! _ := trigger (BackendCommit (Backend env)) in Ret env.
End environment.

(** ** The environment *)

Definition getTestWallet : prog SimulatedE (nat * TransactOpts) :=
  let! privateKey := must "Unable to generate private key, error: %v" (trigger GenerateKey) in
  let! wallet := trigger (NewKeyedTransactor privateKey) in
  Ret (privateKey, wallet).

(** The token, the address of the escrow contract and its binding. *)
Definition deployContracts (SingnetWallet : TransactOpts) (Backend : nat)
  : prog SimulatedE (nat * Address * nat) :=
  let! token := must "Unable to deploy SingularityNetToken contract, error: %v"
    (trigger (DeploySingularityNetToken (EstimateGas SingnetWallet) Backend)) in
  let! _ := trigger (BackendCommit Backend) in
  let! mpe := must "Unable to deploy MultiPartyEscrow contract, error: %v"
    (trigger (DeployMultiPartyEscrow (EstimateGas SingnetWallet) Backend token.1)) in
  let! _ := trigger (BackendCommit Backend) in
  Ret (token.2, mpe.1, mpe.2).

Definition GetSimulatedEthereumEnvironment : prog SimulatedE SimulatedEthereumEnvironment :=
  let! singnet := getTestWallet in
  let! client := getTestWallet in
  let! server := getTestWallet in
  let alloc := [(Opts_From singnet.2, 1000000000000); (Opts_From client.2, 1000000000000);
                (Opts_From server.2, 10000000)] in
  let! backend := trigger (NewSimulatedBackend alloc) in
  let! contracts := deployContracts singnet.2 backend in
  let '(token, mpeAddress, mpe) := contracts in
  Ret (mkSimulatedEthereumEnvironment singnet.1 singnet.2 client.2 client.1 server.2 server.1
         backend token mpeAddress mpe).

(** ** The downloader *)

(** [exec.Cmd]: the directory, the environment (that of the process when empty), and
    the command line. *)
Record Cmd := mkCmd {
  Cmd_Dir : string;
  Cmd_Env : list string;
  Cmd_Args : list string }.

Inductive BuildE : Type -> Type :=
| Environ : BuildE (list string)
| StartCommand (cmd : Cmd) : BuildE (result unit)
| WaitCommand (cmd : Cmd) : BuildE (result unit)
| BuildFatal (err : error) : BuildE Empty_set.

Definition runCommand (dir : string) (env : list string) (name : string) (arg : list string)
  : prog BuildE Cmd :=
  let! environ :=
    match env with
    | [] => Ret []
    | _ => let! own := trigger Environ in Ret (own ++ env)
    end in
  let cmd := mkCmd dir environ (name :: arg) in
  let! err := trigger (StartCommand cmd) in
  match err with
  | Err err => Vis (BuildFatal err) (fun x : Empty_set => match x with end)
  | Ok _ => Ret cmd
  end.

(** The result of [Wait] is dropped. *)
Definition installBlockchainDependencies : prog BuildE unit :=
  let! cmd := runCommand "resources/blockchain" [] "npm" ["install"] in
  let! _ := trigger (WaitCommand cmd) in
  Ret tt.

(** ** What a test can rely on *)

(** The answers of the simulated blockchain, and the operations so far. *)
Definition SimulatedOperation : Type := sigT SimulatedE.

#[export] Instance SimulatedE_contract : Contract SimulatedE (list SimulatedOperation) :=
  fun X e w _ w' => w' = w ++ [existT X e].

(** A step returns the environment when its transaction is accepted and panics when
    it is not; it makes that one transaction and no other. *)
Lemma must_step {X} message (e : SimulatedE (result X)) (env : SimulatedEthereumEnvironment) w :
  wp (let! _ := must message (trigger e) in Ret env)
    (fun o w' => w' = w ++ [existT _ e] /\
       (o = Returned env \/ exists err, o = Panicked (Sprintf message [Error err]))) w.
Proof.
  intros [x|err] w' ->; simpl; (split; [done|]); [by left|right; by exists err].
Qed.

(** How an environment comes about: three wallets, a backend that gives them
    tokens of the chain, the token contract and then the escrow contract of that
    token, each deployed by the first wallet and committed. *)
Definition environment_operations (env : SimulatedEthereumEnvironment) (tokenAddress : Address)
  : list SimulatedOperation :=
  [existT _ GenerateKey; existT _ (NewKeyedTransactor (SingnetPrivateKey env));
   existT _ GenerateKey; existT _ (NewKeyedTransactor (ClientPrivateKey env));
   existT _ GenerateKey; existT _ (NewKeyedTransactor (ServerPrivateKey env));
   existT _ (NewSimulatedBackend
     [(Opts_From (SingnetWallet env), 1000000000000);
      (Opts_From (ClientWallet env), 1000000000000);
      (Opts_From (ServerWallet env), 10000000)]);
   existT _ (DeploySingularityNetToken (EstimateGas (SingnetWallet env)) (Backend env));
   existT _ (BackendCommit (Backend env));
   existT _ (DeployMultiPartyEscrow (EstimateGas (SingnetWallet env)) (Backend env) tokenAddress);
   existT _ (BackendCommit (Backend env))].

Lemma environment_built :
  wp GetSimulatedEthereumEnvironment
    (fun o w => forall env, o = Returned env -> exists a, w = environment_operations env a) [].
Proof.
  intros [k1|e] ? ->; [|done]. intros wallet1 ? ->. intros [k2|e] ? ->; [|done].
  intros wallet2 ? ->. intros [k3|e] ? ->; [|done]. intros wallet3 ? ->.
  intros backend ? ->. intros [[tokenAddress token]|e] ? ->; [|done]. intros ? ? ->.
  intros [[mpeAddress mpe]|e] ? ->; [|done]. intros ? ? ->.
  intros env [= <-]. by exists tokenAddress.
Qed.

#[export] Instance BuildE_contract : Contract BuildE (list (sigT BuildE)) :=
  fun X e w _ w' => w' = w ++ [existT X e].

Definition npm_install : Cmd := mkCmd "resources/blockchain" [] ["npm"; "install"].

(** The program starts one command, waits for it and ends, whatever has become of
    the command. *)
Lemma install_runs_npm :
  wp installBlockchainDependencies
    (fun o w => o = Returned tt /\
       w = [existT _ (StartCommand npm_install); existT _ (WaitCommand npm_install)]) [].
Proof.
  intros [u|err] w ->; [|by intros []]. by intros r w ->.
Qed.
