(* ===== verification/Logger.v ===== *)
(** * Logger

    [logger/logger.go] and [logger/hook.go]: the level, formatter, output and
    hooks of the logger, from its section of the configuration. *)
From S2P Require Import Prelude Prog Bytes Config Settings.
Local Open Scope Z_scope.

(** ** Keys *)

Definition LogLevelKey : string := "level".
Definition LogTimezoneKey : string := "timezone".
Definition LogFormatterKey : string := "formatter".
Definition LogOutputKey : string := "output".
Definition LogHooksKey : string := "hooks".
Definition LogFormatterTypeKey : string := "type".
Definition LogFormatterTimezoneKey : string := "timezone".
Definition LogFormatterTimestampFormat : string := "timestamp_format".
Definition LogOutputTypeKey : string := "type".
Definition LogOutputFileFilePatternKey : string := "file_pattern".
Definition LogOutputFileCurrentLinkKey : string := "current_link".
Definition LogOutputFileClockTimezoneKey : string := "clock_timezone".
Definition LogOutputFileRotationTimeInSecKey : string := "rotation_time_in_sec".
Definition LogOutputFileMaxAgeInSecKey : string := "max_age_in_sec".
Definition LogOutputFileRotationCountKey : string := "rotation_count".
Definition LogHookTypeKey : string := "type".
Definition LogHookLevelsKey : string := "levels".
Definition LogHookConfigKey : string := "config".
Definition LogHookMailApplicationNameKey : string := "application_name".
Definition LogHookMailHostKey : string := "host".
Definition LogHookMailPortKey : string := "port".
Definition LogHookMailFromKey : string := "from".
Definition LogHookMailToKey : string := "to".
Definition LogHookMailUsernameKey : string := "username".
Definition LogHookMailPasswordKey : string := "password".

(** ** The logger

    The libraries: logrus levels, time zones, rotated files and mail hooks. *)
Record RotateOptions := mkRotateOptions {
  rotate_pattern : string;
  rotate_location : string;
  rotate_link : string;
  rotate_time : Z;
  rotate_max_age : Z;
  rotate_count : Z }.

Record MailConfig := mkMailConfig {
  mail_application : string;
  mail_host : string;
  mail_port : Z;
  mail_from : string;
  mail_to : string;
  mail_username : string;
  mail_password : string }.

Class LogLibrary := {
  ParseLevel : string -> option Z;
  parse_level_error : string -> error;
  LoadLocation : string -> result string;
  rotatelogs_New : RotateOptions -> result unit;
  NewMailAuthHook : MailConfig -> result unit;
  Time_In : string -> Z -> Z;
  format_text : string -> Z -> string -> result string;
  format_json : string -> Z -> string -> result string }.

Inductive Delegate :=
| TextFormatter (timestampFormat : string)
| JSONFormatter (timestampFormat : string).

Record timezoneFormatter := mkTimezoneFormatter {
  formatter_delegate : Delegate;
  formatter_timestampLocation : string }.

Inductive Writer := Stdout | RotatedFile (options : RotateOptions).

(** [Delegate] and [ExitHandler] of a hook: mail, and a function that does
    nothing. *)
Record Hook := mkHook { Hook_Delegate : MailConfig }.

Record internalHook := mkInternalHook {
  hook_delegate : MailConfig;
  hook_levels : list Z }.

Record Logger := mkLogger {
  logger_level : Z;
  logger_formatter : option timezoneFormatter;
  logger_output : option Writer;
  logger_hooks : list internalHook;
  exit_handlers : nat }.

Definition SetLevel (n : Z) (l : Logger) : Logger :=
  mkLogger n (logger_formatter l) (logger_output l) (logger_hooks l) (exit_handlers l).

Definition SetFormatter (f : timezoneFormatter) (l : Logger) : Logger :=
  mkLogger (logger_level l) (Some f) (logger_output l) (logger_hooks l) (exit_handlers l).

Definition SetOutput (w : Writer) (l : Logger) : Logger :=
  mkLogger (logger_level l) (logger_formatter l) (Some w) (logger_hooks l) (exit_handlers l).

(** [AddHook] and [RegisterExitHandler]. *)
Definition AddHook (h : internalHook) (l : Logger) : Logger :=
  mkLogger (logger_level l) (logger_formatter l) (logger_output l) (logger_hooks l ++ [h])
    (S (exit_handlers l)).

Section logger.
Context `{!ViperLibrary, !LogLibrary}.

Local Abbreviation text config key := (GetString (viper_getters config) key).
Local Abbreviation number config key := (GetInt (viper_getters config) key).

(** [log.ParseLevel] *)
Definition log_ParseLevel (s : string) : result Z :=
  match ParseLevel s with Some n => Ok n | None => Err (parse_level_error s) end.

(** ** Hooks *)

Definition newMailAuthHook (config : option viper) : result Hook :=
  match config with
  | None =>
      Err (ErrorString "Unable to create instance of mail auth hook: no config provided")
  | Some config =>
      let mail := mkMailConfig (text config LogHookMailApplicationNameKey)
        (text config LogHookMailHostKey) (number config LogHookMailPortKey)
        (text config LogHookMailFromKey) (text config LogHookMailToKey)
        (text config LogHookMailUsernameKey) (text config LogHookMailPasswordKey) in
      match NewMailAuthHook mail with
      | Err err => Err (Errorf "Unable to create instance of mail auth hook: %v" [Error err])
      | Ok _ => Ok (mkHook mail)
      end
  end.

Abbreviation HookFactories := (gmap string (option viper -> result Hook)).

Definition RegisterHookType (hookType : string) (factory : option viper -> result Hook)
    (m : HookFactories) : HookFactories := <[hookType := factory]> m.

(** What [init] leaves in the map. *)
Definition hookFactoryMethodsByType : HookFactories :=
  RegisterHookType "mail_auth" newMailAuthHook ∅.

Definition level_error (levelString : string) (err : error) : error :=
  Errorf ("Unable parse log level string: " +:+ dquote +:+ "%v" +:+ dquote +:+ ", err: %v")
    [levelString; Error err].

Fixpoint parse_levels (l : list string) : result (list Z) :=
  match l with
  | [] => Ok []
  | levelString :: l =>
      match log_ParseLevel levelString with
      | Err err => Err (level_error levelString err)
      | Ok level => result_map (cons level) (parse_levels l)
      end
  end.

(** The hook of a configuration, with its levels. *)
Definition hook_of_config (config : option viper) : result internalHook :=
  match config with
  | None => Err (ErrorString "No hook definition")
  | Some config =>
      let hookType := text config LogHookTypeKey in
      if decide (hookType = EmptyString) then Err (ErrorString "No hook type in hook config")
      else
        match hookFactoryMethodsByType !! hookType with
        | None =>
            Err (Errorf ("Unexpected hook type: " +:+ dquote +:+ "%v" +:+ dquote) [hookType])
        | Some factory =>
            match factory (viper_Sub LogHookConfigKey config) with
            | Err err => Err (Errorf "Cannot create hook instance: %v" [Error err])
            | Ok hook =>
                match viper_Get LogHookLevelsKey config with
                | None => Err (ErrorString "No levels in hook config")
                | Some _ =>
                    result_map (mkInternalHook (Hook_Delegate hook))
                      (parse_levels (viper_GetStringSlice LogHookLevelsKey config))
                end
            end
        end
  end.

Definition addHookByConfig (config : option viper) (logger : Logger) : result unit * Logger :=
  match hook_of_config config with
  | Err err => (Err err, logger)
  | Ok hook => (Ok tt, AddHook hook logger)
  end.

(** ** Formatter and output *)

Definition newFormatterByConfig (config : viper) : result timezoneFormatter :=
  let timestampFormat := text config LogFormatterTimestampFormat in
  let formatterType := text config LogFormatterTypeKey in
  let located delegate :=
    match LoadLocation (text config LogFormatterTimezoneKey) with
    | Err err => Err err
    | Ok location => Ok (mkTimezoneFormatter delegate location)
    end in
  if decide (formatterType = "text") then located (TextFormatter timestampFormat)
  else if decide (formatterType = "json") then located (JSONFormatter timestampFormat)
  else Err (Errorf "Unexpected formatter type: %v" [formatterType]).

(** The time of the entry, given to the delegate in the time zone, and the text. *)
Definition timezoneFormatter_Format (formatter : timezoneFormatter) (time : Z) (entry : string)
  : Z * result string :=
  let time := Time_In (formatter_timestampLocation formatter) time in
  (time, match formatter_delegate formatter with
         | TextFormatter f => format_text f time entry
         | JSONFormatter f => format_json f time entry
         end).

(** [time.Duration] is an [int64]. *)
Definition seconds (config : viper) (key : string) : Z :=
  Int64 (viper_GetDuration key config * 10 ^ 9).

Definition newOutputByConfig (config : viper) : result Writer :=
  let outputType := text config LogOutputTypeKey in
  if decide (outputType = "file") then
    match LoadLocation (text config LogOutputFileClockTimezoneKey) with
    | Err err => Err err
    | Ok location =>
        let options := mkRotateOptions (text config LogOutputFileFilePatternKey) location
          (text config LogOutputFileCurrentLinkKey)
          (seconds config LogOutputFileRotationTimeInSecKey)
          (seconds config LogOutputFileMaxAgeInSecKey)
          (number config LogOutputFileRotationCountKey mod 2 ^ 64) in
        match rotatelogs_New options with
        | Err err => Err err
        | Ok _ => Ok (RotatedFile options)
        end
    end
  else if decide (outputType = "stdout") then Ok Stdout
  else Err (Errorf "Unexpected output type: %v" [outputType]).

(** ** [initLogger] *)

Definition hook_error (name : string) (err : error) : error :=
  Errorf ("Unable to add log hook " +:+ dquote +:+ "%v" +:+ dquote +:+ ", error: %v")
    [name; Error err].

Fixpoint add_hooks (config : viper) (names : list string) (logger : Logger)
  : result unit * Logger :=
  match names with
  | [] => (Ok tt, logger)
  | name :: names =>
      match addHookByConfig (viper_Sub name config) logger with
      | (Err err, logger) => (Err (hook_error name err), logger)
      | (Ok _, logger) => add_hooks config names logger
      end
  end.

(** [SetDefault] dereferences a section that is nil. *)
Definition initLogger (logger : Logger) (config : viper) : outcome (result unit) * Logger :=
  let levelString := text config LogLevelKey in
  match log_ParseLevel levelString with
  | Err err =>
      (Returned (Err (Errorf "Unable parse log level string: %v, err: %v"
                        [levelString; Error err])), logger)
  | Ok level =>
      let logger := SetLevel level logger in
      let timezone := cast_String (text config LogTimezoneKey) in
      match viper_Sub LogFormatterKey config with
      | None => (Panicked nil_dereference, logger)
      | Some formatterConfig =>
          match newFormatterByConfig
                  (viper_SetDefault LogFormatterTimezoneKey timezone formatterConfig) with
          | Err err =>
              (Returned (Err (Errorf "Unable initialize log formatter, error: %v" [Error err])),
               logger)
          | Ok formatter =>
              let logger := SetFormatter formatter logger in
              match viper_Sub LogOutputKey config with
              | None => (Panicked nil_dereference, logger)
              | Some outputConfig =>
                  match newOutputByConfig
                          (viper_SetDefault LogOutputFileClockTimezoneKey timezone outputConfig)
                  with
                  | Err err =>
                      (Returned (Err (Errorf "Unable initialize log output, error: %v"
                                        [Error err])), logger)
                  | Ok output =>
                      let '(r, logger) :=
                        add_hooks config (viper_GetStringSlice LogHooksKey config)
                          (SetOutput output logger) in
                      (Returned r, logger)
                  end
              end
          end
      end
  end.

(** ** Lemmas *)

(** The hooks of the names before the first that cannot be added are added, each
    with an exit handler. *)
Lemma add_hooks_spec config names logger :
  let '(r, logger') := add_hooks config names logger in
  exists added, logger_hooks logger' = logger_hooks logger ++ added /\
    exit_handlers logger' = (exit_handlers logger + length added)%nat /\
    Forall2 (fun name h => hook_of_config (viper_Sub name config) = Ok h)
      (take (length added) names) added /\
    match r with
    | Ok _ => length added = length names
    | Err err => exists name err', names !! length added = Some name /\
        hook_of_config (viper_Sub name config) = Err err' /\ err = hook_error name err'
    end.
Proof.
  revert logger. induction names as [|name names IH]; intros logger; cbn.
  - exists []. rewrite app_nil_r. repeat split; [simpl; lia|constructor].
  - unfold addHookByConfig. destruct (hook_of_config (viper_Sub name config)) as [h|err] eqn:Hh.
    + specialize (IH (AddHook h logger)). destruct (add_hooks config names _) as [r logger'].
      destruct IH as (added & Ha & He & Hf & Hr). exists (h :: added). cbn in *.
      rewrite Ha, <- app_assoc, He. split; [done|]. split; [lia|]. split; [by constructor|].
      destruct r as [[]|err]; [by f_equal|exact Hr].
    + exists []. rewrite app_nil_r. split; [done|]. split; [simpl; lia|].
      split; [constructor|]. by exists name, err.
Qed.

(** The level, the formatter and the output are those of the configuration once
    the logger is initialised, and all its hooks are added. *)
Lemma initLogger_ok logger config logger' :
  initLogger logger config = (Returned (Ok tt), logger') ->
  ParseLevel (text config LogLevelKey) = Some (logger_level logger') /\
  is_Some (logger_formatter logger') /\ is_Some (logger_output logger') /\
  exists added, logger_hooks logger' = logger_hooks logger ++ added /\
    Forall2 (fun name h => hook_of_config (viper_Sub name config) = Ok h)
      (viper_GetStringSlice LogHooksKey config) added.
Proof.
  unfold initLogger, log_ParseLevel. destruct (ParseLevel _) as [level|]; [|done].
  destruct (viper_Sub LogFormatterKey config) as [fc|]; [|done].
  destruct (newFormatterByConfig _) as [formatter|]; [|done].
  destruct (viper_Sub LogOutputKey config) as [oc|]; [|done].
  destruct (newOutputByConfig _) as [output|]; [|done].
  set (l := SetOutput _ _). pose proof (add_hooks_spec config
    (viper_GetStringSlice LogHooksKey config) l) as Hs.
  assert (forall names l l' r, add_hooks config names l = (r, l') ->
    logger_level l' = logger_level l /\ logger_formatter l' = logger_formatter l /\
    logger_output l' = logger_output l) as Hk.
  { intros names. induction names as [|name names IH]; intros l1 l2 r; cbn; [by intros [= _ <-]|].
    unfold addHookByConfig. destruct (hook_of_config _); [|by intros [= _ <-]].
    intros Ha. by destruct (IH _ _ _ Ha) as (-> & -> & ->). }
  destruct (add_hooks _ _ l) as [r l'] eqn:Ha. intros [= -> ->].
  destruct (Hk _ _ _ _ Ha) as (-> & -> & ->). subst l. cbn. split; [done|]. split; [done|].
  split; [done|]. destruct Hs as (added & Hh & _ & Hf & Hl). exists added. split; [done|].
  by rewrite Hl, take_ge in Hf.
Qed.

(** Durations are exact up to 292 years. *)
Lemma seconds_exact config key :
  - 2 ^ 63 <= viper_GetDuration key config * 10 ^ 9 < 2 ^ 63 ->
  seconds config key = viper_GetDuration key config * 10 ^ 9.
Proof.
  unfold seconds, Int64. generalize (viper_GetDuration key config * 10 ^ 9) as z. intros z Hb.
  rewrite (Z.mod_small (Z.abs z)) by lia.
  destruct (Z.ltb_spec z 0); rewrite Z.mod_small; lia.
Qed.
End logger.
