(* ===== verification/Components.v ===== *)
(** * Construction of the components

    [snetd/cmd/components.go] and the loading of the service metadata in
    [blockchain/serviceMetadata.go]: each component is constructed by the first
    call of its accessor, from the components it needs. The behaviour of the
    constructed payment components is in [World]; here it matters which objects
    there are and which share which. *)
From Stdlib Require Import Ascii.
From S2P Require Import Prelude Prog Bytes Blockchain Config Metrics HttpHandler Settings.
From S2P Require Import EtcdSetup.
Import ServiceMetadata (ServiceMetadata).
Local Open Scope Z_scope.

(** ** Objects *)

(** The fields of [Components]; one that is nil is not among the fields that are
    set. *)
Inductive Field :=
| serviceMetadata | blockchain | etcdClient | etcdServer | atomicStorage
| paymentChannelService | escrowPaymentHandler | grpcInterceptor
| paymentChannelStateService | etcdLockerStorage | providerControlService | daemonHeartbeat.

#[export] Instance Field_eq_dec : EqDecision Field.
Proof. solve_decision. Defined.

Definition field_number (f : Field) : nat :=
  match f with
  | serviceMetadata => 0 | blockchain => 1 | etcdClient => 2 | etcdServer => 3
  | atomicStorage => 4 | paymentChannelService => 5 | escrowPaymentHandler => 6
  | grpcInterceptor => 7 | paymentChannelStateService => 8 | etcdLockerStorage => 9
  | providerControlService => 10 | daemonHeartbeat => 11
  end.

Definition fields : list Field :=
  [serviceMetadata; blockchain; etcdClient; etcdServer; atomicStorage; paymentChannelService;
   escrowPaymentHandler; grpcInterceptor; paymentChannelStateService; etcdLockerStorage;
   providerControlService; daemonHeartbeat].

#[export] Instance Field_countable : Countable Field.
Proof. by apply (inj_countable field_number (fun n => fields !! n)); intros []. Defined.

Abbreviation Components := (gmap Field nat).

Inductive Interceptor :=
| MonitoringInterceptor
| RateLimitInterceptor
| NoOp
| PaymentValidationInterceptor (paymentHandler : nat).

(** What the objects in the fields are made of: other objects, by number, and
    values. *)
Inductive Object :=
| AServiceMetadata (m : ServiceMetadata)
| AProcessor (enabled : bool) (ethClient : option nat)
| AnEtcdClient (client : EtcdClientObject)
| AnEtcdServer (server : EtcdServer)
| AMemoryStorage
| AChannelService (channels payments : nat) (reader : nat * nat) (locker : nat)
    (validator : nat * nat)
| APaymentHandler (service processor : nat) (priceInCogs : option Z)
| AnInterceptorChain (chain : list Interceptor)
| AStateService (service : nat)
| ALockerStorage (storage : nat)
| AControlService (service metadata : nat)
| AHeartbeat (daemonID : string).

(** ** Operations *)

(** [Field f] reads a field; [Construct] assigns a new object to a field and
    [Assign] one there is; [Deref] reads an object, none for a number that is
    no object. The RPC connections of the blockchain are numbers. *)
Inductive StartE : Type -> Type :=
| GetField (f : Field) : StartE (option nat)
| Construct (f : Field) (o : Object) : StartE nat
| Assign (f : Field) (i : nat) : StartE unit
| Deref (i : nat) : StartE (option Object)
| GetNetwork : StartE NetworkSelected
| SetNetwork (n : NetworkSelected) : StartE unit
| SetDaemonGrpId (grpId : string) : StartE unit
| LoadDaemonGrpId : StartE string
| RpcDial (endpoint : string) : StartE (result nat)
| RpcClose (conn : nat) : StartE unit
| NewMultiPartyEscrow (address : Address) (conn : nat) : StartE (result unit)
| NewRegistryCaller (address : Address) (conn : nat) : StartE (result unit)
| GetServiceRegistrationById (conn : nat) (orgId serviceId : bytes32)
  : StartE (result (bool * bytes))
| EtcdSetup {X} (e : EtcdSetupE X) : StartE X
| MetricsEvent {X} (e : MetricsE X) : StartE X.

(** What is outside: IPFS, the files, the parser of the metadata. *)
Class Surroundings := {
  ipfs_Cat : string -> result (result string);
  ipfs_Add : string -> result string;
  ReadFile : string -> result string;
  unmarshal_metadata : string -> result ServiceMetadata }.

Definition BlockchainEnabledKey : string := "blockchain_enabled".
Definition DaemonGroupName : string := "daemon_group_name".

Section components.
Context `{!ViperLibrary, !EtcdLibrary, !GoURL, !GoMetrics, !GoEthereum, !Surroundings}.
Context (vip : viper).

Local Abbreviation conf := (viper_getters vip).

(** ** [blockchain/serviceMetadata.go] and connections of the blockchain *)

(** [GetEthereumClient] and [Close] by the connection. *)
Definition GetEthereumClient_connection : prog StartE (result nat) :=
  let! network := trigger GetNetwork in
  let! r := trigger (RpcDial (EthereumJSONRPCEndpoint network)) in
  match r with
  | Err err => Ret (Err (Wrap err "error creating RPC client"))
  | Ok client => Ret (Ok client)
  end.

Definition EthereumClient_Close (ethereumClient : option nat) : prog StartE unit :=
  match ethereumClient with
  | Some client => trigger (RpcClose client)
  | None => Ret tt
  end.

Definition getRegistryAddressKey : prog StartE Address :=
  let! network := trigger GetNetwork in
  Ret (HexToAddress (GetRegistryAddress network)).

(** The error of [GetEthereumClient] is overwritten before it is looked at. *)
Definition getMetaDataUrifromRegistry : prog StartE bytes :=
  let! r := GetEthereumClient_connection in
  let ethClient := match r with Ok client => Some client | Err _ => None end in
  defer (fun _ => EthereumClient_Close ethClient)
    (let! registryContractAddress := getRegistryAddressKey in
     match ethClient with
     | None => Panic nil_dereference
     | Some client =>
         let! reg := trigger (NewRegistryCaller registryContractAddress client) in
         match reg with
         | Err _ =>
             Panic "Error instantiating Registry contract for the given Contract Address"
         | Ok _ =>
             let! r := trigger (GetServiceRegistrationById client
               (StringToBytes32 (GetString conf OrganizationId))
               (StringToBytes32 (GetString conf ServiceId))) in
             match r with
             | Ok (true, metadataURI) => Ret metadataURI
             | _ => Panic ("Error Retrieving contract details for the Given Organization"
                           +:+ " and Service Ids ")
             end
         end
     end).

Definition InitMetaData (jsonData : string) : result ServiceMetadata :=
  InitServiceMetaDataFromJson unmarshal_metadata (GetString conf DaemonGroupName) jsonData.

Definition GetServiceMetaDataFromIPFS (hash : string) : outcome (result ServiceMetadata) :=
  match GetIpfsFile ipfs_Cat ipfs_Add hash with
  | Panicked msg => Panicked msg
  | Returned jsondata => Returned (InitMetaData jsondata)
  end.

Definition readServiceMetaDataFromLocalFile (filename : string) : result ServiceMetadata :=
  match ReadFile filename with
  | Err err => Err (Wrap err (Sprintf "could not read file: %v" [filename]))
  | Ok strJson =>
      match InitMetaData strJson with
      | Err _ => Err (ErrorString "error reading local file service_metadata.json ")
      | Ok metadata => Ok metadata
      end
  end.

(** [blockchain.ServiceMetaData] *)
Definition ServiceMetaData : prog StartE ServiceMetadata :=
  let! metadata :=
    (if GetBool conf BlockchainEnabledKey then
       let! ipfsHash := getMetaDataUrifromRegistry in
       resume (GetServiceMetaDataFromIPFS (FormatHash (string_of_bytes ipfsHash)))
     else Ret (readServiceMetaDataFromLocalFile "service_metadata.json")) in
  match metadata with
  | Err _ => Panic "error on determining service metadata from file"
  | Ok metadata => Ret metadata
  end.

(** [NewProcessor] by its connection. *)
Definition NewProcessor_connection (metadata : ServiceMetadata)
  : prog StartE (bool * option nat * option error) :=
  let enabled := GetBool conf BlockchainEnabledKey in
  if negb enabled then Ret (enabled, None, None)
  else
    let! ethclients := GetEthereumClient_connection in
    match ethclients with
    | Err err => Ret (enabled, None, Some (Wrap err "error creating RPC client"))
    | Ok client =>
        let! mpe := trigger (NewMultiPartyEscrow (GetMpeAddress metadata) client) in
        match mpe with
        | Err err =>
            Ret (enabled, Some client,
                 Some (Wrap err "error instantiating MultiPartyEscrow contract"))
        | Ok _ => Ret (enabled, Some client, None)
        end
    end.

(** [Processor.Close]: the clients of a processor that is not enabled are nil. *)
Definition Processor_Close (ethClient : option nat) : prog StartE unit :=
  match ethClient with
  | None => Panic nil_dereference
  | Some client => trigger (RpcClose client)
  end.

(** ** Accessors *)

(** [if components.f != nil { return components.f }], and the construction with
    the assignment otherwise. *)
Definition memo (f : Field) (construct : prog StartE nat) : prog StartE nat :=
  let! x := trigger (GetField f) in
  match x with
  | Some i => Ret i
  | None => construct
  end.

Definition metadata_of (i : nat) : prog StartE ServiceMetadata :=
  let! o := trigger (Deref i) in
  match o with
  | Some (AServiceMetadata m) => Ret m
  | _ => Panic nil_dereference
  end.

(** [processor.Enabled()] *)
Definition enabled_of (i : nat) : prog StartE bool :=
  let! o := trigger (Deref i) in
  match o with
  | Some (AProcessor enabled _) => Ret enabled
  | _ => Panic nil_dereference
  end.

Definition Components_ServiceMetaData : prog StartE nat :=
  memo serviceMetadata
    (let! m := ServiceMetaData in
     trigger (Construct serviceMetadata (AServiceMetadata m))).

Definition Components_Blockchain : prog StartE nat :=
  memo blockchain
    (let! i := Components_ServiceMetaData in
     let! metadata := metadata_of i in
     let! processor := NewProcessor_connection metadata in
     match processor with
     | (_, _, Some _) => Panic "unable to initialize blockchain processor"
     | (enabled, ethClient, None) =>
         trigger (Construct blockchain (AProcessor enabled ethClient))
     end).

(** No server when it is disabled. *)
Definition Components_EtcdServer : prog StartE (option nat) :=
  let! x := trigger (GetField etcdServer) in
  match x with
  | Some i => Ret (Some i)
  | None =>
      let! enabled := resume (IsEtcdServerEnabledInVip vip) in
      match enabled with
      | Err _ => Panic "error during etcd config parsing"
      | Ok false => Ret None
      | Ok true =>
          let! server := resume (GetEtcdServerFromVip vip) in
          match server with
          | Err _ => Panic "error during etcd config parsing"
          | Ok None => Panic nil_dereference
          | Ok (Some conf) =>
              let! started := embed (fun X e => EtcdSetup e) (EtcdServer_Start conf) in
              match started with
              | Err _ => Panic "error during etcd server starting"
              | Ok server =>
                  let! i := trigger (Construct etcdServer (AnEtcdServer server)) in
                  Ret (Some i)
              end
          end
      end
  end.

Definition Components_EtcdClient : prog StartE nat :=
  memo etcdClient
    (let! client := embed (fun X e => EtcdSetup e) (NewEtcdClientFromVip vip) in
     match client with
     | Err _ => Panic "unable to create etcd client"
     | Ok client => trigger (Construct etcdClient (AnEtcdClient client))
     end).

Definition Components_AtomicStorage : prog StartE nat :=
  memo atomicStorage
    (if decide (GetString conf PaymentChannelStorageTypeKey = "etcd") then
       let! i := Components_EtcdClient in
       let! _ := trigger (Assign atomicStorage i) in
       Ret i
     else trigger (Construct atomicStorage AMemoryStorage)).

Definition Components_LockerStorage : prog StartE nat :=
  memo etcdLockerStorage
    (let! storage := Components_AtomicStorage in
     trigger (Construct etcdLockerStorage (ALockerStorage storage))).

Definition Components_ChannelService : prog StartE nat :=
  memo paymentChannelService
    (let! channels := Components_AtomicStorage in
     let! payments := Components_AtomicStorage in
     let! reader_processor := Components_Blockchain in
     let! reader_metadata := Components_ServiceMetaData in
     let! locker := Components_AtomicStorage in
     let! validator_processor := Components_Blockchain in
     let! validator_metadata := Components_ServiceMetaData in
     trigger (Construct paymentChannelService
       (AChannelService channels payments (reader_processor, reader_metadata) locker
          (validator_processor, validator_metadata)))).

Definition Components_PaymentHandler : prog StartE nat :=
  memo escrowPaymentHandler
    (let! service := Components_ChannelService in
     let! processor := Components_Blockchain in
     let! i := Components_ServiceMetaData in
     let! metadata := metadata_of i in
     trigger (Construct escrowPaymentHandler
       (APaymentHandler service processor (GetPriceInCogs metadata)))).

Definition Components_PaymentInterceptor : prog StartE Interceptor :=
  let! processor := Components_Blockchain in
  let! enabled := enabled_of processor in
  if negb enabled then Ret NoOp
  else
    let! paymentHandler := Components_PaymentHandler in
    Ret (PaymentValidationInterceptor paymentHandler).

(** [metrics.SetDaemonGrpId(components.ServiceMetaData().GetDaemonGroupIDString())] *)
Definition set_daemon_group : prog StartE unit :=
  let! i := Components_ServiceMetaData in
  let! metadata := metadata_of i in
  trigger (SetDaemonGrpId (GetDaemonGroupIDString metadata)).

Definition metrics_RegisterDaemon (serviceURL : string) : prog StartE bool :=
  let! network := trigger GetNetwork in
  let! grpId := trigger LoadDaemonGrpId in
  embed (fun X e => MetricsEvent e) (RegisterDaemon conf network grpId serviceURL).

(** The daemon registers itself only when the first two conditions hold. *)
Definition Components_GrpcInterceptor : prog StartE nat :=
  memo grpcInterceptor
    (let! _ := set_daemon_group in
     let endpoint := GetString conf MonitoringServiceEndpoint in
     let! monitored :=
       (if GetBool conf MonitoringEnabled && IsValidUrl endpoint
        then metrics_RegisterDaemon (endpoint +:+ "/register")
        else Ret false) in
     let! payment := Components_PaymentInterceptor in
     trigger (Construct grpcInterceptor (AnInterceptorChain
       (if (monitored : bool) then [MonitoringInterceptor; RateLimitInterceptor; payment]
        else [RateLimitInterceptor; payment])))).

Definition Components_StateService : prog StartE nat :=
  memo paymentChannelStateService
    (let! service := Components_ChannelService in
     trigger (Construct paymentChannelStateService (AStateService service))).

Definition Components_ControlService : prog StartE nat :=
  memo providerControlService
    (let! service := Components_ChannelService in
     let! metadata := Components_ServiceMetaData in
     trigger (Construct providerControlService (AControlService service metadata))).

Definition Components_DaemonHeartBeat : prog StartE nat :=
  memo daemonHeartbeat
    (let! _ := set_daemon_group in
     let! network := trigger GetNetwork in
     let! grpId := trigger LoadDaemonGrpId in
     trigger (Construct daemonHeartbeat (AHeartbeat (GetDaemonID conf network grpId)))).

(** ** The end *)

(** [components.f.Close()], when the field is set. *)
Definition close_field (f : Field) (close : Object -> prog StartE unit) : prog StartE unit :=
  let! x := trigger (GetField f) in
  match x with
  | None => Ret tt
  | Some i =>
      let! o := trigger (Deref i) in
      match o with
      | None => Panic nil_dereference
      | Some o => close o
      end
  end.

Definition close_object (o : Object) : prog StartE unit :=
  match o with
  | AnEtcdClient client => embed (fun X e => EtcdSetup e) (EtcdClient_Close client)
  | AnEtcdServer server => embed (fun X e => EtcdSetup e) (EtcdServer_Close server)
  | AProcessor _ ethClient => Processor_Close ethClient
  | _ => Ret tt
  end.

Definition Components_Close : prog StartE unit :=
  let! _ := close_field etcdClient close_object in
  let! _ := close_field etcdServer close_object in
  close_field blockchain close_object.

(** [InitComponents] on the file that the flag names: a panic while it is loaded
    closes the components, none of which are set. *)
Definition InitComponents (exists_ : string -> bool) (configFlag : Flag)
  : prog StartE viper :=
  catch (resume (loadConfigFileFromCommandLine ReadFile exists_ configFlag vip))
    (fun o =>
       match o with
       | Returned vip => Ret vip
       | Panicked _ =>
           let! _ := Components_Close in
           Panic "re-panic after components cleanup"
       end).
End components.
