(* ===== verification/Wiring.v ===== *)
(** * The components of a daemon

    What the accessors of [Components] construct: one object of each type, made
    of the objects in the fields; so all services share one channel service,
    and it and the operator commands share one storage. *)
From S2P Require Import Prelude Prog Bytes Blockchain Config Metrics HttpHandler Settings.
From S2P Require Import EtcdSetup Components.
Import ServiceMetadata (ServiceMetadata).
Local Open Scope Z_scope.

(** ** The state of the process *)

Record Host := mkHost {
  objects : list Object;
  set_fields : Components;
  network : NetworkSelected;
  daemonGroupId : string;
  etcd : EtcdResources;
  rpc : gset nat }.

Definition with_wiring (os : list Object) (fs : Components) (h : Host) : Host :=
  mkHost os fs (network h) (daemonGroupId h) (etcd h) (rpc h).

Definition with_network (n : NetworkSelected) (h : Host) : Host :=
  mkHost (objects h) (set_fields h) n (daemonGroupId h) (etcd h) (rpc h).

Definition with_group (g : string) (h : Host) : Host :=
  mkHost (objects h) (set_fields h) (network h) g (etcd h) (rpc h).

Definition with_etcd (r : EtcdResources) (h : Host) : Host :=
  mkHost (objects h) (set_fields h) (network h) (daemonGroupId h) r (rpc h).

Definition with_rpc (cs : gset nat) (h : Host) : Host :=
  mkHost (objects h) (set_fields h) (network h) (daemonGroupId h) (etcd h) cs.

(** What the operations may do. An endpoint without a text cannot be dialed:
    it names no address and no socket file. *)
Definition start {X} (e : StartE X) (h : Host) : X -> Host -> Prop :=
  match e in StartE X return X -> Host -> Prop with
  | GetField f => fun x h' => x = set_fields h !! f /\ h' = h
  | Construct f o => fun x h' => x = length (objects h) /\
      h' = with_wiring (objects h ++ [o]) (<[f := length (objects h)]> (set_fields h)) h
  | Assign f i => fun _ h' => h' = with_wiring (objects h) (<[f := i]> (set_fields h)) h
  | Deref i => fun x h' => x = objects h !! i /\ h' = h
  | GetNetwork => fun x h' => x = network h /\ h' = h
  | SetNetwork n => fun _ h' => h' = with_network n h
  | SetDaemonGrpId g => fun _ h' => h' = with_group g h
  | LoadDaemonGrpId => fun x h' => x = daemonGroupId h /\ h' = h
  | RpcDial endpoint => fun x h' =>
      (exists err, x = Err err /\ h' = h) \/
      (exists n, x = Ok n /\ endpoint <> EmptyString /\ n ∉ rpc h /\
         h' = with_rpc ({[n]} ∪ rpc h) h)
  | RpcClose n => fun _ h' => h' = with_rpc (rpc h ∖ {[n]}) h
  | NewMultiPartyEscrow _ _ | NewRegistryCaller _ _ | GetServiceRegistrationById _ _ _ =>
      fun _ h' => h' = h
  | EtcdSetup e => fun x h' => exists r, contract e (etcd h) x r /\ h' = with_etcd r h
  | MetricsEvent _ => fun _ h' => h' = h
  end.

#[export] Instance StartE_contract : Contract StartE Host := @start.

(** ** Programs that leave the components alone *)

Definition is_quiet {X} (e : StartE X) : Prop :=
  match e with Construct _ _ | Assign _ _ => False | _ => True end.

Fixpoint quiet {A} (p : prog StartE A) : Prop :=
  match p with
  | Vis e k => is_quiet e /\ forall x, quiet (k x)
  | _ => True
  end.

Definition wiring (h : Host) : list Object * Components := (objects h, set_fields h).

Lemma quiet_step X (e : StartE X) h x h' :
  is_quiet e -> contract e h x h' -> wiring h' = wiring h.
Proof.
  destruct e; simpl; try done; intros _ Hc; hnf in Hc; naive_solver.
Qed.

Lemma wp_quiet {A} (p : prog StartE A) h :
  quiet p -> wp p (fun _ h' => wiring h' = wiring h) h.
Proof.
  revert h. induction p as [a|m|X e k IH]; intros h Hq; [done..|].
  destruct Hq as [He Hk]. intros x h' Hc. apply quiet_step in Hc; [|done].
  eapply wp_mono; [by apply IH|]. intros o h'' Hw. by rewrite Hw.
Qed.

Lemma quiet_bind {A B} (p : prog StartE A) (f : A -> prog StartE B) :
  quiet p -> (forall a, quiet (f a)) -> quiet (bind p f).
Proof. intros Hp Hf. induction p; simpl in *; [done..|]. naive_solver. Qed.

Lemma quiet_catch {A B} (p : prog StartE A) (f : outcome A -> prog StartE B) :
  quiet p -> (forall a, quiet (f a)) -> quiet (catch p f).
Proof. intros Hp Hf. induction p; simpl in *; [done..|]. naive_solver. Qed.

Lemma quiet_trigger {X} (e : StartE X) : is_quiet e -> quiet (trigger e).
Proof. done. Qed.

Lemma quiet_resume {A} (o : outcome A) : quiet (resume (E := StartE) o).
Proof. by destruct o. Qed.

Lemma quiet_embed {E A} (f : forall X, E X -> StartE X) (p : prog E A) :
  (forall X (e : E X), is_quiet (f X e)) -> quiet (embed f p).
Proof. intros Hf. induction p; simpl; auto. Qed.

Create HintDb quiet.
#[export] Hint Resolve quiet_resume : quiet.

(** Follows the program to its operations. *)
Ltac quiet_step :=
  lazymatch goal with
  | |- quiet (bind _ _) => apply quiet_bind; [|intros ?]
  | |- quiet (catch _ _) => apply quiet_catch; [|intros ?]
  | |- quiet (match ?x with _ => _ end) => destruct x
  | |- quiet (Vis _ _) => split; [done|intros ?]
  | |- quiet (trigger _) => exact (conj I (fun _ => I))
  | |- quiet (embed _ _) => apply quiet_embed; intros; exact I
  | |- quiet _ => first [exact I | solve [auto with quiet]]
  end.
Ltac quiet := unfold bind_ok, defer; repeat quiet_step.

(** ** Well-formed components *)

(** The field an object is constructed for. *)
Definition home (o : Object) : Field :=
  match o with
  | AServiceMetadata _ => serviceMetadata
  | AProcessor _ _ => blockchain
  | AnEtcdClient _ => etcdClient
  | AnEtcdServer _ => etcdServer
  | AMemoryStorage => atomicStorage
  | AChannelService _ _ _ _ _ => paymentChannelService
  | APaymentHandler _ _ _ => escrowPaymentHandler
  | AnInterceptorChain _ => grpcInterceptor
  | AStateService _ => paymentChannelStateService
  | ALockerStorage _ => etcdLockerStorage
  | AControlService _ _ => providerControlService
  | AHeartbeat _ => daemonHeartbeat
  end.

(** The types of the fields: a storage is an etcd client or a storage in memory. *)
Definition has_type (f : Field) (o : Object) : Prop :=
  home o = f \/ (f = atomicStorage /\ home o = etcdClient).

(** The objects an object is made of, with the fields they come from. *)
Definition interceptor_parts (i : Interceptor) : list (Field * nat) :=
  match i with
  | PaymentValidationInterceptor handler => [(escrowPaymentHandler, handler)]
  | _ => []
  end.

Definition parts (o : Object) : list (Field * nat) :=
  match o with
  | AChannelService channels payments (rp, rm) locker (vp, vm) =>
      [(atomicStorage, channels); (atomicStorage, payments); (atomicStorage, locker);
       (blockchain, rp); (blockchain, vp); (serviceMetadata, rm); (serviceMetadata, vm)]
  | APaymentHandler service processor _ =>
      [(paymentChannelService, service); (blockchain, processor)]
  | AnInterceptorChain chain => concat (map interceptor_parts chain)
  | AStateService service => [(paymentChannelService, service)]
  | ALockerStorage storage => [(atomicStorage, storage)]
  | AControlService service metadata =>
      [(paymentChannelService, service); (serviceMetadata, metadata)]
  | _ => []
  end.

(** The chains of interceptors: calls are limited, and their payments validated
    if the blockchain is enabled. *)
Definition guards (enabled : bool) (chain : list Interceptor) : Prop :=
  exists p, (chain = [MonitoringInterceptor; RateLimitInterceptor; p] \/
             chain = [RateLimitInterceptor; p]) /\
    if enabled then exists handler, p = PaymentValidationInterceptor handler else p = NoOp.

(** A processor has a connection exactly when it is enabled, and a chain is for
    the processor there is. *)
Definition object_ok (os : list Object) (fs : Components) (o : Object) : Prop :=
  match o with
  | AProcessor enabled ethClient => enabled = bool_decide (is_Some ethClient)
  | AnInterceptorChain chain => exists i enabled c, fs !! blockchain = Some i /\
      os !! i = Some (AProcessor enabled c) /\ guards enabled chain
  | _ => True
  end.

(** Each field has an object of its type; each object is the one of its field,
    and is made of the objects in the fields. *)
Record wired (os : list Object) (fs : Components) : Prop := {
  wired_fields f i : fs !! f = Some i -> exists o, os !! i = Some o /\ has_type f o;
  wired_home i o : os !! i = Some o -> fs !! home o = Some i;
  wired_parts i o f j : os !! i = Some o -> In (f, j) (parts o) -> fs !! f = Some j;
  wired_ok i o : os !! i = Some o -> object_ok os fs o }.

Lemma wired_nil : wired [] ∅.
Proof. by split; intros *; [rewrite lookup_empty|..]. Qed.

Lemma object_ok_grows os os' fs fs' o :
  os `prefix_of` os' -> fs ⊆ fs' -> object_ok os fs o -> object_ok os' fs' o.
Proof.
  intros Ho Hf. destruct o; try done. intros (i & e & c & Hi & Hc & Hg). exists i, e, c.
  split; [by eapply lookup_weaken|]. split; [by eapply prefix_lookup_Some|done].
Qed.

(** A new object of the parts there are, for a field that was not set. *)
Lemma wired_construct os fs o :
  wired os fs -> fs !! home o = None -> object_ok os fs o ->
  (forall f j, In (f, j) (parts o) -> fs !! f = Some j) ->
  wired (os ++ [o]) (<[home o := length os]> fs).
Proof.
  intros [Hf Hh Hp Ho] Hn Hok Hparts.
  pose proof (insert_subseteq fs (home o) (length os) Hn) as Hg.
  assert (forall i o', (os ++ [o]) !! i = Some o' ->
    os !! i = Some o' \/ (i = length os /\ o' = o)) as Hl.
  { intros i o' [?|[Hle Hi]]%lookup_app_Some; [by left|]. right.
    destruct (i - length os)%nat as [|[|]] eqn:?; simpl in Hi; [|done..].
    split; [lia|congruence]. }
  split.
  - intros f i. rewrite lookup_insert. case_decide as Hd.
    + intros [= <-]. exists o. split; [apply list_lookup_middle|left]; done.
    + intros Hi. destruct (Hf f i Hi) as (o' & Ho' & ?). exists o'.
      split; [by apply lookup_app_l_Some|done].
  - intros i o' [Hi|[-> ->]]%Hl; [by eapply lookup_weaken; [apply Hh|]|apply lookup_insert_eq].
  - intros i o' f j [Hi|[-> ->]]%Hl Hin; eapply lookup_weaken; [by eapply Hp|done|auto|done].
  - intros i o' [Hi|[-> ->]]%Hl; (eapply object_ok_grows; [by apply prefix_app_r|done|]); [|done].
    by eapply Ho.
Qed.

(** The etcd client as the storage. *)
Lemma wired_assign os fs i o :
  wired os fs -> fs !! atomicStorage = None -> os !! i = Some o -> home o = etcdClient ->
  wired os (<[atomicStorage := i]> fs).
Proof.
  intros [Hf Hh Hp Ho] Hn Hi Hc. pose proof (insert_subseteq fs atomicStorage i Hn) as Hg.
  split.
  - intros f j. rewrite lookup_insert. case_decide as Hd; [|apply Hf].
    intros [= <-]. exists o. subst f. split; [done|by right].
  - intros j o' Hj. by eapply lookup_weaken; [apply Hh|].
  - intros j o' f k Hj Hin. by eapply lookup_weaken; [eapply Hp|].
  - intros j o' Hj. by eapply object_ok_grows; [done|done|eapply Ho].
Qed.

(** ** What an accessor does

    The order in which the fields depend on each other. *)
Definition rank (f : Field) : nat :=
  match f with
  | serviceMetadata | etcdClient | etcdServer => 0
  | blockchain | atomicStorage | daemonHeartbeat => 1
  | paymentChannelService | etcdLockerStorage => 2
  | escrowPaymentHandler | paymentChannelStateService | providerControlService => 3
  | grpcInterceptor => 4
  end.

(** Nothing is lost, and only fields below a rank are new. *)
Record grows (n : nat) (h h' : Host) : Prop := {
  grows_fields : set_fields h ⊆ set_fields h';
  grows_objects : objects h `prefix_of` objects h';
  grows_below f : (n <= rank f)%nat -> set_fields h !! f = None -> set_fields h' !! f = None }.

Lemma grows_wiring n h h' : wiring h' = wiring h -> grows n h h'.
Proof. intros [= Ho Hf]. split; [by rewrite Hf|by rewrite Ho|by rewrite Hf]. Qed.

Lemma grows_refl n h : grows n h h.
Proof. by apply grows_wiring. Qed.

Lemma grows_trans n h1 h2 h3 : grows n h1 h2 -> grows n h2 h3 -> grows n h1 h3.
Proof.
  intros [F1 O1 B1] [F2 O2 B2]. split; [by etrans|by etrans|]. eauto.
Qed.

Lemma grows_le n m h h' : (n <= m)%nat -> grows n h h' -> grows m h h'.
Proof. intros Hle [F O B]. split; [done..|]. intros f Hf. apply B. lia. Qed.

Lemma grows_set n h h' f i : grows n h h' -> set_fields h !! f = Some i ->
  set_fields h' !! f = Some i.
Proof. intros [F _ _] Hi. by eapply lookup_weaken. Qed.

Definition well (h : Host) : Prop := wired (objects h) (set_fields h).

Lemma well_wiring h h' : wiring h' = wiring h -> well h -> well h'.
Proof. unfold well. by intros [= -> ->]. Qed.

(** A program that keeps the components well-formed, adds fields below a rank,
    and returns what [Q] says. *)
Definition builds {A} (n : nat) (p : prog StartE A) (Q : A -> Host -> Prop) (h : Host) : Prop :=
  wp p (fun o h' => well h' /\ grows n h h' /\ forall a, o = Returned a -> Q a h') h.

Lemma builds_ret {A} n (a : A) (Q : A -> Host -> Prop) h : well h -> Q a h -> builds n (Ret a) Q h.
Proof. intros Hw HQ. split; [done|]. split; [apply grows_refl|by intros ? [= <-]]. Qed.

Lemma builds_mono {A} n (p : prog StartE A) (P Q : A -> Host -> Prop) h :
  builds n p P h -> (forall a h', P a h' -> Q a h') -> builds n p Q h.
Proof.
  intros Hp HPQ. eapply wp_mono; [exact Hp|]. intros o h' (? & ? & HP).
  split; [done|]. split; [done|]. intros a Ha. by apply HPQ, HP.
Qed.

Lemma builds_panic {A} n m (Q : A -> Host -> Prop) h : well h -> builds n (Panic m) Q h.
Proof. intros Hw. split; [done|]. by split; [apply grows_refl|]. Qed.

(** A part that adds fields below [m] only. *)
Lemma builds_bind {A B} m n (p : prog StartE A) (f : A -> prog StartE B) P Q h :
  builds m p P h -> (m <= n)%nat ->
  (forall a h', well h' -> grows m h h' -> P a h' -> builds n (f a) Q h') ->
  builds n (bind p f) Q h.
Proof.
  intros Hp Hle Hf. apply wp_bind. eapply wp_mono; [exact Hp|]. intros [a|e] h' (Hw & Hg & HP).
  - eapply wp_mono; [by apply Hf, HP|]. intros o h'' (? & Hg' & ?).
    split; [done|]. split; [|done]. eapply grows_trans; [|done]. by eapply grows_le; [|done].
  - split; [done|]. split; [|done]. by eapply grows_le; [|done].
Qed.

(** A program that leaves the components alone. *)
Lemma builds_quiet {A} (p : prog StartE A) (P : A -> Prop) h :
  well h -> quiet p -> wp p (fun o _ => forall a, o = Returned a -> P a) h ->
  builds 0 p (fun a _ => P a) h.
Proof.
  intros Hw Hq HP. eapply wp_mono; [apply wp_conj; [by apply wp_quiet|exact HP]|].
  intros o h' [He Ho]. split; [by eapply well_wiring|]. by split; [apply grows_wiring|].
Qed.

Lemma builds_last {A} n (p : prog StartE A) h :
  well h -> quiet p -> builds n p (fun _ _ => True) h.
Proof.
  intros Hw Hq. eapply wp_mono; [by apply wp_quiet|]. intros o h' He.
  split; [by apply (well_wiring h)|]. by split; [apply grows_wiring|].
Qed.

Lemma builds_quiet_bind {A B} n (p : prog StartE A) (f : A -> prog StartE B) Q h :
  well h -> quiet p ->
  (forall a h', well h' -> grows 0 h h' -> builds n (f a) Q h') -> builds n (bind p f) Q h.
Proof.
  intros Hw Hq Hf. eapply (builds_bind 0); [by apply builds_last|lia|eauto].
Qed.

Lemma builds_get {A} n f (k : option nat -> prog StartE A) Q h :
  builds n (k (set_fields h !! f)) Q h -> builds n (bind (trigger (GetField f)) k) Q h.
Proof. by intros Hk x h' [-> ->]. Qed.

Lemma builds_construct n f o h :
  well h -> set_fields h !! f = None -> home o = f -> (rank f < n)%nat ->
  object_ok (objects h) (set_fields h) o ->
  (forall g j, In (g, j) (parts o) -> set_fields h !! g = Some j) ->
  builds n (trigger (Construct f o))
    (fun i h' => set_fields h' !! f = Some i /\ objects h' !! i = Some o) h.
Proof.
  intros Hw Hn <- Hr Hok Hp i h' [-> ->]. cbn.
  split; [by apply wired_construct|].
  split; [|intros a [= <-]; split; [apply lookup_insert_eq|by apply list_lookup_middle]].
  split; cbn; [by apply insert_subseteq|by apply prefix_app_r|].
  intros g Hg. rewrite lookup_insert_ne; [done|]. intros <-. lia.
Qed.

(** An accessor: it returns the object in its field. *)
Definition accessor (f : Field) (p : prog StartE nat) : Prop :=
  forall h, well h -> builds (S (rank f)) p (fun i h' => set_fields h' !! f = Some i) h.

Lemma accessor_memo f p :
  (forall h, well h -> set_fields h !! f = None ->
     builds (S (rank f)) p (fun i h' => set_fields h' !! f = Some i) h) ->
  accessor f (memo f p).
Proof.
  intros Hp h Hw. apply builds_get. destruct (set_fields h !! f) as [i|] eqn:Hi.
  - by apply builds_ret.
  - by apply Hp.
Qed.

(** A field that is not set yet is not set by the accessors below it. *)
Lemma grows_unset n h h' f : grows n h h' -> set_fields h !! f = None -> (n <= rank f)%nat ->
  set_fields h' !! f = None.
Proof. intros [_ _ B] Hn Hle. by apply B. Qed.

(** Carries what is known of the fields over the growth of the components. *)
Ltac grown Hg :=
  repeat match goal with
  | Hs : set_fields ?h !! _ = Some _, Hg : grows _ ?h _ |- _ =>
      apply (grows_set _ _ _ _ _ Hg) in Hs
  | Hs : set_fields ?h !! _ = None, Hg : grows _ ?h _ |- _ =>
      apply (grows_unset _ _ _ _ Hg) in Hs; [|simpl; lia]
  end; clear Hg.

(** The next call of an accessor. *)
Ltac call H :=
  eapply builds_bind; [by apply H|simpl; lia|];
  let i := fresh "i" in let h' := fresh "h" in let Hg := fresh "Hg" in
  let Hi := fresh "Hi" in
  intros i h' ? Hg Hi; cbv beta in Hi; grown Hg.

(** The next part leaves the components alone. *)
Ltac skip :=
  eapply builds_quiet_bind; [done|quiet|];
  let h' := fresh "h" in let Hg := fresh "Hg" in
  intros ? h' ? Hg; grown Hg.

Ltac in_parts :=
  let Hin := fresh "Hin" in
  simpl; intros ? ? Hin;
  repeat (destruct Hin as [Hin|Hin]; [injection Hin as <- <-; assumption|]); destruct Hin.

Ltac construct :=
  eapply builds_mono; [apply builds_construct|];
  [done|done|done|simpl; lia|try done|try in_parts|by intros ? ? [? _]].

Section accessors.
Context `{!ViperLibrary, !EtcdLibrary, !GoURL, !GoMetrics, !GoEthereum, !Surroundings}.
Context (vip : viper).

Lemma quiet_GetEthereumClient : quiet GetEthereumClient_connection.
Proof. unfold GetEthereumClient_connection. quiet. Qed.
Hint Resolve quiet_GetEthereumClient : quiet.

Lemma quiet_ServiceMetaData : quiet (ServiceMetaData vip).
Proof.
  unfold ServiceMetaData, getMetaDataUrifromRegistry, EthereumClient_Close, getRegistryAddressKey.
  quiet.
Qed.

Lemma quiet_NewProcessor m : quiet (NewProcessor_connection vip m).
Proof. unfold NewProcessor_connection. quiet. Qed.

Lemma quiet_metadata_of i : quiet (metadata_of i).
Proof. unfold metadata_of. quiet. Qed.

Lemma quiet_enabled_of i : quiet (enabled_of i).
Proof. unfold enabled_of. quiet. Qed.

Lemma quiet_Register url : quiet (metrics_RegisterDaemon vip url).
Proof. unfold metrics_RegisterDaemon. quiet. Qed.
Hint Resolve quiet_ServiceMetaData quiet_NewProcessor quiet_metadata_of quiet_enabled_of
  quiet_Register : quiet.

Lemma accessor_ServiceMetaData : accessor serviceMetadata (Components_ServiceMetaData vip).
Proof. apply accessor_memo. intros h Hw Hn. skip. construct. Qed.

(** The processor of [NewProcessor] has a connection exactly when it is enabled. *)
Lemma NewProcessor_connection_ok m h : well h ->
  builds 0 (NewProcessor_connection vip m) (fun x _ =>
    x.2 = None -> x.1.1 = GetBool (viper_getters vip) BlockchainEnabledKey /\
      x.1.1 = bool_decide (is_Some x.1.2)) h.
Proof.
  intros Hw. apply builds_quiet; [done|auto with quiet|].
  unfold NewProcessor_connection. destruct (GetBool _ _); [|by intros ? [= <-]].
  intros n h1 [-> ->] x h2 Hx. destruct x as [c|]; [|by intros ? [= <-]]. cbn.
  by intros [[]|err] h'' _ ? [= <-].
Qed.

(** The first call makes the processor the setting asks for. *)
Lemma first_Blockchain h : well h -> set_fields h !! blockchain = None ->
  builds (S (rank blockchain)) (Components_Blockchain vip) (fun i h' =>
    set_fields h' !! blockchain = Some i /\ exists c, objects h' !! i
      = Some (AProcessor (GetBool (viper_getters vip) BlockchainEnabledKey) c)) h.
Proof.
  intros Hw Hn. apply builds_get. rewrite Hn. call accessor_ServiceMetaData. skip.
  eapply builds_bind; [by apply NewProcessor_connection_ok|lia|].
  intros [[enabled c] [err|]] h' Hw' Hg Hok; [by apply builds_panic|].
  grown Hg. destruct (Hok eq_refl) as [He Hc]. simpl in He, Hc.
  eapply builds_mono; [apply builds_construct; [done|done|done|simpl; lia|done|in_parts]|].
  intros j h2 [Hj Ho]. split; [done|]. exists c. by rewrite <- He.
Qed.

Lemma accessor_Blockchain : accessor blockchain (Components_Blockchain vip).
Proof.
  intros h Hw. destruct (set_fields h !! blockchain) as [i|] eqn:Hn.
  - apply builds_get. rewrite Hn. by apply builds_ret.
  - eapply builds_mono; [by apply first_Blockchain|by intros i h' [? _]].
Qed.

Lemma accessor_EtcdClient : accessor etcdClient (Components_EtcdClient vip).
Proof.
  apply accessor_memo. intros h Hw Hn. skip. destruct a as [client|err]; [|by apply builds_panic].
  construct.
Qed.

Lemma builds_EtcdServer h : well h ->
  builds (S (rank etcdServer)) (Components_EtcdServer vip)
    (fun x h' => set_fields h' !! etcdServer = x) h.
Proof.
  intros Hw. unfold Components_EtcdServer. apply builds_get.
  destruct (set_fields h !! etcdServer) as [i|] eqn:Hn; [by apply builds_ret|].
  skip. destruct a as [[]|err]; [|by apply builds_ret|by apply builds_panic].
  skip. destruct a as [[conf|]|err]; [|by apply builds_panic..].
  skip. destruct a as [server|err]; [|by apply builds_panic].
  eapply (builds_bind 1); [apply builds_construct; [done..|simpl; lia|done|in_parts]|simpl; lia|].
  intros i h' Hw' _ [Hi _]. by apply builds_ret.
Qed.

Lemma accessor_AtomicStorage : accessor atomicStorage (Components_AtomicStorage vip).
Proof.
  apply accessor_memo. intros h Hw Hn. case_decide; [|construct].
  eapply builds_bind; [by apply accessor_EtcdClient|simpl; lia|].
  intros i h1 Hw1 Hg Hi. grown Hg. intros x h2 ->. cbn.
  destruct (wired_fields _ _ Hw1 _ _ Hi) as (o & Ho & [Hh|[? _]]); [|done].
  split; [by eapply wired_assign|]. split.
  - split; [by apply insert_subseteq|done|]. cbn. intros f Hf.
    rewrite lookup_insert_ne; [done|]. intros <-. simpl in Hf. lia.
  - intros a [= <-]. apply lookup_insert_eq.
Qed.

Lemma accessor_LockerStorage : accessor etcdLockerStorage (Components_LockerStorage vip).
Proof. apply accessor_memo. intros h Hw Hn. call accessor_AtomicStorage. construct. Qed.

Lemma accessor_ChannelService : accessor paymentChannelService (Components_ChannelService vip).
Proof.
  apply accessor_memo. intros h Hw Hn. do 2 call accessor_AtomicStorage.
  call accessor_Blockchain. call accessor_ServiceMetaData. call accessor_AtomicStorage.
  call accessor_Blockchain. call accessor_ServiceMetaData. construct.
Qed.

Lemma accessor_PaymentHandler : accessor escrowPaymentHandler (Components_PaymentHandler vip).
Proof.
  apply accessor_memo. intros h Hw Hn. call accessor_ChannelService. call accessor_Blockchain.
  call accessor_ServiceMetaData. skip. construct.
Qed.

(** The processor that is enabled or not. *)
Lemma builds_enabled_of i h : well h -> set_fields h !! blockchain = Some i ->
  builds 0 (enabled_of i) (fun e _ => exists c, objects h !! i = Some (AProcessor e c)) h.
Proof.
  intros Hw Hi x h' [-> ->]. destruct (wired_fields _ _ Hw _ _ Hi) as (o & Ho & [Hh|[? _]]); [|done].
  rewrite Ho. destruct o; try done. apply builds_ret; [done|]. by exists ethClient.
Qed.

Lemma builds_PaymentInterceptor h : well h ->
  builds (S (rank escrowPaymentHandler)) (Components_PaymentInterceptor vip)
    (fun x h' => (forall f j, In (f, j) (interceptor_parts x) -> set_fields h' !! f = Some j) /\
       exists i enabled c, set_fields h' !! blockchain = Some i /\
         objects h' !! i = Some (AProcessor enabled c) /\
         guards enabled [RateLimitInterceptor; x] /\
         guards enabled [MonitoringInterceptor; RateLimitInterceptor; x]) h.
Proof.
  intros Hw. unfold Components_PaymentInterceptor. call accessor_Blockchain.
  eapply (builds_bind 0); [by apply builds_enabled_of|simpl; lia|].
  intros e h' Hw' Hg (c & Hc). assert (objects h' !! i = Some (AProcessor e c)) as Ho.
  { eapply prefix_lookup_Some; [done|apply Hg]. }
  grown Hg. destruct e; cbn [negb].
  - eapply builds_bind; [by apply accessor_PaymentHandler|simpl; lia|].
    intros j h2 Hw2 Hg Hj. assert (objects h2 !! i = Some (AProcessor true c)) as Ho2.
    { eapply prefix_lookup_Some; [done|apply Hg]. }
    grown Hg. apply builds_ret; [done|]. split; [in_parts|]. exists i, true, c.
    do 2 (split; [done|]). split; eexists; (split; [by auto|by eexists]).
  - apply builds_ret; [done|]. split; [done|]. exists i, false, c.
    do 2 (split; [done|]). by split; eexists; (split; [by auto|]).
Qed.

Lemma builds_daemon_group h : well h -> builds 1 (set_daemon_group vip) (fun _ _ => True) h.
Proof.
  intros Hw. unfold set_daemon_group. call accessor_ServiceMetaData. skip.
  by apply builds_last; [|split].
Qed.

Lemma accessor_GrpcInterceptor : accessor grpcInterceptor (Components_GrpcInterceptor vip).
Proof.
  apply accessor_memo. intros h Hw Hn. call builds_daemon_group. skip.
  eapply builds_bind; [by apply builds_PaymentInterceptor|simpl; lia|].
  intros x h' Hw' Hg (Hx & j & e & c & Hj & Hc & G1 & G2). grown Hg. construct.
  - exists j, e, c. by destruct a.
  - intros f k Hin. apply Hx. destruct a; simpl in Hin; by rewrite app_nil_r in Hin.
Qed.

Lemma accessor_StateService : accessor paymentChannelStateService (Components_StateService vip).
Proof. apply accessor_memo. intros h Hw Hn. call accessor_ChannelService. construct. Qed.

Lemma accessor_ControlService : accessor providerControlService (Components_ControlService vip).
Proof.
  apply accessor_memo. intros h Hw Hn. call accessor_ChannelService.
  call accessor_ServiceMetaData. construct.
Qed.

Lemma accessor_DaemonHeartBeat : accessor daemonHeartbeat (Components_DaemonHeartBeat vip).
Proof.
  apply accessor_memo. intros h Hw Hn. call builds_daemon_group. do 2 skip. construct.
Qed.
End accessors.

(** ** Sequences of calls *)

(** The accessor of a field, with the object it returns if any. *)
Definition accessor_of `{!ViperLibrary, !EtcdLibrary, !GoURL, !GoMetrics, !GoEthereum,
    !Surroundings} (vip : viper) (f : Field) : prog StartE (option nat) :=
  let some (p : prog StartE nat) := let! i := p in Ret (Some i) in
  match f with
  | serviceMetadata => some (Components_ServiceMetaData vip)
  | blockchain => some (Components_Blockchain vip)
  | etcdClient => some (Components_EtcdClient vip)
  | etcdServer => Components_EtcdServer vip
  | atomicStorage => some (Components_AtomicStorage vip)
  | paymentChannelService => some (Components_ChannelService vip)
  | escrowPaymentHandler => some (Components_PaymentHandler vip)
  | grpcInterceptor => some (Components_GrpcInterceptor vip)
  | paymentChannelStateService => some (Components_StateService vip)
  | etcdLockerStorage => some (Components_LockerStorage vip)
  | providerControlService => some (Components_ControlService vip)
  | daemonHeartbeat => some (Components_DaemonHeartBeat vip)
  end.

(** Calls of accessors, one after another; whoever called one that panicked may
    go on. *)
Fixpoint calls `{!ViperLibrary, !EtcdLibrary, !GoURL, !GoMetrics, !GoEthereum, !Surroundings}
    (vip : viper) (l : list Field) : prog StartE unit :=
  match l with
  | [] => Ret tt
  | f :: l => catch (accessor_of vip f) (fun _ => calls vip l)
  end.

(** A process that has constructed nothing. *)
Definition fresh (h : Host) : Prop := objects h = [] /\ set_fields h = ∅.

Lemma fresh_well h : fresh h -> well h.
Proof. unfold well. intros [-> ->]. apply wired_nil. Qed.

Section calls.
Context `{!ViperLibrary, !EtcdLibrary, !GoURL, !GoMetrics, !GoEthereum, !Surroundings}.
Context (vip : viper).

Lemma accessor_some f p h : accessor f p -> well h ->
  builds (S (rank f)) (let! i := p in Ret (Some i))
    (fun x h' => set_fields h' !! f = x) h.
Proof.
  intros Ha Hw. eapply builds_bind; [by apply Ha|lia|]. intros i h' ? _ Hi. by apply builds_ret.
Qed.

Lemma accessor_of_builds f h : well h ->
  builds (S (rank f)) (accessor_of vip f) (fun x h' => set_fields h' !! f = x) h.
Proof.
  intros Hw. destruct f; cbn [accessor_of];
    try (apply accessor_some; [|done]); [..|by apply builds_EtcdServer| | | | | | | |];
    eauto using accessor_ServiceMetaData, accessor_Blockchain, accessor_EtcdClient,
      accessor_AtomicStorage, accessor_ChannelService, accessor_PaymentHandler,
      accessor_GrpcInterceptor, accessor_StateService, accessor_LockerStorage,
      accessor_ControlService, accessor_DaemonHeartBeat.
Qed.

Lemma calls_grow l h : well h ->
  wp (calls vip l) (fun _ h' => well h' /\ set_fields h ⊆ set_fields h' /\
    objects h `prefix_of` objects h') h.
Proof.
  revert h. induction l as [|f l IH]; intros h Hw; [done|]. apply wp_catch.
  eapply wp_mono; [by apply (accessor_of_builds f)|]. intros o h' (Hw' & [Hf Ho _] & _).
  eapply wp_mono; [by apply IH|]. intros o' h'' (? & ? & ?). split; [done|]. split; by etrans.
Qed.

(** An accessor whose field is set returns it at once. *)
Lemma accessor_of_set f i h : set_fields h !! f = Some i ->
  wp (accessor_of vip f) (fun o h' => o = Returned (Some i) /\ h' = h) h.
Proof.
  intros Hi. destruct f; cbn [accessor_of]; intros x h' [-> ->]; by rewrite Hi.
Qed.
End calls.

Section wiring_theorems.
Context `{!ViperLibrary, !EtcdLibrary, !GoURL, !GoMetrics, !GoEthereum, !Surroundings}.
Context (vip : viper).

(** C28: Whatever accessors are called, in whatever order and with whatever panics,
    every field that is set has an object of its type; an accessor that returns
    an object returns the one in its field, and returns the same object, without
    any operation, at every later call. *)
Theorem accessors_are_well_typed (l1 l2 : list Field) (f : Field) (h : Host) :
  fresh h ->
  wp (calls vip l1)
    (fun _ h1 => wp (accessor_of vip f)
       (fun o h2 => forall i, o = Returned (Some i) ->
          (exists x, objects h2 !! i = Some x /\ has_type f x) /\
          wp (calls vip l2)
            (fun _ h3 => wp (accessor_of vip f)
               (fun o' h4 => o' = Returned (Some i) /\ h4 = h3) h3) h2) h1) h.
Proof.
  intros Hh. eapply wp_mono; [by apply calls_grow, fresh_well|]. intros _ h1 (Hw1 & _).
  eapply wp_mono; [by apply (accessor_of_builds vip f)|]. intros o h2 (Hw2 & _ & Ho) i Hi.
  apply Ho in Hi. split; [by apply (wired_fields _ _ Hw2)|].
  eapply wp_mono; [by apply calls_grow|]. intros _ h3 (_ & Hf & _).
  apply accessor_of_set. by eapply lookup_weaken.
Qed.

(** C29: Whatever accessors are called, there is at most one object of each type.
    The payment handler, the state service and the control service use the same
    channel service; its channel storage, its claim storage, its locker and the
    locker storage of the operator's command are over the same storage, and its
    reader and validator share one processor and the metadata. *)
Theorem services_share_their_parts (l : list Field) (h : Host) :
  fresh h ->
  wp (calls vip l)
    (fun _ h =>
       (forall i j x y, objects h !! i = Some x -> objects h !! j = Some y ->
          home x = home y -> i = j) /\
       (forall i j k s1 s2 s3 p price m,
          objects h !! i = Some (APaymentHandler s1 p price) ->
          objects h !! j = Some (AStateService s2) ->
          objects h !! k = Some (AControlService s3 m) -> s1 = s2 /\ s2 = s3) /\
       (forall i j channels payments rp rm locker vp vm storage,
          objects h !! i = Some (AChannelService channels payments (rp, rm) locker (vp, vm)) ->
          objects h !! j = Some (ALockerStorage storage) ->
          channels = payments /\ payments = locker /\ locker = storage /\ rp = vp /\ rm = vm)) h.
Proof.
  intros Hh. eapply wp_mono; [by apply calls_grow, fresh_well|]. intros _ h' (Hw & _).
  clear h Hh. split; [|split].
  - intros i j x y Hx Hy He. apply (wired_home _ _ Hw) in Hx, Hy. congruence.
  - intros i j k s1 s2 s3 p price m Hh Hs Hc.
    pose proof (wired_parts _ _ Hw _ _ paymentChannelService s1 Hh ltac:(by left)).
    pose proof (wired_parts _ _ Hw _ _ paymentChannelService s2 Hs ltac:(by left)).
    pose proof (wired_parts _ _ Hw _ _ paymentChannelService s3 Hc ltac:(by left)).
    split; congruence.
  - intros i j channels payments rp rm locker vp vm storage Hs Hl.
    pose proof (fun f n => wired_parts _ _ Hw _ _ f n Hs) as P. simpl in P.
    pose proof (P atomicStorage channels ltac:(tauto)).
    pose proof (P atomicStorage payments ltac:(tauto)).
    pose proof (P atomicStorage locker ltac:(tauto)).
    pose proof (P blockchain rp ltac:(tauto)). pose proof (P blockchain vp ltac:(tauto)).
    pose proof (P serviceMetadata rm ltac:(tauto)).
    pose proof (P serviceMetadata vm ltac:(tauto)).
    pose proof (wired_parts _ _ Hw _ _ atomicStorage storage Hl ltac:(by left)).
    repeat split; congruence.
Qed.
End wiring_theorems.
