(* ===== verification/Serve.v ===== *)
(** * The daemon's process

    [snetd/cmd/serve.go], and [RunAndCleanup] of [snetd/cmd/flags.go]: the checks
    and listeners of a daemon, what it serves, and its end. *)
From Stdlib Require Import Ascii.
From S2P Require Import Prelude Prog Bytes Blockchain Config Metrics Forwarding HttpHandler.
From S2P Require Import Settings EtcdSetup Components Wiring.
Import ServiceMetadata (ServiceMetadata).
Local Open Scope Z_scope.

Definition AutoSSLDomainKey : string := "auto_ssl_domain".
Definition AutoSSLCacheDirKey : string := "auto_ssl_cache_dir".
Definition SSLKeyPath : string := SSLKeyPathKey.
Definition LogKey : string := "log".

(** ** Operations

    Listeners, certificates and gRPC servers are numbers. *)

(** The certificates of a TLS listener: obtained for a domain and kept in a
    directory, or a pair of files. *)
Inductive TlsConfig :=
| AutoCert (domain cacheDir : string)
| KeyPair (cert : nat).

(** A TCP listener, with TLS if any. *)
Record Listener := mkListener { listener_tcp : nat; listener_tls : option TlsConfig }.

(** What the [go] statements serve: the challenges of a certificate authority,
    gRPC and HTTP on one listener, HTTP alone. *)
Inductive ServeTask `{!RateLibrary} :=
| ServeAcme (lis : nat) (config : TlsConfig)
| ServeGrpc (server : nat) (lis : Listener)
| ServeHttp1 (server metadata : nat) (lis : Listener)
| ServeMux (lis : Listener)
| ServeHttp (lis : Listener) (handler : httpHandler).

(** [Exit] ends the process at once: no deferred call runs. *)
Inductive ServeE `{!RateLibrary, !ViperLibrary} : Type -> Type :=
| StartEvent {X} (e : StartE X) : ServeE X
| NetListen (address : string) : ServeE (result nat)
| CloseListener (lis : nat) : ServeE unit
| LoadX509KeyPair (certPath keyPath : string) : ServeE (result nat)
| NewServer (unknown : option StreamHandler) (interceptor : nat) (maxRecvMsgSize : Z)
  : ServeE nat
| RegisterService (server : nat) (name : string) (service : nat) : ServeE unit
| GoServe (task : ServeTask) : ServeE unit
| GracefulStop (server : nat) : ServeE unit
| InitLogger (config : option viper) : ServeE (result unit)
| AwaitSignal : ServeE unit
| Exit (msg : string) : ServeE Empty_set.

(** The host of a URL, and whether a gRPC connection to a host can be made. *)
Class GrpcLibrary := {
  url_Host : string -> result string;
  grpc_Dial : string -> result unit }.

Section serve.
Context `{!ViperLibrary, !EtcdLibrary, !GoURL, !GoJSON, !GoMetrics, !GoEthereum}.
Context `{!Surroundings, !RateLibrary, !GrpcLibrary}.
(** The values set when the program is built. *)
Context (networkIdNameMapping registryAddressJson : string).

Definition components {A} (p : prog StartE A) : prog ServeE A :=
  embed (fun X e => StartEvent e) p.

Definition log_Fatal {A} (msg : string) : prog ServeE A :=
  Vis (Exit msg) (fun x : Empty_set => match x with end).

(** ** [newDaemon] *)

Record daemon := mkDaemon {
  autoSSLDomain : string;
  acmeListener : option nat;
  grpcServer : option nat;
  blockProc : nat;
  lis : Listener;
  sslCert : option nat }.

(** [config.Validate] sets the package variable of the network. *)
Definition config_Validate (vip : viper) : prog StartE (result unit) :=
  let! n := trigger GetNetwork in
  let '(r, n') := Config.Validate (viper_getters vip) networkIdNameMapping registryAddressJson
                    ReadFile n in
  let! _ := trigger (SetNetwork n') in
  resume r.

Definition wrong_end_point (vip : viper) : string :=
  "Expected format of daemon_end_point is <host>:<port>.Error binding to the endpoint:"
  +:+ GetString (viper_getters vip) DaemonEndPoint.

Definition newDaemon (vip : viper) : prog ServeE (result daemon) :=
  let conf := viper_getters vip in
  try! _ := components (config_Validate vip) in
  try! _ := Ret (ValidateHeartbeatConfig conf).1 in
  try! _ := Ret (ValidateNotificationConfig conf).1 in
  let! tcp := trigger (NetListen (GetString conf DaemonEndPoint)) in
  match tcp with
  | Err err => Ret (Err (Wrap err (wrong_end_point vip)))
  | Ok tcp =>
      let domain := GetString conf AutoSSLDomainKey in
      let! acme :=
        (if decide (domain = EmptyString) then Ret (Ok None)
         else
           let! acme := trigger (NetListen ":80") in
           Ret (result_map Some acme)) in
      match acme with
      | Err err => Ret (Err (Wrap err "unable to bind port 80 for automatic SSL verification"))
      | Ok acme =>
          let! processor := components (Components_Blockchain vip) in
          let d cert := mkDaemon domain acme None processor (mkListener tcp None) cert in
          let sslKey := GetString conf SSLKeyPathKey in
          if decide (sslKey = EmptyString) then Ret (Ok (d None))
          else
            let! cert := trigger (LoadX509KeyPair (GetString conf SSLCertPathKey) sslKey) in
            match cert with
            | Err err => Ret (Err (Wrap err "unable to load specifiec SSL X509 keypair"))
            | Ok cert => Ret (Ok (d (Some cert)))
            end
      end
  end.

(** ** [daemon.start] *)

Definition tls_config (vip : viper) (d : daemon) : option TlsConfig :=
  if decide (autoSSLDomain d = EmptyString) then KeyPair <$> sslCert d
  else Some (AutoCert (autoSSLDomain d) (GetString (viper_getters vip) AutoSSLCacheDirKey)).

(** The listener of the challenges is served with automatic certificates only. *)
Definition serve_acme (vip : viper) (d : daemon) : prog ServeE unit :=
  match acmeListener d, tls_config vip d with
  | Some acme, Some (AutoCert _ _ as config) => trigger (GoServe (ServeAcme acme config))
  | _, _ => Ret tt
  end.

(** The services of a gRPC server, and what is served on its listener. *)
Definition serve_grpc (vip : viper) (server metadata : nat) (lis : Listener)
  : prog ServeE unit :=
  let! state := components (Components_StateService vip) in
  let! _ := trigger (RegisterService server "escrow.PaymentChannelStateService" state) in
  let! control := components (Components_ControlService vip) in
  let! _ := trigger (RegisterService server "escrow.ProviderControlService" control) in
  let! heartbeat := components (Components_DaemonHeartBeat vip) in
  let! _ := trigger (RegisterService server "grpc.health.v1.Health" heartbeat) in
  let! _ := trigger (GoServe (ServeGrpc server lis)) in
  let! _ := trigger (GoServe (ServeHttp1 server metadata lis)) in
  trigger (GoServe (ServeMux lis)).

Definition new_grpc_server (vip : viper) (metadata : nat) : prog ServeE nat :=
  let conf := viper_getters vip in
  let! m := components (metadata_of metadata) in
  let! handler := resume (NewGrpcHandler conf url_Host grpc_Dial m) in
  let! interceptor := components (Components_GrpcInterceptor vip) in
  trigger (NewServer handler interceptor (GetInt conf MaxMessageSizeInMB * 1024 * 1024)).

Definition daemon_start (vip : viper) (d : daemon) : prog ServeE daemon :=
  let conf := viper_getters vip in
  let! _ := serve_acme vip d in
  let lis := mkListener (listener_tcp (lis d)) (tls_config vip d) in
  let started server := mkDaemon (autoSSLDomain d) (acmeListener d) server (blockProc d) lis
                          (sslCert d) in
  if decide (GetString conf DaemonTypeKey = "grpc") then
    let! metadata := components (Components_ServiceMetaData vip) in
    let! server := new_grpc_server vip metadata in
    let! _ := serve_grpc vip server metadata lis in
    Ret (started (Some server))
  else
    let! _ := trigger (GoServe (ServeHttp lis (NewHTTPHandler conf))) in
    Ret (started None).

(** ** [daemon.stop] *)

Definition daemon_stop (d : daemon) : prog ServeE unit :=
  let! _ := match grpcServer d with
            | Some server => trigger (GracefulStop server)
            | None => Ret tt
            end in
  let! _ := trigger (CloseListener (listener_tcp (lis d))) in
  match acmeListener d with
  | Some acme => trigger (CloseListener acme)
  | None => Ret tt
  end.

(** ** [ServeCmd] *)

Definition serve (vip : viper) : prog ServeE unit :=
  let! _ := components (Components_EtcdServer vip) in
  let! r := trigger (InitLogger (SubWithDefault vip LogKey)) in
  match r with
  | Err _ => log_Fatal "Unable to initialize logger"
  | Ok _ =>
      let! d := newDaemon vip in
      match d with
      | Err _ => log_Fatal "Unable to initialize daemon"
      | Ok d =>
          let! d := daemon_start vip d in
          defer (fun _ => daemon_stop d) (trigger AwaitSignal)
      end
  end.

Definition ServeCmd_Run (exists_ : string -> bool) (configFlag : Flag) (vip : viper)
  : prog ServeE unit :=
  let! vip := components (InitComponents vip exists_ configFlag) in
  defer (fun _ => components Components_Close) (serve vip).

(** ** [RunAndCleanup]: the other commands *)

(** [start] is what the operations of the components are among those of the
    command. *)
Definition RunAndCleanup {F C A} (start : forall X, StartE X -> F X)
    (exists_ : string -> bool) (configFlag : Flag) (vip : viper)
    (constructor : viper -> prog F (result C)) (run : C -> prog F (result A))
  : prog F (result A) :=
  let! vip := embed start (InitComponents vip exists_ configFlag) in
  defer (fun _ => embed start Components_Close)
    (try! command := constructor vip in run command).

(** The constructor of the commands that list channels and claims. *)
Definition newListCommand (vip : viper) : prog StartE (result nat) :=
  let! service := Components_ChannelService vip in Ret (Ok service).

(** The constructor of the command that unlocks a channel. *)
Definition newChannelCommand (channelId : result Z) (vip : viper)
  : prog StartE (result (nat * Z)) :=
  match channelId with
  | Err err => Ret (Err err)
  | Ok channelId =>
      let! storage := Components_LockerStorage vip in Ret (Ok (storage, channelId))
  end.
End serve.

(** ** HTTP requests of a gRPC daemon

    What the handler of the requests that are not gRPC does, by the path:
    the second part of the path is used without a test that there is one. *)
Inductive HttpRoute := GrpcWebRoute | EncodingRoute | HeartbeatRoute | NotFoundRoute.

Definition serve_http (isGrpcWeb : bool) (path : string) : outcome HttpRoute :=
  if isGrpcWeb then Returned GrpcWebRoute
  else
    match Split "/" path !! 1%nat with
    | None => Panicked "runtime error: index out of range"
    | Some part =>
        if decide (part = "encoding") then Returned EncodingRoute
        else if decide (part = "heartbeat") then Returned HeartbeatRoute
        else Returned NotFoundRoute
    end.

(** A path without a slash (of a [CONNECT] request, or of a request for a URL
    without a path) panics. *)
Lemma serve_http_panics path :
  (exists msg, serve_http false path = Panicked msg) <-> string_in "/" path = false.
Proof.
  unfold serve_http. split.
  - intros [msg Hp]. destruct (Split "/" path !! 1%nat) as [part|] eqn:Hs; [by split_matches|].
    clear Hp. destruct (string_in "/" path) eqn:Hin; [exfalso|done].
    revert Hs Hin. induction path as [|c path IH]; [done|]. cbn.
    pose proof (Split_length "/" path) as Hl. destruct (decide (c = "/"%char)) as [->|Hc].
    + cbn. by destruct (Split "/" path); [simpl in Hl; lia|].
    + case_bool_decide; [congruence|]. cbn [orb].
      by destruct (Split "/" path); [simpl in Hl; lia|].
  - intros Hs. rewrite (Split_plain _ _ Hs). by eexists.
Qed.
