(* ===== verification/CommandLine.v ===== *)
(** * The command line

    [snetd/main.go], [snetd/cmd/flags.go], [snetd/cmd/version_details.go], the
    commands of the other files of [snetd/cmd] as cobra sees them, and the parts
    of [config] that print what the program runs with. *)
From Stdlib Require Import Ascii.
From stdpp Require Import sorting.
From S2P Require Import Prelude Prog Bytes Config Metrics Forwarding Settings EtcdSetup.
From S2P Require Import Components Serve Commands.
Local Open Scope Z_scope.

(** ** Commands *)

(** The functions of [Run] and [RunE]. *)
Inductive Action :=
| Run_Root | Run_Init | Run_Serve | Run_Channel | Run_Version
| Run_ListChannels | Run_ListClaims.

(** A flag with its default value, printed. *)
Record FlagDefinition := mkFlagDefinition {
  flag_name : string;
  flag_shorthand : string;
  flag_default : string;
  flag_usage : string }.

(** A [cobra.Command]: commands are pointers, so that a command has all the
    subcommands that are ever added to it. *)
Inductive Command := mkCommand {
  Use : string;
  Short : string;
  Long : string;
  Run : option Action;
  Flags : list FlagDefinition;
  PersistentFlags : list FlagDefinition;
  Commands : list Command }.

Definition InitCmd : Command := mkCommand "init" "Write default configuration to file"
  ("Use this command to create default configuration file."
   +:+ " Then update the file with your settings.") (Some Run_Init) [] [] [].

Definition ListChannelsCmd : Command := mkCommand "channels" "List payment channels"
  ("List payment channels for which at least on payment was received."
   +:+ " User can use 'snetd claim --channel-id' command to claim funds from channel.")
  (Some Run_ListChannels) [] [] [].

Definition ListClaimsCmd : Command := mkCommand "claims"
  "List payments which are not written to blockchain yet"
  "List payments which are in progress state and not written to the blockchain."
  (Some Run_ListClaims) [] [] [].

Definition VersionCmd : Command := mkCommand "version" "List the current version of the Daemon."
  ("To check the current version of the Daemon, the sha1 revision and the time the Binary"
   +:+ " was built User can use `snetd version`") (Some Run_Version) [] [] [].

(** [ListCmd] has no function: it has subcommands only. *)
Definition ListCmd : Command := mkCommand "list" "List channels, claims in progress, etc"
  ("List command prints lists of objects from the shared storage;"
   +:+ " each object type has separate subcommand") None [] [] [ListChannelsCmd; ListClaimsCmd].

Definition UnlockChannelFlag : string := "unlock".

Definition ChannelCmd : Command := mkCommand "channel" "Manage operations on payment channels"
  ("allows us to perform operations on channels with given channel ID."
   +:+ " User can use 'snetd channel --unlock {channelID}' command to unlock the channel manually.")
  (Some Run_Channel)
  [mkFlagDefinition UnlockChannelFlag "u" ""
     ("unlocks the payment channel with the given ID, see " +:+ dquote +:+ "list channels"
      +:+ dquote)] [] [].

Definition serve_flags : list FlagDefinition :=
  [mkFlagDefinition "auto-ssl-domain" "" ""
     "enable SSL via LetsEncrypt for this domain (requires root)";
   mkFlagDefinition "auto-ssl-cache" "" ".certs" "auto-SSL certificate cache directory";
   mkFlagDefinition "type" "t" "grpc" "daemon type: one of 'grpc','http'";
   mkFlagDefinition "blockchain" "b" "true" "enable blockchain processing";
   mkFlagDefinition "port" "p" "5000" "daemon listen port";
   mkFlagDefinition "mnemonic" "" "" "HD wallet mnemonic";
   mkFlagDefinition "wallet-index" "" "0" "HD wallet index";
   mkFlagDefinition "db-path" "" "snetd.db" "database file path";
   mkFlagDefinition "passthrough" "" "false" "passthrough mode";
   mkFlagDefinition "service-type" "" "grpc" "service type: one of 'grpc','jsonrpc','process'";
   mkFlagDefinition "ssl-cert" "" "" "SSL certificate (.crt)";
   mkFlagDefinition "ssl-key" "" "" "SSL key file (.key)";
   mkFlagDefinition "wire-encoding" "" "proto" "message encoding: one of 'proto','json'";
   mkFlagDefinition "poll-sleep" "" "5s" "blockchain poll sleep time"].

Definition ServeCmd : Command := mkCommand "serve"
  "Is the default option which starts the Daemon." "" (Some Run_Serve) [] serve_flags [].

Definition RootCmd : Command := mkCommand "snetd" "" "" (Some Run_Root) []
  [mkFlagDefinition "config" "c" "snetd.config.json" "config file"]
  [InitCmd; ServeCmd; ListCmd; ChannelCmd; VersionCmd].

(** ** The command without a subcommand *)

(** What is executed: the command again, with an error of [Find], or the daemon. *)
Inductive RootChoice := ExecuteAgain (command : Command) | RunDaemon.

(** [find] is [cmd.Find(args)]: the command and the error, each nil or not. *)
Definition RootCmd_Run (find : Command -> list string -> option Command * option error)
    (args : list string) : RootChoice :=
  match find RootCmd args with
  | (Some command, Some _) => ExecuteAgain command
  | _ => RunDaemon
  end.

(** [main]: the message of a failed execution. *)
Definition main (executed : result unit) : option string :=
  match executed with
  | Err _ => Some "Unable to run application"
  | Ok _ => None
  end.

(** ** Flags of [serve] *)

(** The parsed command line: the values of the flags of [serve]. *)
Definition ServeFlags := string -> Flag.

(** [vip.BindPFlag]: a flag that the user has set comes before the configuration
    file, its default after all other values. *)
Class PFlagLibrary `{!ViperLibrary} :=
  viper_BindPFlag : string -> Flag -> viper -> viper.

(** The calls of [BindPFlag] in [init]: the key and the flag. *)
Definition bound_flags : list (string * string) :=
  [(AutoSSLDomainKey, "auto-ssl-domain");
   (AutoSSLCacheDirKey, "auto-ssl-cache");
   (DaemonTypeKey, "type");
   (BlockchainEnabledKey, "blockchain");
   (PassthroughEnabledKey, "passthrough");
   (SSLCertPathKey, "ssl-cert");
   (SSLKeyPathKey, "ssl-key")].

Section flags.
Context `{!ViperLibrary, !PFlagLibrary}.

(** The bindings are made before the command line is parsed and keep pointers to
    the flags; their values are read afterwards. *)
Definition flags_init (flags : ServeFlags) (vip : viper) : viper :=
  foldl (fun vip kf => viper_BindPFlag kf.1 (flags kf.2) vip) vip bound_flags.

(** The flags that the daemon accepts and ignores. *)
Definition ignored_flags : list string :=
  filter (fun name => name ∉ bound_flags.*2) (flag_name <$> serve_flags).

Lemma ignored_flags_are :
  ignored_flags = ["port"; "mnemonic"; "wallet-index"; "db-path"; "service-type";
                   "wire-encoding"; "poll-sleep"].
Proof. reflexivity. Qed.

Lemma flags_init_bound flags flags' vip :
  (forall name, name ∈ bound_flags.*2 -> flags name = flags' name) ->
  flags_init flags vip = flags_init flags' vip.
Proof.
  unfold flags_init. revert vip. induction bound_flags as [|[k name] l IH]; intros vip Hf; [done|].
  cbn [foldl fst snd]. rewrite (Hf name) by by left. apply IH. intros n Hn. apply Hf. by right.
Qed.
End flags.

(** ** [LogConfig]

    [viper_AllKeys] are the keys that have a value, in lower case and without
    duplicates, and [print_value] what [%v] prints of a value. *)
Class ViperKeys `{!ViperLibrary} := {
  viper_AllKeys : viper -> list string;
  print_value : option value -> string }.

(** [sort.Strings]: the order of the bytes. *)
Definition string_le (s t : string) : Prop := String.leb s t = true.

#[export] Instance string_le_dec s t : Decision (string_le s t) := bool_eq_dec _ _.

Section log_config.
Context `{!ViperLibrary, !ViperKeys}.

Definition setting_line (vip : viper) (key : string) : string :=
  Sprintf "%v: %v" [key; print_value (viper_Get key vip)].

(** The entries of the log. *)
Definition LogConfig (vip : viper) : list string :=
  let keys := merge_sort string_le (viper_AllKeys vip) in
  "Final configuration:" :: (setting_line vip <$> keys).

(** Every setting is logged with its value, the private key and the mnemonic of
    the wallet like the others. *)
Lemma LogConfig_logs vip :
  exists keys, LogConfig vip = "Final configuration:" :: (setting_line vip <$> keys) /\
    keys ≡ₚ viper_AllKeys vip.
Proof. eexists. split; [done|]. apply merge_sort_Permutation. Qed.
End log_config.

(** ** [snetd version] *)

(** The operations of a command: those of the components, a line on the standard
    output, and the end of the process. *)
Inductive CommandE : Type -> Type :=
| StartOf {X} (e : StartE X) : CommandE X
| Println (text : string) : CommandE unit
| OsExit (code : Z) : CommandE Empty_set.

Section version.
Context `{!ViperLibrary, !EtcdLibrary, !GoURL, !GoJSON, !GoMetrics, !GoEthereum}.
Context `{!Surroundings}.
(** The values set when the program is built. *)
Context (versionTag sha1Revision buildTime : string).

Definition GetVersionTag : string := versionTag.
Definition GetSha1Revision : string := sha1Revision.
Definition GetBuildTime : string := buildTime.

Definition os_Exit {A} (code : Z) : prog CommandE A :=
  Vis (OsExit code) (fun x : Empty_set => match x with end).

(** The command has no fields. *)
Definition newListVersionCommand (vip : viper) : prog CommandE (result unit) := Ret (Ok tt).

Definition ListVersionCommand_Run (command : unit) : prog CommandE (result unit) :=
  let! _ := trigger (Println (Sprintf "version tag: %s" [GetVersionTag])) in
  let! _ := trigger (Println (Sprintf "built on: %s" [GetBuildTime])) in
  let! _ := trigger (Println (Sprintf "sha1 revision: %s" [GetSha1Revision])) in
  os_Exit 0.

Definition VersionCmd_Run (exists_ : string -> bool) (configFlag : Flag) (vip : viper)
  : prog CommandE (result unit) :=
  RunAndCleanup (fun X e => StartOf e) exists_ configFlag vip newListVersionCommand
    ListVersionCommand_Run.

(** When the configuration is loaded the command prints the three lines and ends
    the process with them: the components are not closed. *)
Lemma version_command_prints exists_ configFlag vip0 vip :
  loadConfigFileFromCommandLine ReadFile exists_ configFlag vip0 = Returned vip ->
  exists k : Empty_set -> prog CommandE (result unit),
    VersionCmd_Run exists_ configFlag vip0 =
      Vis (Println (Sprintf "version tag: %s" [versionTag])) (fun _ =>
      Vis (Println (Sprintf "built on: %s" [buildTime])) (fun _ =>
      Vis (Println (Sprintf "sha1 revision: %s" [sha1Revision])) (fun _ =>
      Vis (OsExit 0) k))).
Proof.
  intros Hload. unfold VersionCmd_Run, RunAndCleanup, InitComponents. rewrite Hload.
  cbn [resume catch embed bind]. unfold newListVersionCommand, bind_ok, defer.
  cbn [bind]. unfold ListVersionCommand_Run, trigger, os_Exit. cbn [bind catch].
  eexists. reflexivity.
Qed.
End version.
