(* ===== verification/Lifecycle.v ===== *)
(** * From the start of a daemon to its end

    What the process of [Serve] opens, serves and closes, in every behaviour of
    the libraries and services around it. *)
From S2P Require Import Prelude Prog Bytes Blockchain Config Metrics Forwarding HttpHandler.
From S2P Require Import Settings EtcdSetup Components Wiring Serve.
Import ServiceMetadata (ServiceMetadata).
Local Open Scope Z_scope.

(** ** Effects of one set among those of another *)

Lemma wp_any {E W A} `{!Contract E W} (p : prog E A) w : wp p (fun _ _ => True) w.
Proof. revert w. induction p; simpl; auto. Qed.

(** A program of one set of effects runs in a part of the state. *)
Lemma wp_embed {E F V W A} `{!Contract E V, !Contract F W} (f : forall X, E X -> F X)
    (get : W -> V) (put : V -> W -> W) (p : prog E A) Q w :
  (forall X (e : E X) w x w', contract (f X e) w x w' ->
     exists v, contract e (get w) x v /\ w' = put v w) ->
  (forall v w, get (put v w) = v) -> (forall v v' w, put v (put v' w) = put v w) ->
  (forall w, put (get w) w = w) ->
  wp p Q (get w) -> wp (embed f p) (fun o w' => exists v, Q o v /\ w' = put v w) w.
Proof.
  intros Hf Hgp Hpp Hpg. revert w. induction p as [a|m|X e k IH]; intros w HQ; simpl in *;
    [by exists (get w); rewrite Hpg..|].
  intros x w' (v & Hv & ->)%Hf. eapply wp_mono.
  - apply IH. rewrite Hgp. by apply HQ.
  - intros o w'' (v' & ? & ->). exists v'. by rewrite Hpp.
Qed.

Lemma wp_etcd {A} (p : prog EtcdSetupE A) Q (h : Host) :
  wp p Q (etcd h) ->
  wp (embed (fun X e => EtcdSetup e) p) (fun o h' => exists r, Q o r /\ h' = with_etcd r h) h.
Proof. by apply wp_embed; [intros X e w x w'|..|intros []]. Qed.

(** ** The end of the components *)

Lemma EtcdClient_Close_connections client r :
  wp (EtcdClient_Close client) (fun o r' => o = Returned tt /\ running r' = running r /\
    connections r' = connections r ∖ {[client_etcdv3 client]}) r.
Proof. by intros x r' -> y r'' [(err & -> & ->)|(c & -> & Hc & Hin & ->)]. Qed.

(** What the object holds is closed. *)
Definition object_closed (o : Object) (h : Host) : Prop :=
  match o with
  | AnEtcdClient client => client_etcdv3 client ∉ connections (etcd h)
  | AnEtcdServer server => server_etcd server ∉ running (etcd h)
  | AProcessor _ (Some client) => client ∉ rpc h
  | _ => True
  end.

(** Nothing is opened again. *)
Definition shrinks (h h' : Host) : Prop :=
  wiring h' = wiring h /\ rpc h' ⊆ rpc h /\ running (etcd h') ⊆ running (etcd h) /\
  connections (etcd h') ⊆ connections (etcd h).

Lemma shrinks_refl h : shrinks h h.
Proof. done. Qed.

Lemma shrinks_trans h1 h2 h3 : shrinks h1 h2 -> shrinks h2 h3 -> shrinks h1 h3.
Proof.
  intros (E1 & R1 & S1 & C1) (E2 & R2 & S2 & C2). split; [congruence|].
  split; [by etrans|]. split; by etrans.
Qed.

Lemma shrinks_closed o h h' : shrinks h h' -> object_closed o h -> object_closed o h'.
Proof.
  intros (_ & R & S & C). destruct o; simpl; try done; [destruct ethClient; [|done]|..];
    set_solver.
Qed.

(** A processor without a connection makes its [Close] panic. *)
Definition closes (o : Object) (r : outcome unit) (h : Host) : Prop :=
  match o with
  | AProcessor _ None => r = Panicked nil_dereference
  | _ => r = Returned tt /\ object_closed o h
  end.

Lemma wp_close_object o h :
  wp (close_object o) (fun r h' => shrinks h h' /\ closes o r h') h.
Proof.
  destruct o; try done; cbn [close_object].
  - destruct ethClient; [|done]. intros [] h' ->. unfold shrinks; cbn; set_solver.
  - eapply wp_mono; [by apply wp_etcd, EtcdClient_Close_connections|].
    intros o h' (r & (-> & Hr & Hc) & ->). cbn. unfold shrinks; cbn; set_solver.
  - eapply wp_mono; [apply (wp_etcd _ (fun o r => o = Returned tt /\
      r = mkEtcdResources (running (etcd h) ∖ {[server_etcd server]}) (connections (etcd h))
            (leases (etcd h)))); by intros [] r ->|].
    intros o h' (r & (-> & ->) & ->). unfold shrinks; cbn; set_solver.
Qed.

Lemma closes_closed o r h : closes o r h -> object_closed o h.
Proof. destruct o as [|e [c|]| | | | | | | | | |]; simpl; try done; by intros [_ ?]. Qed.

(** A call of [Close] that panics is that of a processor without a connection. *)
Definition close_result (h : Host) (f : Field) (r : outcome unit) : Prop :=
  r = Returned tt \/ exists i enabled, f = blockchain /\ set_fields h !! f = Some i /\
    objects h !! i = Some (AProcessor enabled None) /\ r = Panicked nil_dereference.

(** The object of the field, if any, is closed. *)
Lemma wp_close_field f h : well h -> f <> atomicStorage ->
  wp (close_field f close_object)
    (fun r h' => shrinks h h' /\ close_result h f r /\
       (forall i o, objects h !! i = Some o -> home o = f -> closes o r h')) h.
Proof.
  intros Hw Hf x h' [-> ->]. destruct (set_fields h !! f) as [i|] eqn:Hi; cbn.
  - intros x h' [-> ->]. destruct (wired_fields _ _ Hw f i Hi) as (o & Ho & [Hh|[? _]]); [|done].
    rewrite Ho. cbn. eapply wp_mono; [apply wp_close_object|]. intros r h' [Hs Hc].
    split; [done|]. split.
    + destruct o as [|e [c|]| | | | | | | | | |]; simpl in Hc; try (left; by destruct Hc).
      right. by exists i, e.
    + intros j o' Ho' He. pose proof (wired_home _ _ Hw _ _ Ho') as Hj.
      rewrite He, Hi in Hj. injection Hj as <-. rewrite Ho in Ho'. by injection Ho' as <-.
  - split; [done|]. split; [by left|]. intros j o Ho He.
    apply (wired_home _ _ Hw) in Ho. congruence.
Qed.

(** [Close] closes what the components hold; it panics exactly when there is a
    processor without a connection. *)
Lemma wp_Components_Close h : well h ->
  wp Components_Close
    (fun r h' => shrinks h h' /\ close_result h blockchain r /\
       (forall i o, objects h !! i = Some o -> object_closed o h') /\
       (forall i e, objects h !! i = Some (AProcessor e None) -> r = Panicked nil_dereference)) h.
Proof.
  intros Hw. unfold Components_Close. apply wp_bind.
  eapply wp_mono; [by apply wp_close_field|]. intros r1 h1 (S1 & [->|(? & ? & ? & _)] & C1); [|done].
  pose proof (well_wiring _ _ (proj1 S1) Hw) as Hw1. apply wp_bind.
  eapply wp_mono; [by apply wp_close_field|]. intros r2 h2 (S2 & [->|(? & ? & ? & _)] & C2); [|done].
  pose proof (well_wiring _ _ (proj1 S2) Hw1) as Hw2.
  eapply wp_mono; [by apply wp_close_field|]. intros r3 h3 (S3 & P3 & C3).
  pose proof (shrinks_trans _ _ _ S2 S3) as S23.
  pose proof (proj1 (shrinks_trans _ _ _ S1 S2)) as [= Eo Ef].
  pose proof (proj1 S1) as [= Eo1 Ef1].
  split; [by eapply shrinks_trans|]. split; [by unfold close_result; rewrite <- Eo, <- Ef|]. split.
  - intros i o Ho. destruct (home o) eqn:Hh; try by destruct o as [|? []| | | | | | | | | |].
    + eapply closes_closed, C3; [|done]. by rewrite Eo.
    + eapply shrinks_closed, closes_closed, C1; done.
    + eapply shrinks_closed, closes_closed, C2; [done| |done]. by rewrite Eo1.
  - intros i e Ho. by apply (C3 i (AProcessor e None)); [rewrite Eo|].
Qed.

(** ** The machine a daemon runs on *)

Record Machine `{!RateLibrary} := mkMachine {
  host : Host;
  listeners : gset nat;
  servers : gset nat;
  created : gmap nat (option StreamHandler * nat * Z);
  registered : list (nat * string * nat);
  served : list ServeTask }.

Section machine.
Context `{!RateLibrary, !ViperLibrary}.

Definition with_host (h : Host) (m : Machine) : Machine :=
  mkMachine _ h (listeners m) (servers m) (created m) (registered m) (served m).

Definition with_listeners (l : gset nat) (m : Machine) : Machine :=
  mkMachine _ (host m) l (servers m) (created m) (registered m) (served m).

(** After [Exit] nothing happens. *)
Definition serving {X} (e : ServeE X) (m : Machine) : X -> Machine -> Prop :=
  match e in ServeE X return X -> Machine -> Prop with
  | StartEvent e => fun x m' => exists h, contract e (host m) x h /\ m' = with_host h m
  | NetListen _ => fun x m' =>
      (exists err, x = Err err /\ m' = m) \/
      (exists n, x = Ok n /\ n ∉ listeners m /\ m' = with_listeners ({[n]} ∪ listeners m) m)
  | CloseListener n => fun _ m' => m' = with_listeners (listeners m ∖ {[n]}) m
  | LoadX509KeyPair _ _ | InitLogger _ => fun _ m' => m' = m
  | NewServer u i s => fun n m' => n ∉ servers m /\ created m !! n = None /\
      m' = mkMachine _ (host m) (listeners m) ({[n]} ∪ servers m) (<[n := (u, i, s)]> (created m))
             (registered m) (served m)
  | RegisterService n name i => fun _ m' =>
      m' = mkMachine _ (host m) (listeners m) (servers m) (created m)
             (registered m ++ [(n, name, i)]) (served m)
  | GoServe t => fun _ m' =>
      m' = mkMachine _ (host m) (listeners m) (servers m) (created m) (registered m)
             (served m ++ [t])
  | GracefulStop n => fun _ m' =>
      m' = mkMachine _ (host m) (listeners m) (servers m ∖ {[n]}) (created m) (registered m)
             (served m)
  | AwaitSignal => fun _ m' => m' = m
  | Exit _ => fun _ _ => False
  end.

#[export] Instance ServeE_contract : Contract ServeE Machine := @serving.

(** The gRPC server was made with a chain of interceptors that validates the
    payments of calls if [enabled], with the payment handler of the components. *)
Definition guarded (enabled : bool) (server : nat) (m : Machine) : Prop :=
  exists unknown i size chain, created m !! server = Some (unknown, i, size) /\
    objects (host m) !! i = Some (AnInterceptorChain chain) /\ guards enabled chain.

Context (enabled : bool).

(** The components are well-formed, and what serves gRPC is guarded. *)
Definition good (m : Machine) : Prop :=
  well (host m) /\ forall server l, In (ServeGrpc server l) (served m) ->
    guarded enabled server m.

(** The machine stays good, and no component is lost. *)
Definition stays_good (m m' : Machine) : Prop :=
  good m' /\ objects (host m) `prefix_of` objects (host m').

Lemma stays_good_refl m : good m -> stays_good m m.
Proof. by split. Qed.

(** A program of the process that keeps the machine good, whatever happens, and
    ends in a state that [Q] describes when it returns. *)
Definition serves {A} (p : prog ServeE A) (Q : A -> Machine -> Prop) (m : Machine) : Prop :=
  wp p (fun o m' => stays_good m m' /\ forall a, o = Returned a -> Q a m') m.

Lemma serves_ret {A} (a : A) (Q : A -> Machine -> Prop) m : good m -> Q a m -> serves (Ret a) Q m.
Proof. intros Hw HQ. split; [by apply stays_good_refl|]. by intros ? [= <-]. Qed.

Lemma serves_panic {A} msg (Q : A -> Machine -> Prop) m : good m -> serves (Panic msg) Q m.
Proof. intros Hw. by split; [apply stays_good_refl|]. Qed.

Lemma serves_resume {A} (o : outcome A) m : good m -> serves (resume o) (fun _ m' => m' = m) m.
Proof. intros Hw. destruct o; [by apply serves_ret|by apply serves_panic]. Qed.

Lemma serves_bind {A B} (p : prog ServeE A) (f : A -> prog ServeE B) P Q m :
  serves p P m -> (forall a m', good m' -> P a m' -> serves (f a) Q m') ->
  serves (bind p f) Q m.
Proof.
  intros Hp Hf. apply wp_bind. eapply wp_mono; [exact Hp|]. intros [a|e] m' [[Hw Ho] HP].
  - eapply wp_mono; [by apply Hf, HP|]. intros o m'' [[Hw' Ho'] HQ].
    split; [|done]. split; [done|by etrans].
  - by split.
Qed.

(** What is done with the components is done in the host. *)
Lemma wp_components {A} (p : prog StartE A) Q m :
  wp p Q (host m) ->
  wp (components p) (fun o m' => exists h, Q o h /\ m' = with_host h m) m.
Proof. by apply (wp_embed _ host with_host); [intros X e w x w'|..|intros []]. Qed.

Lemma good_grows h m : objects (host m) `prefix_of` objects h -> well h -> good m ->
  good (with_host h m).
Proof.
  intros Ho Hw [_ Hg]. split; [done|]. intros s l Hin.
  destruct (Hg s l Hin) as (u & i & z & chain & Hc & Hi & Hch). exists u, i, z, chain.
  split; [done|]. split; [|done]. by eapply prefix_lookup_Some.
Qed.

Lemma serves_components {A} n (p : prog StartE A) P m :
  good m -> builds n p P (host m) ->
  serves (components p) (fun a m' => exists h, P a h /\ well h /\ grows n (host m) h /\
    m' = with_host h m) m.
Proof.
  intros Hm Hp. eapply wp_mono; [by apply wp_components|].
  intros o m' (h & (Hw & Hg & HP) & ->).
  split; [by split; [apply good_grows; [apply Hg|..]|apply Hg]|].
  intros a ->. exists h. by split; [apply HP|].
Qed.

(** An operation of the process that changes neither the components nor what is
    served. *)
Lemma serves_trigger {X} (e : ServeE X) (Q : X -> Machine -> Prop) m :
  good m ->
  (forall x m', contract e m x m' -> host m' = host m /\ served m' = served m /\
     created m ⊆ created m' /\ Q x m') -> serves (trigger e) Q m.
Proof.
  intros [Hw Hg] He x m' (Hh & Hs & Hc & HQ)%He. split; [|by intros a [= <-]].
  split; [|by rewrite Hh]. split; [by rewrite Hh|]. rewrite Hs. intros s l Hin.
  destruct (Hg s l Hin) as (u & i & z & chain & Hu & Hi & Hch). exists u, i, z, chain.
  split; [by eapply lookup_weaken|]. by rewrite Hh.
Qed.

Lemma serves_go t Q m : good m ->
  (forall s l, t = ServeGrpc s l -> guarded enabled s m) ->
  (forall m', host m' = host m -> listeners m' = listeners m -> servers m' = servers m ->
     created m' = created m -> registered m' = registered m -> Q tt m') ->
  serves (trigger (GoServe t)) Q m.
Proof.
  intros [Hw Hg] Ht HQ [] m' ->. split; [|by intros [] _; apply HQ].
  split; [|done]. split; [done|]. intros s l [Hin|[->|[]]]%in_app_iff; [by apply (Hg s l)|by apply (Ht s l)].
Qed.
End machine.

(** ** The daemon *)

Section daemon.
Context `{!ViperLibrary, !EtcdLibrary, !GoURL, !GoJSON, !GoMetrics, !GoEthereum}.
Context `{!Surroundings, !RateLibrary, !GrpcLibrary}.
Context (networkIdNameMapping registryAddressJson : string).
Context (vip : viper).

Local Abbreviation conf := (viper_getters vip).
Local Abbreviation enabled := (GetBool conf BlockchainEnabledKey).
Local Abbreviation good := (good enabled).
Local Abbreviation serves := (serves enabled).
Local Abbreviation newDaemon := (newDaemon networkIdNameMapping registryAddressJson vip).

(** What a daemon has opened. *)
Definition ports (d : daemon) : gset nat :=
  {[listener_tcp (lis d)]} ∪ match acmeListener d with Some a => {[a]} | None => ∅ end.

Definition grpc_servers (d : daemon) : gset nat :=
  match grpcServer d with Some s => {[s]} | None => ∅ end.

(** The processor is that of the configuration. *)
Definition configured (h : Host) : Prop :=
  exists i c, objects h !! i = Some (AProcessor (GetBool conf BlockchainEnabledKey) c).

Lemma configured_prefix h h' : objects h `prefix_of` objects h' -> configured h -> configured h'.
Proof. intros Hp (i & c & Hi). exists i, c. by eapply prefix_lookup_Some. Qed.

Lemma quiet_config_Validate : quiet (config_Validate networkIdNameMapping registryAddressJson vip).
Proof. unfold config_Validate. quiet. Qed.

Definition optional (a : option nat) : gset nat :=
  match a with Some a => {[a]} | None => ∅ end.

Lemma serves_NetListen address m : good m ->
  serves (trigger (NetListen address)) (fun r m' => host m' = host m /\ servers m' = servers m /\
    forall n, r = Ok n -> listeners m' = {[n]} ∪ listeners m) m.
Proof.
  intros Hm. apply serves_trigger; [done|].
  intros x m' [(err & -> & ->)|(n & -> & Hn & ->)]; [done|]. cbn. repeat split; try done.
  by intros ? [= <-].
Qed.

(** The port of the challenges. *)
Lemma serves_acme domain m : good m ->
  serves (if decide (domain = EmptyString) then Ret (Ok None)
          else let! acme := trigger (NetListen ":80") in Ret (result_map Some acme))
    (fun r m' => host m' = host m /\ servers m' = servers m /\
       forall a, r = Ok a -> listeners m' = optional a ∪ listeners m) m.
Proof.
  intros Hm. destruct (decide _).
  - apply serves_ret; [done|]. split; [done|]. split; [done|]. intros ? [= <-]. set_solver.
  - eapply serves_bind; [by apply serves_NetListen|]. intros r m' Hm' (? & ? & Hr).
    apply serves_ret; [done|]. split; [done|]. split; [done|]. destruct r; [|done].
    intros ? [= <-]. by apply Hr.
Qed.

Lemma serves_newDaemon m : good m -> set_fields (host m) !! blockchain = None ->
  listeners m = ∅ -> servers m = ∅ ->
  serves newDaemon (fun r m' => forall d, r = Ok d -> configured (host m') /\
    grpcServer d = None /\ servers m' = ∅ /\ listeners m' = ports d) m.
Proof.
  intros Hm Hb Hl Hs. unfold Serve.newDaemon, bind_ok. eapply serves_bind.
  { apply serves_components, (builds_last 0); [done|apply Hm|apply quiet_config_Validate]. }
  intros [[]|err] m1 Hm1 (h1 & _ & Hw1 & Hg1 & ->); [|by apply serves_ret].
  pose proof (grows_unset _ _ _ _ Hg1 Hb ltac:(simpl; lia)) as Hb1.
  cbn [bind]. destruct (ValidateHeartbeatConfig conf).1; [|by apply serves_ret].
  destruct (ValidateNotificationConfig conf).1; [|by apply serves_ret].
  eapply serves_bind; [by apply serves_NetListen|].
  intros [tcp|err] m2 Hm2 (Hh2 & Hs2 & Hl2); [|by apply serves_ret].
  eapply serves_bind; [by apply serves_acme|].
  intros [acme|err] m3 Hm3 (Hh3 & Hs3 & Hl3); [|by apply serves_ret].
  eapply serves_bind.
  { apply serves_components, first_Blockchain; [done|apply Hm3|]. by rewrite Hh3, Hh2. }
  intros i m4 Hm4 (h4 & (_ & c & Hi) & _ & _ & ->).
  assert (forall cert d, Ok (mkDaemon (GetString conf AutoSSLDomainKey) acme None i
      (mkListener tcp None) cert) = Ok d -> configured h4 /\ grpcServer d = None /\
      servers m3 = ∅ /\ listeners m3 = ports d) as Hd.
  { intros cert d [= <-]. split; [by exists i, c|]. split; [done|].
    split; [by rewrite Hs3, Hs2|].
    rewrite (Hl3 acme eq_refl), (Hl2 tcp eq_refl). cbn. rewrite Hl. unfold ports, optional. cbn.
    set_solver. }
  destruct (decide _); [by apply serves_ret; [|apply Hd]|].
  eapply serves_bind.
  { apply (serves_trigger _ _ (fun _ m' => m' = with_host h4 m3)); [done|]. by intros ? ? ->. }
  intros [cert|err] m5 Hm5 ->; apply serves_ret; done || by apply Hd.
Qed.

(** The components have grown, and listeners and servers are the same. *)
Definition steady (m m' : Machine) : Prop :=
  objects (host m) `prefix_of` objects (host m') /\ listeners m' = listeners m /\
  servers m' = servers m /\ created m' = created m.

Lemma steady_refl m : steady m m.
Proof. done. Qed.

Lemma steady_trans m1 m2 m3 : steady m1 m2 -> steady m2 m3 -> steady m1 m3.
Proof. 
  intros (O1 & L1 & S1 & C1) (O2 & L2 & S2 & C2). split; [by etrans|].
  by rewrite L2, S2, C2.
Qed.

Lemma serves_accessor f p m : good m -> accessor f p ->
  serves (components p) (fun i m' => steady m m' /\ set_fields (host m') !! f = Some i) m.
Proof.
  intros Hm Ha. eapply wp_mono; [by apply serves_components, Ha; [|apply Hm]|].
  intros o m' [Hm' Ho]. split; [done|]. intros i Hi.
  destruct (Ho i Hi) as (h & Hf & _ & Hg & ->). split; [|done]. by split; [apply Hg|].
Qed.

(** Steps that leave the machine steady. *)
Lemma serves_steady {A B} (p : prog ServeE A) (f : A -> prog ServeE B) P Q m0 m :
  steady m0 m -> serves p (fun a m' => steady m m' /\ P a m') m ->
  (forall a m', good m' -> steady m0 m' -> P a m' -> serves (f a) Q m') -> serves (bind p f) Q m.
Proof.
  intros Hs0 Hp Hf. eapply serves_bind; [exact Hp|]. intros a m' Hm' [Hs HP].
  apply Hf; [done| |done]. by eapply steady_trans.
Qed.

Lemma serves_register n name i m : good m ->
  serves (trigger (RegisterService n name i)) (fun _ m' => steady m m' /\ True) m.
Proof.
  intros Hm. apply serves_trigger; [done|]. intros [] m' ->. do 3 (split; [done|]). by split.
Qed.

Lemma serves_go_steady t m : good m ->
  (forall s l, t = ServeGrpc s l -> guarded enabled s m) ->
  serves (trigger (GoServe t)) (fun _ m' => steady m m' /\ True) m.
Proof.
  intros Hm Ht. apply serves_go; [done..|]. intros m' Hh Hl Hs Hc _. split; [|done].
  split; [by rewrite Hh|]. by split.
Qed.

(** The chain of the components is for the configured processor. *)
Lemma chain_guards h i : well h -> configured h -> set_fields h !! grpcInterceptor = Some i ->
  exists chain, objects h !! i = Some (AnInterceptorChain chain) /\ guards enabled chain.
Proof.
  intros Hw (k & c' & Hk) Hi.
  destruct (wired_fields _ _ Hw _ _ Hi) as (o & Ho & [Hh|[? _]]); [|done].
  destruct o as [| | | | | | |chain| | | |]; try done. exists chain. split; [done|].
  destruct (wired_ok _ _ Hw _ _ Ho) as (j & e & c & Hj & Hc & Hg).
  pose proof (wired_home _ _ Hw _ _ Hk) as Hk'. cbn in Hk'. rewrite Hj in Hk'.
  injection Hk' as ->. rewrite Hk in Hc. by injection Hc as -> ->.
Qed.

Lemma guarded_steady s m m' : steady m m' -> guarded enabled s m -> guarded enabled s m'.
Proof.
  intros (Ho & _ & _ & Hc) (u & i & z & chain & Hu & Hi & Hg). exists u, i, z, chain.
  rewrite Hc. split; [done|]. split; [by eapply prefix_lookup_Some|done].
Qed.

Lemma serves_new_grpc_server i m : good m -> configured (host m) ->
  serves (new_grpc_server vip i) (fun n m' => guarded enabled n m' /\
    listeners m' = listeners m /\ servers m' = {[n]} ∪ servers m) m.
Proof.
  intros Hm Hconf. unfold new_grpc_server. eapply serves_bind.
  { apply (serves_components enabled 0), builds_last; [done|apply Hm|apply quiet_metadata_of]. }
  intros metadata m1 Hm1 (h1 & _ & _ & Hg & ->).
  eapply serves_bind; [by apply serves_resume|]. intros handler m2 Hm2 ->.
  eapply serves_bind; [by apply serves_accessor, accessor_GrpcInterceptor|].
  intros chain m3 Hm3 [(Ho & Hl & Hs & _) Hc].
  assert (configured (host m3)) as Hconf3.
  { eapply configured_prefix; [|done]. etrans; [apply Hg|exact Ho]. }
  destruct (chain_guards _ _ (proj1 Hm3) Hconf3 Hc) as (l & Hi & Hgl).
  apply serves_trigger; [done|]. intros n m' (Hn & Hcr & ->). cbn. do 2 (split; [done|]).
  split; [by apply insert_subseteq|]. rewrite Hl, Hs. split; [|done].
  eexists _, _, _, _. split; [apply lookup_insert_eq|done].
Qed.

Lemma serves_serve_grpc n i l m : good m -> guarded enabled n m ->
  serves (serve_grpc vip n i l) (fun _ m' => steady m m' /\ True) m.
Proof.
  intros Hm Hn. pose proof (steady_refl m) as Hs. unfold serve_grpc.
  eapply serves_steady; [exact Hs|by apply serves_accessor, accessor_StateService|].
  intros state m1 Hm1 Hs1 _. eapply serves_steady; [exact Hs1|by apply serves_register|].
  intros _ m2 Hm2 Hs2 _.
  eapply serves_steady; [exact Hs2|by apply serves_accessor, accessor_ControlService|].
  intros control m3 Hm3 Hs3 _. eapply serves_steady; [exact Hs3|by apply serves_register|].
  intros _ m4 Hm4 Hs4 _.
  eapply serves_steady; [exact Hs4|by apply serves_accessor, accessor_DaemonHeartBeat|].
  intros heartbeat m5 Hm5 Hs5 _. eapply serves_steady; [exact Hs5|by apply serves_register|].
  intros _ m6 Hm6 Hs6 _. eapply serves_steady; [exact Hs6|apply serves_go_steady; [done|]|].
  { intros s l' [= -> _]. by eapply guarded_steady. }
  intros _ m7 Hm7 Hs7 _. eapply serves_steady; [exact Hs7|by apply serves_go_steady|].
  intros _ m8 Hm8 Hs8 _. eapply wp_mono; [by apply serves_go_steady|].
  intros o m' [Hm' Ho]. split; [done|]. intros a Ha. destruct (Ho a Ha) as [Hs' _].
  split; [|done]. by eapply steady_trans.
Qed.

Lemma serves_daemon_start m d : good m -> configured (host m) ->
  serves (daemon_start vip d) (fun d' m' => listeners m' = listeners m /\ ports d' = ports d /\
    servers m' = grpc_servers d' ∪ servers m) m.
Proof.
  intros Hm Hconf. unfold daemon_start.
  eapply (serves_steady _ _ (fun _ _ => True) _ m); [apply steady_refl| |].
  { unfold serve_acme. destruct (acmeListener d), (tls_config vip d) as [[]|];
      try (by apply serves_ret). by apply serves_go_steady. }
  intros _ m1 Hm1 Hs1 _. destruct (decide _).
  - eapply serves_steady; [exact Hs1|by apply serves_accessor, accessor_ServiceMetaData|].
    intros i m2 Hm2 (O2 & L2 & S2 & _) _. eapply serves_bind.
    { apply serves_new_grpc_server; [done|]. by eapply configured_prefix. }
    intros n m3 Hm3 (Hg & L3 & S3). eapply serves_bind; [by apply serves_serve_grpc|].
    intros _ m4 Hm4 [(_ & L4 & S4 & _) _]. apply serves_ret; [done|].
    by rewrite L4, L3, L2, S4, S3, S2.
  - eapply serves_steady; [exact Hs1|by apply (serves_go_steady _ m1)|].
    intros _ m2 Hm2 (_ & L2 & S2 & _) _. apply serves_ret; [done|]. rewrite L2, S2.
    split; [done|]. split; [done|]. cbn. set_solver.
Qed.

(** The end of a daemon closes what it opened. *)
Lemma serves_daemon_stop d m : good m ->
  serves (daemon_stop d) (fun _ m' => host m' = host m /\ listeners m' = listeners m ∖ ports d /\
    servers m' = servers m ∖ grpc_servers d) m.
Proof.
  intros Hm. unfold daemon_stop. eapply serves_bind with (P := fun _ m' => host m' = host m /\
    listeners m' = listeners m /\ servers m' = servers m ∖ grpc_servers d).
  { unfold grpc_servers. destruct (grpcServer d) as [n|].
    - apply serves_trigger; [done|]. intros [] m' Hc.
      cbv [contract ServeE_contract serving] in Hc. subst m'. by repeat (split; [done|]).
    - apply serves_ret; [done|]. do 2 (split; [done|]). set_solver. }
  intros [] m1 Hm1 (Hh1 & Hl1 & Hs1). eapply serves_bind with (P := fun _ m' =>
    host m' = host m /\ listeners m' = listeners m ∖ {[listener_tcp (lis d)]} /\
    servers m' = servers m ∖ grpc_servers d).
  { apply serves_trigger; [done|]. intros [] m' Hc.
    cbv [contract ServeE_contract serving] in Hc. subst m'. rewrite <- Hl1.
    by repeat (split; [done|]). }
  intros [] m2 Hm2 (Hh2 & Hl2 & Hs2). unfold ports. destruct (acmeListener d) as [n|].
  - apply serves_trigger; [done|]. intros [] m' Hc.
    cbv [contract ServeE_contract serving] in Hc. subst m'. do 4 (split; [done|]).
    split; [|done]. cbn. rewrite Hl2. set_solver.
  - apply serves_ret; [done|]. split; [done|]. split; [|done]. rewrite Hl2. set_solver.
Qed.

Local Abbreviation serve := (serve networkIdNameMapping registryAddressJson vip).

(** A machine before the daemon is started. *)
Definition idle (m : Machine) : Prop :=
  fresh (host m) /\ listeners m = ∅ /\ servers m = ∅ /\ served m = [].

Lemma idle_good m : idle m -> good m.
Proof. intros (Hf & Hl & Hs & Hsv). split; [by apply fresh_well|by rewrite Hsv]. Qed.

(** The daemon waits for a signal, and stops. *)
Lemma serves_await d m : good m -> listeners m = ports d -> servers m = grpc_servers d ->
  serves (defer (fun _ => daemon_stop d) (trigger AwaitSignal))
    (fun _ m' => listeners m' = ∅ /\ servers m' = ∅) m.
Proof.
  intros Hm Hl Hs [] m' ->. cbn [catch]. eapply serves_bind; [by apply serves_daemon_stop|].
  intros [] m2 Hm2 (_ & Hl2 & Hs2). apply serves_ret; [done|]. rewrite Hl2, Hs2, Hl, Hs.
  split; set_solver.
Qed.

Lemma serves_serve m : idle m ->
  serves serve (fun _ m' => configured (host m') /\ listeners m' = ∅ /\ servers m' = ∅) m.
Proof.
  intros Hi. pose proof (idle_good m Hi) as Hm. destruct Hi as (Hf & Hl & Hs & _).
  unfold Serve.serve. eapply serves_bind.
  { by apply serves_components, builds_EtcdServer; [|apply Hm]. }
  intros server m1 Hm1 (h1 & _ & Hw1 & Hg1 & ->).
  assert (set_fields h1 !! blockchain = None) as Hb.
  { eapply grows_unset; [done| |simpl; lia]. by rewrite (proj2 Hf). }
  eapply serves_bind.
  { apply (serves_trigger _ _ (fun _ m' => m' = with_host h1 m)); [done|]. by intros r m' ->. }
  intros [[]|err] m2 Hm2 ->; [|by intros []].
  eapply serves_bind; [by apply serves_newDaemon|].
  intros [d|err] m3 Hm3 Hd; [|by intros []].
  destruct (Hd d eq_refl) as (Hconf & Hg3 & Hs3 & Hl3).
  eapply serves_bind.
  { eapply wp_mono; [by apply serves_daemon_start|]. intros o m' [Hst Ho]. split; [exact Hst|].
    intros d' Hd'. exact (conj (configured_prefix _ _ (proj2 Hst) Hconf) (Ho d' Hd')). }
  intros d' m4 Hm4 (Hconf4 & Hl4 & Hp4 & Hs4).
  eapply wp_mono; [apply serves_await; [done|by rewrite Hl4, Hl3|rewrite Hs4, Hs3; set_solver]|].
  intros o m' [Hst Ho]. split; [done|]. intros a Ha. split; [|by eapply Ho].
  by eapply configured_prefix; [apply Hst|].
Qed.

(** What holds after the deferred calls too. *)
Lemma wp_ServeCmd exists_ flag vip0 m :
  idle m -> loadConfigFileFromCommandLine ReadFile exists_ flag vip0 = Returned vip ->
  wp (ServeCmd_Run networkIdNameMapping registryAddressJson exists_ flag vip0)
    (fun o m' => exists m1 r, stays_good enabled m m1 /\
       (o = Returned tt -> configured (host m1) /\ listeners m1 = ∅ /\ servers m1 = ∅ /\
          r = Returned tt) /\
       shrinks (host m1) (host m') /\ close_result (host m1) blockchain r /\
       (forall i o, objects (host m1) !! i = Some o -> object_closed o (host m')) /\
       (forall i e, objects (host m1) !! i = Some (AProcessor e None) ->
          r = Panicked nil_dereference) /\
       m' = with_host (host m') m1) m.
Proof.
  intros Hi Hload. unfold ServeCmd_Run, InitComponents. rewrite Hload.
  cbn [resume catch components embed bind]. apply wp_catch.
  eapply wp_mono; [by apply serves_serve|]. intros o m1 [Hst Ho]. cbv beta.
  apply wp_bind. eapply wp_mono; [apply wp_components, wp_Components_Close, Hst|].
  intros r m' (h & (Hsh & Hr & Hc & Hp) & ->). destruct r as [[]|msg].
  - destruct o as [[]|e]; cbn; exists m1, (Returned tt); (split; [done|]); (split; [|done]);
      [|done]. intros _. by destruct (Ho tt eq_refl) as (? & ? & ?).
  - exists m1, (Panicked msg). by repeat (split; [done|]).
Qed.
End daemon.

(** ** Commands that need the channel service *)

Section commands.
Context `{!ViperLibrary, !EtcdLibrary, !GoURL, !GoMetrics, !GoEthereum, !Surroundings}.
Context (vip : viper).

(** The construction of the storage touches neither the network nor the other
    fields. *)
Lemma AtomicStorage_elsewhere h :
  wp (Components_AtomicStorage vip) (fun _ h' => network h' = network h /\
    forall f, f <> atomicStorage -> f <> etcdClient ->
      set_fields h' !! f = set_fields h !! f) h.
Proof.
  intros x h' [-> ->]. destruct (set_fields h !! atomicStorage); [done|]. case_decide.
  - intros x h' [-> ->]. destruct (set_fields h !! etcdClient) as [i|].
    + intros [] h' ->. cbn. split; [done|]. intros f ? ?. by rewrite lookup_insert_ne.
    + cbn [bind]. do 2 apply wp_bind.
      eapply wp_mono; [by apply wp_etcd, wp_any|]. intros [[client|err]|m] h1 (r & _ & ->); [|done..].
      intros i h2 [-> ->] [] h3 ->. cbn. split; [done|]. intros f ? ?.
      by rewrite !lookup_insert_ne.
  - intros i h' [-> ->]. cbn. split; [done|]. intros f ? ?. by rewrite lookup_insert_ne.
Qed.

(** Without an endpoint the metadata cannot be read from the blockchain. *)
Lemma ServiceMetaData_panics h :
  EthereumJSONRPCEndpoint (network h) = EmptyString ->
  GetBool (viper_getters vip) BlockchainEnabledKey = true ->
  wp (ServiceMetaData vip) (fun o _ => exists msg, o = Panicked msg) h.
Proof.
  intros He Hb. unfold ServiceMetaData, getMetaDataUrifromRegistry. rewrite Hb.
  intros n h1 [-> ->] x h2 [(err & -> & ->)|(c & _ & Hn & _)]; [|by destruct (Hn He)].
  intros n h3 [-> ->]. cbn. by eexists.
Qed.

Lemma Blockchain_panics h :
  EthereumJSONRPCEndpoint (network h) = EmptyString ->
  GetBool (viper_getters vip) BlockchainEnabledKey = true ->
  set_fields h !! blockchain = None -> set_fields h !! serviceMetadata = None ->
  wp (Components_Blockchain vip) (fun o _ => exists msg, o = Panicked msg) h.
Proof.
  intros He Hb Hn Hm x h1 [-> ->]. cbn [bind]. rewrite Hn. intros x h2 [-> ->].
  cbn [bind]. rewrite Hm. do 2 apply wp_bind. eapply wp_mono; [by apply ServiceMetaData_panics|].
  intros o h3 [msg ->]. by eexists.
Qed.

Lemma ChannelService_panics h :
  EthereumJSONRPCEndpoint (network h) = EmptyString ->
  GetBool (viper_getters vip) BlockchainEnabledKey = true -> set_fields h = ∅ ->
  wp (Components_ChannelService vip) (fun o _ => exists msg, o = Panicked msg) h.
Proof.
  intros He Hb Hn x h1 [-> ->]. cbn [bind]. rewrite Hn, lookup_empty. apply wp_bind.
  eapply wp_mono; [apply AtomicStorage_elsewhere|]. intros [i|msg] h2 [N2 F2]; [|by eexists].
  apply wp_bind.
  eapply wp_mono; [apply AtomicStorage_elsewhere|]. intros [j|msg] h3 [N3 F3]; [|by eexists].
  apply wp_bind. eapply wp_mono; [apply Blockchain_panics|].
  - by rewrite N3, N2.
  - done.
  - rewrite F3, F2, Hn; [apply lookup_empty|done..].
  - rewrite F3, F2, Hn; [apply lookup_empty|done..].
  - intros o h4 [msg ->]. by eexists.
Qed.
End commands.

Section lifecycle_theorems.
Context `{!ViperLibrary, !EtcdLibrary, !GoURL, !GoJSON, !GoMetrics, !GoEthereum}.
Context `{!Surroundings, !RateLibrary, !GrpcLibrary}.
Context (networkIdNameMapping registryAddressJson : string) (exists_ : string -> bool).

(** C27: A daemon serves gRPC only with a server whose interceptors limit the calls
    and then, if the blockchain is enabled, validate their payments with the
    payment handler of its components; no call of such a daemon reaches a
    handler in another way, whatever fails around it. *)
Theorem served_calls_are_guarded (flag : Flag) (vip0 vip : viper) (m : Machine) :
  idle m -> loadConfigFileFromCommandLine ReadFile exists_ flag vip0 = Returned vip ->
  wp (ServeCmd_Run networkIdNameMapping registryAddressJson exists_ flag vip0)
    (fun _ m' => forall server l, In (ServeGrpc server l) (served m') ->
       exists unknown i size chain, created m' !! server = Some (unknown, i, size) /\
         objects (host m') !! i = Some (AnInterceptorChain chain) /\
         guards (GetBool (viper_getters vip) BlockchainEnabledKey) chain /\
         forall handler, In (PaymentValidationInterceptor handler) chain ->
           exists service processor price,
             objects (host m') !! handler = Some (APaymentHandler service processor price)) m.
Proof.
  intros Hi Hload. eapply wp_mono; [by apply (wp_ServeCmd _ _ vip)|].
  intros o m' (m1 & r & [[Hw Hg] _] & _ & [[= Ho Hf] _] & _ & _ & _ & Hm) server l Hin.
  rewrite Hm in Hin. destruct (Hg server l Hin) as (u & i & z & chain & Hu & Hc & Hch).
  exists u, i, z, chain. rewrite Ho. split; [by rewrite Hm|]. do 2 (split; [done|]).
  intros handler Hh.
  assert (set_fields (host m1) !! escrowPaymentHandler = Some handler) as Hs.
  { eapply (wired_parts _ _ Hw); [exact Hc|]. apply in_concat.
    exists [(escrowPaymentHandler, handler)]. split; [|by left]. apply in_map_iff.
    by exists (PaymentValidationInterceptor handler). }
  destruct (wired_fields _ _ Hw _ _ Hs) as (x & Hx & [Hx'|[? _]]); [|done].
  destruct x; try done. eauto.
Qed.

(** C30: However a daemon ends short of the exit of the process, by a signal or a
    panic, the components it has constructed are closed: the etcd server and the
    connections to etcd and the blockchain. When it ends by a signal it has also
    closed its ports and stopped its server. A daemon without the blockchain
    always ends with a panic: it closes a connection it does not have. *)
Theorem daemon_closes_what_it_opened (flag : Flag) (vip0 vip : viper) (m : Machine) :
  idle m -> loadConfigFileFromCommandLine ReadFile exists_ flag vip0 = Returned vip ->
  wp (ServeCmd_Run networkIdNameMapping registryAddressJson exists_ flag vip0)
    (fun o m' =>
       (forall i x, objects (host m') !! i = Some x -> object_closed x (host m')) /\
       (o = Returned tt -> listeners m' = ∅ /\ servers m' = ∅ /\
          GetBool (viper_getters vip) BlockchainEnabledKey = true)) m.
Proof.
  intros Hi Hload. eapply wp_mono; [by apply (wp_ServeCmd _ _ vip)|].
  intros o m' (m1 & r & [[Hw _] _] & Hr & [[= Ho Hf] _] & _ & Hc & Hp & Hm). split.
  - intros i x. rewrite Ho. apply Hc.
  - intros Hret. destruct (Hr Hret) as ((i & c & Hi') & Hl & Hs & ->). rewrite Hm. cbn.
    split; [done|]. split; [done|]. pose proof (wired_ok _ _ Hw _ _ Hi') as Hok. cbn in Hok.
    destruct (GetBool _ _); [done|]. exfalso. destruct c as [c|]; [done|].
    by apply Hp in Hi'.
Qed.

(** C37: The commands that list channels and claims never work when the blockchain
    is enabled: they construct the channel service without the check of the
    configuration that selects the network, so that there is no endpoint to
    connect to, and every run ends with a panic. *)
Theorem list_commands_panic {A} (flag : Flag) (vip0 vip : viper)
    (run : nat -> prog StartE (result A)) (h : Host) :
  fresh h -> EthereumJSONRPCEndpoint (network h) = EmptyString ->
  loadConfigFileFromCommandLine ReadFile exists_ flag vip0 = Returned vip ->
  GetBool (viper_getters vip) BlockchainEnabledKey = true ->
  wp (RunAndCleanup (fun X e => e) exists_ flag vip0 newListCommand run)
    (fun o _ => exists msg, o = Panicked msg) h.
Proof.
  intros [_ Hf] He Hload Hb. unfold RunAndCleanup, InitComponents. rewrite Hload.
  cbn [resume catch bind embed]. unfold bind_ok, newListCommand. apply wp_catch. do 2 apply wp_bind.
  eapply wp_mono; [by apply ChannelService_panics|]. intros o h1 [msg ->]. cbv beta iota.
  apply wp_bind. eapply wp_mono; [apply wp_any|]. intros [[]|e] h2 _; by eexists.
Qed.
End lifecycle_theorems.
