(* ===== verification/Executions.v ===== *)
(** * Executions without faults

    The fault-free runs of [Sequential] are executions of the server of
    [Safety]: a request that runs alone for some number of operations, from
    any state the server has reached. *)
From S2P Require Import Prelude Prog Bytes AtomicStorage Lock Blockchain PaymentChannelStorage.
From S2P Require Import World RelyGuarantee Concurrency Requests Safety.
Local Open Scope Z_scope.

(** The storage answers the requests that take and release locks. *)
Definition answered {X} (e : DaemonE X) : X -> Prop :=
  match e in DaemonE X return X -> Prop with
  | StorageEvent e =>
      match e in StorageE X return X -> Prop with
      | SPutIfAbsent _ _ | SCompareAndSwap _ _ _ => fun x => ~ is_err x
      | _ => fun _ => True
      end
  | _ => fun _ => True
  end.

Section healthy.
Context `{!GoEthereum, !EscrowCodec} (metadata : ServiceMetadata.ServiceMetadata).

(** The steps of the server in which the requests on lock entries are answered;
    those of a request are marked with its number. *)
Inductive healthy_step : option nat -> server -> server -> Prop :=
| healthy_thread ps s t X (e : DaemonE X) k x w :
    ps !! t = Some (Vis e k) -> contract e (world s) x w -> answered e x ->
    healthy_step (Some t) (ps, s) (<[t := k x]> ps, next t s w)
| healthy_spawn ps s p :
    Request metadata p -> healthy_step None (ps, s) (ps ++ [p], s)
| healthy_env ps s s' :
    environment_step s s' -> healthy_step None (ps, s) (ps, s').

(** The request [t] stops. *)
Inductive stops (t : nat) : server -> server -> Prop :=
| server_stops ps s p : ps !! t = Some p -> stops t (ps, s) (<[t := crashed]> ps, disown t s).

Definition any_healthy_step (c c' : server) : Prop :=
  (exists l, healthy_step l c c') \/ exists t, stops t c c'.

Lemma healthy_server_step l c c' : healthy_step l c c' -> server_step metadata c c'.
Proof.
  intros [ps s t X e k x w Ht Hc _|ps s p Hp|ps s s' He].
  - eapply pool_thread; [done|]. by exists w.
  - by apply pool_spawn.
  - by apply pool_env.
Qed.

Lemma stops_server_step t c c' : stops t c c' -> server_step metadata c c'.
Proof. intros [ps s p Hp]. by eapply pool_stop. Qed.

Lemma any_healthy_server_step c c' : any_healthy_step c c' -> server_step metadata c c'.
Proof. intros [[l Hl]|[t Ht]]; [by eapply healthy_server_step|by eapply stops_server_step]. Qed.
End healthy.

Section executions.
Context `{!GoEthereum, !EscrowCodec, !EthereumNode} (metadata : ServiceMetadata.ServiceMetadata).

#[local] Instance executions_logic : RelyGuarantee DaemonE State :=
  daemon_rely_guarantee metadata.

(** At most [n] operations of the thread [t]. *)
Fixpoint exec (n : nat) (t : nat) (p : prog DaemonE unit) (s : State)
  : prog DaemonE unit * State :=
  match n, p with
  | S n, Vis e k =>
      let xw := daemon_call e (world s) in exec n t (k xw.1) (next t s xw.2)
  | _, _ => (p, s)
  end.

Definition finished {A} (p : prog DaemonE A) : bool :=
  match p with Vis _ _ => false | _ => true end.

Lemma not_finished {A} (p : prog DaemonE A) :
  finished p = false -> exists X (e : DaemonE X) k, p = Vis e k.
Proof. destruct p as [| |X e k]; [done..|]. by exists X, e, k. Qed.

Lemma daemon_call_contract {X} (e : DaemonE X) w :
  hex_readable -> 0 <= block w ->
  contract e w (daemon_call e w).1 (daemon_call e w).2 /\
  block (daemon_call e w).2 = block w.
Proof.
  intros readable Hb. destruct e as [X e|id| |]; simpl.
  - pose proof (memoryStorage_implements X e (store w)) as Hm.
    change (implementation e (store w)) with (memoryStorage_call e (store w)) in Hm.
    destruct (memoryStorage_call e (store w)) as [r m]. simpl in *.
    split; [|done]. by exists m.
  - by split; [split; [|right]|].
  - by split.
  - split; [|done]. split; [done|right]. eexists. split; [done|by apply readable].
Qed.

Lemma daemon_call_answered {X} (e : DaemonE X) w : answered e (daemon_call e w).1.
Proof.
  destruct e as [X e| | |]; [|done..]. destruct e as [k|p|k v|k v|k p n|k]; try done; simpl.
  - unfold memoryStorage_PutIfAbsent, memoryStorage_unsafeGet.
    by destruct (store w !! k); intros [].
  - unfold memoryStorage_CompareAndSwap, memoryStorage_unsafeGet.
    destruct (store w !! k); [case_decide|]; by intros [].
Qed.

Lemma exec_healthy n ps t p s :
  hex_readable -> 0 <= block (world s) -> ps !! t = Some p ->
  rtc (any_healthy_step metadata) (ps, s)
    (<[t := (exec n t p s).1]> ps, (exec n t p s).2).
Proof.
  intros readable. revert ps p s. induction n as [|n IH]; intros ps p s Hb Hp.
  { simpl. by rewrite list_insert_id. }
  destruct p as [a|m|X e k]; [by rewrite list_insert_id..|]. simpl.
  destruct (daemon_call_contract e (world s) readable Hb) as [Hc Hb'].
  eapply rtc_l.
  - left. exists (Some t). eapply healthy_thread; [done..|apply daemon_call_answered].
  - set (p' := k (daemon_call e (world s)).1).
    set (s' := next t s (daemon_call e (world s)).2).
    specialize (IH (<[t := p']> ps) p' s'). rewrite list_insert_insert_eq in IH.
    apply IH; [by rewrite <-Hb' in Hb|].
    apply list_lookup_insert_eq. by eapply lookup_lt_Some.
Qed.

Lemma healthy_steps c c' :
  rtc (any_healthy_step metadata) c c' -> rtc (server_step metadata) c c'.
Proof. apply rtc_subrel. intros c1 c2. apply any_healthy_server_step. Qed.

(** A request that arrives when the server is in [(ps, s)]. *)
Lemma exec_request_healthy n ps p s :
  hex_readable -> 0 <= block (world s) -> Request metadata p ->
  let c := exec n (length ps) p s in
  rtc (any_healthy_step metadata) (ps, s) (ps ++ [c.1], c.2).
Proof.
  intros readable Hb Hp c. eapply rtc_l; [left; exists None; by apply healthy_spawn|].
  pose proof (exec_healthy n (ps ++ [p]) (length ps) p s readable Hb) as Hs.
  rewrite list_lookup_middle in Hs by done. specialize (Hs eq_refl).
  replace (length ps) with (length ps + 0)%nat in Hs at 1 by lia.
  by rewrite insert_app_r in Hs.
Qed.

Lemma exec_request n ps p s :
  hex_readable -> 0 <= block (world s) -> Request metadata p ->
  let c := exec n (length ps) p s in rtc (server_step metadata) (ps, s) (ps ++ [c.1], c.2).
Proof. intros. by apply healthy_steps, exec_request_healthy. Qed.

Lemma reach_exec n s0 ps p s :
  hex_readable -> 0 <= block (world s) -> reachable metadata s0 (ps, s) ->
  Request metadata p ->
  let c := exec n (length ps) p s in reachable metadata s0 (ps ++ [c.1], c.2).
Proof. intros. unfold reachable in *. etrans; [done|by apply exec_request]. Qed.

(** The operation after the first [n]. *)
Lemma exec_S n t p s :
  exec (S n) t p s = exec 1 t (exec n t p s).1 (exec n t p s).2.
Proof.
  revert p s. induction n as [|n IH]; intros [a|m|X e k] s; try done.
  change (exec (S (S n)) t (Vis e k) s)
    with (exec (S n) t (k (daemon_call e (world s)).1) (next t s (daemon_call e (world s)).2)).
  by rewrite IH.
Qed.

Lemma exec_block n t p s :
  hex_readable -> 0 <= block (world s) -> block (world (exec n t p s).2) = block (world s).
Proof.
  intros readable. revert p s. induction n as [|n IH]; intros [a|m|X e k] s Hb; try done.
  simpl. destruct (daemon_call_contract e (world s) readable Hb) as [_ Hb'].
  rewrite IH; simpl; [done|]. by rewrite Hb'.
Qed.

Lemma exec_next n ps p s :
  let c := exec n (length ps) p s in let c' := exec (S n) (length ps) p s in
  hex_readable -> 0 <= block (world s) -> finished c.1 = false ->
  server_step metadata (ps ++ [c.1], c.2) (ps ++ [c'.1], c'.2).
Proof.
  intros c c' readable Hb Hf. subst c'. rewrite exec_S. fold c.
  assert (0 <= block (world c.2)) as Hb' by by (unfold c; rewrite exec_block).
  destruct c as [q s']. simpl in *. destruct q as [a|m|X e k]; [done..|]. simpl.
  destruct (daemon_call_contract e (world s') readable Hb') as [Hc _].
  replace (ps ++ [k (daemon_call e (world s')).1])
    with (<[length ps := k (daemon_call e (world s')).1]> (ps ++ [Vis e k])).
  - eapply pool_thread; [by apply list_lookup_middle|].
    exists (daemon_call e (world s')).2. by split.
  - replace (length ps) with (length ps + 0)%nat by lia. by rewrite insert_app_r.
Qed.
End executions.

(** A daemon that starts with an empty storage. *)
Definition first_state (w : World) : State := mkState (set_store ∅ w) (fun _ => None).

Lemma first_state_ok `{!GoEthereum, !EscrowCodec} metadata w :
  (forall c, In c (contract_states w) -> contract_ok c) -> state_ok metadata (first_state w).
Proof.
  intros Hc. split; [done|intros id; apply grown_refl|exact Hc|..].
  - intros id c. unfold stored, stored_channel. simpl.
    destruct (serialize (channel_key id)); [|done]. by rewrite lookup_empty.
  - intros id n p. unfold claimed, stored_payment. simpl.
    destruct (serialize (claim_id id n)); [|done]. by rewrite lookup_empty.
Qed.
