(* ===== verification/StreamHandlers.v ===== *)
(** * The handlers of the services

    [NewGrpcHandler] of [handler/grpc.go] makes one of four stream handlers. Here
    they are the programs that a call runs: three exchange one message each way
    with the service ([Forwarding]); the gRPC proxy starts the goroutines of
    [Proxy] and waits for its loop. What a handler that ended without an error has
    done is specified by [service_complete]. *)
From S2P Require Import Prelude Prog Bytes Handler Forwarding Proxy.
Local Open Scope Z_scope.

(** ** Operations

    A handler exchanges messages itself, or starts the goroutines of a proxy and
    waits for the result of its loop. *)
Inductive HandlerE `{!JsonRpc} : Type -> Type :=
| Service {X} (e : ServiceE X) : HandlerE X
| StartProxy (p : Proxy) : HandlerE unit
| AwaitProxy : HandlerE (result unit).

(** What a handler has done. *)
Inductive HandlerEvent `{!JsonRpc} :=
| Exchanged (x : Exchange)
| ProxyStarted (p : Proxy)
| ProxyEnded (r : result unit).

Definition handler_event `{!JsonRpc} {X} (e : HandlerE X) : X -> HandlerEvent :=
  match e in HandlerE X return X -> HandlerEvent with
  | Service e => fun x => Exchanged (exchange e x)
  | StartProxy p => fun _ => ProxyStarted p
  | AwaitProxy => ProxyEnded
  end.

(** The proxies that have been started, each with the events since. *)
Abbreviation Proxies := (nat -> option (Proxy * list ProxyEvent)).

Definition set_proxy (t : nat) (pl : Proxy * list ProxyEvent) (ps : Proxies) : Proxies :=
  fun u => if decide (u = t) then Some pl else ps u.

(** A handler waits until the loop of its proxy has returned. *)
Definition proxies_step `{!JsonRpc} (t : nat) {X} (e : HandlerE X) (ps : Proxies)
  : X -> Proxies -> Prop :=
  match e in HandlerE X return X -> Proxies -> Prop with
  | Service _ => fun _ ps' => ps' = ps
  | StartProxy p => fun _ ps' => ps t = None /\ ps' = set_proxy t (p, []) ps
  | AwaitProxy => fun r ps' => ps' = ps /\
      exists p l q, ps t = Some (p, l) /\ proxy_run p l = Some q /\ loop q = Finished r
  end.

(** ** The handlers

    The stream handlers as handlers of a call, by its method, its metadata and the
    opening of a stream to the service. *)
Section stream_handlers.
Context `{!JsonRpc} (method : option string) (md : option MD)
  (NewStream : MD -> string -> string -> result unit).

Definition proxy_handler (g : grpcHandler) : prog HandlerE (result unit) :=
  match grpcToGRPC g method md NewStream with
  | inr err => Ret (Err err)
  | inl p => let! _ := trigger (StartProxy p) in trigger AwaitProxy
  end.

Definition stream_handler (h : option StreamHandler) : prog HandlerE (result unit) :=
  match h with
  | None => Panic nil_dereference
  | Some Handler_Loopback => embed (@Service _) grpcLoopback
  | Some (Handler_GrpcToGRPC g) => proxy_handler g
  | Some (Handler_GrpcToJSONRPC g) => embed (@Service _) (grpcToJSONRPC g method)
  | Some (Handler_GrpcToProcess g) => embed (@Service _) (grpcToProcess g method)
  end.
End stream_handlers.

Section handled.
Context `{!JsonRpc}.

(** ** What a handler has exchanged *)

(** [handled h l h']: after the exchanges [l] the rest of the handler [h] is [h']. *)
Inductive handled (h : prog HandlerE (result unit))
  : list HandlerEvent -> prog HandlerE (result unit) -> Prop :=
| handled_nothing : handled h [] h
| handled_more l X (e : HandlerE X) k x :
    handled h l (Vis e k) -> handled h (l ++ [handler_event e x]) (k x).

(** Any answer; the event is recorded. *)
#[local] Instance HandlerE_contract : Contract HandlerE (list HandlerEvent) :=
  fun X e w x w' => w' = w ++ [handler_event e x].

(** What [wp] says of a handler holds of what it has done. *)
Lemma handled_wp h l h' Q : handled h l h' -> wp h Q [] -> wp h' Q l.
Proof.
  intros Hh Hw. induction Hh as [|l X e k x Hh IH]; [done|]. by apply (IH x).
Qed.

Lemma wp_service (h : prog ServiceE (result unit)) Q l :
  wp h Q l ->
  wp (embed (@Service _) h) (fun o l' => exists l, l' = Exchanged <$> l /\ Q o l)
    (Exchanged <$> l).
Proof.
  revert l. induction h as [a|m|X e k IH]; intros l Hw; [by exists l..|].
  intros x l' ->. assert ((Exchanged <$> l) ++ [handler_event (Service e) x]
    = Exchanged <$> (l ++ [exchange e x])) as -> by by rewrite fmap_app.
  by apply IH, Hw.
Qed.

Definition was_answered (handler : prog HandlerE (result unit)) (l : list HandlerEvent) : Prop :=
  handled handler l (Ret (Ok tt)).


(** ** Proxies

    What is known of the proxy of a handler that has done [l]. *)
Definition proxy_history (l : list HandlerEvent) (pl : option (Proxy * list ProxyEvent)) : Prop :=
  match pl with
  | None => forall ev, ev ∈ l -> exists x, ev = Exchanged x
  | Some (p, evs) => ProxyStarted p ∈ l /\ (forall p', ProxyStarted p' ∈ l -> p' = p) /\
      is_Some (proxy_run p evs) /\
      forall r, ProxyEnded r ∈ l -> exists q, proxy_run p evs = Some q /\ loop q = Finished r
  end.

Lemma proxy_run_app p l l' :
  proxy_run p (l ++ l') = match proxy_run p l with Some q => proxy_run q l' | None => None end.
Proof.
  revert p. induction l as [|ev l IH]; intros p; simpl; [done|]. by destruct (proxy_step p ev).
Qed.

(** The loop has returned for good; the goroutines may go on. *)
Lemma finished_step p ev q r :
  loop p = Finished r -> proxy_step p ev = Some q -> loop q = Finished r.
Proof.
  intros Hl Hs. destruct ev as [op|op| |md]; simpl in Hs.
  - destruct (forward false (s2c p) op); [|done]. by injection Hs as <-.
  - destruct (forward true (c2s p) op); [|done]. by injection Hs as <-.
  - unfold select_s2c in Hs. by rewrite Hl in Hs.
  - unfold select_c2s in Hs. by rewrite Hl in Hs.
Qed.

Lemma proxy_history_event l p evs ev :
  proxy_history l (Some (p, evs)) -> is_Some (proxy_run p (evs ++ [ev])) ->
  proxy_history l (Some (p, evs ++ [ev])).
Proof.
  intros (Hin & Hu & _ & He) Hs. split; [done|]. split; [done|]. split; [done|].
  intros r Hr. destruct (He r Hr) as (q & Hq & Hl). destruct Hs as [q' Hq'].
  exists q'. split; [done|]. rewrite proxy_run_app, Hq in Hq'. simpl in Hq'.
  destruct (proxy_step q ev) as [q1|] eqn:Hstep; [|done]. injection Hq' as <-.
  by eapply finished_step.
Qed.

Lemma elem_of_snoc (ev ev' : HandlerEvent) l : ev ∈ l ++ [ev'] <-> ev ∈ l \/ ev = ev'.
Proof. by rewrite elem_of_app, list_elem_of_singleton. Qed.

Lemma proxy_history_step t {X} (e : HandlerE X) ps x ps' l :
  proxies_step t e ps x ps' -> proxy_history l (ps t) ->
  proxy_history (l ++ [handler_event e x]) (ps' t).
Proof.
  intros Hs Hh. destruct e as [X e|p|].
  - rewrite Hs. destruct (ps t) as [[p evs]|]; simpl.
    + destruct Hh as (Hin & Hu & Hrun & He). setoid_rewrite elem_of_snoc.
      split; [by left|]. split; [intros p' [?|Hn]; [auto|done]|]. split; [done|].
      intros r [?|Hn]; [auto|done].
    + setoid_rewrite elem_of_snoc. intros ev [?| ->]; [auto|by eexists].
  - destruct Hs as [Hn ->]. rewrite Hn in Hh. unfold set_proxy. rewrite decide_True by done.
    simpl. setoid_rewrite elem_of_snoc. split; [by right|]. split; [|split; [by eexists|]].
    + intros p' [Hp|Heq]; [destruct (Hh _ Hp) as [y Hy]; discriminate|by injection Heq].
    + intros r [Hp|Heq]; [destruct (Hh _ Hp) as [y Hy]; discriminate|discriminate].
  - destruct Hs as (-> & p & evs & q & Hp & Hrun & Hl). rewrite Hp in *. simpl.
    destruct Hh as (Hin & Hu & Hsome & He). setoid_rewrite elem_of_snoc.
    split; [by left|]. split; [intros p' [?|Hn]; [auto|done]|]. split; [done|].
    intros r [?|Heq]; [auto|]. injection Heq as ->. by exists q.
Qed.

Lemma proxies_step_other t {X} (e : HandlerE X) ps x ps' u :
  proxies_step t e ps x ps' -> u <> t -> ps' u = ps u.
Proof.
  intros Hs Hu. destruct e as [X e|p|]; [by rewrite Hs| |by destruct Hs as [-> _]].
  destruct Hs as [_ ->]. unfold set_proxy. by rewrite decide_False.
Qed.

(** ** What a handler that ended without an error has done

    One complete exchange with the service; or the loop of the proxy has ended
    without an error, and, unless sending to the caller fails with the error
    that gRPC has for the end of a stream only, the caller has been sent every
    message of the service. *)
Definition service_complete (h : StreamHandler) (method : string) (l : list HandlerEvent)
    (pl : option (Proxy * list ProxyEvent)) : Prop :=
  match h with
  | Handler_Loopback => exists f, l = Exchanged <$> [Received (inl f); Sent f (Ok tt)]
  | Handler_GrpcToJSONRPC g => exists xs, l = Exchanged <$> xs /\ jsonrpc_exchange g method xs
  | Handler_GrpcToProcess g => exists xs, l = Exchanged <$> xs /\ process_exchange g method xs
  | Handler_GrpcToGRPC g =>
      l = [ProxyStarted new_proxy; ProxyEnded (Ok tt)] /\
      exists evs q, pl = Some (new_proxy, evs) /\ proxy_run new_proxy evs = Some q /\
        loop q = Finished (Ok tt) /\
        (Forall caller_status_errors evs -> dir_sent (c2s q) = dir_received (c2s q))
  end.

Record exchange_complete (handler : prog HandlerE (result unit)) (l : list HandlerEvent)
    (pl : option (Proxy * list ProxyEvent)) : Prop := {
  complete_answered : was_answered handler l;
  complete_service h method md NewStream :
    handler = stream_handler (Some method) md NewStream (Some h) ->
    service_complete h method l pl }.

Lemma wp_proxy_handler method md NewStream g :
  wp (proxy_handler method md NewStream g)
    (fun o l => o = Returned (Ok tt) -> l = [ProxyStarted new_proxy; ProxyEnded (Ok tt)]) [].
Proof.
  unfold proxy_handler, grpcToGRPC. destruct method as [m|]; [|done]. destruct md as [md|]; [|done].
  destruct (NewStream md m (handler_enc g)) as [u|e]; [|done].
  intros x l -> r l' ->. by intros [= ->].
Qed.

Lemma proxy_complete l p evs :
  l = [ProxyStarted new_proxy; ProxyEnded (Ok tt)] -> proxy_history l (Some (p, evs)) ->
  exists q, p = new_proxy /\ proxy_run new_proxy evs = Some q /\ loop q = Finished (Ok tt) /\
    (Forall caller_status_errors evs -> dir_sent (c2s q) = dir_received (c2s q)).
Proof.
  intros -> (_ & Hu & _ & He). rewrite <-(Hu new_proxy) in * by set_solver.
  destruct (He (Ok tt)) as (q & Hq & Hl); [set_solver|]. exists q.
  split; [done|]. split; [done|]. split; [done|]. intros Hreg.
  pose proof (ok_loop _ (proxy_run_ok _ _ _ Hq proxy_ok_new)) as Hok.
  unfold loop_ok in Hok. rewrite Hl in Hok.
  destruct Hok as [(e & Hd & _ & _ & Hr)|(e & _ & _ & _ & [=])]. destruct e as [|e]; [|done].
  apply (ends_after_all_run _ _ _ Hreg Hq proxy_ok_new); [by intros [|]|by right].
Qed.

Lemma answered_complete handler l pl :
  was_answered handler l -> proxy_history l pl -> exchange_complete handler l pl.
Proof.
  intros Ha Hh. split; [done|]. intros h method md NewStream ->. destruct h as [|g|g|g].
  - destruct (handled_wp _ _ _ _ Ha (wp_service _ _ [] loopback_answers))
      as (xs & -> & r & [= <-] & (f & ->) & _). by exists f.
  - pose proof (handled_wp _ _ _ _ Ha (wp_proxy_handler (Some method) md NewStream g) eq_refl) as Hl.
    split; [done|]. destruct pl as [[p evs]|].
    + destruct (proxy_complete _ _ _ Hl Hh) as (q & -> & Hq). by exists evs, q.
    + destruct (Hh (ProxyEnded (Ok tt))) as [x [=]]. rewrite Hl. set_solver.
  - destruct (handled_wp _ _ _ _ Ha (wp_service _ _ [] (jsonrpc_answers g (Some method))))
      as (xs & -> & r & [= <-] & (m & [= <-] & He) & _). by exists xs.
  - destruct (handled_wp _ _ _ _ Ha (wp_service _ _ [] (process_answers g (Some method))))
      as (xs & -> & r & [= <-] & (m & [= <-] & He) & _). by exists xs.
Qed.
End handled.
