(* ===== verification/Discipline.v ===== *)
(** * The keys that requests write

    Whatever the storage and the blockchain answer, the requests of the daemon
    use put-if-absent for the entries of channel locks only, and never write
    such an entry unconditionally. [Replicas] needs this: it is what makes
    put-if-absent atomic over etcd, where it is several operations. *)
From S2P Require Import Prelude Prog Bytes AtomicStorage Lock Blockchain PaymentChannelApi.
From S2P Require Import PaymentChannelStorage Validation Escrow Handler EscrowHandler.
From S2P Require Import StateService ControlService World Concurrency Requests.
Import AtomicStorage.
Import Payment (Payment) PaymentChannelData (PaymentChannelData) Claim (Claim)
  PaymentTransaction (PaymentTransaction) PaymentHandler (PaymentHandler)
  PaymentChannelService (PaymentChannelService) ServiceMetadata (ServiceMetadata).
Local Open Scope Z_scope.

(** The entries of channel locks. *)
Definition is_lock_key (key : string) : bool :=
  String.prefix (prefixed_key locker_prefix "") key.

(** An operation that a request may make. *)
Definition permitted {X} (e : DaemonE X) : Prop :=
  match e with
  | StorageEvent e =>
      match e with
      | SPut key _ => is_lock_key key = false
      | SPutIfAbsent key _ => is_lock_key key = true
      | _ => True
      end
  | _ => True
  end.

(** An operation that changes the entries of locks at most. *)
Definition keeps_records {X} (e : DaemonE X) : Prop :=
  match e with
  | StorageEvent e =>
      match e with
      | SPut _ _ | SDelete _ => False
      | SPutIfAbsent key _ | SCompareAndSwap key _ _ => is_lock_key key = true
      | _ => True
      end
  | _ => True
  end.

Lemma keeps_records_permitted {X} (e : DaemonE X) : keeps_records e -> permitted e.
Proof. destruct e as [X e| | |]; [|done..]. by destruct e. Qed.

(** ** A logic for all the operations of a program, whatever they answer *)

Section logic.
Context {E : Type -> Type} {P : forall X, E X -> Prop}.

Fixpoint obeys {A} (p : prog E A) (Q : outcome A -> Prop) : Prop :=
  match p with
  | Ret a => Q (Returned a)
  | Panic m => Q (Panicked m)
  | Vis e k => P _ e /\ forall x, obeys (k x) Q
  end.

Definition all_operations {A} (p : prog E A) : Prop := obeys p (fun _ => True).

Lemma obeys_mono {A} (p : prog E A) (Q Q' : outcome A -> Prop) :
  obeys p Q -> (forall o, Q o -> Q' o) -> obeys p Q'.
Proof.
  intros Hp HQ. induction p as [a|m|X e k IH]; simpl in *; [auto..|].
  destruct Hp as [He Hk]. split; [done|]. intros x. by apply IH.
Qed.

Lemma obeys_bind {A B} (p : prog E A) (f : A -> prog E B) R Q :
  obeys p R ->
  (forall o, R o -> match o with
                    | Returned a => obeys (f a) Q
                    | Panicked m => Q (Panicked m)
                    end) ->
  obeys (bind p f) Q.
Proof.
  intros Hp HR. induction p as [a|m|X e k IH]; simpl in *; [by apply (HR _ Hp)..|].
  destruct Hp as [He Hk]. split; [done|]. intros x. by apply IH.
Qed.

Lemma obeys_catch {A B} (p : prog E A) (h : outcome A -> prog E B) R Q :
  obeys p R -> (forall o, R o -> obeys (h o) Q) -> obeys (catch p h) Q.
Proof.
  intros Hp HR. induction p as [a|m|X e k IH]; simpl in *; [by apply HR..|].
  destruct Hp as [He Hk]. split; [done|]. intros x. by apply IH.
Qed.

(** The rules for programs of which only the operations matter. *)
Lemma all_vis {X A} (e : E X) (k : X -> prog E A) :
  P _ e -> (forall x, all_operations (k x)) -> all_operations (Vis e k).
Proof. by split. Qed.

Lemma all_bind {A B} (p : prog E A) (f : A -> prog E B) :
  all_operations p -> (forall a, all_operations (f a)) -> all_operations (bind p f).
Proof. intros Hp Hf. eapply obeys_bind; [exact Hp|]. intros [a|m] _; [apply Hf|done]. Qed.

Lemma all_bind_ok {A B} (p : prog E (result A)) (f : A -> prog E (result B)) :
  all_operations p -> (forall a, all_operations (f a)) -> all_operations (bind_ok p f).
Proof. intros Hp Hf. apply all_bind; [done|]. by intros [a|e]. Qed.

Lemma all_catch {A B} (p : prog E A) (h : outcome A -> prog E B) :
  all_operations p -> (forall o, all_operations (h o)) -> all_operations (catch p h).
Proof. intros Hp Hh. eapply obeys_catch; [exact Hp|]. intros o _. apply Hh. Qed.
End logic.
Arguments obeys {E} P {A} _ _.
Arguments all_operations {E} P {A} _.

Lemma all_single {P : forall X, DaemonE X -> Prop} {A} (p : prog DaemonE A) :
  single p -> match p with Vis e _ => P _ e | _ => True end -> all_operations P p.
Proof.
  destruct p as [a|m|X e k]; [done..|]. intros Hs He. apply all_vis; [done|].
  intros x. specialize (Hs x). by destruct (k x).
Qed.

Lemma obeys_weaken {E} (P P' : forall X, E X -> Prop) {A} (p : prog E A) Q :
  (forall X (e : E X), P _ e -> P' _ e) -> obeys P p Q -> obeys P' p Q.
Proof.
  intros HP. induction p as [a|m|X e k IH]; simpl; [done..|].
  intros [He Hk]. split; [by apply HP|]. intros x. by apply IH.
Qed.

(** A program among other operations. *)
Lemma obeys_embed {E F} (f : forall X, E X -> F X) (P : forall X, E X -> Prop)
    (P' : forall X, F X -> Prop) {A} (p : prog E A) Q :
  (forall X (e : E X), P _ e -> P' _ (f _ e)) -> obeys P p Q -> obeys P' (embed f p) Q.
Proof.
  intros HP. induction p as [a|m|X e k IH]; simpl; [done..|].
  intros [He Hk]. split; [by apply HP|]. intros x. by apply IH.
Qed.

(** Programs that change no records, and programs that a request may run. *)
Definition harmless {A} (p : prog DaemonE A) : Prop := all_operations (@keeps_records) p.
Definition obedient {A} (p : prog DaemonE A) : Prop := all_operations (@permitted) p.

Lemma obeys_permitted {A} (p : prog DaemonE A) Q :
  obeys (@keeps_records) p Q -> obeys (@permitted) p Q.
Proof. apply obeys_weaken. intros X e. apply keeps_records_permitted. Qed.

Lemma harmless_obedient {A} (p : prog DaemonE A) : harmless p -> obedient p.
Proof. apply obeys_permitted. Qed.

Section requests.
Context `{!GoEthereum, !EscrowCodec} (metadata : ServiceMetadata).

Local Abbreviation service := (Components_PaymentChannelService metadata).
Local Abbreviation control := (Components_ProviderControlService metadata).
Local Abbreviation escrow_handler := (Components_EscrowPaymentHandler metadata).
Local Abbreviation locker := (mkEtcdLocker DaemonE
  (PrefixedAtomicStorage_object (NewLockerStorage daemon_storage))).

(** ** The storages and the locks *)

Lemma harmless_channel_get key :
  harmless (PaymentChannelStorage_Get (NewPaymentChannelStorage daemon_storage) key).
Proof.
  apply all_single; [apply single_channel_get|].
  unfold PaymentChannelStorage_Get. simpl.
  by destruct (serialize key).
Qed.

Lemma obedient_channel_put key c :
  obedient (PaymentChannelStorage_Put (NewPaymentChannelStorage daemon_storage) key c).
Proof.
  apply all_single; [apply single_channel_put|].
  unfold PaymentChannelStorage_Put. simpl.
  destruct (serialize key); [|done]. by destruct (serialize c).
Qed.

Lemma obedient_payment_put p :
  obedient (PaymentStorage_Put (NewPaymentStorage daemon_storage) p).
Proof.
  apply all_single; [apply single_payment_put|].
  unfold PaymentStorage_Put. simpl.
  destruct (serialize (Payment_ID p)); [|done]. by destruct (serialize p).
Qed.

Lemma obedient_payment_delete p :
  obedient (PaymentStorage_Delete (NewPaymentStorage daemon_storage) p).
Proof.
  apply all_single; [apply single_payment_delete|].
  unfold PaymentStorage_Delete. simpl.
  by destruct (serialize (Payment_ID p)).
Qed.

(** A list makes one read, of all the entries under a prefix. *)
Lemma harmless_list {A} prefix (f : result (list string) -> prog DaemonE A) :
  (forall vs, harmless (f vs)) -> harmless (bind (GetByKeyPrefix daemon_storage prefix) f).
Proof. by split. Qed.

Lemma lock_entry_key name : is_lock_key (prefixed_key locker_prefix name) = true.
Proof. by destruct name. Qed.

Lemma obeys_Lock name :
  obeys (@keeps_records) (etcdLocker_Lock locker name)
    (fun o => forall l, o = Returned (Ok (Some l)) -> l = lockType locker name).
Proof.
  split; [done|]. intros [[v|]|e]; simpl; [case_decide; [done|]|..|done].
  - split; [apply lock_entry_key|]. intros [[|]|e]; simpl; try done. by intros l [= <-].
  - split; [apply lock_entry_key|]. intros [[|]|e]; simpl; try done. by intros l [= <-].
Qed.

Lemma harmless_unlock name : harmless (Lock_Unlock (lockType locker name)).
Proof. split; [apply lock_entry_key|]. by intros [|]. Qed.

Lemma harmless_release {A} name (o : outcome A) :
  harmless (let! _ := Lock_Unlock (lockType locker name) in resume o).
Proof. apply all_bind; [apply harmless_unlock|]. intros _. by destruct o. Qed.

Lemma obedient_release {A} name (o : outcome A) :
  obedient (let! _ := Lock_Unlock (lockType locker name) in resume o).
Proof. apply harmless_obedient, harmless_release. Qed.

Lemma harmless_chain id :
  harmless (GetChannelStateFromBlockchain
              (NewBlockchainChannelReader (daemon_processor metadata) metadata)
              (channel_key id)).
Proof. apply all_single; [apply single_chain|done]. Qed.

Lemma harmless_PaymentChannel key :
  harmless (lockingPaymentChannelService_PaymentChannel service key).
Proof.
  destruct (PaymentChannel_answer service key) as (k & -> & Hk), key as [id].
  apply all_bind_ok; [apply harmless_channel_get|]. intros channel.
  apply all_bind; [apply harmless_chain|]. intros answer. by rewrite Hk.
Qed.

(** ** Transactions *)

(** A transaction that is handed out belongs to the service and has the lock. *)
Definition own_transaction (tx : paymentTransaction DaemonE) : Prop :=
  transaction_service tx = service /\ exists name, transaction_lock tx = lockType locker name.

Lemma obeys_Validate payment c :
  obeys (@keeps_records)
    (ChannelPaymentValidator_Validate
       (NewChannelPaymentValidator (daemon_processor metadata) metadata) payment c)
    (fun o => forall u, o = Returned (Ok u) -> payment_fits payment c).
Proof.
  unfold ChannelPaymentValidator_Validate.
  destruct (Z.eqb_spec (Payment.ChannelNonce payment) (PaymentChannelData.Nonce c)) as [Hn|];
    [|done].
  destruct (getSignerAddressFromPayment payment) as [a|] eqn:Hs; [|done]. cbn [negb].
  case_decide as Ha; [done|]. subst a.
  eapply obeys_bind; [by apply all_single; [intros [x|e]|]|].
  intros [[b|e]|m] _; [|done..]. destruct (validator_paymentExpirationThreshold _); [|done].
  destruct (_ <=? _); [done|].
  destruct (Z.ltb_spec (PaymentChannelData.FullAmount c) (Payment.Amount payment)); [done|].
  by intros u _.
Qed.

(** The payment was checked against the channel. *)
Definition checked_transaction (payment : Payment) (tx : paymentTransaction DaemonE) : Prop :=
  own_transaction tx /\ transaction_payment tx = payment /\
  payment_fits payment (transaction_channel tx).

Lemma obeys_StartPaymentTransaction payment :
  obeys (@keeps_records) (lockingPaymentChannelService_StartPaymentTransaction service payment)
    (fun o => forall tx, o = Returned (Ok tx) -> checked_transaction payment tx).
Proof.
  unfold lockingPaymentChannelService_StartPaymentTransaction.
  eapply obeys_bind; [apply obeys_Lock|]. intros [[[l|]|e]|m] Hl; [|done..].
  rewrite (Hl l eq_refl). unfold defer. eapply obeys_catch.
  - eapply (obeys_bind _ _ (fun _ => True)
      (fun o => forall tx, o = Returned (Ok tx) -> checked_transaction payment tx)).
    { apply harmless_PaymentChannel. }
    intros [[[c|]|e]|m] _; [|done..].
    eapply obeys_bind; [apply obeys_Validate|]. intros [[u|e]|m] Hu; [|done..].
    simpl. intros tx [= <-]. split; [split; [done|by eexists]|]. split; [done|by apply (Hu u)].
  - intros [[tx|e]|m] Htx; simpl; [|split; [apply lock_entry_key|by intros [|]]|done].
    intros tx' [= <-]. by apply Htx.
Qed.

Lemma obedient_Commit tx : own_transaction tx -> obedient (paymentTransaction_Commit tx).
Proof.
  intros [Hs [name Hl]]. unfold paymentTransaction_Commit, defer. rewrite Hl, Hs.
  apply all_catch; [|intros o; apply obedient_release].
  apply all_bind; [apply obedient_channel_put|]. by intros [u|e].
Qed.

Lemma obeys_Rollback tx :
  own_transaction tx ->
  obeys (@keeps_records) (paymentTransaction_Rollback tx) (fun o => o = Returned (Ok tt)).
Proof.
  intros [Hs [name Hl]]. unfold paymentTransaction_Rollback, defer. rewrite Hl.
  split; [apply lock_entry_key|]. by intros [|].
Qed.

Lemma obedient_StartClaim key update :
  obedient (lockingPaymentChannelService_StartClaim service key update).
Proof.
  unfold lockingPaymentChannelService_StartClaim. unfold obedient.
  eapply obeys_bind; [apply obeys_permitted, obeys_Lock|].
  intros [[[l|]|e]|m] Hl; [|done..]. rewrite (Hl l eq_refl). unfold defer.
  apply all_catch; [|intros o; apply obedient_release].
  apply all_bind_ok; [apply harmless_obedient, harmless_channel_get|]. intros [c|]; [|done].
  apply all_bind; [apply obedient_channel_put|]. intros [u|e]; [|done].
  apply all_bind_ok; [apply obedient_payment_put|]. done.
Qed.

(** ** Calls *)

(** The payment of the metadata was checked and pays the price. *)
Definition validated (context : GrpcStreamContext) (tx : paymentTransaction DaemonE) : Prop :=
  getPaymentFromContext escrow_handler context = inl (transaction_payment tx) /\
  checked_transaction (transaction_payment tx) tx /\
  exists price, GetPriceInCogs metadata = Some price /\
    Payment.Amount (transaction_payment tx)
      = PaymentChannelData.AuthorizedAmount (transaction_channel tx) + price.

Definition payment_outcome (context : GrpcStreamContext)
    (o : outcome (PaymentTransaction DaemonE + GrpcError)) : Prop :=
  match o with
  | Returned (inl transaction) =>
      exists tx, transaction = paymentTransaction_object tx /\ validated context tx
  | Returned (inr err) => is_err (GrpcError_Err err)
  | Panicked _ => True
  end.

Lemma grpc_error_is_error e : is_err (GrpcError_Err (grpc_error_of e)).
Proof.
  destruct e as [m|[c m]|st]; [done| |done]. unfold grpc_error_of. simpl.
  by repeat (destruct (_ =? _); [done|]).
Qed.

Lemma context_error_is_error context err :
  getPaymentFromContext escrow_handler context = inr err -> is_err (GrpcError_Err err).
Proof.
  assert (forall md key e, GetSingleValue md key = inr e -> is_err (GrpcError_Err e)) as Hv.
  { intros md key e. unfold GetSingleValue. by repeat case_match; intros [= <-]. }
  assert (forall md key e, GetBigInt md key = inr e -> is_err (GrpcError_Err e)) as Hb.
  { intros md key e. unfold GetBigInt. destruct (GetSingleValue md key) eqn:Hk.
    - by repeat case_match; intros [= <-].
    - intros [= <-]. by eapply Hv. }
  unfold getPaymentFromContext.
  destruct (GetBigInt _ PaymentChannelIDHeader) eqn:H1; [|intros [= <-]; by eapply Hb].
  destruct (GetBigInt _ PaymentChannelNonceHeader) eqn:H2; [|intros [= <-]; by eapply Hb].
  destruct (GetBigInt _ PaymentChannelAmountHeader) eqn:H3; [|intros [= <-]; by eapply Hb].
  destruct (GetBytes _ PaymentChannelSignatureHeader) eqn:H4; [done|]. intros [= <-].
  unfold GetBytes in H4. destruct (negb _); [by injection H4 as <-|].
  destruct (GetSingleValue _ PaymentChannelSignatureHeader) eqn:Hs; [done|].
  injection H4 as <-. by eapply Hv.
Qed.

Lemma obeys_Payment context :
  obeys (@keeps_records) (paymentChannelPaymentHandler_Payment escrow_handler context)
    (payment_outcome context).
Proof.
  unfold paymentChannelPaymentHandler_Payment, payment_outcome, validated.
  destruct (getPaymentFromContext escrow_handler context) as [payment|e] eqn:Hp;
    [|by eapply context_error_is_error].
  change (PaymentChannelService.StartPaymentTransaction (handler_service escrow_handler) payment)
    with (bind_ok (lockingPaymentChannelService_StartPaymentTransaction service payment)
            (fun transaction => Ret (Ok (paymentTransaction_object transaction)))).
  eapply (obeys_bind _ _ (fun o => forall transaction, o = Returned (Ok transaction) ->
    exists tx, transaction = paymentTransaction_object tx /\ checked_transaction payment tx)).
  { eapply obeys_bind; [apply obeys_StartPaymentTransaction|].
    intros [[tx|e]|m] Htx; [|done..]. intros t [= <-]. exists tx. split; [done|by apply Htx]. }
  intros [[t|e]|m] Ht; [|apply grpc_error_is_error|done].
  destruct (Ht t eq_refl) as (tx & -> & Htx & <- & Hfits).
  change (IncomeValidator_Validate (handler_incomeValidator escrow_handler))
    with (@incomeValidator_Validate DaemonE (mk_incomeValidator (GetPriceInCogs metadata))).
  unfold incomeValidator_Validate. cbn [incomeValidator_priceInCogs].
  destruct (GetPriceInCogs metadata) as [price|]; [|done].
  destruct (Z.eqb_spec (IncomeData_Income (mkIncomeData
    (Payment.Amount (transaction_payment tx) - PaymentChannelData.AuthorizedAmount
       (PaymentTransaction.Channel (paymentTransaction_object tx))) context)) price) as [He|];
    cbn [negb bind].
  - exists tx. split; [done|]. split; [done|]. split; [done|]. exists price.
    split; [done|]. cbn [IncomeData_Income] in He. clear -He.
    change (PaymentTransaction.Channel _) with (transaction_channel tx) in He. lia.
  - eapply obeys_bind; [by apply obeys_Rollback|]. intros [r|m]; [|done].
    intros _. apply grpc_error_is_error.
Qed.

(** The end of a call that was not served: its error goes to the client. *)
Lemma obeys_complete_failure tx o :
  own_transaction tx -> o <> Returned (Ok tt) ->
  obeys (@keeps_records)
    (complete_payment (paymentChannelPaymentHandler_object escrow_handler)
       (paymentTransaction_object tx) o) (fun o' => o' <> Returned (Ok tt)).
Proof.
  intros Htx Ho. destruct o as [[[]|e]|m]; [done|..]; simpl.
  all: eapply (obeys_bind _ _ (fun o => o = Returned None)).
  1, 3: (eapply obeys_bind; [by apply obeys_Rollback|by intros [r|m'] [=->]]).
  all: by intros [r|m'] [= ->].
Qed.

Lemma obedient_complete_payment tx o :
  own_transaction tx ->
  obedient (complete_payment (paymentChannelPaymentHandler_object escrow_handler)
              (paymentTransaction_object tx) o).
Proof.
  intros Htx. assert (o = Returned (Ok tt) \/ o <> Returned (Ok tt)) as [->|Ho].
  { destruct o as [[[]|e]|m]; [by left|by right..]. }
  - apply all_bind; [|intros r; by destruct r].
    apply all_bind; [by apply obedient_Commit|done].
  - eapply obeys_mono; [by apply obeys_permitted, obeys_complete_failure|done].
Qed.

Lemma obedient_call md o :
  obedient (Components_GrpcPaymentValidationInterceptor true metadata md (resume o)).
Proof.
  unfold Components_GrpcPaymentValidationInterceptor, GrpcPaymentValidationInterceptor,
    paymentValidationInterceptor_intercept. cbn [negb].
  destruct (getGrpcContext md) as [context|e]; [|done].
  destruct (getPaymentHandler _ context) as [h|e] eqn:Hh; [|done].
  apply getPaymentHandler_only in Hh as ->. unfold obedient.
  eapply obeys_bind; [apply obeys_permitted, obeys_Payment|].
  intros [[transaction|e]|m] Ht; [|done..]. destruct Ht as (tx & -> & _ & [Htx _] & _).
  apply all_catch; [by destruct o|]. intros o'. by apply obedient_complete_payment.
Qed.

(** ** State and control requests *)

Lemma obeys_ListClaims :
  obeys (@keeps_records) (PaymentChannelService.ListClaims (lockingPaymentChannelService_object service))
    (fun o => forall claims, o = Returned (Ok claims) ->
       exists payments, claims = claim_of <$> payments).
Proof.
  split; [done|]. intros [vs|e]; simpl; [|done].
  destruct (deserialize_all deserialize vs) as [l|e]; simpl; [|done].
  intros claims [= <-]. exists l. by rewrite <-list_fmap_compose.
Qed.

Lemma obedient_remove_claimed payments :
  obedient (remove_claimed control (claim_of <$> payments)).
Proof.
  induction payments as [|p payments IH]; [done|]. rewrite fmap_cons. cbn [remove_claimed].
  apply all_bind_ok; [apply harmless_obedient, (harmless_chain (Payment.ChannelID p))|].
  intros [c|]; [|done]. destruct (_ <? _); [|done].
  apply all_bind_ok; [apply obedient_payment_delete|done].
Qed.

Lemma obedient_removeClaimedPayments : obedient (removeClaimedPayments control).
Proof.
  unfold removeClaimedPayments, obedient. eapply obeys_bind; [apply obeys_permitted, obeys_ListClaims|].
  intros [[claims|e]|m] Hc; [|done..]. destruct (Hc _ eq_refl) as [payments ->].
  apply obedient_remove_claimed.
Qed.

Lemma harmless_ListClaims :
  harmless (PaymentChannelService.ListClaims (lockingPaymentChannelService_object service)).
Proof. eapply obeys_mono; [apply obeys_ListClaims|done]. Qed.

Lemma harmless_compare b : harmless (compareWithLatestBlockNumber control b).
Proof.
  apply (all_vis Dial); [done|]. intros [[]|e]; [|done].
  apply (all_vis BlockNumber); [done|]. intros [x|e]; [|done]. simpl.
  by destruct (_ || _).
Qed.

Lemma obedient_beginClaimOnChannel id : obedient (beginClaimOnChannel control id).
Proof.
  unfold beginClaimOnChannel. apply all_bind_ok; [apply harmless_obedient, harmless_PaymentChannel|].
  intros [c|]; [|done]. destruct (_ =? _); [done|].
  apply all_bind_ok; [|done]. apply all_bind_ok; [apply obedient_StartClaim|done].
Qed.

(** Every request obeys. *)
Lemma obedient_request p : Request metadata p -> obedient p.
Proof.
  intros Hp. destruct Hp; (apply all_bind; [|done]).
  - apply obedient_call.
  - unfold GetChannelState. destruct (getSignerAddressFromMessage _ _); [|done].
    apply all_bind; [apply harmless_obedient, harmless_PaymentChannel|]. intros [[c|]|e]; [|done..].
    case_decide; [done|]. by destruct (PaymentChannelData.Signature c).
  - unfold GetListUnclaimed. destruct (checkMpeAddress _ _); [|done].
    apply all_bind_ok; [apply harmless_obedient, harmless_compare|]. intros u.
    destruct (verifySignerForListUnclaimed _ _); [|done].
    apply all_bind_ok; [|done]. apply all_bind_ok; [|done].
    apply harmless_obedient, harmless_list. intros [vs|e]; [|done]. simpl.
    by destruct (deserialize_all deserialize vs).
  - unfold GetListInProgress. destruct (checkMpeAddress _ _); [|done].
    apply all_bind_ok; [apply harmless_obedient, harmless_compare|]. intros u.
    destruct (verifySignerForListInProgress _ _); [|done].
    apply all_bind_ok; [apply obedient_removeClaimedPayments|]. intros u'.
    apply all_bind_ok; [apply harmless_obedient, harmless_ListClaims|done].
  - unfold ProviderControlService_StartClaim. destruct (checkMpeAddress _ _); [|done].
    apply all_bind_ok; [apply all_bind_ok; [apply harmless_obedient, harmless_PaymentChannel|by intros [c|]]|].
    intros u. apply all_bind_ok; [apply obedient_removeClaimedPayments|].
    intros u'. apply obedient_beginClaimOnChannel.
Qed.
End requests.
