(* ===== verification/PaidCalls.v ===== *)
(** * Paid calls with the handlers of their services

    [Requests] lets the handler of a call end in any way; here the handler is a
    program that exchanges messages with the service ([Forwarding]), or one that
    runs the gRPC proxy ([Proxy]), behind the payment interceptor, and any number
    of such calls are served at the same time as the control and state requests.
    Every execution is one of the server of [Safety]; the service sees a
    call only after its payment was checked, and a channel is charged only for a
    call that the service has answered. *)
From S2P Require Import Prelude Prog Bytes AtomicStorage Lock Blockchain PaymentChannelApi.
From S2P Require Import PaymentChannelStorage Validation Escrow Handler EscrowHandler.
From S2P Require Import StateService ControlService World RelyGuarantee Concurrency Requests.
From S2P Require Import Safety Discipline Forwarding Proxy StreamHandlers.
Import Payment (Payment) PaymentChannelData (PaymentChannelData)
  PaymentTransaction (PaymentTransaction) PaymentHandler (PaymentHandler)
  ServiceMetadata (ServiceMetadata).
Local Open Scope Z_scope.

(** ** The effects and the calls *)

(** The operations of a call: those of the payment code and those of the handler
    of the service. *)
Inductive PaidE `{!JsonRpc} : Type -> Type :=
| PaymentEvent {X} (e : DaemonE X) : PaidE X
| ServiceEvent {X} (e : HandlerE X) : PaidE X.

Section paid.
Context `{!GoEthereum, !EscrowCodec, !JsonRpc} (metadata : ServiceMetadata).

Local Abbreviation escrow_handler :=
  (paymentChannelPaymentHandler_object (Components_EscrowPaymentHandler metadata)).

(** A payment handler among the operations of a call. *)
Definition lift_handler (h : PaymentHandler DaemonE) : PaymentHandler PaidE :=
  PaymentHandler.mk PaidE (PaymentHandler.payment_type h) (PaymentHandler.handler_Type h)
    (fun context => embed (@PaymentEvent _) (PaymentHandler.handler_Payment h context))
    (fun payment => embed (@PaymentEvent _) (PaymentHandler.Complete h payment))
    (fun payment e => embed (@PaymentEvent _) (PaymentHandler.CompleteAfterError h payment e)).

(** A call with the metadata [md] whose service handler is [handler]. *)
Definition served_call (md : option MD) (handler : prog HandlerE (result unit))
  : prog PaidE (result unit) :=
  GrpcPaymentValidationInterceptor (lift_handler escrow_handler) [] md
    (embed (@ServiceEvent _) handler).

(** ** The server *)

(** The state of the payment code, what the handler of each request has done, and
    the proxies. *)
Record PaidState := mkPaidState {
  paid_state : State;
  exchanges : nat -> list HandlerEvent;
  proxies : Proxies }.

Definition paid_world (s : PaidState) : World := world (paid_state s).

Definition set_paid_state (st : State) (s : PaidState) : PaidState :=
  mkPaidState st (exchanges s) (proxies s).

Definition add_event (t : nat) (x : HandlerEvent) (f : nat -> list HandlerEvent)
  : nat -> list HandlerEvent :=
  fun u => if decide (u = t) then f u ++ [x] else f u.

Definition paid_step (t : nat) {X} (e : PaidE X) (s : PaidState) : X -> PaidState -> Prop :=
  match e in PaidE X return X -> PaidState -> Prop with
  | PaymentEvent e => fun x s' =>
      exists w, contract e (paid_world s) x w /\ s' = set_paid_state (next t (paid_state s) w) s
  | ServiceEvent e => fun x s' =>
      exists ps, proxies_step t e (proxies s) x ps /\
        s' = mkPaidState (paid_state s) (add_event t (handler_event e x) (exchanges s)) ps
  end.

Definition paid_program_step {A} (t : nat) (p : prog PaidE A) (s : PaidState)
    (p' : prog PaidE A) (s' : PaidState) : Prop :=
  match p with
  | Vis e k => exists x, paid_step t e s x s' /\ p' = k x
  | _ => False
  end.

(** A request: of a call its metadata and its handler, and what is left of its
    program. *)
Record PaidRequest := mkPaidRequest {
  request_of_call : option (option MD * prog HandlerE (result unit));
  request_program : prog PaidE (result unit) }.

Definition paid_call (md : option MD) (handler : prog HandlerE (result unit)) : PaidRequest :=
  mkPaidRequest (Some (md, handler)) (served_call md handler).

(** The other requests of [Safety]: those on states and claims, and calls whose
    handler is not followed, such as the gRPC proxy, and may end in any way. *)
Definition other_request (p : prog DaemonE unit) : PaidRequest :=
  mkPaidRequest None (let! _ := embed (@PaymentEvent _) p in Ret (Ok tt)).

Definition paid_server := (list PaidRequest * PaidState)%type.

(** The goroutines of a proxy are threads of their own, and may go on when the
    handler has returned. Any request may stop. *)
Inductive paid_server_step : paid_server -> paid_server -> Prop :=
| paid_operation rs s t call p p' s' :
    rs !! t = Some (mkPaidRequest call p) -> paid_program_step t p s p' s' ->
    paid_server_step (rs, s) (<[t := mkPaidRequest call p']> rs, s')
| paid_new_call rs s md handler :
    paid_server_step (rs, s) (rs ++ [paid_call md handler], s)
| paid_new_request rs s p :
    Request metadata p -> paid_server_step (rs, s) (rs ++ [other_request p], s)
| paid_proxy rs s t p l ev :
    proxies s t = Some (p, l) -> is_Some (proxy_run p (l ++ [ev])) ->
    paid_server_step (rs, s)
      (rs, mkPaidState (paid_state s) (exchanges s) (set_proxy t (p, l ++ [ev]) (proxies s)))
| paid_stop rs s t call p :
    rs !! t = Some (mkPaidRequest call p) ->
    paid_server_step (rs, s)
      (<[t := mkPaidRequest call (stop p)]> rs, set_paid_state (disown t (paid_state s)) s)
| paid_environment rs s st :
    environment_step (paid_state s) st ->
    paid_server_step (rs, s) (rs, set_paid_state st s).

Definition paid_reachable (st : State) (c : paid_server) : Prop :=
  rtc paid_server_step ([], mkPaidState st (fun _ => []) (fun _ => None)) c.

(** ** The simulation

    [erases R p q]: the operations of [p] are those of [q], and the results are
    related by [R]. *)
Inductive erases {A B} (R : A -> B -> Prop) : prog PaidE A -> prog DaemonE B -> Prop :=
| erases_ret a b : R a b -> erases R (Ret a) (Ret b)
| erases_panic m : erases R (Panic m) (Panic m)
| erases_vis X (e : DaemonE X) k k' :
    (forall x, erases R (k x) (k' x)) -> erases R (Vis (PaymentEvent e) k) (Vis e k').

Lemma erases_embed {A} (p : prog DaemonE A) : erases eq (embed (@PaymentEvent _) p) p.
Proof.
  induction p as [a|m|X e k IH]; simpl; [by apply erases_ret|apply erases_panic|].
  by apply erases_vis.
Qed.

Lemma erases_bind {A B A' B'} R R' (p : prog PaidE A) (q : prog DaemonE B)
    (f : A -> prog PaidE A') (g : B -> prog DaemonE B') :
  erases R p q -> (forall a b, R a b -> erases R' (f a) (g b)) ->
  erases R' (bind p f) (bind q g).
Proof.
  intros Hp Hf. induction Hp as [a b Hab|m|X e k k' Hk IH]; simpl; [by apply Hf|apply erases_panic|].
  by apply erases_vis.
Qed.

Lemma erases_ignored {A} (p : prog DaemonE A) :
  erases (fun _ _ => True) (let! _ := embed (@PaymentEvent _) p in Ret (Ok tt : result unit)) p.
Proof.
  induction p as [a|m|X e k IH]; simpl; [by apply erases_ret|apply erases_panic|].
  by apply erases_vis.
Qed.

(** A step of the one is a step of the other. *)
Lemma erases_step {A B} R t (p : prog PaidE A) (q : prog DaemonE B) s p' s' :
  erases R p q -> paid_program_step t p s p' s' ->
  exists X (e : DaemonE X) k x w, q = Vis e k /\ contract e (paid_world s) x w /\
    s' = set_paid_state (next t (paid_state s) w) s /\ erases R p' (k x).
Proof.
  intros Hp Hs. destruct Hp as [a b Hab|m|X e k k' Hk]; [done..|].
  destruct Hs as (x & (w & Hw & ->) & ->). by exists X, e, k', x, w.
Qed.

(** The completion of a payment. *)
Lemma erases_complete payment o :
  erases eq (complete_payment (lift_handler escrow_handler) payment o)
    (complete_payment escrow_handler payment o).
Proof.
  destruct o as [[u|e]|m]; (eapply erases_bind; [apply erases_embed|]).
  - intros r ? <-. by destruct r; apply erases_ret.
  - intros r ? <-. by destruct r; apply erases_ret.
  - intros r ? <-. apply erases_panic.
Qed.

(** Where a request is: in the payment of a call, with what is left of it; in its
    service handler; after it; or the request is not a call; or it has stopped. *)
Inductive Phase :=
| InPayment (handler : prog HandlerE (result unit))
    (p : prog PaidE (PaymentTransaction DaemonE + GrpcError))
    (q : prog DaemonE (PaymentTransaction DaemonE + GrpcError))
| InService (rest : prog HandlerE (result unit)) (tx : paymentTransaction DaemonE)
| Closing (p : prog PaidE (result unit)) (q : prog DaemonE (result unit))
| NoCall (p : prog PaidE (result unit)) (q : prog DaemonE unit)
| Stopped (p : prog PaidE (result unit)).

(** The part of a call after its payment. *)
Definition after_payment {E} (h : PaymentHandler E) (handler : prog E (result unit))
    (payment : PaymentHandler.payment_type h + GrpcError) : prog E (result unit) :=
  match payment with
  | inr err => Ret (GrpcError_Err err)
  | inl payment => catch handler (complete_payment h payment)
  end.

Definition concrete (ph : Phase) : prog PaidE (result unit) :=
  match ph with
  | InPayment handler p q =>
      bind p (after_payment (lift_handler escrow_handler) (embed (@ServiceEvent _) handler))
  | InService rest tx =>
      catch (embed (@ServiceEvent _) rest)
        (complete_payment (lift_handler escrow_handler) (paymentTransaction_object tx))
  | Closing p q => p
  | NoCall p q => p
  | Stopped p => p
  end.

(** The request of the server, if the service handler ends with [o]. *)
Definition abstract (ph : Phase) (o : outcome (result unit)) : prog DaemonE unit :=
  match ph with
  | InPayment handler p q => ignore_result (bind q (after_payment escrow_handler (resume o)))
  | InService rest tx =>
      ignore_result (complete_payment escrow_handler (paymentTransaction_object tx) o)
  | Closing p q => ignore_result q
  | NoCall p q => q
  | Stopped p => crashed
  end.

Inductive phase_ok (call : option (option MD * prog HandlerE (result unit)))
    (l : list HandlerEvent) : Phase -> Prop :=
| ok_payment md handler context X (e : DaemonE X) k q :
    call = Some (md, handler) -> getGrpcContext md = inl context -> l = [] ->
    erases eq (Vis (PaymentEvent e) k) q ->
    obeys (@keeps_records) q (payment_outcome metadata context) ->
    phase_ok call l (InPayment handler (Vis (PaymentEvent e) k) q)
| ok_service md handler context X (e : HandlerE X) k tx :
    call = Some (md, handler) -> getGrpcContext md = inl context ->
    validated metadata context tx -> handled handler l (Vis e k) ->
    phase_ok call l (InService (Vis e k) tx)
| ok_closing md handler p q :
    call = Some (md, handler) -> erases eq p q ->
    (was_answered handler l \/
     obeys (@keeps_records) q (fun o => o <> Returned (Ok tt))) ->
    phase_ok call l (Closing p q)
| ok_no_call p q :
    call = None -> l = [] -> erases (fun _ _ => True) p q -> phase_ok call l (NoCall p q)
| ok_stopped p :
    stop p = p ->
    (forall md handler, call = Some (md, handler) ->
       p = Ret (Ok tt) -> was_answered handler l) ->
    phase_ok call l (Stopped p).

(** The handler of a validated call goes on: it is left, or it has ended. *)
Lemma service_settles call md handler context l rest tx :
  call = Some (md, handler) -> getGrpcContext md = inl context ->
  validated metadata context tx -> handled handler l rest ->
  exists ph r, concrete (InService rest tx) = concrete ph /\ phase_ok call l ph /\
    forall o : outcome (result unit), abstract ph o = abstract (InService rest tx) (r o).
Proof.
  intros Hc Hctx Hv Hh.
  assert (forall o, rest = resume o -> exists ph r,
    concrete (InService rest tx) = concrete ph /\ phase_ok call l ph /\
    forall o' : outcome (result unit), abstract ph o' = abstract (InService rest tx) (r o')) as Hend.
  { intros o ->.
    exists (Closing (complete_payment (lift_handler escrow_handler) (paymentTransaction_object tx) o)
              (complete_payment escrow_handler (paymentTransaction_object tx) o)), (fun _ => o).
    split; [by destruct o|]. split; [|done].
    apply (ok_closing _ _ md handler); [done|apply erases_complete|].
    destruct o as [[[]|e]|m]; [by left|right..].
    all: apply obeys_complete_failure; [by destruct Hv as (_ & [? _] & _)|done]. }
  destruct rest as [a|m|X e k]; [by apply (Hend (Returned a))|by apply (Hend (Panicked m))|].
  exists (InService (Vis e k) tx), id. split; [done|]. split; [|done]. by eapply ok_service.
Qed.

(** The payment of a call goes on: it is left, or it has ended. *)
Lemma payment_settles call md handler context p q :
  call = Some (md, handler) -> getGrpcContext md = inl context -> erases eq p q ->
  obeys (@keeps_records) q (payment_outcome metadata context) ->
  exists ph r, concrete (InPayment handler p q) = concrete ph /\ phase_ok call [] ph /\
    forall o : outcome (result unit), abstract ph o = abstract (InPayment handler p q) (r o).
Proof.
  intros Hc Hctx Hp Hq. destruct Hp as [a b <-|m|X e k k' Hk].
  - destruct a as [transaction|err].
    + destruct Hq as (tx & -> & Hv).
      destruct (service_settles call md handler context [] handler tx) 
        as (ph & r & Hcon & Hok & Habs); [done..|apply handled_nothing|].
      exists ph, r. split; [exact Hcon|]. split; [exact Hok|].
      intros o. rewrite Habs. by destruct (r o).
    + exists (Closing (Ret (GrpcError_Err err)) (Ret (GrpcError_Err err))), id.
      split; [done|]. split; [|done].
      apply (ok_closing _ _ md handler); [done|by apply erases_ret|right].
      simpl in Hq |- *. intros [= He]. by rewrite He in Hq.
  - exists (Closing (Panic m) (Panic m)), id. split; [done|]. split; [|done].
    apply (ok_closing _ _ md handler); [done|by apply erases_panic|by right].
  - exists (InPayment handler (Vis (PaymentEvent e) k) (Vis e k')), id.
    split; [done|]. split; [|done]. eapply ok_payment; [done..|by apply erases_vis|done].
Qed.

(** What the step of a request is in the server: nothing, or a step of the
    request there. *)
Definition step_matched (t : nat) (s s' : PaidState) (ph ph' : Phase)
    (r : outcome (result unit) -> outcome (result unit)) : Prop :=
  (paid_state s' = paid_state s /\ forall o, abstract ph' o = abstract ph (r o)) \/
  (forall o, exists X (e : DaemonE X) k x w, abstract ph (r o) = Vis e k /\
     contract e (paid_world s) x w /\ paid_state s' = next t (paid_state s) w /\
     k x = abstract ph' o).

Definition only_exchanges (t : nat) (s s' : PaidState) : Prop :=
  forall u, u <> t -> exchanges s' u = exchanges s u.

Lemma phase_step call t ph s p' s' :
  phase_ok call (exchanges s t) ph -> paid_program_step t (concrete ph) s p' s' ->
  exists ph' r, p' = concrete ph' /\ phase_ok call (exchanges s' t) ph' /\
    only_exchanges t s s' /\ step_matched t s s' ph ph' r.
Proof.
  intros Hok Hs. destruct Hok as [md handler context X e k q Hc Hctx Hl Hp Hq
    |md handler context X e k tx Hc Hctx Hv Hh|md handler p q Hc Hp Hend|p q Hc Hl Hp
    |p Hp Hend].
  - destruct Hs as (x & Hx & ->).
    destruct (erases_step eq t (Vis (PaymentEvent e) k) q s (k x) s' Hp)
      as (Y & e' & k' & y & w & -> & Hw & -> & Hk); [by exists x|].
    destruct Hq as [_ Hq].
    destruct (payment_settles call md handler context (k x) (k' y) Hc Hctx Hk (Hq y))
      as (ph & r & Hcon & Hph & Habs).
    exists ph, r. split; [exact Hcon|]. split; [by simpl; rewrite Hl|]. split; [done|].
    right. intros o. exists Y, e', (fun x => ignore_result (bind (k' x)
      (after_payment escrow_handler (resume (r o))))), y, w.
    split; [done|]. split; [done|]. split; [done|]. by rewrite Habs.
  - destruct Hs as (x & (ps & _ & ->) & ->).
    destruct (service_settles call md handler context
      (exchanges s t ++ [handler_event e x]) (k x) tx)
      as (ph & r & Hcon & Hph & Habs); [done..|by apply handled_more|].
    exists ph, r. split; [exact Hcon|]. unfold add_event.
    split; [by simpl; rewrite decide_True|].
    split; [intros u Hu; simpl; by rewrite decide_False|]. by left.
  - destruct (erases_step _ _ _ _ _ _ _ Hp Hs) as (X & e & k & x & w & -> & Hw & -> & Hk).
    exists (Closing p' (k x)), id. split; [done|]. split; [|split; [done|]].
    + apply (ok_closing _ _ md handler); [done..|].
      destruct Hend as [?|[_ Hend]]; [by left|right; apply Hend].
    + right. intros o. by exists X, e, (fun x => ignore_result (k x)), x, w.
  - destruct (erases_step _ _ _ _ _ _ _ Hp Hs) as (X & e & k & x & w & -> & Hw & -> & Hk).
    exists (NoCall p' (k x)), id. split; [done|]. split; [by apply ok_no_call|].
    split; [done|]. right. intros o. by exists X, e, k, x, w.
  - by destruct p.
Qed.

(** A call that has succeeded. *)
Lemma phase_result md handler l ph :
  phase_ok (Some (md, handler)) l ph -> concrete ph = Ret (Ok tt) -> was_answered handler l.
Proof.
  intros Hok Hr. destruct Hok as [md' handler' context X e k q _ _ _ _ _
    |md' handler' context X e k tx _ _ _ _|md' handler' p q Hc Hp Hend|p q Hc _ _|p _ Hend];
    [done..| |done|by apply (Hend md handler)].
  injection Hc as -> ->. destruct Hend as [?|Hend]; [done|]. simpl in Hr. subst p.
  inversion Hp as [a b <-| |]; subst. by destruct Hend.
Qed.

(** A request that stops. *)
Lemma phase_stop call l ph :
  phase_ok call l ph -> phase_ok call l (Stopped (stop (concrete ph))).
Proof.
  intros Hok. apply ok_stopped; [by destruct (concrete ph)|]. intros md handler -> Hr. apply (phase_result md handler l ph); [done|].
  by destruct (concrete ph).
Qed.

(** A call is in its payment when it arrives, unless it is refused at once. *)
Lemma getPaymentHandler_lift context :
  getPaymentHandler (newPaymentValidationInterceptor (lift_handler escrow_handler) []) context =
  match getPaymentHandler (newPaymentValidationInterceptor escrow_handler []) context with
  | inl _ => inl (lift_handler escrow_handler)
  | inr err => inr err
  end.
Proof.
  unfold getPaymentHandler. simpl.
  destruct (Context_MD context !! PaymentTypeHeader) as [[|t l]|]; [done| |done].
  destruct (decide (EscrowPaymentType = t)) as [<-|Hne]; [by rewrite !lookup_singleton_eq|].
  by rewrite !lookup_singleton_ne.
Qed.

Lemma getPaymentHandler_error (h : PaymentHandler DaemonE) context err :
  getPaymentHandler (newPaymentValidationInterceptor h []) context = inr err ->
  is_err (GrpcError_Err err).
Proof. unfold getPaymentHandler. by repeat case_match; intros [= <-]. Qed.

Lemma refused_phase md handler err :
  is_err (GrpcError_Err err) ->
  phase_ok (Some (md, handler)) []
    (Closing (Ret (GrpcError_Err err)) (Ret (GrpcError_Err err))).
Proof.
  intros He. apply (ok_closing _ _ md handler); [done|by apply erases_ret|right].
  simpl. intros [= Heq]. by rewrite Heq in He.
Qed.

Lemma call_starts md handler :
  exists ph r, request_program (paid_call md handler) = concrete ph /\
    phase_ok (Some (md, handler)) [] ph /\
    forall o : outcome (result unit), abstract ph o = ignore_result
      (Components_GrpcPaymentValidationInterceptor true metadata md (resume (r o))).
Proof.
  unfold paid_call, served_call, Components_GrpcPaymentValidationInterceptor,
    GrpcPaymentValidationInterceptor, paymentValidationInterceptor_intercept.
  cbn [negb request_program].
  destruct (getGrpcContext md) as [context|err] eqn:Hctx.
  2: { exists (Closing (Ret (GrpcError_Err err)) (Ret (GrpcError_Err err))), id.
       split; [done|]. split; [|done]. apply refused_phase. destruct md; [done|].
       by injection Hctx as <-. }
  rewrite getPaymentHandler_lift.
  destruct (getPaymentHandler _ context) as [h|err] eqn:Hh.
  2: { exists (Closing (Ret (GrpcError_Err err)) (Ret (GrpcError_Err err))), id.
       split; [done|]. split; [|done]. by eapply refused_phase, getPaymentHandler_error. }
  apply getPaymentHandler_only in Hh as ->.
  destruct (payment_settles (Some (md, handler)) md handler context
    (embed (@PaymentEvent _) (PaymentHandler.handler_Payment escrow_handler context))
    (PaymentHandler.handler_Payment escrow_handler context))
    as (ph & r & Hcon & Hph & Habs); [done..|apply erases_embed|apply obeys_Payment|].
  exists ph, r. split; [exact Hcon|]. split; [exact Hph|exact Habs].
Qed.

(** ** The refinement *)

(** The requests are in the phases [phs]. *)
Record in_phases (c : paid_server) (phs : list Phase) : Prop := {
  phases_length : length c.1 = length phs;
  phases_ok t r ph : c.1 !! t = Some r -> phs !! t = Some ph ->
    request_program r = concrete ph /\ phase_ok (request_of_call r) (exchanges c.2 t) ph;
  phases_fresh t : (length c.1 <= t)%nat -> exchanges c.2 t = [] }.

(** The requests of the server, if the handlers that are still to end do so as
    [ends] says. *)
Definition server_requests (phs : list Phase) (ends : nat -> outcome (result unit))
  : list (prog DaemonE unit) := imap (fun t ph => abstract ph (ends t)) phs.

Definition ends_at (t : nat) (o : outcome (result unit)) (ends : nat -> outcome (result unit))
    (u : nat) : outcome (result unit) := if decide (u = t) then o else ends u.

Lemma server_requests_lookup phs ends t :
  server_requests phs ends !! t = (fun ph => abstract ph (ends t)) <$> phs !! t.
Proof. apply list_lookup_imap. Qed.

Lemma server_requests_insert phs ends t ph o :
  (t < length phs)%nat ->
  server_requests (<[t := ph]> phs) ends =
  <[t := abstract ph (ends t)]> (server_requests phs (ends_at t o ends)).
Proof.
  intros Ht. apply list_eq. intros u. rewrite server_requests_lookup.
  destruct (decide (u = t)) as [->|Hne].
  - rewrite !list_lookup_insert_eq; [done|by unfold server_requests; rewrite length_imap|done].
  - rewrite !list_lookup_insert_ne by done. rewrite server_requests_lookup. unfold ends_at.
    by rewrite decide_False.
Qed.

(** A step of the paid server is one of the server, or none, however the
    handlers that are left will end. *)
Definition step_simulated (s s' : State) (phs phs' : list Phase) : Prop :=
  forall ends, exists ends',
    (s' = s /\ server_requests phs' ends = server_requests phs ends') \/
    server_step metadata (server_requests phs ends', s) (server_requests phs' ends, s').

(** One request moves to another phase. *)
Lemma in_phases_insert c phs t call p ph p' ph' s' :
  in_phases c phs -> c.1 !! t = Some (mkPaidRequest call p) -> phs !! t = Some ph ->
  p' = concrete ph' -> phase_ok call (exchanges s' t) ph' -> only_exchanges t c.2 s' ->
  in_phases (<[t := mkPaidRequest call p']> c.1, s') (<[t := ph']> phs).
Proof.
  intros [Hl Hph Hf] Ht Hp Hp' Hok Hx. pose proof (lookup_lt_Some _ _ _ Ht) as Hlt.
  split; cbn [fst snd]; [by rewrite !length_insert| |].
  - intros u r0 ph0 Hr0 Hp0. destruct (decide (t = u)) as [<-|Hne].
    + apply list_lookup_insert_Some in Hr0 as [(_ & <- & _)|[[] _]]; [|done].
      by apply list_lookup_insert_Some in Hp0 as [(_ & <- & _)|[[] _]].
    + rewrite list_lookup_insert_ne in Hr0 by done. rewrite list_lookup_insert_ne in Hp0 by done.
      rewrite (Hx u) by done. by apply Hph.
  - intros u Hu. rewrite length_insert in Hu. rewrite (Hx u) by lia. by apply Hf.
Qed.

(** The phase of a request. *)
Lemma in_phases_lookup c phs t call p :
  in_phases c phs -> c.1 !! t = Some (mkPaidRequest call p) ->
  exists ph, phs !! t = Some ph /\ p = concrete ph /\ phase_ok call (exchanges c.2 t) ph.
Proof.
  intros [Hl Hph _] Ht. destruct (lookup_lt_is_Some_2 phs t) as [ph Hp].
  { rewrite <-Hl. by eapply lookup_lt_Some. }
  exists ph. split; [done|]. by apply (Hph _ _ _ Ht Hp).
Qed.

Lemma operation_simulated c phs t call p p' s' :
  in_phases c phs -> c.1 !! t = Some (mkPaidRequest call p) ->
  paid_program_step t p c.2 p' s' ->
  exists phs', in_phases (<[t := mkPaidRequest call p']> c.1, s') phs' /\
    step_simulated (paid_state c.2) (paid_state s') phs phs'.
Proof.
  intros Hi Ht Hs. destruct (in_phases_lookup _ _ _ _ _ Hi Ht) as (ph & Hp & -> & Hok).
  destruct (phase_step _ _ _ _ _ _ Hok Hs) as (ph' & r & -> & Hok' & Hx & Hm).
  exists (<[t := ph']> phs). split; [by eapply in_phases_insert|].
  intros ends. exists (ends_at t (r (ends t)) ends).
  rewrite (server_requests_insert _ _ _ _ (r (ends t))) by (by eapply lookup_lt_Some).
  assert (server_requests phs (ends_at t (r (ends t)) ends) !! t
            = Some (abstract ph (r (ends t)))) as Hat.
  { rewrite server_requests_lookup, Hp. simpl. unfold ends_at. by rewrite decide_True. }
  destruct Hm as [[Hsame Habs]|Hstep].
  - left. split; [done|]. by rewrite Habs, list_insert_id.
  - destruct (Hstep (ends t)) as (X & e & k & x & w & He & Hc & -> & Hk). rewrite He in Hat.
    right. rewrite <-Hk. eapply pool_thread; [exact Hat|]. by exists w.
Qed.

Lemma stop_simulated c phs t call p :
  in_phases c phs -> c.1 !! t = Some (mkPaidRequest call p) ->
  exists phs', in_phases (<[t := mkPaidRequest call (stop p)]> c.1,
      set_paid_state (disown t (paid_state c.2)) c.2) phs' /\
    step_simulated (paid_state c.2) (disown t (paid_state c.2)) phs phs'.
Proof.
  intros Hi Ht. destruct (in_phases_lookup _ _ _ _ _ Hi Ht) as (ph & Hp & -> & Hok).
  exists (<[t := Stopped (stop (concrete ph))]> phs). split.
  - by eapply in_phases_insert; [..|apply phase_stop|].
  - intros ends. exists ends. right.
    rewrite (server_requests_insert _ _ _ _ (ends t)) by (by eapply lookup_lt_Some).
    replace (server_requests phs (ends_at t (ends t) ends)) with (server_requests phs ends).
    + eapply pool_stop; [|done]. rewrite server_requests_lookup, Hp. done.
    + apply list_eq. intros u. rewrite !server_requests_lookup. unfold ends_at.
      by destruct (decide (u = t)) as [->|].
Qed.

(** A new request. *)
Lemma in_phases_app c phs r ph :
  in_phases c phs -> request_program r = concrete ph -> phase_ok (request_of_call r) [] ph ->
  in_phases (c.1 ++ [r], c.2) (phs ++ [ph]).
Proof.
  intros [Hl Hph Hf] Hr Hok. split; cbn [fst snd]; [by rewrite !length_app, Hl| |].
  - intros t r0 ph0 [Hr0|[Hge Hr0]]%lookup_app_Some [Hp0|[Hge' Hp0]]%lookup_app_Some;
      [by apply Hph|..].
    + apply lookup_lt_Some in Hr0. lia.
    + apply lookup_lt_Some in Hp0. lia.
    + apply list_lookup_singleton_Some in Hr0 as [_ <-].
      apply list_lookup_singleton_Some in Hp0 as [_ <-]. by rewrite Hf.
  - intros t Ht. rewrite length_app in Ht. apply Hf. simpl in Ht. lia.
Qed.

Lemma arrival_simulated s phs ph r (p : outcome (result unit) -> prog DaemonE unit) :
  (forall o : outcome (result unit), abstract ph o = p (r o)) ->
  (forall o, Request metadata (p o)) ->
  step_simulated s s phs (phs ++ [ph]).
Proof.
  intros Hp HR ends. exists ends. right.
  unfold server_requests. rewrite imap_app. simpl. rewrite Hp. by apply pool_spawn.
Qed.

Lemma paid_step_simulated c phs c' :
  in_phases c phs -> paid_server_step c c' ->
  exists phs', in_phases c' phs' /\ step_simulated (paid_state c.2) (paid_state c'.2) phs phs'.
Proof.
  intros Hi Hs. destruct Hs as [rs s t call p p' s' Ht Hs|rs s md handler|rs s p Hp
    |rs s t p l ev Hp Hev|rs s t call p Ht|rs s st He].
  - by eapply (operation_simulated (rs, s)).
  - destruct (call_starts md handler) as (ph & r & Hcon & Hok & Habs).
    exists (phs ++ [ph]). split; [by apply (in_phases_app (rs, s))|].
    eapply (arrival_simulated _ _ _ r (fun o => ignore_result
      (Components_GrpcPaymentValidationInterceptor true metadata md (resume o))));
      [exact Habs|]. intros o. apply request_call.
  - exists (phs ++ [NoCall (request_program (other_request p)) p]). split.
    + apply (in_phases_app (rs, s)); [done..|]. apply ok_no_call; [done..|].
      apply erases_ignored.
    + by apply (arrival_simulated _ _ _ id (fun _ => p)).
  - exists phs. split; [by destruct Hi as [Hl Hph Hf]; split|].
    intros ends. exists ends. by left.
  - by apply (stop_simulated (rs, s) _ _ _ _ Hi).
  - exists phs. split; [by destruct Hi as [Hl Hph Hf]; split|].
    intros ends. exists ends. right. by apply pool_env.
Qed.

Lemma paid_reachable_phases st c :
  paid_reachable st c ->
  exists phs, in_phases c phs /\
    forall ends, reachable metadata st (server_requests phs ends, paid_state c.2).
Proof.
  intros Hr. apply rtc_ind_r with (P := fun c => exists phs, in_phases c phs /\
    forall ends, reachable metadata st (server_requests phs ends, paid_state c.2)) (3 := Hr).
  - exists []. split; [by split|]. intros ends. apply rtc_refl.
  - intros c1 c2 _ Hs (phs & Hi & Hsim).
    destruct (paid_step_simulated _ _ _ Hi Hs) as (phs' & Hi' & Hstep).
    exists phs'. split; [done|]. intros ends.
    destruct (Hstep ends) as (ends' & [[-> ->]|Hs']); [by apply Hsim|].
    by eapply rtc_r; [apply Hsim|].
Qed.

(** ** Records *)

Lemma other_key_is_not_lock key k :
  is_lock_key key = true ->
  prefixed_key channel_storage_prefix k <> key.
Proof.
  intros Hl <-. assert (is_lock_key (prefixed_key channel_storage_prefix k) = false) as Hf
    by by apply prefix_disjoint. congruence.
Qed.

Lemma keeps_records_stored {X} (e : DaemonE X) w x w' key :
  keeps_records e -> contract e w x w' ->
  stored_channel (store w') key = stored_channel (store w) key.
Proof.
  intros He Hc. destruct e as [X e|id| |]; [|by destruct Hc as [-> _]| |by destruct Hc as [-> _]].
  2: by rewrite Hc.
  destruct Hc as (m & Hm & ->). cbn [store set_store].
  assert (m = store w \/ exists k v, is_lock_key k = true /\ m = <[k := v]> (store w))
    as [->|(k & v & Hk & ->)]; [|done|].
  { destruct e as [k|p|k v|k v|k p n|k]; simpl in He, Hm; try done.
    - by destruct Hm as [-> _]; left.
    - by destruct Hm as [-> _]; left.
    - destruct x as [[|]|err]; [destruct Hm as [_ ->]; right; eauto|left; apply Hm|].
      destruct Hm as [->|[_ ->]]; [by left|right; eauto].
    - destruct x as [[|]|err]; [destruct Hm as [_ ->]; right; eauto|left; apply Hm|].
      destruct Hm as [->|[_ ->]]; [by left|right; eauto]. }
  unfold stored_channel. destruct (serialize key) as [k'|]; [|done].
  rewrite lookup_insert_ne; [done|]. intros Heq. by apply (other_key_is_not_lock k k').
Qed.

(** ** What the calls have done *)

(** The next operation of a call leaves the records alone. *)
Definition head_keeps {A} (p : prog PaidE A) : Prop :=
  match p with Vis (PaymentEvent e) _ => keeps_records e | _ => True end.

Lemma erases_head {A B} R (p : prog PaidE A) (q : prog DaemonE B) Q :
  erases R p q -> obeys (@keeps_records) q Q -> head_keeps p.
Proof. intros [a b Hab|m|X e k k' Hk]; [done..|]. by intros [He _]. Qed.

Lemma head_keeps_stored {A} t (p : prog PaidE A) s p' s' key :
  head_keeps p -> paid_program_step t p s p' s' ->
  stored_channel (store (paid_world s')) key = stored_channel (store (paid_world s)) key.
Proof.
  destruct p as [a|m|X e k]; [done..|]. intros He (x & Hx & _). destruct e as [X e|X e].
  - destruct Hx as (w & Hw & ->). by eapply keeps_records_stored.
  - by destruct Hx as (ps & _ & ->).
Qed.

Lemma phase_charges t md handler ph s p' s' key :
  phase_ok (Some (md, handler)) (exchanges s t) ph ->
  paid_program_step t (concrete ph) s p' s' ->
  stored_channel (store (paid_world s')) key = stored_channel (store (paid_world s)) key \/
  was_answered handler (exchanges s t).
Proof.
  intros Hok Hs. assert (head_keeps (concrete ph) \/ was_answered handler (exchanges s t))
    as [Hh|?]; [|left; by eapply head_keeps_stored|by right].
  destruct Hok as [md' handler' context X e k q Hc _ _ Hp Hq|md' handler' context X e k tx _ _ _ _
    |md' handler' p q Hc Hp [Hend|Hend]|p q Hc _ _|p Hp _].
  - left. by apply (erases_head _ _ _ _ Hp Hq).
  - by left.
  - right. by injection Hc as -> ->.
  - left. by eapply erases_head.
  - done.
  - by destruct p.
Qed.

(** Every state is one of the server, and so is every step. *)
Lemma paid_step_of_server st c c' :
  paid_reachable st c -> paid_server_step c c' ->
  exists a a', reachable metadata st a /\ a.2 = paid_state c.2 /\ a'.2 = paid_state c'.2 /\
    (a' = a \/ server_step metadata a a').
Proof.
  intros Hr Hs. destruct (paid_reachable_phases st c Hr) as (phs & Hi & Hsim).
  destruct (paid_step_simulated _ _ _ Hi Hs) as (phs' & Hi' & Hstep).
  destruct (Hstep (fun _ => Returned (Ok tt))) as (ends' & Hs').
  exists (server_requests phs ends', paid_state c.2),
    (server_requests phs' (fun _ => Returned (Ok tt)), paid_state c'.2).
  split; [done|]. split; [done|]. split; [done|].
  destruct Hs' as [[-> ->]|Hs']; [by left|by right].
Qed.

(** The proxies are those that the handlers have started. *)
Definition proxies_ok (s : PaidState) : Prop :=
  forall t, proxy_history (exchanges s t) (proxies s t).

Lemma paid_step_proxies {X} t (e : PaidE X) s x s' :
  paid_step t e s x s' -> proxies_ok s -> proxies_ok s'.
Proof.
  intros Hs Hok. destruct e as [X e|X e].
  - by destruct Hs as (w & _ & ->).
  - destruct Hs as (ps & Hps & ->). intros u. simpl. unfold add_event.
    destruct (decide (u = t)) as [->|Hu]; [by eapply proxy_history_step|].
    by rewrite (proxies_step_other _ _ _ _ _ _ Hps Hu).
Qed.

Lemma paid_reachable_proxies st c : paid_reachable st c -> proxies_ok c.2.
Proof.
  intros Hr. apply rtc_ind_r with (P := fun c => proxies_ok c.2) (3 := Hr);
    [by intros t ev ?%not_elem_of_nil|].
  intros c1 c2 _ Hs Hok.
  destruct Hs as [rs s t call p p' s' Ht Hs|rs s md handler|rs s p Hp
    |rs s t p l ev Hp Hev|rs s t call p Ht|rs s st' He]; simpl in *; [|done..| |done|done].
  - destruct p as [a|m|X e k]; [done..|]. destruct Hs as (x & Hs & _). by eapply paid_step_proxies.
  - intros u. simpl. unfold set_proxy. destruct (decide (u = t)) as [->|Hu]; [|apply Hok].
    apply proxy_history_event; [|done]. rewrite <-Hp. apply Hok.
Qed.

(** What the call [t] has done with the service is complete. *)
Definition call_complete (handler : prog HandlerE (result unit)) (t : nat) (s : PaidState) : Prop :=
  exchange_complete handler (exchanges s t) (proxies s t).

(** What a call has done at any point. *)
Lemma call_earns st c t md handler p :
  paid_reachable st c -> c.1 !! t = Some (mkPaidRequest (Some (md, handler)) p) ->
  (p = Ret (Ok tt) -> call_complete handler t c.2) /\
  (forall p' s' key, paid_program_step t p c.2 p' s' ->
     stored_channel (store (paid_world s')) key <> stored_channel (store (paid_world c.2)) key ->
     call_complete handler t c.2).
Proof.
  intros Hr Ht. destruct (paid_reachable_phases st c Hr) as (phs & Hi & _).
  pose proof (paid_reachable_proxies _ _ Hr t) as Hpx.
  destruct (in_phases_lookup _ _ _ _ _ Hi Ht) as (ph & _ & -> & Hok). split.
  - intros He. by eapply answered_complete; [eapply phase_result|].
  - intros p' s' key Hs Hne.
    destruct (phase_charges _ _ _ _ _ _ _ key Hok Hs) as [?|Ha]; [done|].
    by apply answered_complete.
Qed.

(** ** The keys that requests write *)

Definition permitted_paid {X} (e : PaidE X) : Prop :=
  match e with PaymentEvent e => permitted e | ServiceEvent _ => True end.

Definition obedient_paid {A} (p : prog PaidE A) : Prop := all_operations (@permitted_paid) p.

Lemma obedient_embed {A} (p : prog DaemonE A) Q :
  obeys (@permitted) p Q -> obeys (@permitted_paid) (embed (@PaymentEvent _) p) Q.
Proof. by apply obeys_embed. Qed.

Lemma all_erases (P : forall X, DaemonE X -> Prop) (P' : forall X, PaidE X -> Prop) {A B} R
    (p : prog PaidE A) (q : prog DaemonE B) :
  (forall X (e : DaemonE X), P _ e -> P' _ (PaymentEvent e)) ->
  erases R p q -> all_operations P q -> all_operations P' p.
Proof.
  intros HP Hp. induction Hp as [a b Hab|m|X e k k' Hk IH]; [exact (fun _ => I)..|].
  intros [He Hq]. split; [by apply HP|]. intros x. apply (IH x), Hq.
Qed.

Lemma obedient_erases {A B} R (p : prog PaidE A) (q : prog DaemonE B) :
  erases R p q -> obedient q -> obedient_paid p.
Proof. by apply all_erases. Qed.

Lemma obedient_served_call md handler : obedient_paid (served_call md handler).
Proof.
  unfold served_call, GrpcPaymentValidationInterceptor, paymentValidationInterceptor_intercept.
  destruct (getGrpcContext md) as [context|err]; [|done]. rewrite getPaymentHandler_lift.
  destruct (getPaymentHandler _ context) as [h|err]; [|done]. unfold obedient_paid.
  eapply obeys_bind; [apply obedient_embed, obeys_permitted, obeys_Payment|].
  intros [[transaction|e]|m] Ht; [|done..]. destruct Ht as (tx & -> & _ & [Htx _] & _).
  apply all_catch.
  - induction handler as [a|m|X e k IH]; [done..|]. by split.
  - intros o. eapply obedient_erases; [apply erases_complete|]. by apply obedient_complete_payment.
Qed.

Lemma obedient_other_request p :
  Request metadata p -> obedient_paid (request_program (other_request p)).
Proof. intros Hp. by eapply obedient_erases, obedient_request; [apply erases_ignored|]. Qed.
End paid.

(** C13: The server with the handlers of the services refines the server of
    [Safety], where the handler of a call may end in any way: every state that
    calls, their exchanges with the service and the other requests reach in any
    interleaving, while any of them may stop, has the records, lock owners and
    blockchain of a state of that server, and every step is a step of that server
    or changes nothing there. *)
Theorem paid_calls_refine_server `{!GoEthereum, !EscrowCodec, !JsonRpc}
    (metadata : ServiceMetadata) st c c' :
  paid_reachable metadata st c -> paid_server_step metadata c c' ->
  exists a a', reachable metadata st a /\ a.2 = paid_state c.2 /\ a'.2 = paid_state c'.2 /\
    (a' = a \/ server_step metadata a a').
Proof. apply paid_step_of_server. Qed.
