(* ===== verification/Serving.v ===== *)
(** * What is accepted while a call is served

    [PaidCalls] shows where the records of served calls come from; here the
    rely-guarantee logic of [Requests] is carried over to calls with the handlers
    of their services. A call makes an operation of its handler only while it
    owns the lock of its channel and the payment in its metadata is accepted for
    the present record, and it changes a record only by that payment. *)
From S2P Require Import Prelude Prog Bytes AtomicStorage Lock Blockchain PaymentChannelApi.
From S2P Require Import PaymentChannelStorage Validation Escrow Handler EscrowHandler World.
From S2P Require Import RelyGuarantee Concurrency Requests Safety Discipline Forwarding.
From S2P Require Import Proxy StreamHandlers PaidCalls.
Import Payment (Payment) PaymentChannelData (PaymentChannelData)
  PaymentTransaction (PaymentTransaction) PaymentHandler (PaymentHandler)
  ServiceMetadata (ServiceMetadata).
Local Open Scope Z_scope.

Section serving.
Context `{!JsonRpc, !GoEthereum, !EscrowCodec, !EscrowCodecLaws} (metadata : ServiceMetadata).

Local Abbreviation service := (Components_PaymentChannelService metadata).
Local Abbreviation escrow_handler := (Components_EscrowPaymentHandler metadata).

(** The payment that a call carries. *)
Definition carries (md : option MD) (p : Payment) : Prop :=
  exists context, getGrpcContext md = inl context /\
    getPaymentFromContext escrow_handler context = inl p.

Lemma carries_fun md p p' : carries md p -> carries md p' -> p = p'.
Proof. intros (c & Hc & Hp) (c' & Hc' & Hp'). congruence. Qed.

Lemma carries_decide md : (exists p, carries md p) \/ (forall p, ~ carries md p).
Proof.
  destruct (getGrpcContext md) as [context|err] eqn:Hc.
  - destruct (getPaymentFromContext escrow_handler context) as [p|err] eqn:Hp.
    + left. exists p, context. by split.
    + right. intros p (c & Hc' & Hp'). congruence.
  - right. intros p (c & Hc' & _). congruence.
Qed.

(** The request [t] owns the lock of the channel of the payment [p], which it has
    accepted for the stored record [old] and the current channel [c] by checks that
    it has made since it took the lock. *)
Definition accepts (t : nat) (s : State) (p : Payment) (old : option PaymentChannelData)
    (c : PaymentChannelData) : Prop :=
  let id := Payment.ChannelID p in
  owner s id = Some t /\ stored s id = Ok old /\
  payment_accepted metadata (lock_world s id) s id old p c.

(** The call [t] with the metadata [md] has its payment accepted. *)
Definition call_accepted (t : nat) (md : option MD) (s : State) : Prop :=
  exists p old c, carries md p /\ accepts t s p old c.

(** In the step from [s] to [s'] it is charged: the record of the channel is
    replaced by what the accepted payment makes of it. *)
Definition call_charged (t : nat) (md : option MD) (id : Z) (s s' : State) : Prop :=
  exists p old c, carries md p /\ Payment.ChannelID p = id /\ accepts t s p old c /\
    stored s' id = Ok (Some (norm_channel (committed_channel p c))).

(** ** The writes of calls *)

(** The channel and the new record of a transaction. *)
Definition transaction_key (tx : paymentTransaction DaemonE) : PaymentChannelKey :=
  mkPaymentChannelKey (Payment.ChannelID (transaction_payment tx)).

Definition transaction_record (tx : paymentTransaction DaemonE) : PaymentChannelData :=
  committed_channel (transaction_payment tx) (transaction_channel tx).

(** A write of that record. *)
Definition writes_record (tx : paymentTransaction DaemonE) {X} (e : DaemonE X) : Prop :=
  match e with
  | StorageEvent (SPut k v) =>
      forall m, <[k := v]> m = put_channel (transaction_key tx) (transaction_record tx) m
  | _ => False
  end.

(** The transaction is one of the payment in the metadata of the call. *)
Definition pays_for (md : option MD) (tx : paymentTransaction DaemonE) : Prop :=
  exists context, getGrpcContext md = inl context /\ validated metadata context tx.

(** A write of that record that was applied. *)
Definition charges (tx : paymentTransaction DaemonE) {X} (e : DaemonE X) : X -> Prop :=
  match e in DaemonE X return X -> Prop with
  | StorageEvent e =>
      match e in StorageE X return X -> Prop with
      | SPut k v => fun r => r = Ok tt /\ writes_record tx (StorageEvent (SPut k v))
      | _ => fun _ => False
      end
  | _ => fun _ => False
  end.

Definition call_charges (md : option MD) {X} (e : PaidE X) : X -> Prop :=
  match e in PaidE X return X -> Prop with
  | PaymentEvent e => fun x => exists tx, pays_for md tx /\ charges tx e x
  | ServiceEvent _ => fun _ => False
  end.

Definition call_writes (md : option MD) {X} (e : PaidE X) : Prop :=
  match e with
  | PaymentEvent e => keeps_records e \/ exists tx, pays_for md tx /\ writes_record tx e
  | ServiceEvent _ => True
  end.

(** The operations of the end of a call. *)
Definition closes (tx : paymentTransaction DaemonE) {X} (e : DaemonE X) : Prop :=
  keeps_records e \/ writes_record tx e.

Lemma closes_release tx {A} name (o : outcome A) :
  all_operations (@closes tx)
    (let! _ := Lock_Unlock (lockType (mkEtcdLocker DaemonE
       (PrefixedAtomicStorage_object (NewLockerStorage daemon_storage))) name) in resume o).
Proof. eapply obeys_weaken; [|apply harmless_release]. by left. Qed.

Lemma closes_Commit tx :
  own_transaction metadata tx -> all_operations (@closes tx) (paymentTransaction_Commit tx).
Proof.
  intros [Hs [name Hl]]. unfold paymentTransaction_Commit, defer. rewrite Hl, Hs.
  apply all_catch; [|intros o; apply closes_release].
  apply all_bind; [|by intros [u|e]]. apply all_single; [apply single_channel_put|].
  unfold PaymentChannelStorage_Put. simpl.
  destruct (serialize (transaction_key tx)) as [k|] eqn:Hk; unfold transaction_key in Hk;
    rewrite Hk; [|done]. simpl.
  destruct (serialize (transaction_record tx)) as [v|] eqn:Hv; unfold transaction_record in Hv;
    rewrite Hv; [|done]. simpl.
  right. intros m. unfold put_channel, transaction_key, transaction_record. by rewrite Hk, Hv.
Qed.

Lemma closes_complete tx o :
  own_transaction metadata tx ->
  all_operations (@closes tx)
    (complete_payment (paymentChannelPaymentHandler_object escrow_handler)
       (paymentTransaction_object tx) o).
Proof.
  intros Htx. assert (o = Returned (Ok tt) \/ o <> Returned (Ok tt)) as [->|Ho].
  { destruct o as [[[]|e]|m]; [by left|by right..]. }
  - apply all_bind; [|intros r; by destruct r].
    apply all_bind; [by apply closes_Commit|done].
  - eapply obeys_mono; [|done].
    eapply obeys_weaken; [|by eapply obeys_complete_failure]. by left.
Qed.

(** A call writes the record of its payment, or none. *)
Lemma served_call_writes md handler :
  all_operations (@call_writes md) (served_call metadata md handler).
Proof.
  unfold served_call, GrpcPaymentValidationInterceptor, paymentValidationInterceptor_intercept.
  destruct (getGrpcContext md) as [context|err] eqn:Hctx; [|done].
  rewrite getPaymentHandler_lift. destruct (getPaymentHandler _ context) as [h|err]; [|done].
  eapply obeys_bind; [eapply obeys_embed; [|apply obeys_Payment]|].
  { by left. }
  intros [[transaction|e]|m] Ht; [|done..]. destruct Ht as (tx & -> & Hv).
  assert (own_transaction metadata tx) as Htx by by destruct Hv as (_ & [? _] & _).
  apply all_catch.
  - induction handler as [a|m|X e k IH]; [done..|]. by split.
  - intros o. eapply all_erases; [|apply erases_complete|by apply closes_complete].
    intros X e [?|?]; [by left|right]. exists tx. split; [by exists context|done].
Qed.

(** ** The logic of calls *)

Section logic.
Hypothesis price_nonneg : price_ok metadata.

#[local] Instance daemon_logic : RelyGuarantee DaemonE State := daemon_rely_guarantee metadata.
#[local] Instance daemon_laws : RelyGuaranteeLaws DaemonE State := logic_laws metadata.

Section call.
Context (md : option MD).

(** An operation of the handler leaves the state of the payment code alone, and is
    made only while the payment is accepted. *)
#[local] Instance call_logic : RelyGuarantee PaidE State := {|
  thread_step t X e s x s' :=
    match e in PaidE X return X -> Prop with
    | PaymentEvent e => fun x => thread_step t e s x s'
    | ServiceEvent _ => fun _ => s' = s
    end x;
  stop_step := stop_step (E := DaemonE);
  env_step := environment_step;
  Inv := state_ok metadata;
  Rely := rely metadata;
  Guar t X e s x s' := guarantee metadata t s s' /\
    match e in PaidE X return X -> Prop with
    | PaymentEvent e => fun x => writes_legally metadata t e s x s'
    | ServiceEvent _ => fun _ => call_accepted t md s
    end x |}.

#[local] Instance call_laws : RelyGuaranteeLaws PaidE State.
Proof.
  destruct daemon_laws as [L1 L2 L3 _ _ L6 L7 L8]. split; [done..| | |done|done|done].
  - by intros t X e s x s' [[] _].
  - intros t u X e s x s' Htu [Hg _]. by eapply daemon_guar_rely.
Qed.

Lemma rg_erases {A B} (R : A -> B -> Prop) t p q (Q : outcome A -> State -> Prop)
    (Q' : outcome B -> State -> Prop) s :
  erases R p q -> rg t q Q' s ->
  (forall a b s', R a b -> Q' (Returned b) s' -> Q (Returned a) s') ->
  (forall m s', Q' (Panicked m) s' -> Q (Panicked m) s') ->
  rg t p Q s.
Proof.
  intros Hp Hq Hret Hpanic. revert s Hq.
  induction Hp as [a b Hab|m|X e k k' Hk IH]; simpl; intros s Hq; [eauto..|].
  intros s' x s'' Hr Hi Hs. destruct (Hq s' x s'' Hr Hi Hs) as [Hg Hq']. split; [done|].
  by apply IH.
Qed.

Lemma rg_embed {A} t (p : prog DaemonE A) Q s :
  rg t p Q s -> rg t (embed (@PaymentEvent _) p) Q s.
Proof. intros Hp. eapply rg_erases; [apply erases_embed|exact Hp|by intros a ? s' <-|done]. Qed.

(** The handler runs while the transaction is open. *)
Lemma rg_handler t payment tx (handler : prog HandlerE (result unit)) s :
  carries md payment -> pays metadata payment (transaction_channel tx) ->
  open_transaction metadata t payment tx s ->
  rg t (embed (@ServiceEvent _) handler) (fun _ s' => open_transaction metadata t payment tx s') s.
Proof.
  intros Hm Hpays. revert s. induction handler as [a|m|X e k IH]; simpl; intros s Hopen.
  1, 2: intros s' Hr _; by eapply open_transaction_rely.
  intros s' x s'' Hr Hi ->. apply (open_transaction_rely _ _ _ _ _ _ Hr) in Hopen.
  split; [|by apply IH]. split.
  - pose proof (guar_read metadata price_nonneg t s' Hi) as Hg. by rewrite next_same in Hg.
  - destruct (open_transaction_accepted _ _ _ _ _ Hopen Hpays) as (Ho & old & Hst & Hacc).
    exists payment, old, (transaction_channel tx). by split.
Qed.

Lemma rg_served_call t handler s :
  state_ok metadata s -> rg t (served_call metadata md handler) (fun _ _ => True) s.
Proof.
  intros Hs. unfold served_call, GrpcPaymentValidationInterceptor,
    paymentValidationInterceptor_intercept.
  destruct (getGrpcContext md) as [context|err] eqn:Hctx; [|done].
  rewrite getPaymentHandler_lift. destruct (getPaymentHandler _ context) as [h|err]; [|done].
  apply rg_bind; [|done]. apply rg_embed. eapply rg_mono; [by apply rg_Payment|].
  intros [[transaction|e]|m] s1 Hs1 Hacc; [|done..].
  destruct (Hacc _ eq_refl transaction eq_refl) as (payment & tx & -> & Hp & Hopen & Hpays).
  apply rg_catch; [|done]. eapply rg_mono; [apply (rg_handler t payment tx); [by exists context|done..]|].
  intros o s2 Hs2 Hopen2. eapply rg_erases; [apply erases_complete| |done..].
  by apply (rg_complete_payment metadata price_nonneg t payment).
Qed.
End call.

(** ** The server *)

Definition metadata_of (r : PaidRequest) : option MD :=
  match request_of_call r with Some (md, _) => md | None => None end.

Definition kept (r : PaidRequest) (t : nat) (s : State) : Prop :=
  rg (RelyGuarantee0 := call_logic (metadata_of r)) t (request_program r) (fun _ _ => True) s /\
  forall md handler, request_of_call r = Some (md, handler) ->
    all_operations (@call_writes md) (request_program r).

Definition all_kept (c : paid_server) : Prop :=
  state_ok metadata (paid_state c.2) /\
  forall t r, c.1 !! t = Some r -> kept r t (paid_state c.2).

Lemma kept_rely r t s s' : kept r t s -> rely metadata t s s' -> kept r t s'.
Proof.
  intros [Hk Hw] Hr. split; [|done].
  eapply (rg_rely (RelyGuaranteeLaws0 := call_laws _)); [exact Hk|exact Hr].
Qed.

Lemma all_kept_state c s' :
  all_kept c -> (forall t, rely metadata t (paid_state c.2) (paid_state s')) ->
  all_kept (c.1, s').
Proof.
  intros [Hs Hk] Hr. split; [by apply (rely_ok _ _ _ _ (Hr 0%nat))|]. intros t r Ht.
  eapply kept_rely; [by apply Hk|apply Hr].
Qed.

Lemma kept_served_call md handler t s :
  state_ok metadata s -> kept (paid_call metadata md handler) t s.
Proof.
  intros Hs. split; [by apply rg_served_call|]. intros md' handler' [= <- <-].
  apply served_call_writes.
Qed.

Lemma kept_other_request p t s :
  Request metadata p -> state_ok metadata s -> kept (other_request p) t s.
Proof.
  intros Hp Hs. split; [|done]. eapply rg_erases; [apply erases_ignored| |done..].
  by apply requests_verified.
Qed.

(** The state of the payment code after an operation. *)
Lemma paid_step_thread md {X} t (e : PaidE X) s x s' :
  paid_step t e s x s' ->
  thread_step (RelyGuarantee := call_logic md) t e (paid_state s) x (paid_state s').
Proof.
  destruct e as [X e|X e]; [intros (w & Hw & ->)|by intros (ps & _ & ->)]. by exists w.
Qed.

(** An operation keeps the guarantee of its call. *)
Lemma operation_guar c t call X (e : PaidE X) k x s' :
  all_kept c -> c.1 !! t = Some (mkPaidRequest call (Vis e k)) -> paid_step t e c.2 x s' ->
  let md := metadata_of (mkPaidRequest call (Vis e k)) in
  Guar (RelyGuarantee := call_logic md) t e (paid_state c.2) x (paid_state s') /\
  kept (mkPaidRequest call (k x)) t (paid_state s').
Proof.
  intros [Hs Hk] Ht Hx md. destruct (Hk t _ Ht) as [Hrg Hw].
  destruct (Hrg (paid_state c.2) x (paid_state s')) as [Hg Hrg'];
    [apply daemon_rely_refl|done|by apply paid_step_thread|].
  split; [done|]. split; [done|]. intros md' handler Hc. by apply (Hw md' handler Hc).
Qed.

Lemma paid_step_kept c c' : all_kept c -> paid_server_step metadata c c' -> all_kept c'.
Proof.
  intros Hc Hs. pose proof Hc as [Hok Hk].
  destruct Hs as [rs s t call p p' s' Ht Hs|rs s md handler|rs s p Hp
    |rs s t p l ev Hp Hev|rs s t call p Ht|rs s st' He].
  - destruct p as [a|m|X e k]; [done..|]. destruct Hs as (x & Hx & ->).
    destruct (operation_guar (rs, s) _ _ _ _ _ _ _ Hc Ht Hx) as [[Hg _] Hkx].
    split; [by apply (guar_ok _ _ _ _ Hg)|].
    intros u r [(<- & <- & _)|[Hne Hu]]%list_lookup_insert_Some; [done|].
    eapply kept_rely; [by apply Hk|]. by eapply daemon_guar_rely.
  - split; [done|]. intros t r [Ht|[_ Ht]]%lookup_app_Some; [by apply Hk|].
    apply list_lookup_singleton_Some in Ht as [_ <-]. by apply kept_served_call.
  - split; [done|]. intros t r [Ht|[_ Ht]]%lookup_app_Some; [by apply Hk|].
    apply list_lookup_singleton_Some in Ht as [_ <-]. by apply kept_other_request.
  - done.
  - split; [by apply disown_ok|].
    intros u r [(<- & <- & _)|[Hne Hu]]%list_lookup_insert_Some.
    { destruct (Hk _ _ Ht) as [Hrg Hw]. by destruct p. }
    eapply kept_rely; [by apply Hk|]. by apply daemon_stop_rely.
  - apply (all_kept_state (rs, s)); [done|]. intros t. by apply daemon_env_rely.
Qed.

Lemma reachable_kept st c :
  state_ok metadata st -> paid_reachable metadata st c -> all_kept c.
Proof.
  intros Hst Hr. apply rtc_ind_r with (P := all_kept) (3 := Hr); [by split|].
  intros c1 c2 _ Hs Hc. by eapply paid_step_kept.
Qed.

(** ** What the calls do *)

Section execution.
Context (st : State) (start_ok : state_ok metadata st).
Local Abbreviation reachable := (paid_reachable metadata st).

Lemma payment_ext (p p' : Payment) :
  Payment.MpeContractAddress p = Payment.MpeContractAddress p' ->
  Payment.ChannelID p = Payment.ChannelID p' ->
  Payment.ChannelNonce p = Payment.ChannelNonce p' -> Payment.Amount p = Payment.Amount p' ->
  Payment.Signature p = Payment.Signature p' -> p = p'.
Proof. destruct p, p'. simpl. congruence. Qed.

(** A legal update that writes the record of a transaction of the call is one by
    the payment of the call. *)
Lemma legal_charge t md tx s s' :
  let id := Payment.ChannelID (transaction_payment tx) in
  pays_for md tx -> owner s id = Some t -> legal_update metadata s id s' ->
  stored s' id = Ok (Some (norm_channel (transaction_record tx))) ->
  call_charged t md id s s'.
Proof.
  intros id (context & Hctx & Hp & (_ & _ & Hn0 & Hs0 & _) & _) Ho (old & new & Hold & Hnew & Hu) Hst.
  pose proof (getPaymentFromContext_mpe metadata _ _ Hp) as Hmpe.
  pose proof (norm_slice_signed _ _ Hs0) as Hsig0.
  rewrite Hst in Hnew. pose proof Hnew as Hrec. destruct Hu as [p c Hacc|c ->].
  - pose proof Hacc as [_ Hmpe' Hid (Hn & Hs & _) _ _].
    pose proof (norm_slice_signed _ _ Hs) as Hsig.
    assert (p = transaction_payment tx) as ->.
    { injection Hnew as _ Heqn _ _ _ _ _ _ _ Heqa Heqs. simpl in *.
      rewrite Hsig, Hsig0 in Heqs. apply payment_ext; [congruence|exact Hid|congruence..]. }
    exists (transaction_payment tx), old, c. split; [by exists context|]. split; [done|].
    split; [by split|]. by rewrite Hst.
  - injection Hnew as _ _ _ _ _ _ _ _ _ _ Heqs. simpl in Heqs.
    rewrite Hsig0 in Heqs. destruct (signed_signature _ _ Hs0) as (sig & Heq & _). congruence.
Qed.

(** An operation of a call keeps the guarantee. *)
Lemma call_operation_guar c t md handler X (e : PaidE X) k x s' :
  reachable c -> c.1 !! t = Some (mkPaidRequest (Some (md, handler)) (Vis e k)) ->
  paid_step t e c.2 x s' ->
  Guar (RelyGuarantee := call_logic md) t e (paid_state c.2) x (paid_state s') /\
  call_writes md e.
Proof.
  intros Hr Ht Hx. pose proof (reachable_kept _ _ start_ok Hr) as Hc.
  destruct (operation_guar _ _ _ _ _ _ _ _ Hc Ht Hx) as [Hg _]. split; [exact Hg|].
  destruct Hc as [_ Hk]. destruct (Hk t _ Ht) as [_ Hw]. apply (Hw md handler eq_refl).
Qed.

(** A call makes the operations of its handler while its payment is accepted. *)
Lemma serves_accepted c c' t md handler q :
  reachable c -> paid_server_step metadata c c' ->
  c.1 !! t = Some (mkPaidRequest (Some (md, handler)) q) ->
  exchanges c'.2 t <> exchanges c.2 t \/ proxies c.2 t = None /\ is_Some (proxies c'.2 t) ->
  call_accepted t md (paid_state c.2).
Proof.
  intros Hr Hs Ht Hx.
  assert (~ (exchanges c'.2 = exchanges c.2 /\ proxies c'.2 = proxies c.2)) as Hne.
  { intros [He Hp]. rewrite He, Hp in Hx. destruct Hx as [?|[Hn [? Hy]]]; congruence. }
  destruct Hs as [rs s u call p p' s' Hu Hs|rs s md' handler'|rs s p Hp
    |rs s u p l ev Hp Hev|rs s u call p Hu|rs s st' He]; simpl in *.
  - destruct p as [a|m|X e k]; [done..|]. destruct Hs as (x & Hs & ->).
    destruct (decide (u = t)) as [->|Hut].
    + rewrite Ht in Hu. injection Hu as <- ->.
      destruct (call_operation_guar (rs, s) _ _ _ _ _ _ _ _ Hr Ht Hs) as [[_ Hg] _].
      destruct e as [X e|X e]; [|exact Hg].
      destruct Hs as (w & _ & ->). by destruct Hne.
    + exfalso. destruct e as [X e|X e].
      * destruct Hs as (w & _ & ->). by destruct Hne.
      * destruct Hs as (ps & Hps & ->). simpl in Hx. unfold add_event in Hx.
        rewrite decide_False in Hx by congruence.
        rewrite (proxies_step_other _ _ _ _ _ _ Hps) in Hx by congruence.
        destruct Hx as [?|[Hn [? Hy]]]; congruence.
  - by destruct Hne.
  - by destruct Hne.
  - exfalso. destruct Hx as [?|[Hn [y Hy]]]; [done|]. unfold set_proxy in Hy.
    case_decide; congruence.
  - by destruct Hne.
  - by destruct Hne.
Qed.

(** It changes the record of a channel only by its payment. *)
Lemma changes_are_charges c t md handler q q' s' id :
  reachable c -> c.1 !! t = Some (mkPaidRequest (Some (md, handler)) q) ->
  paid_program_step t q c.2 q' s' ->
  stored (paid_state s') id <> stored (paid_state c.2) id ->
  call_charged t md id (paid_state c.2) (paid_state s').
Proof.
  intros Hr Ht Hs Hne. destruct q as [a|m|X e k]; [done..|]. destruct Hs as (x & Hs & ->).
  destruct (call_operation_guar _ _ _ _ _ _ _ _ _ Hr Ht Hs) as [[Hg _] Hw].
  destruct e as [X e|X e]; [|by destruct Hs as (ps & _ & ->)].
  destruct Hs as (w & Hw' & ->). destruct Hw as [Hk|(tx & Hm & Hput)].
  { destruct Hne. by apply (keeps_records_stored e (paid_world c.2) x w). }
  destruct (guar_channel _ _ _ _ Hg id) as [?|[Ho Hl]]; [done|].
  destruct e as [X e|i| |]; [|done..]. destruct e as [i|i|i v|i v|i v n|i]; try done.
  destruct Hw' as (m & Hm' & ->). unfold stored in Hne. simpl in Hne.
  assert (m = put_channel (transaction_key tx) (transaction_record tx) (store (paid_world c.2))) as ->.
  { rewrite <-Hput. destruct x; [exact Hm'|]. destruct Hm' as [->| ->]; [by destruct Hne|done]. }
  destruct (decide (transaction_key tx = channel_key id)) as [Hid|Hid].
  2: { by rewrite stored_put_channel_ne in Hne. }
  injection Hid as <-. apply legal_charge; [done..|]. apply stored_put_channel.
Qed.

(** The write of the record of its payment, when it is answered. *)
Lemma answered_write_charges c t md handler X (e : PaidE X) k x s' :
  reachable c -> c.1 !! t = Some (mkPaidRequest (Some (md, handler)) (Vis e k)) ->
  paid_step t e c.2 x s' -> call_charges md e x ->
  exists id, call_charged t md id (paid_state c.2) (paid_state s') /\
    match e with
    | PaymentEvent (StorageEvent (SPut key value)) => forall m,
        stored_channel (<[key := value]> m) (channel_key id) = stored (paid_state s') id
    | _ => True
    end.
Proof.
  intros Hr Ht Hs Hc. destruct (call_operation_guar _ _ _ _ _ _ _ _ _ Hr Ht Hs) as [[_ Hl] _].
  destruct e as [X e|X e]; [|done]. destruct Hc as (tx & Hm & Hput).
  destruct e as [X e|i| |]; [|done..]. destruct e as [i|i|i v|i v|i v n|i]; try done.
  destruct Hput as [-> Hput]. destruct Hs as (w & (m & -> & ->) & ->).
  destruct (Hl eq_refl (Payment.ChannelID (transaction_payment tx)) (transaction_record tx) Hput)
    as [Ho Hleg].
  assert (forall m, stored_channel (<[i := v]> m)
    (channel_key (Payment.ChannelID (transaction_payment tx)))
    = Ok (Some (norm_channel (transaction_record tx)))) as Hrec.
  { intros m. rewrite Hput. apply stored_put_channel. }
  eexists. split; [apply legal_charge; [done..|]; apply Hrec|]. intros m.
  unfold stored. simpl. by rewrite !Hrec.
Qed.
End execution.
End logic.
End serving.
