(* ===== verification/Replicas.v ===== *)
(** * Replicas of the daemon over one etcd server

    Any number of replicas serve requests at the same time and share the
    channel records in etcd. [Safety] has one atomic storage; here each storage
    request of the payment code is a call of a method of [EtcdClient], whose
    requests to etcd interleave with those of all the others, and a replica may
    crash between any two of them. The operator unlocks the channels that crashed
    replicas leave locked. The calls have the handlers of their services.
    Every such execution is one of the server of [PaidCalls], with the same
    records and exchanges, and so one of the server of [Safety]. *)
From S2P Require Import Prelude Prog Bytes AtomicStorage Lock Blockchain PaymentChannelApi.
From S2P Require Import PaymentChannelStorage World RelyGuarantee Etcd Concurrency Requests.
From S2P Require Import Handler Forwarding Proxy StreamHandlers Safety Discipline PaidCalls.
From S2P Require Import Serving.
Import AtomicStorage ServiceMetadata.
Local Open Scope Z_scope.

(** ** The effects and the state *)

Section replicas.
Context `{!JsonRpc}.

(** The operations of a request in a replica: requests to the etcd server, and the
    reads of the blockchain and the exchanges with the service as before. *)
Inductive ReplicaE : Type -> Type :=
| EtcdEvent {X} (e : EtcdE X) : ReplicaE X
| NodeChannels (channelID : Z) : ReplicaE (result MultiPartyEscrowChannel.MultiPartyEscrowChannel)
| NodeDial : ReplicaE (result unit)
| NodeBlockNumber : ReplicaE (result string)
| ReplicaService {X} (e : HandlerE X) : ReplicaE X.

(** The owners of the locks are not part of etcd: as in [Concurrency] they are read
    off the changes of the entries. *)
Record ReplicaState := mkReplicaState {
  replica_etcd : EtcdState;
  replica_locks : Z -> option (nat * World);
  replica_contract : ContractState;
  replica_history : list ContractState;
  replica_block : Z;
  replica_exchanges : nat -> list HandlerEvent;
  replica_proxies : Proxies }.

(** The world of the payment code: the entries of the server are its storage. *)
Definition shared_world (s : ReplicaState) : World :=
  mkWorld (etcd_kvs (replica_etcd s)) (replica_contract s) (replica_history s) (replica_block s).

Definition shared_state (s : ReplicaState) : State :=
  mkState (shared_world s) (replica_locks s).

Definition shared_paid (s : ReplicaState) : PaidState :=
  mkPaidState (shared_state s) (replica_exchanges s) (replica_proxies s).

Definition set_etcd (e : EtcdState) (o : Z -> option (nat * World)) (s : ReplicaState) : ReplicaState :=
  mkReplicaState e o (replica_contract s) (replica_history s) (replica_block s)
    (replica_exchanges s) (replica_proxies s).

(** Etcd after a request of [t]. *)
Definition after_request (t : nat) (e : EtcdState) (s : ReplicaState) : ReplicaState :=
  set_etcd e (next_owners (t, shared_world s) (etcd_kvs (replica_etcd s)) (etcd_kvs e)
    (replica_locks s)) s.

(** A request that has crashed makes no more operations; the lease of its session
    ends, and with it the mutexes that it holds. *)
Definition after_crash (t : nat) (s : ReplicaState) : ReplicaState :=
  set_etcd (release_mutexes t (replica_etcd s)) (locks (disown t (shared_state s))) s.

(** What the handlers have done changes. *)
Definition set_handlers (xs : nat -> list HandlerEvent) (ps : Proxies) (s : ReplicaState)
  : ReplicaState :=
  mkReplicaState (replica_etcd s) (replica_locks s) (replica_contract s) (replica_history s)
    (replica_block s) xs ps.

Context `{!GoEthereum, !EscrowCodec, !EtcdKeys, !EtcdServer}.
Context (metadata : ServiceMetadata).

(** ** The programs of a replica *)

(** A call of the storage interface is a call of the method of [EtcdClient]. *)
Definition replica_operation {X} (e : DaemonE X) : prog ReplicaE X :=
  match e in DaemonE X return prog ReplicaE X with
  | StorageEvent e => embed (@EtcdEvent) (call_storage EtcdClient_object e)
  | Channels channelID => trigger (NodeChannels channelID)
  | Dial => trigger NodeDial
  | BlockNumber => trigger NodeBlockNumber
  end.

Definition call_operation {X} (e : PaidE X) : prog ReplicaE X :=
  match e in PaidE X return prog ReplicaE X with
  | PaymentEvent e => replica_operation e
  | ServiceEvent e => trigger (ReplicaService e)
  end.

Fixpoint over_etcd {A} (p : prog PaidE A) : prog ReplicaE A :=
  match p with
  | Ret a => Ret a
  | Panic m => Panic m
  | Vis e k => bind (call_operation e) (fun x => over_etcd (k x))
  end.

(** ** The steps *)

Definition replica_step (t : nat) {X} (e : ReplicaE X) (s : ReplicaState)
  : X -> ReplicaState -> Prop :=
  match e in ReplicaE X return X -> ReplicaState -> Prop with
  | EtcdEvent e => fun x s' =>
      exists etcd', etcd_serve t _ e (replica_etcd s) x etcd' /\ s' = after_request t etcd' s
  | NodeChannels channelID => fun x s' =>
      s' = s /\ contract (Channels channelID) (shared_world s) x (shared_world s)
  | NodeDial => fun x s' => s' = s
  | NodeBlockNumber => fun x s' =>
      s' = s /\ contract BlockNumber (shared_world s) x (shared_world s)
  | ReplicaService e => fun x s' =>
      exists ps, proxies_step t e (replica_proxies s) x ps /\
        s' = set_handlers (add_event t (handler_event e x) (replica_exchanges s)) ps s
  end.

Definition program_step (t : nat) (p : prog ReplicaE (result unit)) (s : ReplicaState)
    (p' : prog ReplicaE (result unit)) (s' : ReplicaState) : Prop :=
  match p with
  | Vis e k => exists x, replica_step t e s x s' /\ p' = k x
  | _ => False
  end.

(** A request: of a call its metadata and its handler, and what is left of its
    program. *)
Record ReplicaRequest := mkReplicaRequest {
  replica_call : option (option MD * prog HandlerE (result unit));
  replica_program : prog ReplicaE (result unit) }.

(** A request of the server, in a replica. *)
Definition in_replica (r : PaidRequest) : ReplicaRequest :=
  mkReplicaRequest (request_of_call r) (over_etcd (request_program r)).

Definition replicas := (list ReplicaRequest * ReplicaState)%type.

Inductive replicas_step : replicas -> replicas -> Prop :=
| replicas_operation rs s t call p p' s' :
    rs !! t = Some (mkReplicaRequest call p) -> program_step t p s p' s' ->
    replicas_step (rs, s) (<[t := mkReplicaRequest call p']> rs, s')
| replicas_call rs s md handler :
    replicas_step (rs, s) (rs ++ [in_replica (paid_call metadata md handler)], s)
| replicas_request rs s p :
    Request metadata p -> replicas_step (rs, s) (rs ++ [in_replica (other_request p)], s)
| replicas_crash rs s t call p :
    rs !! t = Some (mkReplicaRequest call p) ->
    replicas_step (rs, s) (<[t := mkReplicaRequest call (stop p)]> rs, after_crash t s)
| replicas_unlock rs s id u r etcd' :
    owner (shared_state s) id = None ->
    etcd_serve u _ (EtcdDelete (lock_key id)) (replica_etcd s) r etcd' ->
    replicas_step (rs, s) (rs, set_etcd etcd' (replica_locks s) s)
| replicas_proxy rs s t r p l ev :
    rs !! t = Some r -> (forall m, replica_program r <> Panic m) ->
    replica_proxies s t = Some (p, l) -> is_Some (proxy_run p (l ++ [ev])) ->
    replicas_step (rs, s)
      (rs, set_handlers (replica_exchanges s) (set_proxy t (p, l ++ [ev]) (replica_proxies s)) s)
| replicas_blockchain rs s s' :
    replica_etcd s' = replica_etcd s -> replica_exchanges s' = replica_exchanges s ->
    replica_proxies s' = replica_proxies s ->
    environment_step (shared_state s) (shared_state s') ->
    replicas_step (rs, s) (rs, s').

(** ** The simulation

    [related t s p q]: the request [t] of a replica, with the rest [p] of its
    program, is at the point [q] of the request of the server. Within
    put-if-absent the server has not moved until the client has read a present
    entry, failed, or written; from then on only the mutex is released. *)

(** What is left of put-if-absent once the mutex is held, and once the entry has
    been found absent. *)
Definition with_mutex (key : string) (p : prog EtcdE (result bool)) : prog EtcdE (result bool) :=
  defer (fun _ => trigger (EtcdMutexUnlock key)) p.

Definition write_absent (key value : string) : prog EtcdE (result bool) :=
  try! _ := trigger (EtcdPut key value) in Ret (Ok true).

Definition read_and_write (key value : string) : prog EtcdE (result bool) :=
  try! kvs := trigger (EtcdGet key) in
  if negb (bool_decide (length kvs = 0%nat)) then Ret (Ok false) else write_absent key value.

Definition then_over {X} (p : prog EtcdE X) (k : X -> prog PaidE (result unit)) : prog ReplicaE (result unit) :=
  bind (embed (@EtcdEvent) p) (fun x => over_etcd (k x)).

Local Abbreviation storage_call e k := (Vis (PaymentEvent (StorageEvent e)) k).

Inductive related (t : nat) (s : ReplicaState) : prog ReplicaE (result unit) -> prog PaidE (result unit) -> Prop :=
| related_between p : obedient_paid p -> related t s (over_etcd p) p
| related_session key value k :
    is_lock_key key = true -> (forall x, obedient_paid (k x)) ->
    related t s
      (then_over (try! _ := trigger (EtcdMutexLock key) in
                  with_mutex key (read_and_write key value)) k)
      (storage_call (SPutIfAbsent key value) k)
| related_mutex key value k :
    is_lock_key key = true -> (forall x, obedient_paid (k x)) ->
    etcd_mutex (replica_etcd s) key = Some t ->
    related t s (then_over (with_mutex key (read_and_write key value)) k)
      (storage_call (SPutIfAbsent key value) k)
| related_absent key value k :
    is_lock_key key = true -> (forall x, obedient_paid (k x)) ->
    etcd_mutex (replica_etcd s) key = Some t -> etcd_kvs (replica_etcd s) !! key = None ->
    related t s (then_over (with_mutex key (write_absent key value)) k)
      (storage_call (SPutIfAbsent key value) k)
| related_answered key r k :
    obedient_paid (k r) ->
    related t s (then_over (with_mutex key (Ret r)) k) (k r)
| related_crashed q : stop q = q -> related t s crashed q.

(** What a request relies on within put-if-absent: a mutex that it holds stays
    its own, and a lock entry that is absent stays absent meanwhile. *)
Definition undisturbed (t : nat) (s s' : ReplicaState) : Prop :=
  forall key, is_lock_key key = true -> etcd_mutex (replica_etcd s) key = Some t ->
  etcd_mutex (replica_etcd s') key = Some t /\
  (etcd_kvs (replica_etcd s) !! key = None -> etcd_kvs (replica_etcd s') !! key = None).

Lemma related_undisturbed t s s' p q :
  related t s p q -> undisturbed t s s' -> related t s' p q.
Proof.
  intros Hr Hu. destruct Hr as [p Hp|key v k Hl Hk|key v k Hl Hk Hm|key v k Hl Hk Hm Ha
    |key r k Hk|q Hq].
  - by apply related_between.
  - by apply related_session.
  - apply related_mutex; [done..|]. by apply Hu.
  - destruct (Hu key Hl Hm) as [Hm' Ha']. apply related_absent; auto.
  - by apply related_answered.
  - by apply related_crashed.
Qed.

(** A request that stops, stops in the server. *)
Lemma related_stop t s s' p q : related t s p q -> related t s' (stop p) (stop q).
Proof.
  assert (forall q : prog PaidE (result unit), related t s' crashed (stop q)) as Hc.
  { intros q'. apply related_crashed. by destruct q'. }
  intros Hr. destruct Hr as [p Hp|key v k _ _|key v k _ _ _|key v k _ _ _ _|key r k _|q Hq];
    [|apply Hc..]. destruct p as [a|m|X e k]; [by apply related_between..|].
  destruct e as [X e|X e]; [|apply Hc]. destruct e as [X e|id| |]; [|apply Hc..].
  destruct e; apply Hc.
Qed.

Lemma undisturbed_same t s s' :
  etcd_mutex (replica_etcd s') = etcd_mutex (replica_etcd s) ->
  (forall key, is_lock_key key = true -> etcd_mutex (replica_etcd s) key = Some t ->
     etcd_kvs (replica_etcd s) !! key = None -> etcd_kvs (replica_etcd s') !! key = None) ->
  undisturbed t s s'.
Proof. intros Hm Ha key Hl Ho. rewrite Hm. auto. Qed.

(** ** The requests of one operation *)

Context `{!EtcdKeysLaws, !EtcdServerLaws}.

(** A step of the server, or none: what the step of a replica corresponds to. *)
Definition matched (t : nat) (s : ReplicaState) (q : prog PaidE (result unit))
    (p' : prog ReplicaE (result unit)) (s' : ReplicaState) : Prop :=
  (shared_paid s' = shared_paid s /\ related t s' p' q) \/
  exists X (e : PaidE X) k x,
    q = Vis e k /\ paid_step t e (shared_paid s) x (shared_paid s') /\ related t s' p' (k x).

Definition step_ok (t : nat) (s : ReplicaState) (q : prog PaidE (result unit))
    (p' : prog ReplicaE (result unit)) (s' : ReplicaState) : Prop :=
  (forall u, u <> t -> undisturbed u s s') /\ matched t s q p' s'.

(** A storage request that etcd has answered. *)
Lemma paid_step_storage t {X} (e : StorageE X) s x e' :
  storage_contract e (etcd_kvs (replica_etcd s)) x (etcd_kvs e') ->
  paid_step t (PaymentEvent (StorageEvent e)) (shared_paid s) x
    (shared_paid (after_request t e' s)).
Proof. intros Hc. exists (shared_world (after_request t e' s)). split; [by eexists|done]. Qed.

(** A request that leaves the entries alone. *)
Lemma shared_paid_same t e s :
  etcd_kvs e = etcd_kvs (replica_etcd s) -> shared_paid (after_request t e s) = shared_paid s.
Proof.
  intros He. unfold shared_paid, shared_state, shared_world, after_request, next_owners. simpl.
  by rewrite He, decide_True.
Qed.

(** A storage request that is one request of etcd. *)
Lemma storage_step_ok t s {X} (e : StorageE X) (k : X -> prog PaidE (result unit)) r e' :
  (forall x, obedient_paid (k x)) -> permitted (StorageEvent e) ->
  etcd_mutex e' = etcd_mutex (replica_etcd s) ->
  storage_contract e (etcd_kvs (replica_etcd s)) r (etcd_kvs e') ->
  (forall key, is_lock_key key = true ->
     etcd_kvs (replica_etcd s) !! key = None -> etcd_kvs e' !! key = None) ->
  step_ok t s (storage_call e k) (over_etcd (k r)) (after_request t e' s).
Proof.
  intros Hk Hp Hm Hc Ha. split.
  - intros u _. apply undisturbed_same; [done|]. intros key Hl _. by apply Ha.
  - right. do 4 eexists. split; [done|]. split; [|by apply related_between].
    by apply paid_step_storage.
Qed.

Lemma same_etcd s e' :
  e' = replica_etcd s ->
  etcd_mutex e' = etcd_mutex (replica_etcd s) /\
  forall key, is_lock_key key = true ->
    etcd_kvs (replica_etcd s) !! key = None -> etcd_kvs e' !! key = None.
Proof. by intros ->. Qed.

Lemma step_Get t s key (k : result (option string) -> prog PaidE (result unit)) p' s' :
  (forall x, obedient_paid (k x)) ->
  program_step t (over_etcd (storage_call (SGet key) k)) s p' s' ->
  step_ok t s (storage_call (SGet key) k) p' s'.
Proof.
  intros Hk (x & (e' & [He Hx]%serve_documented & ->) & ->).
  destruct (same_etcd _ _ He) as [Hm Ha].
  assert (forall r, match r with Ok v => v = etcd_kvs (replica_etcd s) !! key | Err _ => True end ->
    step_ok t s (storage_call (SGet key) k) (over_etcd (k r)) (after_request t e' s)) as Hok.
  { intros r Hr. apply storage_step_ok; [done..|by rewrite He|done]. }
  destruct x as [vs|err]; [|by apply (Hok (Err err))]. rewrite Hx.
  destruct (etcd_kvs (replica_etcd s) !! key) as [v|];
    [by apply (Hok (Ok (Some v)))|by apply (Hok (Ok None))].
Qed.

Lemma step_GetByKeyPrefix t s prefix (k : result (list string) -> prog PaidE (result unit)) p' s' :
  (forall x, obedient_paid (k x)) ->
  program_step t (over_etcd (storage_call (SGetByKeyPrefix prefix) k)) s p' s' ->
  step_ok t s (storage_call (SGetByKeyPrefix prefix) k) p' s'.
Proof.
  intros Hk (x & (e' & [He Hx]%serve_documented & ->) & ->).
  destruct (same_etcd _ _ He) as [Hm Ha].
  destruct x as [vs|err]; (eapply (storage_step_ok t s (SGetByKeyPrefix prefix) k); [done..| |done]).
  - split; [by rewrite He|]. by rewrite <-range_values_prefix.
  - split; [by rewrite He|done].
Qed.

Lemma step_Put t s key value (k : result unit -> prog PaidE (result unit)) p' s' :
  (forall x, obedient_paid (k x)) -> is_lock_key key = false ->
  program_step t (over_etcd (storage_call (SPut key value) k)) s p' s' ->
  step_ok t s (storage_call (SPut key value) k) p' s'.
Proof.
  intros Hk Hl (x & (e' & Hx%serve_documented & ->) & ->).
  apply (storage_step_ok t s (SPut key value) k); [done..| | |].
  - by destruct Hx as [->|[_ ->]].
  - destruct x as [u|err], Hx as [->|[He ->]]; [done|done|by right|by left].
  - intros key' Hl' Hn. destruct Hx as [->|[_ ->]]; [|done]. simpl.
    rewrite lookup_insert_ne; [done|congruence].
Qed.

Lemma step_Delete t s key (k : result unit -> prog PaidE (result unit)) p' s' :
  (forall x, obedient_paid (k x)) ->
  program_step t (over_etcd (storage_call (SDelete key) k)) s p' s' ->
  step_ok t s (storage_call (SDelete key) k) p' s'.
Proof.
  intros Hk (x & (e' & Hx%serve_documented & ->) & ->).
  apply (storage_step_ok t s (SDelete key) k); [done..| | |].
  - by destruct Hx as [->|[_ ->]].
  - destruct x as [u|err], Hx as [->|[He ->]]; [done|done|by right|by left].
  - intros key' _ Hn. destruct Hx as [->|[_ ->]]; [|done]. simpl.
    by rewrite lookup_delete_None; right.
Qed.

Lemma step_CompareAndSwap t s key p n (k : result bool -> prog PaidE (result unit)) p' s' :
  (forall x, obedient_paid (k x)) ->
  program_step t (over_etcd (storage_call (SCompareAndSwap key p n) k)) s p' s' ->
  step_ok t s (storage_call (SCompareAndSwap key p n) k) p' s'.
Proof.
  intros Hk (x & (e' & Hx%serve_documented & ->) & ->).
  apply (txn_contract t key p n) in Hx as [Hc Hm].
  apply (storage_step_ok t s (SCompareAndSwap key p n) k); [done|done|by rewrite Hm|done|].
  intros key' _ Hn. destruct x as [[|]|e]; simpl in Hc.
  - destruct Hc as [Hp ->]. rewrite lookup_insert_ne; [done|congruence].
  - by destruct Hc as [_ ->].
  - destruct Hc as [->|[Hp ->]]; [done|]. rewrite lookup_insert_ne; [done|congruence].
Qed.

(** ** The requests of put-if-absent *)

(** A request that leaves the entries alone, and the mutexes of others. *)
Lemma quiet_step_ok t s q p' e' :
  etcd_kvs e' = etcd_kvs (replica_etcd s) ->
  (forall u key, u <> t -> etcd_mutex (replica_etcd s) key = Some u -> etcd_mutex e' key = Some u) ->
  related t (after_request t e' s) p' q ->
  step_ok t s q p' (after_request t e' s).
Proof.
  intros He Hm Hr. split.
  - intros u Hu key _ Ho. simpl. rewrite He. auto.
  - left. split; [|done]. by apply shared_paid_same.
Qed.

Lemma step_session t s key value (k : result bool -> prog PaidE (result unit)) p' s' :
  (forall x, obedient_paid (k x)) -> is_lock_key key = true ->
  program_step t (over_etcd (storage_call (SPutIfAbsent key value) k)) s p' s' ->
  step_ok t s (storage_call (SPutIfAbsent key value) k) p' s'.
Proof.
  intros Hk Hl (x & (e' & ->%serve_documented & ->) & ->). destruct x as [u|err].
  - apply quiet_step_ok; [done..|]. by apply related_session.
  - eapply (storage_step_ok t s (SPutIfAbsent key value) k (Err err)); [done..|by left|done].
Qed.

(** The mutex is taken, or the call fails. *)
Lemma step_mutex t s key value (k : result bool -> prog PaidE (result unit)) p' s' :
  (forall x, obedient_paid (k x)) -> is_lock_key key = true ->
  program_step t (then_over (try! _ := trigger (EtcdMutexLock key) in
                             with_mutex key (read_and_write key value)) k) s p' s' ->
  step_ok t s (storage_call (SPutIfAbsent key value) k) p' s'.
Proof.
  intros Hk Hl (x & (e' & Hx%serve_documented & ->) & ->).
  assert (forall err, storage_contract (SPutIfAbsent key value) (etcd_kvs (replica_etcd s))
            (Err err) (etcd_kvs (replica_etcd s))) as Herr by by left.
  destruct Hx as [[Hfree ->]|[He ->]].
  - assert (forall u key', etcd_mutex (replica_etcd s) key' = Some u ->
      etcd_mutex (set_mutex key (Some t) (replica_etcd s)) key' = Some u) as Hm.
    { intros u key' Ho. simpl. rewrite decide_False; [done|congruence]. }
    destruct x as [u|err].
    + apply quiet_step_ok; [done|by intros; apply Hm|].
      apply related_mutex; [done..|]. simpl. by rewrite decide_True.
    + split; [intros u _; by intros key' _ Ho; split; [apply Hm|]|].
      right. do 4 eexists. split; [done|]. split; [|by apply (related_between _ _ (k (Err err)))].
      by apply paid_step_storage.
  - destruct x as [u|err]; [done|].
    by eapply (storage_step_ok t s (SPutIfAbsent key value) k (Err err)).
Qed.

(** The entry is read: a present one answers the call. *)
Lemma step_read t s key value (k : result bool -> prog PaidE (result unit)) p' s' :
  (forall x, obedient_paid (k x)) -> is_lock_key key = true ->
  etcd_mutex (replica_etcd s) key = Some t ->
  program_step t (then_over (with_mutex key (read_and_write key value)) k) s p' s' ->
  step_ok t s (storage_call (SPutIfAbsent key value) k) p' s'.
Proof.
  intros Hk Hl Ho (x & (e' & [-> Hx]%serve_documented & ->) & ->).
  assert (forall r, storage_contract (SPutIfAbsent key value) (etcd_kvs (replica_etcd s)) r
      (etcd_kvs (replica_etcd s)) ->
    step_ok t s (storage_call (SPutIfAbsent key value) k)
      (then_over (with_mutex key (Ret r)) k) (after_request t (replica_etcd s) s)) as Hans.
  { intros r Hr. split; [by intros u _; apply undisturbed_same|]. right. do 4 eexists.
    split; [done|]. split; [by apply paid_step_storage|by apply related_answered]. }
  destruct x as [vs|err]; [|by apply (Hans (Err err)); left]. subst vs.
  destruct (etcd_kvs (replica_etcd s) !! key) as [v|] eqn:Hv.
  - apply (Hans (Ok false)). split; [by eexists|done].
  - apply quiet_step_ok; [done..|]. by apply related_absent.
Qed.

(** The entry is written: nobody else has written it since it was absent. *)
Lemma step_write t s key value (k : result bool -> prog PaidE (result unit)) p' s' :
  (forall x, obedient_paid (k x)) -> is_lock_key key = true ->
  etcd_mutex (replica_etcd s) key = Some t -> etcd_kvs (replica_etcd s) !! key = None ->
  program_step t (then_over (with_mutex key (write_absent key value)) k) s p' s' ->
  step_ok t s (storage_call (SPutIfAbsent key value) k) p' s'.
Proof.
  intros Hk Hl Ho Ha (x & (e' & Hx%serve_documented & ->) & ->). split.
  - intros u Hu key' Hl' Ho'. destruct Hx as [->|[_ ->]]; [|done]. split; [done|]. simpl.
    intros Hn. rewrite lookup_insert_ne; [done|congruence].
  - right. set (r := match x with Ok _ => Ok true | Err err => Err err end).
    exists _, (PaymentEvent (StorageEvent (SPutIfAbsent key value))), k, r. split; [done|]. split.
    + apply paid_step_storage.
      destruct x as [u|err], Hx as [->|[He ->]]; [done|done|by right|by left].
    + destruct x as [u|err]; by apply (related_answered _ _ key r).
Qed.

(** The mutex is released. *)
Lemma step_release t s key r (k : result bool -> prog PaidE (result unit)) p' s' :
  obedient_paid (k r) ->
  program_step t (then_over (with_mutex key (Ret r)) k) s p' s' ->
  step_ok t s (k r) p' s'.
Proof.
  intros Hk (x & (e' & Hx%serve_documented & ->) & ->).
  apply quiet_step_ok; [by destruct Hx as [[_ ->]|[[_ ->]|[_ ->]]]| |by apply related_between].
  intros u key' Hu Ho. destruct Hx as [[Hown ->]|[[_ ->]|[_ ->]]]; [|done..]. simpl.
  rewrite decide_False; [done|congruence].
Qed.

(** ** All the steps *)

Lemma step_chain t s {X} (e : DaemonE X) k p' s' :
  match e with StorageEvent _ => False | _ => True end ->
  (forall x, obedient_paid (k x)) ->
  program_step t (over_etcd (Vis (PaymentEvent e) k)) s p' s' ->
  step_ok t s (Vis (PaymentEvent e) k) p' s'.
Proof.
  intros He Hk Hp.
  assert (s' = s /\ exists x, contract e (shared_world s) x (shared_world s) /\
    p' = over_etcd (k x)) as (-> & x & Hx & ->).
  { destruct e as [X e|id| |]; [done|..].
    - destruct Hp as (x & [-> Hx] & ->). split; [done|]. by exists x.
    - destruct Hp as (x & -> & ->). split; [done|]. by exists x.
    - destruct Hp as (x & [-> Hx] & ->). split; [done|]. by exists x. }
  split; [by intros u _; apply undisturbed_same|]. right. do 4 eexists.
  split; [done|]. split; [|by apply related_between, Hk].
  exists (shared_world s). split; [done|]. cbn [paid_state shared_paid].
  change (shared_world s) with (world (shared_state s)). by rewrite next_same.
Qed.

(** An exchange with the service. *)
Lemma step_service t s {X} (e : HandlerE X) k p' s' :
  (forall x, obedient_paid (k x)) ->
  program_step t (over_etcd (Vis (ServiceEvent e) k)) s p' s' ->
  step_ok t s (Vis (ServiceEvent e) k) p' s'.
Proof.
  intros Hk (x & (ps & Hps & ->) & ->). split; [by intros u _; apply undisturbed_same|]. right.
  exists X, (ServiceEvent e), k, x. split; [done|]. split; [by exists ps|].
  by apply related_between, Hk.
Qed.

Lemma step_between t s p p' s' :
  obedient_paid p -> program_step t (over_etcd p) s p' s' -> step_ok t s p p' s'.
Proof.
  intros Hp Hs. destruct p as [a|m|X e k]; [done..|]. destruct Hp as [He Hk].
  destruct e as [X e|X e]; [|by apply step_service].
  destruct e as [X e|id| |]; [|by apply step_chain..].
  destruct e as [key|pre|key v|key v|key v n|key].
  - by apply step_Get.
  - by apply step_GetByKeyPrefix.
  - by apply step_Put.
  - by apply step_session.
  - by apply step_CompareAndSwap.
  - by apply step_Delete.
Qed.

Lemma related_step t s p q p' s' :
  related t s p q -> program_step t p s p' s' -> step_ok t s q p' s'.
Proof.
  intros Hr Hs. destruct Hr.
  - by apply step_between.
  - by apply step_mutex.
  - by apply step_read.
  - by apply step_write.
  - by eapply step_release.
  - done.
Qed.

(** A put of the server is the put that the client sends to etcd, with its answer. *)
Definition performs (t : nat) {X} (e : PaidE X) (p : prog ReplicaE (result unit)) (s : ReplicaState)
  : X -> prog ReplicaE (result unit) -> ReplicaState -> Prop :=
  match e in PaidE X return X -> prog ReplicaE (result unit) -> ReplicaState -> Prop with
  | PaymentEvent e =>
      match e in DaemonE X return X -> prog ReplicaE (result unit) -> ReplicaState -> Prop with
      | StorageEvent e =>
          match e in StorageE X return X -> prog ReplicaE (result unit) -> ReplicaState -> Prop with
          | SPut key value => fun x p' s' => exists k,
              p = Vis (EtcdEvent (EtcdPut key value)) k /\
              replica_step t (EtcdEvent (EtcdPut key value)) s x s' /\ p' = k x
          | _ => fun _ _ _ => True
          end
      | _ => fun _ _ _ => True
      end
  | ServiceEvent _ => fun _ _ _ => True
  end.

Definition puts (q : prog PaidE (result unit)) : Prop :=
  match q with Vis (PaymentEvent (StorageEvent (SPut _ _))) _ => True | _ => False end.

Lemma performs_other t q p s p' s' :
  ~ puts q -> forall X (e : PaidE X) k x, q = Vis e k -> performs t e p s x p' s'.
Proof.
  intros Hq X e k x ->. destruct e as [X e|X e]; [|done].
  destruct e as [X e|id| |]; [|done..]. by destruct e; [..|destruct Hq| | |].
Qed.

Lemma step_performs t s p key value k p' s' :
  related t s p (storage_call (SPut key value) k) -> program_step t p s p' s' ->
  shared_paid s' = shared_paid s /\ related t s' p' (storage_call (SPut key value) k) \/
  exists x, paid_step t (PaymentEvent (StorageEvent (SPut key value))) (shared_paid s) x
      (shared_paid s') /\ related t s' p' (k x) /\
    performs t (PaymentEvent (StorageEvent (SPut key value))) p s x p' s'.
Proof.
  intros Hr. remember (storage_call (SPut key value) k) as q eqn:Hq.
  destruct Hr as [q Ho|key' v k' _ _|key' v k' _ _ _|key' v k' _ _ _ _|key' r k' Hk|q Hstop];
    try by exfalso; apply (f_equal puts) in Hq; simpl in Hq; rewrite Hq.
  - subst q. intros (x & Hx & ->). pose proof Hx as (e' & Hs%serve_documented & ->). right.
    exists x. split; [|split; [apply related_between, Ho|]].
    + apply paid_step_storage. destruct x as [u|err], Hs as [->|[He ->]]; [done|done|by right|by left].
    + eexists. split; [reflexivity|]. by split.
  - intros (x & (e' & Hx%serve_documented & ->) & ->). left.
    split; [|by apply related_between]. apply shared_paid_same.
    by destruct Hx as [[_ ->]|[[_ ->]|[_ ->]]].
  - done.
Qed.

(** ** The refinement *)

(** The replicas are in a state of the server: the same records and exchanges, and
    every request at the same point. *)
Record implements (c : replicas) (a : paid_server) : Prop := {
  implements_state : a.2 = shared_paid c.2;
  implements_requests : length c.1 = length a.1;
  implements_request t r q :
    c.1 !! t = Some r -> a.1 !! t = Some q ->
    replica_call r = request_of_call q /\ related t c.2 (replica_program r) (request_program q) }.

(** The request of the server. *)
Lemma implements_lookup c a t r :
  implements c a -> c.1 !! t = Some r ->
  exists q, a.1 !! t = Some (mkPaidRequest (replica_call r) q) /\
    related t c.2 (replica_program r) q.
Proof.
  intros [_ Hl Hr] Ht. destruct (lookup_lt_is_Some_2 a.1 t) as [[call q] Hq].
  { rewrite <-Hl. by eapply lookup_lt_Some. }
  destruct (Hr _ _ _ Ht Hq) as [Hc Hrel]. simpl in *. subst call. by exists q.
Qed.

(** One request moves to [p'] and [q'], the others are where they were. *)
Lemma implements_insert c a t call p' q' s' :
  implements c a -> (forall u, u <> t -> undisturbed u c.2 s') -> related t s' p' q' ->
  implements (<[t := mkReplicaRequest call p']> c.1, s')
    (<[t := mkPaidRequest call q']> a.1, shared_paid s').
Proof.
  intros [_ Hl Hr] Hu Hr'. split; cbn [fst snd]; [done|by rewrite !length_insert|].
  intros u r q Hp Hq. destruct (decide (t = u)) as [<-|Hne].
  - apply list_lookup_insert_Some in Hp as [(_ & <- & _)|[[] _]]; [|done].
    by apply list_lookup_insert_Some in Hq as [(_ & <- & _)|[[] _]].
  - rewrite list_lookup_insert_ne in Hp by done. rewrite list_lookup_insert_ne in Hq by done.
    destruct (Hr _ _ _ Hp Hq) as [Hc Hrel]. split; [done|].
    eapply related_undisturbed; [exact Hrel|by apply Hu].
Qed.

Lemma implements_append c a r :
  implements c a -> obedient_paid (request_program r) ->
  implements (c.1 ++ [in_replica r], c.2) (a.1 ++ [r], a.2).
Proof.
  intros [Hs Hl Hr] Ho. split; cbn [fst snd]; [done|by rewrite !length_app, Hl|].
  intros t r0 q0 [Hp|[Hge Hp]]%lookup_app_Some [Hq|[Hge' Hq]]%lookup_app_Some;
    [by apply Hr| | |].
  - apply lookup_lt_Some in Hp. lia.
  - apply lookup_lt_Some in Hq. lia.
  - apply list_lookup_singleton_Some in Hp as [_ <-].
    apply list_lookup_singleton_Some in Hq as [_ <-]. split; [done|]. by apply related_between.
Qed.

(** An operation of a request is one of the server, or nothing there. *)
Lemma operation_moves c a t call p p' s' :
  implements c a -> c.1 !! t = Some (mkReplicaRequest call p) -> program_step t p c.2 p' s' ->
  exists q q', a.1 !! t = Some (mkPaidRequest call q) /\
    implements (<[t := mkReplicaRequest call p']> c.1, s')
      (<[t := mkPaidRequest call q']> a.1, shared_paid s') /\
    (q' = q /\ shared_paid s' = shared_paid c.2 \/
     exists X (e : PaidE X) k x, q = Vis e k /\ q' = k x /\
       paid_step t e (shared_paid c.2) x (shared_paid s') /\ performs t e p c.2 x p' s').
Proof.
  intros Hi Hp Hs. destruct (implements_lookup _ _ _ _ Hi Hp) as (q & Hq & Hrel).
  cbn [replica_call replica_program] in *. exists q.
  destruct (related_step _ _ _ _ _ _ Hrel Hs) as [Hu Hm].
  assert (shared_paid s' = shared_paid c.2 /\ related t s' p' q \/
    exists X (e : PaidE X) k x, q = Vis e k /\ paid_step t e (shared_paid c.2) x (shared_paid s') /\
      related t s' p' (k x) /\ performs t e p c.2 x p' s') as [[Hsame Hr]|Hmove].
  { assert (puts q \/ ~ puts q) as [Hput|Hno].
    { destruct q as [a'|m|X [X' [X'' []| | |]|]]; simpl; auto. }
    - destruct q as [a'|m|X [X' [X'' e| | |]|]]; try done. destruct e; try done.
      destruct (step_performs _ _ _ _ _ _ _ _ Hrel Hs) as [?|(x & Hx)]; [by left|right].
      do 4 eexists. split; [reflexivity|exact Hx].
    - destruct Hm as [?|(X & e & k & x & Hvis & Hx & Hr)]; [by left|right].
      exists X, e, k, x. split; [done|]. split; [done|]. split; [done|].
      by eapply performs_other. }
  - exists q. split; [done|]. split; [by apply implements_insert|by left].
  - destruct Hmove as (X & e & k & x & -> & Hx & Hr & Hpf). exists (k x). split; [done|].
    split; [by apply implements_insert|]. right. by exists X, e, k, x.
Qed.

(** A crash is a stop. *)
Lemma crash_implemented c a t call p :
  implements c a -> c.1 !! t = Some (mkReplicaRequest call p) ->
  exists q, a.1 !! t = Some (mkPaidRequest call q) /\
    implements (<[t := mkReplicaRequest call (stop p)]> c.1, after_crash t c.2)
      (<[t := mkPaidRequest call (stop q)]> a.1, shared_paid (after_crash t c.2)).
Proof.
  intros Hi Hp. destruct (implements_lookup _ _ _ _ Hi Hp) as (q & Hq & Hrel). exists q.
  split; [done|]. apply implements_insert; [done| |by eapply related_stop].
  intros u Hu key _ Ho. simpl in *. rewrite decide_False; [done|congruence].
Qed.

(** A step that leaves the requests where they are. *)
Lemma undisturbed_implemented c a s' :
  implements c a -> (forall t, undisturbed t c.2 s') -> implements (c.1, s') (a.1, shared_paid s').
Proof.
  intros [Hst Hl Hr] Hu. split; [done|done|]. simpl. intros t r q Hp Hq.
  destruct (Hr _ _ _ Hp Hq) as [Hc Hrel]. split; [done|].
  by eapply related_undisturbed; [exact Hrel|].
Qed.

Lemma etcd_kept_implemented c a s' :
  implements c a -> replica_etcd s' = replica_etcd c.2 ->
  implements (c.1, s') (a.1, shared_paid s').
Proof.
  intros Hi He. apply undisturbed_implemented; [done|]. intros t key _ Ho. by rewrite He.
Qed.

Lemma unlock_implemented c a id u r etcd' :
  implements c a -> etcd_serve u _ (EtcdDelete (lock_key id)) (replica_etcd c.2) r etcd' ->
  let s' := set_etcd etcd' (replica_locks c.2) c.2 in
  implements (c.1, s') (a.1, shared_paid s') /\
  (owner (shared_state c.2) id = None ->
   shared_paid s' = shared_paid c.2 \/
   environment_step (shared_state c.2) (shared_state s')).
Proof.
  intros Hi Hs%serve_documented s'. split.
  - apply undisturbed_implemented; [done|]. intros t. apply undisturbed_same.
    + by destruct Hs as [->|[_ ->]].
    + intros key _ _ Hn. destruct Hs as [->|[_ ->]]; [|done]. simpl.
      by rewrite lookup_delete_None; right.
  - intros Ho. destruct Hs as [->|[_ ->]]; [right|by left]. by apply (env_unlock (shared_state c.2)).
Qed.

(** Where a call of the server comes from: it is new, has not moved, has stopped, or
    has made the operation that its replica has made. *)
Definition call_moves (c c' : replicas) (a a' : paid_server) : Prop :=
  forall t md handler q', a'.1 !! t = Some (mkPaidRequest (Some (md, handler)) q') ->
  q' = served_call metadata md handler \/
  exists q, a.1 !! t = Some (mkPaidRequest (Some (md, handler)) q) /\
    (q' = q \/ q' = stop q \/
     exists p p' X (e : PaidE X) k x, q = Vis e k /\ q' = k x /\
       c.1 !! t = Some (mkReplicaRequest (Some (md, handler)) p) /\
       c'.1 = <[t := mkReplicaRequest (Some (md, handler)) p']> c.1 /\
       paid_step t e (shared_paid c.2) x (shared_paid c'.2) /\ performs t e p c.2 x p' c'.2).

Lemma call_moves_same c c' a s : call_moves c c' a (a.1, s).
Proof. intros t md handler q Hq. right. exists q. split; [done|by left]. Qed.

Lemma call_moves_append c c' a r s :
  (forall md handler, request_of_call r = Some (md, handler) ->
     request_program r = served_call metadata md handler) ->
  call_moves c c' a (a.1 ++ [r], s).
Proof.
  intros Hr t md handler q [Hq|[_ Hq]]%lookup_app_Some.
  - right. exists q. split; [done|by left].
  - apply list_lookup_singleton_Some in Hq as [_ ->]. left. by apply (Hr md handler).
Qed.

Lemma call_moves_insert c c' a t call q q' s :
  a.1 !! t = Some (mkPaidRequest call q) ->
  (forall md handler, call = Some (md, handler) -> q' = q \/ q' = stop q \/
     exists p p' X (e : PaidE X) k x, q = Vis e k /\ q' = k x /\
       c.1 !! t = Some (mkReplicaRequest (Some (md, handler)) p) /\
       c'.1 = <[t := mkReplicaRequest (Some (md, handler)) p']> c.1 /\
       paid_step t e (shared_paid c.2) x (shared_paid c'.2) /\ performs t e p c.2 x p' c'.2) ->
  call_moves c c' a (<[t := mkPaidRequest call q']> a.1, s).
Proof.
  intros Hq Hm u md handler q0 [(<- & [= -> ->] & _)|[Hne Hq0]]%list_lookup_insert_Some; right.
  - exists q. split; [done|by apply Hm].
  - exists q0. split; [done|by left].
Qed.

Lemma operation_implemented c a t call p p' s' :
  implements c a -> c.1 !! t = Some (mkReplicaRequest call p) -> program_step t p c.2 p' s' ->
  exists a', (a' = a \/ paid_server_step metadata a a') /\
    implements (<[t := mkReplicaRequest call p']> c.1, s') a' /\
    call_moves c (<[t := mkReplicaRequest call p']> c.1, s') a a'.
Proof.
  intros Hi Hp Hs. pose proof (implements_state _ _ Hi) as Hst.
  destruct (operation_moves _ _ _ _ _ _ _ Hi Hp Hs) as (q & q' & Hq & Hi' & Hm).
  eexists. split; [|split; [exact Hi'|]].
  - destruct Hm as [[-> Hsame]|(X & e & k & x & -> & -> & Hc & _)].
    + left. by rewrite (list_insert_id _ _ _ Hq), Hsame, <-Hst, <-surjective_pairing.
    + right. rewrite (surjective_pairing a) at 1. eapply paid_operation; [exact Hq|].
      exists x. by rewrite Hst.
  - eapply call_moves_insert; [exact Hq|]. intros md handler ->.
    destruct Hm as [[-> _]|(X & e & k & x & -> & -> & Hc & Hpf)]; [by left|right; right].
    by exists p, p', X, e, k, x.
Qed.

Lemma implements_moves c c' a :
  implements c a -> replicas_step c c' ->
  exists a', (a' = a \/ paid_server_step metadata a a') /\ implements c' a' /\
    call_moves c c' a a'.
Proof.
  intros Hi Hs. pose proof (implements_state _ _ Hi) as Hst.
  destruct Hs as [rs s t call p p' s' Hp Hs|rs s md handler|rs s p Hp|rs s t call p Hp
    |rs s id u r e Ho He|rs s t r p l ev Ht Hr Hp Hev|rs s s' He Hx Hps Henv].
  - by eapply (operation_implemented (rs, s)).
  - exists (a.1 ++ [paid_call metadata md handler], a.2).
    split; [right; destruct a; apply paid_new_call|].
    split; [apply (implements_append (rs, s)); [done|]; apply obedient_served_call|].
    apply call_moves_append. by intros md' handler' [= <- <-].
  - exists (a.1 ++ [other_request p], a.2). split; [right; destruct a; by apply paid_new_request|].
    split; [apply (implements_append (rs, s)); [done|]; by eapply obedient_other_request|].
    by apply call_moves_append.
  - destruct (crash_implemented (rs, s) _ _ _ _ Hi Hp) as (q & Hq & Hi').
    eexists. split; [right|split; [exact Hi'|]].
    + destruct a as [qs st]. simpl in *. subst st. by apply (paid_stop _ qs (shared_paid s)).
    + eapply call_moves_insert; [exact Hq|]. intros md handler _. by right; left.
  - destruct (unlock_implemented (rs, s) _ _ _ _ _ Hi He) as [Hi' Henv].
    eexists. split; [|split; [exact Hi'|apply call_moves_same]].
    destruct a as [qs st]. simpl in *. subst st.
    destruct (Henv Ho) as [Heq|Hs]; [left; by f_equal|right].
    by apply (paid_environment _ qs (shared_paid s)).
  - exists (a.1, shared_paid (set_handlers (replica_exchanges s)
      (set_proxy t (p, l ++ [ev]) (replica_proxies s)) s)).
    split; [right|split; [by apply (etcd_kept_implemented (rs, s))|apply call_moves_same]].
    destruct a as [qs st]. simpl in *. subst st. by apply (paid_proxy _ qs (shared_paid s)).
  - exists (a.1, shared_paid s').
    split; [right|split; [by apply (etcd_kept_implemented (rs, s))|apply call_moves_same]].
    destruct a as [qs st]. simpl in *. subst st. unfold shared_paid. rewrite Hx, Hps.
    by apply (paid_environment _ qs (shared_paid s)).
Qed.

Lemma implements_step c c' a :
  implements c a -> replicas_step c c' ->
  exists a', (a' = a \/ paid_server_step metadata a a') /\ implements c' a'.
Proof.
  intros Hi Hs. destruct (implements_moves _ _ _ Hi Hs) as (a' & Hs' & Hi' & _). by exists a'.
Qed.

(** From a state in which nothing has been exchanged. *)
Definition replicas_reachable (s0 : ReplicaState) (c : replicas) : Prop :=
  replica_exchanges s0 = (fun _ => []) /\ replica_proxies s0 = (fun _ => None) /\
  rtc replicas_step ([], s0) c.

Lemma implements_reachable s0 c :
  replicas_reachable s0 c ->
  exists a, paid_reachable metadata (shared_state s0) a /\ implements c a.
Proof.
  intros (Hx & Hps & Hr). apply rtc_ind_r with (P := fun c => exists a,
    paid_reachable metadata (shared_state s0) a /\ implements c a) (3 := Hr).
  - eexists. split; [apply rtc_refl|]. split; [|done..]. unfold shared_paid. simpl. by rewrite Hx, Hps.
  - intros c1 c2 _ Hs (a & Ha & Hi). destruct (implements_step _ _ _ Hi Hs) as (a' & Hs' & Hi').
    exists a'. split; [|done]. destruct Hs' as [->|Hs']; [done|]. by eapply rtc_r.
Qed.

(** Every step of replicas is one of the server of [Safety], with the same state. *)
Lemma replicas_step_of_server s0 c c' :
  replicas_reachable s0 c -> replicas_step c c' ->
  exists b b', reachable metadata (shared_state s0) b /\ b.2 = shared_state c.2 /\
    b'.2 = shared_state c'.2 /\ (b' = b \/ server_step metadata b b').
Proof.
  intros Hr Hs. destruct (implements_reachable s0 c Hr) as (a & Ha & Hi).
  destruct (implements_step _ _ _ Hi Hs) as (a' & Hs' & Hi').
  assert (paid_state a.2 = shared_state c.2) as Hst by by rewrite (implements_state _ _ Hi).
  assert (paid_state a'.2 = shared_state c'.2) as Hst' by by rewrite (implements_state _ _ Hi').
  rewrite <-Hst, <-Hst'. destruct Hs' as [->|Hs']; [|by apply paid_step_of_server].
  destruct (paid_reachable_phases metadata _ _ Ha) as (phs & _ & Hre).
  set (b := (server_requests metadata phs (fun _ => Panicked ""), paid_state a.2)).
  exists b, b. split; [by apply Hre|]. split; [done|]. split; [done|]. by left.
Qed.

(** A request that has ended has ended in the server. *)
Lemma related_ret t s q (r : result unit) : related t s (Ret r) q -> q = Ret r.
Proof.
  intros Hr. inversion Hr as [p Hp Heq|key v k Hl Hk Heq|key v k Hl Hk Hm Heq
    |key v k Hl Hk Hm Ha Heq|key r' k Hk Heq|q' Hq Heq]; subst; try done.
  destruct q as [a|m|X e k]; simpl in Heq; [by injection Heq as ->|done|].
  destruct e as [X e|X e]; [|done]. destruct e as [X e|id| |]; [|done..]. by destruct e.
Qed.
End replicas.

(** C12: Replicas of the daemon over one etcd server refine the server with one
    atomic storage: whatever they interleave, whichever of their requests to etcd
    and to the blockchain fail, whichever of them crash and whichever channels that
    they left locked the operator unlocks, every state they reach is one of an
    execution of [PaidCalls], with the same records, exchanges and points of the
    requests, and every further step is one of that server or changes nothing
    there. *)
Theorem replicas_refine_server `{!JsonRpc, !GoEthereum, !EscrowCodec, !EtcdKeys, !EtcdServer,
    !EtcdKeysLaws, !EtcdServerLaws} (metadata : ServiceMetadata) s0 c :
  replicas_reachable metadata s0 c ->
  exists a, paid_reachable metadata (shared_state s0) a /\ implements c a /\
    forall c', replicas_step metadata c c' ->
      exists a', (a' = a \/ paid_server_step metadata a a') /\ implements c' a'.
Proof.
  intros Hr. destruct (implements_reachable metadata s0 c Hr) as (a & Ha & Hi).
  exists a. split; [done|]. split; [done|]. intros c' Hs. by apply (implements_step _ c).
Qed.

(** C8: Replicas that share one etcd server never lose an update of a channel and
    never accept two payments for one state of it: every change of a record is a
    payment of the current state of the channel that passes all the checks and
    pays exactly the price, or the start of a claim, although the locks of the
    channels are taken by several requests to etcd, replicas may crash and the
    operator may unlock the channels that they leave locked. *)
Theorem replica_updates_are_legal `{!JsonRpc, !GoEthereum, !EscrowCodec, !EscrowCodecLaws,
    !EtcdKeys, !EtcdServer, !EtcdKeysLaws, !EtcdServerLaws} (metadata : ServiceMetadata)
    s0 c c' id :
  price_ok metadata -> state_ok metadata (shared_state s0) ->
  replicas_reachable metadata s0 c -> replicas_step metadata c c' ->
  stored (shared_state c'.2) id = stored (shared_state c.2) id \/
  legal_update metadata (shared_state c.2) id (shared_state c'.2).
Proof.
  intros Hp Hs0 Hr Hs.
  destruct (replicas_step_of_server metadata s0 c c' Hr Hs) as (b & b' & Hb & <- & <- & Hstep).
  destruct Hstep as [->|Hstep]; [by left|].
  by apply (server_step_records metadata Hp _ _ (reachable_ok metadata Hp _ _ Hs0 Hb) Hstep).
Qed.

(** C9: In every execution of replicas over one etcd server, crashes included: a call
    makes an exchange between its caller and the service, or starts a proxy, only
    while it owns the lock of its channel and the payment in its metadata is
    accepted for the present record: it has passed all the checks since the lock
    was taken and pays exactly the price. It changes the record of a channel only
    by that payment, accepted as before, and succeeds only, when what its handler
    has to do with the service is complete: the one exchange of a JSON-RPC, process
    or loopback handler, the end of the service's stream for the gRPC proxy, with
    every message delivered. *)
Theorem charged_calls_were_answered `{!JsonRpc, !GoEthereum, !EscrowCodec, !EscrowCodecLaws,
    !EtcdKeys, !EtcdServer, !EtcdKeysLaws, !EtcdServerLaws} (metadata : ServiceMetadata)
    s0 c t md handler p :
  price_ok metadata -> state_ok metadata (shared_state s0) ->
  replicas_reachable metadata s0 c ->
  c.1 !! t = Some (mkReplicaRequest (Some (md, handler)) p) ->
  (forall c', replicas_step metadata c c' ->
     replica_exchanges c'.2 t <> replica_exchanges c.2 t \/
       replica_proxies c.2 t = None /\ is_Some (replica_proxies c'.2 t) ->
     call_accepted metadata t md (shared_state c.2)) /\
  (p = Ret (Ok tt) -> call_complete handler t (shared_paid c.2)) /\
  (forall p' s' id, program_step t p c.2 p' s' ->
     stored (shared_state s') id <> stored (shared_state c.2) id ->
     call_complete handler t (shared_paid c.2) /\
     call_charged metadata t md id (shared_state c.2) (shared_state s')).
Proof.
  intros Hprice Hok Hr Ht. destruct (implements_reachable metadata s0 c Hr) as (a & Ha & Hi).
  pose proof (implements_state _ _ Hi) as Hst.
  destruct (implements_lookup _ _ _ _ Hi Ht) as (q & Hq & Hrel). cbn in Hq, Hrel.
  destruct (call_earns metadata _ _ _ _ _ _ Ha Hq) as (Hcomplete & Hc). rewrite Hst in Hcomplete, Hc.
  split; [|split].
  - intros c' Hs Hx. destruct (implements_step metadata _ _ _ Hi Hs) as (a' & Hs' & Hi').
    pose proof (implements_state _ _ Hi') as Hst'.
    change (shared_state c.2) with (paid_state (shared_paid c.2)). rewrite <-Hst.
    destruct Hs' as [->|Hs'].
    + rewrite Hst in Hst'. destruct Hx as [Hx|[Hn [y Hy]]].
      * by destruct Hx; apply (f_equal (fun s => exchanges s t)) in Hst'.
      * apply (f_equal (fun s => proxies s t)) in Hst'. simpl in Hst'. congruence.
    + eapply (serves_accepted metadata Hprice _ Hok _ _ _ _ _ _ Ha Hs' Hq).
      by rewrite Hst, Hst'.
  - intros ->. by apply Hcomplete, (related_ret t c.2).
  - intros p' s' id Hs Hne.
    destruct (operation_moves _ _ _ _ _ _ _ Hi Ht Hs)
      as (q1 & q' & Hq' & _ & [[-> Hsame]|(X & e & k & x & -> & -> & Hs' & _)]).
    + destruct Hne. by apply (f_equal (fun s => stored (paid_state s) id)) in Hsame.
    + rewrite Hq in Hq'. injection Hq' as ->.
      assert (paid_program_step t (Vis e k) (shared_paid c.2) (k x) (shared_paid s')) as Hs1
        by by exists x.
      split; [by apply (Hc (k x) (shared_paid s') (channel_key id))|].
      rewrite <-Hst in Hs1.
      change (shared_state c.2) with (paid_state (shared_paid c.2)). rewrite <-Hst.
      eapply (changes_are_charges metadata Hprice _ Hok _ _ _ _ _ _ (shared_paid s') id Ha Hq Hs1).
      by rewrite Hst.
Qed.
