(* ===== verification/Charged.v ===== *)
(** * Calls that succeed are charged

    The converse of what [Replicas] shows of charged calls: a call that has ended
    without an error, in any interleaving of any replicas over etcd and with any
    failures, has itself written the record of its channel, with the payment it
    carries. *)
From S2P Require Import Prelude Prog Bytes AtomicStorage Lock Blockchain PaymentChannelApi.
From S2P Require Import PaymentChannelStorage Validation Escrow Handler EscrowHandler World.
From S2P Require Import RelyGuarantee Etcd Concurrency Requests Safety Discipline Forwarding.
From S2P Require Import StreamHandlers PaidCalls Serving Replicas.
Import Payment (Payment) PaymentChannelData (PaymentChannelData)
  PaymentTransaction (PaymentTransaction) PaymentHandler (PaymentHandler)
  ServiceMetadata (ServiceMetadata).
Local Open Scope Z_scope.

(** ** A logic for what a program has done when it ends

    [unless p Q]: [p] ends with [Q], unless one of its operations was answered as
    [C] says. *)
Section unless.
Context {E : Type -> Type} (C : forall X, E X -> X -> Prop).

Fixpoint unless {A} (p : prog E A) (Q : outcome A -> Prop) : Prop :=
  match p with
  | Ret a => Q (Returned a)
  | Panic m => Q (Panicked m)
  | Vis e k => forall x, C _ e x \/ unless (k x) Q
  end.

Lemma unless_bind {A B} (p : prog E A) (f : A -> prog E B) R Q :
  unless p R ->
  (forall o, R o -> match o with
                    | Returned a => unless (f a) Q
                    | Panicked m => Q (Panicked m)
                    end) ->
  unless (bind p f) Q.
Proof.
  intros Hp HR. induction p as [a|m|X e k IH]; simpl in *; [by apply (HR _ Hp)..|].
  intros x. destruct (Hp x) as [?|Hk]; [by left|right]. by apply IH.
Qed.

Lemma unless_catch {A B} (p : prog E A) (h : outcome A -> prog E B) R Q :
  unless p R -> (forall o, R o -> unless (h o) Q) -> unless (catch p h) Q.
Proof.
  intros Hp HR. induction p as [a|m|X e k IH]; simpl in *; [by apply HR..|].
  intros x. destruct (Hp x) as [?|Hk]; [by left|right]. by apply IH.
Qed.

Lemma obeys_unless (P : forall X, E X -> Prop) {A} (p : prog E A) Q :
  obeys P p Q -> unless p Q.
Proof.
  induction p as [a|m|X e k IH]; simpl; [done..|]. intros [_ Hk] x. right. by apply IH.
Qed.

Lemma unless_any {A} (p : prog E A) : unless p (fun _ => True).
Proof. induction p as [a|m|X e k IH]; simpl; [done..|]. intros x. by right. Qed.

Lemma unless_stop {A} (p : prog E A) (Q : outcome A -> Prop) :
  (forall m, Q (Panicked m)) -> unless p Q -> unless (stop p) Q.
Proof. intros HQ. destruct p as [a|m|X e k]; [done..|]. intros _. apply HQ. Qed.
End unless.

Section charged.
Context `{!JsonRpc, !GoEthereum, !EscrowCodec, !EscrowCodecLaws} (metadata : ServiceMetadata).

Local Abbreviation service := (Components_PaymentChannelService metadata).
Local Abbreviation escrow_handler := (Components_EscrowPaymentHandler metadata).

(** ** The operation that charges a call *)

Definition not_ok (o : outcome (result unit)) : Prop := o <> Returned (Ok tt).

(** *** The transaction *)

Lemma unless_channel_put tx :
  own_transaction metadata tx ->
  unless (@charges _ tx) (PaymentChannelStorage_Put (service_storage (transaction_service tx))
    (transaction_key tx) (transaction_record tx)) not_ok.
Proof.
  intros [-> _]. unfold PaymentChannelStorage_Put. simpl.
  destruct (serialize (transaction_key tx)) as [ks|e] eqn:Hk; [|done].
  destruct (serialize (transaction_record tx)) as [vs|e] eqn:Hv; [|done].
  intros [[]|e]; [left|by right]. split; [done|]. intros m.
  unfold put_channel. by rewrite Hk, Hv.
Qed.

Lemma unless_Commit tx :
  own_transaction metadata tx -> unless (@charges _ tx) (paymentTransaction_Commit tx) not_ok.
Proof.
  intros Htx. unfold paymentTransaction_Commit, defer.
  eapply unless_catch.
  - eapply unless_bind; [by apply unless_channel_put|]. by intros [[[]|e]|m] Ho; simpl.
  - intros o Ho. eapply unless_bind; [apply unless_any|]. intros [u|m] _; [|done].
    by destruct o as [[[]|e]|m]; simpl.
Qed.

Lemma unless_complete tx :
  own_transaction metadata tx ->
  unless (@charges _ tx)
    (complete_payment (paymentChannelPaymentHandler_object escrow_handler)
       (paymentTransaction_object tx) (Returned (Ok tt))) not_ok.
Proof.
  intros Htx. simpl.
  eapply (unless_bind _ _ _ (fun o => forall r, o = Returned r ->
    exists e, r = Some (grpc_error_of e))).
  - eapply unless_bind; [by apply unless_Commit|]. intros [[[]|e]|m] Ho;
      [by destruct Ho| |done].
    intros r [= <-]. exists e. by destruct e.
  - intros [r|m] Hr; [|done]. destruct (Hr r eq_refl) as [e ->].
    intros [= He]. pose proof (grpc_error_is_error e) as Hg. by rewrite He in Hg.
Qed.

(** *** The call *)

Lemma unless_embed md tx {A} (p : prog DaemonE A) Q :
  pays_for metadata md tx -> unless (@charges _ tx) p Q ->
  unless (@call_charges _ _ _ metadata md) (embed (@PaymentEvent _) p) Q.
Proof.
  intros Hm. induction p as [a|m|X e k IH]; simpl; [done..|]. intros Hp x.
  destruct (Hp x) as [Hc|Hk]; [left; by exists tx|right; by apply IH].
Qed.

Lemma unless_erases md tx {A} (p : prog PaidE A) q Q :
  pays_for metadata md tx -> erases eq p q -> unless (@charges _ tx) q Q -> unless (@call_charges _ _ _ metadata md) p Q.
Proof.
  intros Hm Hp. induction Hp as [a b <-|m|X e k k' Hk IH]; simpl; [done..|]. intros Hq x.
  destruct (Hq x) as [Hc|Hq']; [left; by exists tx|right; by apply IH].
Qed.

Lemma is_err_not_ok (r : result unit) : is_err r -> not_ok (Returned r).
Proof. by destruct r. Qed.

(** A call ends with an error unless it has charged its payment. *)
Lemma unless_served_call md handler :
  unless (@call_charges _ _ _ metadata md) (served_call metadata md handler) not_ok.
Proof.
  unfold served_call, GrpcPaymentValidationInterceptor, paymentValidationInterceptor_intercept.
  destruct (getGrpcContext md) as [context|err] eqn:Hctx.
  2: { apply is_err_not_ok. destruct md; [done|]. by injection Hctx as <-. }
  rewrite getPaymentHandler_lift. destruct (getPaymentHandler _ context) as [h|err] eqn:Hh.
  2: { by eapply is_err_not_ok, getPaymentHandler_error. }
  eapply unless_bind.
  { apply (obeys_unless _ (fun _ _ => True)).
    eapply obeys_embed; [|apply obeys_Payment]. by intros X e He. }
  intros [[transaction|e]|m] Ht; [|exact (is_err_not_ok _ Ht)|done].
  destruct Ht as (tx & -> & Hv). assert (pays_for metadata md tx) as Hm by by exists context.
  destruct Hv as (_ & [Htx _] & _).
  eapply unless_catch; [apply unless_any|]. intros o _.
  eapply unless_erases; [done|apply erases_complete|].
  destruct o as [[[]|e]|m]; [by apply unless_complete|..].
  all: by eapply obeys_unless, obeys_complete_failure.
Qed.
End charged.

(** ** The executions *)

Section executions.
Context `{!JsonRpc, !GoEthereum, !EscrowCodec, !EscrowCodecLaws}.
Context `{!EtcdKeys, !EtcdServer, !EtcdKeysLaws, !EtcdServerLaws}.
Context (metadata : ServiceMetadata) (s0 : ReplicaState).

Local Abbreviation reachable := (replicas_reachable metadata s0).
Local Abbreviation step := (replicas_step metadata).

(** A step of the call [t] that charges it: it is the put of the record of the
    channel into etcd, answered without an error, while the call owns the lock of
    the channel and the payment it carries is accepted for the record that is
    replaced. *)
Definition charging_step (t : nat) (md : option MD) (c1 c2 : replicas) : Prop :=
  exists call key value k p old c,
    c1.1 !! t = Some (mkReplicaRequest call (Vis (EtcdEvent (EtcdPut key value)) k)) /\
    replica_step t (EtcdEvent (EtcdPut key value)) c1.2 (Ok tt) c2.2 /\
    c2.1 = <[t := mkReplicaRequest call (k (Ok tt))]> c1.1 /\
    carries metadata md p /\ accepts metadata t (shared_state c1.2) p old c /\
    forall m, stored_channel (<[key := value]> m) (channel_key (Payment.ChannelID p))
      = Ok (Some (norm_channel (committed_channel p c))).

(** There is such a step on the way to [c]. *)
Definition has_charged (t : nat) (md : option MD) (c : replicas) : Prop :=
  exists c1 c2, reachable c1 /\ step c1 c2 /\ charging_step t md c1 c2 /\ rtc step c2 c.

Lemma has_charged_step t md c c' : has_charged t md c -> step c c' -> has_charged t md c'.
Proof.
  intros (c1 & c2 & Hr & Hs & Hc & Hre) Hs'. exists c1, c2.
  split; [done|]. split; [done|]. split; [done|]. by eapply rtc_r.
Qed.

Hypothesis price_nonneg : price_ok metadata.
Hypothesis start_ok : state_ok metadata (shared_state s0).

(** The write of the payment of a call is such a step. *)
Lemma write_charging_step c c' a t md handler p p' X (e : PaidE X) k x :
  paid_reachable metadata (shared_state s0) a -> implements c a ->
  a.1 !! t = Some (mkPaidRequest (Some (md, handler)) (Vis e k)) ->
  c.1 !! t = Some (mkReplicaRequest (Some (md, handler)) p) ->
  c'.1 = <[t := mkReplicaRequest (Some (md, handler)) p']> c.1 ->
  paid_step t e (shared_paid c.2) x (shared_paid c'.2) -> performs t e p c.2 x p' c'.2 ->
  call_charges metadata md e x -> charging_step t md c c'.
Proof.
  intros Ha Hi Hq Hp Hc' Hx Hpf Hch. rewrite <-(implements_state _ _ Hi) in Hx.
  destruct (answered_write_charges metadata price_nonneg _ start_ok _ _ _ _ _ _ _ _ _ Ha Hq Hx Hch)
    as (id & (pay & old & ch & Hm & <- & Hacc & Hst) & Hrec).
  destruct e as [X e|X e]; [|done]. destruct e as [X e|i| |]; try (by destruct Hch as (tx & _ & [])).
  destruct e as [i|i|key value|i v|i v n|i]; try (by destruct Hch as (tx & _ & [])).
  destruct Hch as (tx & _ & -> & _), Hpf as (k' & -> & Hs & ->).
  rewrite (implements_state _ _ Hi) in Hacc.
  exists (Some (md, handler)), key, value, k', pay, old, ch. split; [done|]. split; [done|].
  split; [done|]. split; [done|]. split; [done|]. intros m. by rewrite (Hrec m), Hst.
Qed.

(** Every call has charged its payment or has still to do so before it can
    succeed. *)
Definition calls_charge (c : replicas) (a : paid_server) : Prop :=
  forall t md handler q, a.1 !! t = Some (mkPaidRequest (Some (md, handler)) q) ->
  has_charged t md c \/ unless (@call_charges _ _ _ metadata md) q not_ok.

Lemma calls_charge_step c c' a a' :
  reachable c -> paid_reachable metadata (shared_state s0) a -> implements c a ->
  step c c' -> call_moves metadata c c' a a' -> calls_charge c a -> calls_charge c' a'.
Proof.
  intros Hr Ha Hi Hs Hm Hc t md handler q' Hq'.
  destruct (Hm _ _ _ _ Hq') as [->|(q & Hq & Hmove)]; [right; apply unless_served_call|].
  destruct (Hc _ _ _ _ Hq) as [?|Hu]; [left; by eapply has_charged_step|].
  destruct Hmove as [->|[->|(p & p' & X & e & k & x & -> & -> & Hp & Hc' & Hx & Hpf)]];
    [by right|right; by apply unless_stop|].
  destruct (Hu x) as [Hch|?]; [left|by right].
  exists c, c'. split; [done|]. split; [done|]. split; [|apply rtc_refl].
  by eapply write_charging_step.
Qed.

Lemma reachable_calls_charge c :
  reachable c -> exists a, implements c a /\ calls_charge c a.
Proof.
  intros (Hx & Hps & Hr).
  cut (exists a, paid_reachable metadata (shared_state s0) a /\ implements c a /\ calls_charge c a).
  { intros (a & _ & ?). by exists a. }
  apply rtc_ind_r with (P := fun c => exists a,
    paid_reachable metadata (shared_state s0) a /\ implements c a /\ calls_charge c a) (3 := Hr).
  - eexists. split; [apply rtc_refl|]. split; [split; [|done..]|done].
    unfold shared_paid. simpl. by rewrite Hx, Hps.
  - intros c1 c2 Hre Hs (a & Ha & Hi & Hc).
    destruct (implements_moves metadata _ _ _ Hi Hs) as (a' & Hs' & Hi' & Hm).
    exists a'. split; [destruct Hs' as [->|Hs']; [done|by eapply rtc_r]|].
    split; [done|]. by eapply calls_charge_step.
Qed.
End executions.

(** C10: In every execution of replicas over one etcd server, crashes included, a
    call that has succeeded has been charged: one of its own steps has put the
    record of the channel named in its metadata into etcd, made with the payment it
    carries, when the call owned the lock of the channel and the payment was
    accepted for the record that it replaced: it had passed all the checks since the
    lock was taken and paid exactly the price. *)
Theorem successful_calls_are_charged `{!JsonRpc, !GoEthereum, !EscrowCodec, !EscrowCodecLaws,
    !EtcdKeys, !EtcdServer, !EtcdKeysLaws, !EtcdServerLaws} (metadata : ServiceMetadata)
    s0 c t md handler :
  price_ok metadata -> state_ok metadata (shared_state s0) ->
  replicas_reachable metadata s0 c ->
  c.1 !! t = Some (mkReplicaRequest (Some (md, handler)) (Ret (Ok tt))) ->
  has_charged metadata s0 t md c.
Proof.
  intros Hp Hs0 Hr Ht.
  destruct (reachable_calls_charge metadata s0 Hp Hs0 c Hr) as (a & Hi & Hc).
  destruct (implements_lookup _ _ _ _ Hi Ht) as (q & Hq & Hrel). cbn in Hq, Hrel.
  apply related_ret in Hrel as ->.
  destruct (Hc _ _ _ _ Hq) as [?|Hn]; [done|by destruct Hn].
Qed.
