(* ===== verification/Ledger.v ===== *)
(** * The calls that a channel has paid

    What the provider can claim covers what it has served: in every execution of
    the replicas, the record of a channel authorizes at least the price of each
    call on the state of the channel that has succeeded. Two calls are never
    charged by the same payment, and a charge is never lost. *)
From S2P Require Import Prelude Prog Bytes AtomicStorage Lock Blockchain PaymentChannelApi.
From S2P Require Import PaymentChannelStorage Validation Escrow Handler EscrowHandler World.
From S2P Require Import RelyGuarantee Etcd Concurrency Requests Safety Discipline Forwarding.
From S2P Require Import StreamHandlers PaidCalls Serving Replicas Charged.
Import Payment (Payment) PaymentChannelData (PaymentChannelData)
  PaymentHandler (PaymentHandler) ServiceMetadata (ServiceMetadata).
Local Open Scope Z_scope.

Section ledger.
Context `{!JsonRpc, !GoEthereum, !EscrowCodec, !EscrowCodecLaws}.
Context (metadata : ServiceMetadata) (price : Z).
Hypothesis price_known : GetPriceInCogs metadata = Some price.
Hypothesis price_nonneg : price_ok metadata.

Local Abbreviation escrow_handler := (Components_EscrowPaymentHandler metadata).

(** ** Legal updates as entries of a ledger *)

(** The payment of the channel's state adds the price; anything else leads to a
    later nonce. *)
Definition advances (s : State) (id : Z) (new : PaymentChannelData) : Prop :=
  (exists old, stored s id = Ok (Some old) /\
     PaymentChannelData.Nonce old = PaymentChannelData.Nonce new /\
     PaymentChannelData.AuthorizedAmount new
       = PaymentChannelData.AuthorizedAmount old + price) \/
  ((forall old, stored s id = Ok (Some old) ->
      PaymentChannelData.Nonce old < PaymentChannelData.Nonce new) /\
   0 <= PaymentChannelData.AuthorizedAmount new /\
   (PaymentChannelData.Signature new <> None ->
    price <= PaymentChannelData.AuthorizedAmount new)).

Lemma legal_update_advances s id s' :
  state_ok metadata s -> legal_update metadata s id s' ->
  exists new, stored s' id = Ok (Some new) /\ advances s id new.
Proof.
  intros Hs (old & new & Hold & Hnew & Hu). exists new. split; [done|].
  pose proof (price_nonneg price price_known) as Hp.
  destruct Hu as [p c [(answer & Ha & Hcur) _ _ _ _ (price' & Hprice & Hamount)]|c ->].
  - rewrite price_known in Hprice. injection Hprice as <-.
    destruct (current_channel_ok metadata _ _ _ _ _ _ Hs Hold Ha Hcur) as (_ & Hc & Hmono).
    destruct old as [old|]; [destruct (Hmono old eq_refl) as [Hle Heq];
      destruct (decide (PaymentChannelData.Nonce old = PaymentChannelData.Nonce c)) as [Hn|Hn]|].
    + left. exists old. split; [done|]. split; [done|]. simpl. rewrite (Heq Hn). lia.
    + right. split; [|simpl; lia]. intros old' Hold'. simpl. rewrite Hold in Hold'.
      simplify_eq. lia.
    + right. split; [|simpl; lia]. intros old' Hold'. by rewrite Hold in Hold'.
  - right. split; [|by split]. intros old Hold'. rewrite Hold in Hold'. simplify_eq. simpl. lia.
Qed.

(** ** The ledger of a channel

    The calls that have been charged to the current state of the channel [id]. *)
Section channel.
Context (id : Z).

(** The call [t] has been charged to the nonce [n] of the channel. *)
Definition charged_to (s : State) (charges : list nat) (t : nat) (n : Z) : Prop :=
  exists ch, stored s id = Ok (Some ch) /\
    (n < PaymentChannelData.Nonce ch \/ n = PaymentChannelData.Nonce ch /\ t ∈ charges).

Definition covered (s : State) (charges : list nat) : Prop :=
  NoDup charges /\
  forall ch, stored s id = Ok (Some ch) ->
    price * Z.of_nat (length charges) <= PaymentChannelData.AuthorizedAmount ch.

(** What was charged stays charged. *)
Definition charges_kept (s : State) (charges : list nat) (s' : State) (charges' : list nat) : Prop :=
  forall t n, charged_to s charges t n -> charged_to s' charges' t n.

Lemma later_nonce_kept s charges s' charges' new :
  stored s' id = Ok (Some new) ->
  (forall old, stored s id = Ok (Some old) ->
     PaymentChannelData.Nonce old < PaymentChannelData.Nonce new) ->
  charges_kept s charges s' charges'.
Proof.
  intros Hnew Hlt t n (ch & Hch & Hn). exists new. split; [done|]. left.
  specialize (Hlt ch Hch). destruct Hn as [?|[-> _]]; lia.
Qed.

Lemma same_nonce_kept s charges s' charges' old new :
  stored s id = Ok (Some old) -> stored s' id = Ok (Some new) ->
  PaymentChannelData.Nonce old = PaymentChannelData.Nonce new -> charges ⊆ charges' ->
  charges_kept s charges s' charges'.
Proof.
  intros Hold Hnew Hn Hsub t n (ch & Hch & Ht). rewrite Hold in Hch. simplify_eq.
  exists new. split; [done|]. rewrite <-Hn. destruct Ht as [?|[-> ?]]; [by left|right; auto].
Qed.

(** A step that charges no call. *)
Lemma ledger_step s charges s' :
  state_ok metadata s -> covered s charges ->
  stored s' id = stored s id \/ legal_update metadata s id s' ->
  exists charges', covered s' charges' /\ charges_kept s charges s' charges'.
Proof.
  intros Hs [Hnd Hc] [Heq|Hu].
  - exists charges. split; [split; [done|by rewrite Heq]|]. intros t n. unfold charged_to.
    by rewrite Heq.
  - pose proof (price_nonneg price price_known) as Hp.
    destruct (legal_update_advances _ _ _ Hs Hu) as (new & Hnew & [(old & Hold & Hn & Ha)|
      (Hlt & Ha & _)]).
    + exists charges. split; [|by eapply same_nonce_kept]. split; [done|].
      intros ch Hch. rewrite Hnew in Hch. injection Hch as <-. specialize (Hc old Hold). lia.
    + exists []. split; [|by eapply later_nonce_kept]. split; [apply NoDup_nil_2|].
      intros ch Hch. rewrite Hnew in Hch. injection Hch as <-. simpl. lia.
Qed.

(** A step that charges the call [t]. *)
Lemma ledger_charge s charges s' t new :
  state_ok metadata s -> covered s charges -> legal_update metadata s id s' ->
  stored s' id = Ok (Some new) -> PaymentChannelData.Signature new <> None ->
  exists charges', covered s' charges' /\ charges_kept s charges s' charges' /\
    charged_to s' charges' t (PaymentChannelData.Nonce new).
Proof.
  intros Hs [Hnd Hc] Hu Hnew Hsig. pose proof (price_nonneg price price_known) as Hp.
  destruct (legal_update_advances _ _ _ Hs Hu) as (new' & Hnew' & Ha).
  rewrite Hnew in Hnew'. injection Hnew' as <-.
  destruct Ha as [(old & Hold & Hn & Ha)|(Hlt & _ & Ha)].
  - specialize (Hc old Hold).
    assert (exists charges', NoDup charges' /\ charges ⊆ charges' /\ t ∈ charges' /\
      (length charges' <= S (length charges))%nat) as (charges' & Hnd' & Hsub & Ht & Hlen).
    { destruct (decide (t ∈ charges)); [exists charges; eauto with lia|].
      exists (t :: charges). split; [by apply NoDup_cons_2|]. split; [|split; [left|done]].
      intros u. by right. }
    exists charges'. split; [split; [done|]|split].
    + intros ch Hch. rewrite Hnew in Hch. injection Hch as <-. nia.
    + by eapply same_nonce_kept.
    + exists new. split; [done|]. by right.
  - exists [t]. split; [split|split].
    + apply NoDup_singleton.
    + intros ch Hch. rewrite Hnew in Hch. injection Hch as <-. simpl. specialize (Ha Hsig). lia.
    + by eapply later_nonce_kept.
    + exists new. split; [done|]. right. split; [done|left].
Qed.
End channel.

(** A charge is a legal update, and leaves a signed record of the payment's nonce. *)
Lemma charged_record t md n s s' p :
  carries metadata md p -> call_charged metadata t md n s s' ->
  Payment.ChannelID p = n /\ legal_update metadata s n s' /\
  exists new, stored s' n = Ok (Some new) /\
    PaymentChannelData.Nonce new = Payment.ChannelNonce p /\
    PaymentChannelData.Signature new <> None.
Proof.
  intros Hp (p' & old & c & Hp' & <- & (Ho & Hold & Hacc) & Hnew).
  rewrite (carries_fun metadata _ _ _ Hp Hp'). split; [done|].
  split; [eexists old, _; split; [done|]; split; [exact Hnew|by apply update_pay]|].
  destruct (accepted_fits _ _ _ _ _ _ _ Hacc) as (Hn & Hs & _).
  eexists. split; [exact Hnew|]. split; [by symmetry|]. simpl. rewrite (norm_slice_signed _ _ Hs).
  destruct (signed_signature _ _ Hs) as (sg & -> & _). done.
Qed.

(** ** The ledger of an execution *)

Section execution.
Context (st : State) (id : Z).
Hypothesis start_ok : state_ok metadata st.

Local Abbreviation reachable := (paid_reachable metadata st).
Local Abbreviation step := (paid_server_step metadata).

(** A call on the channel has been charged, or has still to be before it can
    succeed. *)
Definition call_settled (s : State) (charges : list nat) (t : nat)
    (call : option (option MD * prog HandlerE (result unit))) (q : prog PaidE (result unit))
  : Prop :=
  forall md handler p, call = Some (md, handler) -> carries metadata md p -> Payment.ChannelID p = id ->
  unless (@call_charges _ _ _ metadata md) q not_ok \/
  charged_to id s charges t (Payment.ChannelNonce p).

Definition settled (c : paid_server) (charges : list nat) : Prop :=
  forall t call q, c.1 !! t = Some (mkPaidRequest call q) ->
  call_settled (paid_state c.2) charges t call q.

Lemma call_settled_kept s charges s' charges' t call q :
  call_settled s charges t call q -> charges_kept id s charges s' charges' ->
  call_settled s' charges' t call q.
Proof.
  intros Hc Hk md handler p Hcall Hp Hid.
  destruct (Hc md handler p Hcall Hp Hid) as [?|?]; [by left|right; by apply Hk].
Qed.

Lemma reachable_state_ok c : reachable c -> state_ok metadata (paid_state c.2).
Proof.
  intros Hr. destruct (paid_reachable_phases metadata st c Hr) as (phs & _ & Hre).
  apply (reachable_ok metadata price_nonneg _ _ start_ok (Hre (fun _ => Panicked ""))).
Qed.

Lemma paid_step_records c c' :
  reachable c -> step c c' ->
  stored (paid_state c'.2) id = stored (paid_state c.2) id \/
  legal_update metadata (paid_state c.2) id (paid_state c'.2).
Proof.
  intros Hr Hs.
  destruct (paid_step_of_server metadata st c c' Hr Hs) as (a & a' & Ha & <- & <- & [->|Hs']);
    [by left|].
  apply (server_step_records metadata price_nonneg _ _ (reachable_ok metadata price_nonneg _ _
    start_ok Ha) Hs').
Qed.

(** The operation of a call that charges it. *)
Lemma charging_operation c t md handler X (e : PaidE X) k x s' p :
  reachable c -> c.1 !! t = Some (mkPaidRequest (Some (md, handler)) (Vis e k)) ->
  paid_step t e c.2 x s' -> call_charges metadata md e x -> carries metadata md p ->
  Payment.ChannelID p = id ->
  legal_update metadata (paid_state c.2) id (paid_state s') /\
  exists new, stored (paid_state s') id = Ok (Some new) /\
    PaymentChannelData.Nonce new = Payment.ChannelNonce p /\
    PaymentChannelData.Signature new <> None.
Proof.
  intros Hr Ht Hs Hc Hp Hid.
  destruct (answered_write_charges metadata price_nonneg _ start_ok _ _ _ _ _ _ _ _ _ Hr Ht Hs Hc)
    as (n & Hch & _).
  destruct (charged_record _ _ _ _ _ _ Hp Hch) as (<- & Hrec). by rewrite <-Hid.
Qed.

Lemma operation_settles c charges t call X (e : PaidE X) k x s' :
  reachable c -> covered id (paid_state c.2) charges ->
  c.1 !! t = Some (mkPaidRequest call (Vis e k)) -> paid_step t e c.2 x s' ->
  call_settled (paid_state c.2) charges t call (Vis e k) ->
  exists charges', covered id (paid_state s') charges' /\
    charges_kept id (paid_state c.2) charges (paid_state s') charges' /\
    call_settled (paid_state s') charges' t call (k x).
Proof.
  intros Hr Hc Ht Hs Hset. pose proof (reachable_state_ok _ Hr) as Hok.
  assert (step c (<[t := mkPaidRequest call (k x)]> c.1, s')) as Hstep.
  { rewrite (surjective_pairing c). eapply paid_operation; [exact Ht|]. by exists x. }
  destruct (ledger_step id _ charges _ Hok Hc (paid_step_records _ _ Hr Hstep))
    as (charges' & Hc' & Hk).
  assert ((forall md handler p, call = Some (md, handler) -> carries metadata md p ->
      Payment.ChannelID p = id -> unless (@call_charges _ _ _ metadata md) (k x) not_ok \/
      charged_to id (paid_state c.2) charges t (Payment.ChannelNonce p)) ->
    exists charges', covered id (paid_state s') charges' /\
    charges_kept id (paid_state c.2) charges (paid_state s') charges' /\
    call_settled (paid_state s') charges' t call (k x)) as Hquiet.
  { intros Hq. exists charges'. split; [done|]. split; [done|].
    intros md handler p Hcall Hp Hid. destruct (Hq md handler p Hcall Hp Hid); auto. }
  destruct call as [[md handler]|]; [|by apply Hquiet].
  destruct (carries_decide metadata md) as [[p Hp]|Hno].
  2: { apply Hquiet. intros md' h' p [= <- <-] Hp. by destruct (Hno p). }
  assert (forall p', carries metadata md p' -> p' = p) as Hfun by (intros; by eapply carries_fun).
  destruct (decide (Payment.ChannelID p = id)) as [Hid|Hid].
  2: { apply Hquiet. intros md' h' p' [= <- <-] Hp'. by rewrite (Hfun p'). }
  destruct (Hset md handler p eq_refl Hp Hid) as [Hu|Hch].
  2: { apply Hquiet. intros md' h' p' [= <- <-] Hp' _. rewrite (Hfun p' Hp'). by right. }
  destruct (Hu x) as [Hcharge|Hu'].
  2: { apply Hquiet. intros md' h' p' [= <- <-] _ _. by left. }
  destruct (charging_operation _ _ _ _ _ _ _ _ _ _ Hr Ht Hs Hcharge Hp Hid)
    as (Hl & new & Hnew & Hn & Hsig).
  destruct (ledger_charge id _ charges _ t new Hok Hc Hl Hnew Hsig) as (cs & Hcs & Hkept & Hto).
  exists cs. split; [done|]. split; [done|]. intros md' h' p' [= <- <-] Hp' _.
  rewrite (Hfun p' Hp'), <-Hn. by right.
Qed.

(** The ledger of the whole server. *)
Definition ledger (c : paid_server) : Prop :=
  exists charges, covered id (paid_state c.2) charges /\ settled c charges.

Lemma settled_insert c charges s' charges' t call q rs :
  settled c charges -> charges_kept id (paid_state c.2) charges (paid_state s') charges' ->
  rs = <[t := mkPaidRequest call q]> c.1 -> call_settled (paid_state s') charges' t call q ->
  settled (rs, s') charges'.
Proof.
  intros Hs Hk -> Hq u call' q' [(<- & [= <- <-] & _)|[_ Hu]]%list_lookup_insert_Some; [done|].
  eapply call_settled_kept; [by apply Hs|done].
Qed.

Lemma settled_append c charges r :
  settled c charges -> call_settled (paid_state c.2) charges (length c.1) (request_of_call r)
    (request_program r) -> settled (c.1 ++ [r], c.2) charges.
Proof.
  intros Hs Hr t call q [Ht|[Hge Ht]]%lookup_app_Some; [by apply Hs|].
  pose proof (lookup_lt_Some _ _ _ Ht) as Hlt. simpl in Hlt.
  apply list_lookup_singleton_Some in Ht as [Hz ->].
  by replace t with (length c.1) by lia.
Qed.

Lemma ledger_kept c c' : reachable c -> step c c' -> ledger c -> ledger c'.
Proof.
  intros Hr Hs (charges & Hc & Hset).
  pose proof (ledger_step id _ charges _ (reachable_state_ok _ Hr) Hc (paid_step_records _ _ Hr Hs))
    as (charges' & Hc' & Hk).
  assert (forall s', paid_state s' = paid_state c'.2 -> settled (c.1, s') charges') as Hsame.
  { intros s' Hs' t call q Ht. simpl. rewrite Hs'. eapply call_settled_kept; [by apply Hset|done]. }
  destruct Hs as [rs s t call p p' s' Ht Hs|rs s md handler|rs s p Hp
    |rs s t p l ev Hp Hev|rs s t call p Ht|rs s st' He].
  - destruct p as [a|m|X e k]; [done..|]. destruct Hs as (x & Hx & ->).
    destruct (operation_settles (rs, s) charges t call X e k x s' Hr Hc Ht Hx (Hset _ _ _ Ht))
      as (cs & Hcs & Hkept & Hto).
    exists cs. split; [done|]. by eapply (settled_insert (rs, s)).
  - exists charges. split; [done|]. apply (settled_append (rs, s)); [done|].
    intros md' h' p [= <- <-] _ _. left. apply unless_served_call.
  - exists charges. split; [done|]. by apply (settled_append (rs, s)).
  - exists charges'. split; [done|]. by apply Hsame.
  - exists charges'. split; [done|]. eapply (settled_insert (rs, s)); [done..|].
    intros md h p' Hcall Hp' Hid. destruct (Hset _ _ _ Ht md h p' Hcall Hp' Hid) as [Hu|?].
    + left. by apply unless_stop.
    + right. by apply Hk.
  - exists charges'. split; [done|]. by apply Hsame.
Qed.

Lemma reachable_ledger c : reachable c -> ledger c.
Proof.
  intros Hr. apply rtc_ind_r with (P := ledger) (3 := Hr).
  - exists []. split; [split; [apply NoDup_nil_2|]|by intros t call q].
    intros ch Hch. simpl. destruct (ok_channel _ _ start_ok id ch Hch) as (_ & ? & _). lia.
  - intros c1 c2 Hr1 Hs. by apply ledger_kept.
Qed.
End execution.
End ledger.

(** ** Replicas *)

(** The call [t] has succeeded, and carries a payment for this channel and nonce. *)
Definition succeeded `{!JsonRpc, !GoEthereum, !EscrowCodec} (metadata : ServiceMetadata)
    (c : replicas) (id nonce : Z) (t : nat) : Prop :=
  exists md handler p, c.1 !! t = Some (mkReplicaRequest (Some (md, handler)) (Ret (Ok tt))) /\
    carries metadata md p /\ Payment.ChannelID p = id /\ Payment.ChannelNonce p = nonce.

(** C11: What the provider can claim pays for all the calls that it has served: in
    every execution of replicas over one etcd server, with failures and crashes at
    any point, the record of a channel authorizes at least the price of each
    different call on the channel's current nonce that has succeeded, within the
    amount of the channel and covered by a signature of its signer. *)
Theorem successful_calls_are_covered `{!JsonRpc, !GoEthereum, !EscrowCodec, !EscrowCodecLaws,
    !EtcdKeys, !EtcdServer, !EtcdKeysLaws, !EtcdServerLaws} (metadata : ServiceMetadata) price
    s0 c id ch ts :
  price_ok metadata -> GetPriceInCogs metadata = Some price ->
  state_ok metadata (shared_state s0) -> replicas_reachable metadata s0 c ->
  stored (shared_state c.2) id = Ok (Some ch) ->
  NoDup ts -> Forall (succeeded metadata c id (PaymentChannelData.Nonce ch)) ts ->
  price * Z.of_nat (length ts) <= PaymentChannelData.AuthorizedAmount ch /\
  channel_ok metadata id ch.
Proof.
  intros Hp Hprice Hs0 Hr Hst Hnd Hts.
  destruct (implements_reachable metadata s0 c Hr) as (a & Ha & Hi).
  assert (paid_state a.2 = shared_state c.2) as Heq by by rewrite (implements_state _ _ Hi).
  assert (state_ok metadata (shared_state c.2)) as Hok.
  { rewrite <-Heq. by eapply reachable_state_ok. }
  split; [|exact (ok_channel _ _ Hok id ch Hst)].
  destruct (reachable_ledger metadata price Hprice Hp _ id Hs0 a Ha) as (charges & [_ Hc] & Hset).
  unfold settled, call_settled, unless in Hset. rewrite Heq in Hc, Hset.
  specialize (Hc ch Hst). specialize (Hp price Hprice).
  assert (length ts <= length charges)%nat as Hlen; [|nia].
  apply submseteq_length, NoDup_submseteq; [done|]. intros t Ht.
  rewrite Forall_forall in Hts. destruct (Hts t Ht) as (md & handler & p & Hcall & Hcarry & Hid & Hn).
  destruct (implements_lookup _ _ _ _ Hi Hcall) as (q & Hq & Hrel). cbn in Hq, Hrel.
  apply related_ret in Hrel as ->.
  destruct (Hset t _ _ Hq md handler p eq_refl Hcarry Hid) as [Hu|(ch' & Hch' & Hcase)];
    [by destruct Hu|].
  rewrite Hst in Hch'. simplify_eq. destruct Hcase as [?|[_ ?]]; [lia|done].
Qed.
