(* ===== verification/Termination.v ===== *)
(** * Termination of the daemon's requests

    A request makes finitely many operations, and no more than a number that
    depends on the claims it lists only: whatever the storage and the blockchain
    answer, and whatever other requests do. *)
From S2P Require Import Prelude Prog Bytes AtomicStorage Lock Blockchain PaymentChannelApi.
From S2P Require Import PaymentChannelStorage Validation Escrow Handler EscrowHandler.
From S2P Require Import StateService ControlService World Requests.
Import AtomicStorage.
Import Payment (Payment) PaymentChannelData (PaymentChannelData) Claim (Claim)
  PaymentTransaction (PaymentTransaction) PaymentHandler (PaymentHandler)
  PaymentChannelService (PaymentChannelService) ServiceMetadata (ServiceMetadata).
Local Open Scope Z_scope.

(** ** The work of a request

    The operations it has made, and the values that lists have returned. *)
Record Work := mkWork { operations : Z; listed : Z }.

Definition no_work : Work := mkWork 0 0.

Definition one_operation (w : Work) : Work := mkWork (operations w + 1) (listed w).

Definition values_listed {X} (e : DaemonE X) : X -> Z :=
  match e in DaemonE X return X -> Z with
  | StorageEvent e =>
      match e in StorageE X return X -> Z with
      | SGetByKeyPrefix _ => fun r =>
          match r with Ok vs => Z.of_nat (length vs) | Err _ => 0 end
      | _ => fun _ => 0
      end
  | _ => fun _ => 0
  end.

(** Any answer. *)
Definition work {X} (e : DaemonE X) (w : Work) (x : X) (w' : Work) : Prop :=
  w' = mkWork (operations w + 1) (listed w + values_listed e x).

Section work.
Context `{!GoEthereum, !EscrowCodec} (metadata : ServiceMetadata).

(** Every value listed pays for [credit] operations. *)
Context (credit : Z) (credit_nonneg : 0 <= credit).

Definition balance (w : Work) : Z := operations w - credit * listed w.

#[export] Instance work_contract : Contract DaemonE Work := fun X e => work e.

Local Abbreviation service := (Components_PaymentChannelService metadata).
Local Abbreviation control := (Components_ProviderControlService metadata).
Local Abbreviation locker := (mkEtcdLocker DaemonE
  (PrefixedAtomicStorage_object (NewLockerStorage daemon_storage))).

(** [p] makes at most [n] operations that are not paid by listed values. *)
Definition costs {A} (n : Z) (p : prog DaemonE A) : Prop :=
  forall w, wp p (fun _ w' => balance w' <= balance w + n) w.

Lemma costs_leaf {A} n (p : prog DaemonE A) : leaf p -> 0 <= n -> costs n p.
Proof. intros Hp Hn w. destruct p; simpl in *; [lia..|done]. Qed.

Lemma costs_ret {A} n (a : A) : 0 <= n -> costs n (Ret a).
Proof. by apply costs_leaf. Qed.

Lemma values_listed_nonneg {X} (e : DaemonE X) x : 0 <= values_listed e x.
Proof. destruct e as [X e| | |]; [|done..]. destruct e, x; simpl; lia. Qed.

Lemma costs_vis {X A} n (e : DaemonE X) (k : X -> prog DaemonE A) :
  (forall x, costs (n - 1) (k x)) -> costs n (Vis e k).
Proof.
  intros Hk w x w' ->. eapply wp_mono; [apply Hk|]. intros o w2 Hw2.
  pose proof (values_listed_nonneg e x). unfold balance in *. simpl in *. nia.
Qed.

Lemma costs_weak {A} m n (p : prog DaemonE A) : costs m p -> m <= n -> costs n p.
Proof. intros Hp Hmn w. eapply wp_mono; [apply Hp|]. simpl. intros. lia. Qed.

(** A bind, with what is left after the first part. *)
Lemma costs_bind {A B} m n (p : prog DaemonE A) (f : A -> prog DaemonE B) :
  0 <= n - m -> costs m p -> (forall a, costs (n - m) (f a)) -> costs n (bind p f).
Proof.
  intros Hn Hp Hf w. apply wp_bind. eapply wp_mono; [apply Hp|].
  intros [a|msg] w1 Hw1; [|lia]. eapply wp_mono; [apply Hf|]. simpl. intros. lia.
Qed.

Lemma costs_bind_ok {A B} m n (p : prog DaemonE (result A))
    (f : A -> prog DaemonE (result B)) :
  0 <= n - m -> costs m p -> (forall a, costs (n - m) (f a)) -> costs n (bind_ok p f).
Proof.
  intros Hn Hp Hf. eapply costs_bind; [done..|]. intros [a|e]; [apply Hf|].
  by apply costs_ret.
Qed.

Lemma costs_catch {A B} m n (p : prog DaemonE A) (h : outcome A -> prog DaemonE B) :
  costs m p -> (forall o, costs (n - m) (h o)) -> costs n (catch p h).
Proof.
  intros Hp Hh w. apply wp_catch. eapply wp_mono; [apply Hp|].
  intros o w1 Hw1. eapply wp_mono; [apply Hh|]. intros o2 w2 Hw2. cbv beta in *. lia.
Qed.

Lemma costs_single {A} (p : prog DaemonE A) : single p -> costs 1 p.
Proof.
  destruct p as [a|m|X e k]; intros Hp; [by apply costs_leaf..|].
  apply costs_vis. intros x. apply costs_leaf; [apply Hp|lia].
Qed.

(** ** The parts of the requests *)

Lemma costs_Lock name : costs 2 (etcdLocker_Lock locker name).
Proof.
  apply costs_vis. intros [[v|]|e]; simpl; [case_decide|..]; try by apply costs_ret.
  all: apply costs_vis; intros [[|]|e]; by apply costs_ret.
Qed.

Lemma wp_Lock_name name (w : Work) :
  wp (etcdLocker_Lock locker name)
     (fun o _ => forall l, o = Returned (Ok (Some l)) -> l = lockType locker name) w.
Proof.
  intros v w1 _. destruct v as [[v|]|e]; simpl; [case_decide; simpl; [done|]|..|done];
    intros [[|]|e] w2 _; simpl; try done; by intros l [= <-].
Qed.

Lemma costs_unlock {A} name (o : outcome A) :
  costs 1 (let! _ := Lock_Unlock (lockType locker name) in resume o).
Proof. apply costs_vis. intros x. apply costs_leaf; [by destruct x, o|lia]. Qed.

Lemma costs_PaymentChannel key :
  costs 2 (lockingPaymentChannelService_PaymentChannel service key).
Proof.
  destruct (PaymentChannel_answer service key) as (k & -> & Hk), key as [id].
  apply (costs_bind_ok 1); [done|apply costs_single, single_channel_get|]. intros channel.
  apply (costs_bind 1); [done|apply costs_single, (single_chain metadata id)|].
  intros answer. rewrite Hk. by apply costs_ret.
Qed.
Lemma costs_Validate payment c :
  costs 1 (ChannelPaymentValidator_Validate
             (NewChannelPaymentValidator (daemon_processor metadata) metadata) payment c).
Proof.
  unfold ChannelPaymentValidator_Validate. destruct (negb _); [by apply costs_ret|].
  destruct (getSignerAddressFromPayment payment); [|by apply costs_ret].
  case_decide; [by apply costs_ret|].
  apply (costs_bind 1); [done| |].
  { apply costs_single. by intros [x|e]. }
  intros [b|e]; [|by apply costs_ret].
  destruct (validator_paymentExpirationThreshold _); [|by apply costs_leaf].
  destruct (_ <=? _); [by apply costs_ret|]. destruct (_ <? _); by apply costs_ret.
Qed.

(** A transaction is handed out after five operations; the sixth releases the
    lock of a payment that is refused. *)
Lemma work_StartPaymentTransaction payment w :
  wp (lockingPaymentChannelService_StartPaymentTransaction service payment)
     (fun o w' => match o with
                  | Returned (Ok transaction) => balance w' <= balance w + 5 /\
                      transaction_service transaction = service /\
                      exists name, transaction_lock transaction = lockType locker name
                  | _ => balance w' <= balance w + 6
                  end) w.
Proof.
  unfold lockingPaymentChannelService_StartPaymentTransaction.
  set (name := PaymentChannelKey_String (mkPaymentChannelKey (Payment.ChannelID payment))).
  apply wp_bind. eapply wp_mono.
  { apply (wp_conj _ (fun _ w' => balance w' <= balance w + 2)
      (fun o _ => forall l, o = Returned (Ok (Some l)) -> l = lockType locker name)).
    - apply costs_Lock.
    - apply wp_Lock_name. }
  intros [[[l|]|e]|m] w1 [Hw1 Hl]; cbv beta in *; cbn [wp]; [|lia..]. rewrite (Hl l eq_refl).
  unfold defer. apply wp_catch, wp_bind. eapply wp_mono; [apply costs_PaymentChannel|].
  assert (forall (o : outcome (result (paymentTransaction DaemonE))) w2,
    balance w2 <= balance w + 5 -> (forall tx, o <> Returned (Ok tx)) ->
    wp (let! _ := Lock_Unlock (lockType locker name) in resume o)
       (fun o w' => match o with
                  | Returned (Ok transaction) => balance w' <= balance w + 5 /\
                      transaction_service transaction = service /\
                      exists name, transaction_lock transaction = lockType locker name
                  | _ => balance w' <= balance w + 6
                  end) w2) as Hunlock.
  { intros o w2 Hw2 Ho. eapply wp_mono; [apply (wp_conj _ _ (fun o' _ => o' = o)
      _ (costs_unlock name o w2))|].
    - intros x w3 _. simpl. destruct x; by destruct o.
    - intros o' w3 [Hw3 ->]. destruct o as [[tx|e]|m]; [by destruct (Ho tx)|lia..]. }
  intros [[[c|]|e]|m] w2 Hw2; cbv beta in *; cbn [wp];
    [|by apply Hunlock; [lia|]..|cbn [bind resume wp]; lia].
  unfold bind_ok. apply wp_bind. eapply wp_mono; [apply costs_Validate|].
  intros [[u|e]|m] w3 Hw3; cbv beta in *; cbn [wp];
    [|by apply Hunlock; [lia|]|cbn [bind resume wp]; lia].
  split; [lia|]. split; [done|]. by exists name.
Qed.
Lemma costs_Commit tx name :
  transaction_lock tx = lockType locker name -> transaction_service tx = service ->
  costs 2 (paymentTransaction_Commit tx).
Proof.
  intros Hl Hs. unfold paymentTransaction_Commit, defer. rewrite Hl, Hs.
  apply (costs_catch 1); [|intros o; apply costs_unlock].
  apply (costs_bind 1); [done|apply costs_single, single_channel_put|].
  intros [u|e]; by apply costs_ret.
Qed.

Lemma costs_Rollback tx name :
  transaction_lock tx = lockType locker name -> costs 1 (paymentTransaction_Rollback tx).
Proof.
  intros Hl. unfold paymentTransaction_Rollback, defer. rewrite Hl.
  apply (costs_catch 0); [by apply costs_ret|intros o; apply costs_unlock].
Qed.

(** ** Calls *)

Local Abbreviation escrow_handler := (Components_EscrowPaymentHandler metadata).

Lemma work_Payment context w :
  wp (paymentChannelPaymentHandler_Payment escrow_handler context)
     (fun o w' => match o with
                  | Returned (inl transaction) => balance w' <= balance w + 5 /\
                      exists tx name, transaction = paymentTransaction_object tx /\
                        transaction_service tx = service /\
                        transaction_lock tx = lockType locker name
                  | _ => balance w' <= balance w + 6
                  end) w.
Proof.
  unfold paymentChannelPaymentHandler_Payment.
  destruct (getPaymentFromContext escrow_handler context) as [payment|e]; [|simpl; lia].
  apply wp_bind.
  change (PaymentChannelService.StartPaymentTransaction (handler_service escrow_handler) payment)
    with (bind_ok (lockingPaymentChannelService_StartPaymentTransaction service payment)
            (fun transaction => Ret (Ok (paymentTransaction_object transaction)))).
  apply wp_bind. eapply wp_mono; [apply work_StartPaymentTransaction|].
  intros [[tx|e]|m] w1; cbv beta; [|cbn [wp]; lia..].
  intros (Hw1 & Hs & name & Hl). cbn [wp].
  change (IncomeValidator_Validate (handler_incomeValidator escrow_handler))
    with (@incomeValidator_Validate DaemonE (mk_incomeValidator (GetPriceInCogs metadata))).
  unfold incomeValidator_Validate. cbn [incomeValidator_priceInCogs].
  destruct (GetPriceInCogs metadata) as [price|]; [|cbn [bind wp]; lia].
  destruct (negb _); cbn [bind wp].
  - apply wp_bind. eapply wp_mono; [by apply (costs_Rollback tx name)|].
    intros [r|m] w2 Hw2; cbv beta in Hw2; cbn [wp]; lia.
  - split; [done|]. by exists tx, name.
Qed.

Lemma costs_complete_payment tx name o :
  transaction_lock tx = lockType locker name -> transaction_service tx = service ->
  costs 2 (complete_payment (paymentChannelPaymentHandler_object escrow_handler)
             (paymentTransaction_object tx) o).
Proof.
  intros Hl Hs. destruct o as [[u|e]|m]; simpl.
  - apply (costs_bind 2); [done| |intros r; by case_match; apply costs_ret].
    apply (costs_bind 2); [done|by apply (costs_Commit tx name)|intros; by apply costs_ret].
  - apply (costs_bind 2); [done| |intros r; by case_match; apply costs_ret].
    apply (costs_bind 1); [done|by apply (costs_Rollback tx name)|intros; by apply costs_ret].
  - apply (costs_bind 2); [done| |intros r; by apply costs_leaf].
    apply (costs_bind 1); [done|by apply (costs_Rollback tx name)|intros; by apply costs_ret].
Qed.

Lemma costs_call md o :
  costs 7 (Components_GrpcPaymentValidationInterceptor true metadata md (resume o)).
Proof.
  unfold Components_GrpcPaymentValidationInterceptor, GrpcPaymentValidationInterceptor,
    paymentValidationInterceptor_intercept. cbn [negb].
  destruct (getGrpcContext md) as [context|e]; [|by apply costs_ret].
  destruct (getPaymentHandler _ context) as [h|e] eqn:Hh; [|by apply costs_ret].
  apply getPaymentHandler_only in Hh as ->. intros w. apply wp_bind.
  eapply wp_mono; [apply work_Payment|].
  intros [[transaction|e]|m] w1; cbv beta; [|cbn [wp]; lia..].
  intros (Hw1 & tx & name & -> & Hs & Hl).
  eapply wp_mono; [apply (costs_catch 0 2); [by destruct o; apply costs_leaf|]|].
  - intros o'. change (2 - 0) with 2. by apply (costs_complete_payment tx name).
  - intros o' w2 Hw2. cbv beta in Hw2. lia.
Qed.
(** ** State and control requests *)

(** The listed claims pay for what is done with them. *)
Lemma work_ListClaims w :
  wp (PaymentChannelService.ListClaims (lockingPaymentChannelService_object service))
     (fun o w' => exists r, o = Returned r /\ balance w' <= balance w + 1 /\
        forall claims, r = Ok claims -> exists payments, claims = claim_of <$> payments /\
          balance w' + credit * Z.of_nat (length payments) <= balance w + 1) w.
Proof.
  simpl. unfold lockingPaymentChannelService_ListClaims, PaymentStorage_GetAll. simpl. intros [vs|e] w' ->; simpl;
    [destruct (deserialize_all deserialize vs) as [l|e] eqn:Hl; simpl|];
    eexists; (split; [done|]); unfold balance; simpl; (split; [nia|]); try done.
  intros claims [= <-]. exists l. rewrite <-list_fmap_compose. split; [done|].
  apply deserialize_all_length in Hl. nia.
Qed.

Lemma costs_remove_claimed payments :
  costs (2 * Z.of_nat (length payments)) (remove_claimed control (claim_of <$> payments)).
Proof.
  induction payments as [|p payments IH]; [by apply costs_ret|].
  rewrite fmap_cons. cbn [remove_claimed length].
  apply (costs_bind_ok 1); [lia|apply costs_single, (single_chain metadata (Payment.ChannelID p))|].
  intros [c|]; [|apply costs_ret; lia].
  destruct (_ <? _); [|eapply costs_weak; [exact IH|lia]].
  apply (costs_bind_ok 1); [lia|apply costs_single, single_payment_delete|].
  intros u. eapply costs_weak; [exact IH|lia].
Qed.

Hypothesis credit_two : 2 <= credit.

Lemma costs_removeClaimedPayments : costs 1 (removeClaimedPayments control).
Proof.
  intros w. unfold removeClaimedPayments. apply wp_bind.
  eapply wp_mono; [apply work_ListClaims|]. intros o w1 (r & -> & Hw1 & Hr).
  destruct r as [claims|e]; [|cbn [wp]; lia].
  destruct (Hr claims eq_refl) as (payments & -> & Hp).
  eapply wp_mono; [apply costs_remove_claimed|]. intros o w2 Hw2. cbv beta in *. nia.
Qed.

Lemma costs_compare b : costs 2 (compareWithLatestBlockNumber control b).
Proof.
  apply (costs_vis _ Dial). intros [[]|e]; [|by apply costs_ret].
  apply (costs_vis _ BlockNumber). intros [x|e]; [|by apply costs_ret]. simpl.
  destruct (_ || _); by apply costs_ret.
Qed.

Lemma costs_StartClaim key update :
  costs 6 (lockingPaymentChannelService_StartClaim service key update).
Proof.
  intros w. unfold lockingPaymentChannelService_StartClaim. apply wp_bind.
  eapply wp_mono.
  { apply (wp_conj _ (fun _ w' => balance w' <= balance w + 2)
      (fun o _ => forall l, o = Returned (Ok (Some l)) ->
         l = lockType locker (PaymentChannelKey_String key))).
    - apply costs_Lock.
    - apply wp_Lock_name. }
  intros [[[l|]|e]|m] w1 [Hw1 Hl]; cbv beta in *; cbn [wp]; [|lia..].
  rewrite (Hl l eq_refl). unfold defer.
  eapply wp_mono; [apply (costs_catch 3 4); [|intros o; apply costs_unlock]|].
  - apply (costs_bind_ok 1); [done|apply costs_single, single_channel_get|].
    intros [c|]; [|by apply costs_ret].
    apply (costs_bind 1); [done|apply costs_single, single_channel_put|].
    intros [u|e]; [|by apply costs_ret].
    apply (costs_bind_ok 1); [done|apply costs_single, single_payment_put|].
    intros u'. by apply costs_ret.
  - intros o w2 Hw2. cbv beta in Hw2. lia.
Qed.

Lemma costs_beginClaimOnChannel id : costs 8 (beginClaimOnChannel control id).
Proof.
  unfold beginClaimOnChannel. apply (costs_bind_ok 2); [done|apply costs_PaymentChannel|].
  intros [c|]; [|by apply costs_leaf]. destruct (_ =? _); [by apply costs_ret|].
  apply (costs_bind_ok 6); [done| |intros; by apply costs_ret]. simpl.
  apply (costs_bind_ok 6); [done|apply costs_StartClaim|intros; by apply costs_ret].
Qed.

Lemma costs_GetChannelState request :
  costs 2 (GetChannelState (Components_PaymentChannelStateService metadata) request).
Proof.
  unfold GetChannelState. destruct (getSignerAddressFromMessage _ _); [|by apply costs_ret].
  apply (costs_bind 2); [done|apply costs_PaymentChannel|].
  intros [[c|]|e]; [|by apply costs_ret..].
  case_decide; [by apply costs_ret|]. destruct (PaymentChannelData.Signature c); by apply costs_ret.
Qed.

Lemma costs_ignore {A} n (p : prog DaemonE A) : 0 <= n -> costs n p -> costs n (ignore_result p).
Proof.
  intros Hn Hp. apply (costs_bind n); [lia|done|]. intros. apply costs_ret. lia.
Qed.

Lemma costs_request p : Request metadata p -> costs 11 p.
Proof.
  intros Hp. destruct Hp; (apply costs_ignore; [done|]).
  - by eapply costs_weak; [apply costs_call|].
  - by eapply costs_weak; [apply costs_GetChannelState|].
  - unfold GetListUnclaimed. destruct (checkMpeAddress _ _); [|by apply costs_ret].
    apply (costs_bind_ok 2); [done|apply costs_compare|]. intros u.
    destruct (verifySignerForListUnclaimed _ _); [|by apply costs_ret].
    apply (costs_bind_ok 1); [done| |intros; by apply costs_ret].
    apply costs_single. simpl. unfold lockingPaymentChannelService_ListChannels,
      PaymentChannelStorage_GetAll. simpl.
    intros [vs|e]; simpl; [|done]. by destruct (deserialize_all deserialize vs).
  - unfold GetListInProgress. destruct (checkMpeAddress _ _); [|by apply costs_ret].
    apply (costs_bind_ok 2); [done|apply costs_compare|]. intros u.
    destruct (verifySignerForListInProgress _ _); [|by apply costs_ret].
    apply (costs_bind_ok 1); [done|apply costs_removeClaimedPayments|]. intros u'.
    apply (costs_bind_ok 1); [done| |intros; by apply costs_ret].
    intros w. eapply wp_mono; [apply work_ListClaims|]. by intros o w' (res & _ & Hw & _).
  - unfold ProviderControlService_StartClaim. destruct (checkMpeAddress _ _); [|by apply costs_ret].
    apply (costs_bind_ok 2); [done| |].
    { apply (costs_bind_ok 2); [done|apply costs_PaymentChannel|].
      intros [c|]; by apply costs_ret. }
    intros u. apply (costs_bind_ok 1); [done|apply costs_removeClaimedPayments|].
    intros u'. apply costs_beginClaimOnChannel.
Qed.

End work.

(** C15: A request makes a bounded number of operations, whatever they answer: a
    paid call at most seven, the other requests at most eleven and two for every
    claim they have listed. *)
Theorem requests_terminate `{!GoEthereum, !EscrowCodec} (metadata : ServiceMetadata) :
  (forall md o, wp (Components_GrpcPaymentValidationInterceptor true metadata md (resume o))
     (fun _ w => operations w <= 7) no_work) /\
  (forall p, Request metadata p ->
     wp p (fun _ w => operations w <= 11 + 2 * listed w) no_work).
Proof.
  split.
  - intros md o. eapply wp_mono; [by apply (costs_call metadata 0)|].
    intros o' w Hw. unfold balance in Hw. simpl in Hw. lia.
  - intros p Hp. eapply wp_mono; [by apply (costs_request metadata 2)|].
    intros o w Hw. unfold balance in Hw. simpl in Hw. lia.
Qed.
