(* ===== verification/Examples.v ===== *)
(** * Examples

    A small world over the reference instances: a contract with one channel,
    its signer, and the payments of two calls. The lemmas apply the theorems of
    the development to it. *)
From S2P Require Import Prelude Prog Bytes AtomicStorage Lock Blockchain PaymentChannelApi.
From S2P Require Import PaymentChannelStorage Validation Escrow Handler EscrowHandler.
From S2P Require Import Commands.
From S2P Require Import StateService ControlService World Reference RelyGuarantee Concurrency.
From S2P Require Import Requests Safety Sequential Calls Claims Executions Termination Liveness.
Import Payment (Payment) PaymentChannelData (PaymentChannelData)
  ServiceMetadata (ServiceMetadata).
Local Open Scope Z_scope.

(** ** The world *)

Definition ex_signer : Address := number_array 20 77.
Definition ex_sender : Address := number_array 20 5.
Definition ex_recipient : Address := number_array 20 9.
Definition ex_mpe : Address := number_array 20 99.
Definition ex_group : bytes32 := number_array 32 1.

Definition ex_metadata : ServiceMetadata :=
  ServiceMetadata.mk 1 "service" "proto" "grpc" (Some 10) "" "mpe" "fixed" (Some 3) [] []
    "" ex_group "default_group" "" ex_recipient ex_mpe.

Definition ex_channel : MultiPartyEscrowChannel.MultiPartyEscrowChannel :=
  MultiPartyEscrowChannel.mk ex_sender ex_recipient ex_group 100 0 1000 ex_signer.

Definition no_channel : MultiPartyEscrowChannel.MultiPartyEscrowChannel :=
  MultiPartyEscrowChannel.mk zeroAddress zeroAddress (zero_array 32) 0 0 0 zeroAddress.

Definition ex_contract : ContractState := fun i =>
  if decide (i = U256 7) then ex_channel else no_channel.

Definition ex_world : World := mkWorld ∅ ex_contract [] 50.

Definition ex_sign (message : bytes) : bytes :=
  toy_sign ex_signer (HashPrefix32Bytes ++ message).

Definition ex_payment (id amount : Z) : Payment :=
  let p := Payment.mk ex_mpe id 0 amount None in
  Payment.mk ex_mpe id 0 amount (Some (ex_sign (payment_message p))).

(** The state of the channel before the first call. *)
Definition ex_state (id : Z) : PaymentChannelData :=
  PaymentChannelData.mk id 0 Open ex_sender ex_recipient ex_group 100 1000 ex_signer 0 None.

Definition ex_metadata_of (id amount : Z) : MD := payment_metadata (ex_payment id amount).

(** ** An execution: a call, then the claim of what it paid *)

#[local] Instance ex_logic : RelyGuarantee DaemonE State := daemon_rely_guarantee ex_metadata.

Definition ex_start : State := first_state ex_world.

Definition ex_call : prog DaemonE unit :=
  ignore_result (Components_GrpcPaymentValidationInterceptor true ex_metadata
    (Some (ex_metadata_of 7 3)) (resume (Returned (Ok tt)))).

(** The call after [n] operations; the seventh is its last. *)
Definition ex_called (n : nat) : server :=
  let c := exec n 0 ex_call ex_start in ([c.1], c.2).

Definition ex_control : ProviderControlService DaemonE :=
  Components_ProviderControlService ex_metadata.

Definition ex_claim_request : StartClaimRequest.StartClaimRequest :=
  StartClaimRequest.mk "mpe" (bigIntToBytes 7)
    (toy_sign ex_recipient (HashPrefix32Bytes ++ start_claim_message ex_control 7 0)).

Definition ex_claim : prog DaemonE unit :=
  ignore_result (ProviderControlService_StartClaim ex_control ex_claim_request).

(** The claim after [n] operations. *)
Definition ex_claimed (n : nat) : server :=
  let c := exec n 1 ex_claim (ex_called 7).2 in ((ex_called 7).1 ++ [c.1], c.2).

(** The record of the channel after the call, and the claim. *)
Definition ex_record : PaymentChannelData :=
  norm_channel (committed_channel (ex_payment 7 3) (ex_state 7)).

Definition ex_claim_record : Payment := norm_payment (getPaymentFromChannel ex_record).

Lemma ex_price_ok : price_ok ex_metadata.
Proof. intros price [= <-]. lia. Qed.

Lemma ex_start_ok : state_ok ex_metadata ex_start.
Proof.
  apply first_state_ok. intros c [<-|[]] i. simpl. unfold ex_contract. by case_decide.
Qed.

Lemma ex_call_reachable n : reachable ex_metadata ex_start (ex_called n).
Proof.
  apply (reach_exec ex_metadata n ex_start [] ex_call ex_start); [|done|apply rtc_refl|].
  - apply reference_hex_readable.
  - apply request_call.
Qed.

Lemma exec_claim_steps n (c : server) :
  length c.1 = 1%nat -> 0 <= block (world c.2) ->
  rtc (server_step ex_metadata) c
    (c.1 ++ [(exec n 1 ex_claim c.2).1], (exec n 1 ex_claim c.2).2).
Proof.
  destruct c as [ps s]. cbn [fst snd]. intros <- Hb.
  apply exec_request; [apply reference_hex_readable|exact Hb|apply request_start_claim].
Qed.

Lemma ex_claim_steps n : rtc (server_step ex_metadata) (ex_called 7) (ex_claimed n).
Proof. apply exec_claim_steps; [reflexivity|by vm_compute]. Qed.

Lemma ex_claim_reachable n : reachable ex_metadata ex_start (ex_claimed n).
Proof. unfold reachable. etrans; [apply (ex_call_reachable 7)|apply ex_claim_steps]. Qed.

Lemma ex_record_stored : stored (ex_called 7).2 7 = Ok (Some ex_record).
Proof. by vm_compute. Qed.

(** ** Safety *)

(** The write of the call is an accepted payment. *)
Lemma channel_updates_are_legal_witness :
  stored (ex_called 5).2 7 <> stored (ex_called 6).2 7 /\
  legal_update ex_metadata (ex_called 5).2 7 (ex_called 6).2.
Proof.
  assert (stored (ex_called 5).2 7 <> stored (ex_called 6).2 7) as Hne by by vm_compute.
  split; [done|].
  destruct (channel_updates_are_legal ex_metadata ex_start (ex_called 5) (ex_called 6) 7)
    as [Heq|Hu].
  - apply ex_price_ok.
  - apply ex_start_ok.
  - apply ex_call_reachable.
  - apply (exec_next ex_metadata 5 [] ex_call ex_start); [|done|by vm_compute].
    apply reference_hex_readable.
  - case (Hne (eq_sym Heq)).
  - exact Hu.
Defined.

Lemma payments_are_not_replayed_witness :
  stored (ex_called 7).2 7 = Ok (Some ex_record) /\
  ~ payment_accepted ex_metadata ex_world (ex_called 7).2 7 (Some ex_record) (ex_payment 7 3)
      ex_record.
Proof.
  split; [apply ex_record_stored|]. apply (payments_are_not_replayed ex_metadata ex_start (ex_called 7) (ex_called 7) 7
    ex_record).
  - apply ex_price_ok.
  - discriminate.
  - apply ex_start_ok.
  - apply ex_call_reachable.
  - apply rtc_refl.
  - apply ex_record_stored.
  - reflexivity.
  - reflexivity.
  - apply ex_record_stored.
Defined.

(** No payment is accepted by a request that took the lock of the channel when the
    channel had expired. *)
Example expired_not_accepted b old p :
  PaymentChannelData.Expiration ex_record <= b ->
  ~ payment_accepted ex_metadata (mkWorld ∅ ex_contract [] b) (ex_called 5).2 7 old p ex_record.
Proof.
  intros Hb [_ _ _ _ (threshold & b' & [= <-] & Hb' & Hc) _].
  unfold not_near_expiration in Hc. simpl in *. lia.
Qed.

Lemma records_are_claimable_witness :
  PaymentChannelData.AuthorizedAmount ex_record = 3 /\
  signed ex_metadata 7 0 3 (Payment.Signature (ex_payment 7 3)) ex_signer.
Proof.
  split; [done|].
  apply (records_are_claimable ex_metadata ex_start (ex_called 7) 7 ex_record).
  - apply ex_price_ok.
  - apply ex_start_ok.
  - apply ex_call_reachable.
  - apply ex_record_stored.
Defined.

Lemma records_progress_witness :
  exists ch, stored (ex_claimed 12).2 7 = Ok (Some ch) /\ record_le ex_record ch.
Proof.
  apply (records_progress ex_metadata ex_start (ex_called 7) (ex_claimed 12) 7 ex_record).
  - apply ex_price_ok.
  - apply ex_start_ok.
  - apply ex_call_reachable.
  - apply ex_claim_steps.
  - apply ex_record_stored.
Defined.

(** The call crashes while it holds the lock of the channel, and a claim request
    tries to take it. *)
Lemma lock_excludes_others_witness :
  let s := disown 0 (ex_called 3).2 in
  store (world s) !! lock_key 7 = Some locked /\
  exists ps' s', server_step ex_metadata ([crashed; ex_claim], s) (ps', s') /\
    stored s' 7 = stored s 7.
Proof.
  intros s.
  assert (store (world s) !! lock_key 7 = Some locked) as Hl by by vm_compute.
  split; [exact Hl|].
  assert (owner s 7 = None) as Ho by by vm_compute.
  assert (reachable ex_metadata ex_start ([crashed; ex_claim], s)) as Hr.
  { apply rtc_r with ((ex_called 3).1 ++ [ex_claim], (ex_called 3).2).
    - etrans; [apply (ex_call_reachable 3)|]. apply rtc_once, pool_spawn, request_start_claim.
    - by apply (pool_stop _ ((ex_called 3).1 ++ [ex_claim]) (ex_called 3).2 0 _ s eq_refl). }
  assert (finished ex_claim = false) as Hf by by vm_compute.
  destruct ex_claim as [a|m|X e k]; [done..|].
  destruct (daemon_call_contract e (world s)) as [Hstep _];
    [apply reference_hex_readable|by vm_compute|].
  assert (server_step ex_metadata ([crashed; Vis e k], s)
    (<[1%nat := k (daemon_call e (world s)).1]> [crashed; Vis e k],
     next 1 s (daemon_call e (world s)).2)) as Hs.
  { eapply pool_thread; [reflexivity|]. by exists (daemon_call e (world s)).2. }
  eexists _, _. split; [exact Hs|].
  destruct (lock_excludes_others ex_metadata ex_start _ _ _ _ 7 ex_price_ok ex_start_ok Hr Hs Hl)
    as [(t & X' & e' & k' & x & Ho' & _)|[Hst _]]; [|exact Hst].
  rewrite Ho in Ho'. discriminate.
Defined.

(** ** Liveness: the call holds the lock of the channel after two operations *)

Lemma ex_payable : payable ex_metadata.
Proof. by split. Qed.

Lemma ex_call_healthy n :
  rtc (any_healthy_step ex_metadata) ([], ex_start) (ex_called n).
Proof.
  apply (exec_request_healthy ex_metadata n [] ex_call ex_start); [|done|].
  - apply reference_hex_readable.
  - apply request_call.
Qed.

Lemma lock_owners_are_running_witness :
  owner (ex_called 3).2 7 = Some 0%nat /\
  exists p, (ex_called 3).1 !! 0%nat = Some p /\ finished p = false.
Proof.
  assert (owner (ex_called 3).2 7 = Some 0%nat) as Ho by by vm_compute.
  split; [exact Ho|].
  apply (lock_owners_are_running ex_metadata ex_start (ex_called 3) 7 0).
  - apply ex_payable.
  - reflexivity.
  - apply ex_call_healthy.
  - exact Ho.
Defined.


Lemma requests_terminate_witness :
  wp (W := Work) ex_call (fun _ w => operations w <= 11 + 2 * listed w) no_work /\
  wp (W := Work) ex_claim (fun _ w => operations w <= 11 + 2 * listed w) no_work.
Proof.
  split; apply (requests_terminate ex_metadata); [apply request_call|apply request_start_claim].
Defined.

Lemma ex_claim_stored : claimed (ex_claimed 12).2 7 0 = Ok (Some ex_claim_record).
Proof. by vm_compute. Qed.

(** A block is mined after the claim. *)
Definition ex_later : server :=
  let '(ps, mkState w o) := ex_claimed 12 in
  (ps, mkState (mkWorld (store w) (contract_state w) (history w) 60) o).

Lemma claims_are_kept_witness :
  claimed ex_later.2 7 0 = Ok (Some ex_claim_record) \/
  (claimed ex_later.2 7 0 = Ok None /\
   exists st, In st (contract_states (world (ex_claimed 12).2)) /\
     0 < MultiPartyEscrowChannel.Nonce (st (U256 7))).
Proof.
  apply (claims_are_kept ex_metadata ex_start (ex_claimed 12) ex_later 7 0).
  - apply ex_price_ok.
  - apply ex_start_ok.
  - apply ex_claim_reachable.
  - assert (block (world (ex_claimed 12).2) <= 60) as Hb by by vm_compute.
    unfold ex_later. destruct (ex_claimed 12) as [ps [w o]]. apply pool_env.
    by apply (env_block (mkState w o)).
  - apply ex_claim_stored.
Defined.

Lemma claims_are_covered_witness :
  (exists signer, signed ex_metadata 7 0 3 (Payment.Signature ex_claim_record) signer) /\
  exists ch, stored (ex_claimed 12).2 7 = Ok (Some ch) /\ 0 < PaymentChannelData.Nonce ch.
Proof.
  apply (claims_are_covered ex_metadata ex_start (ex_claimed 12) 7 0 ex_claim_record).
  - apply ex_price_ok.
  - apply ex_start_ok.
  - apply ex_claim_reachable.
  - apply ex_claim_stored.
Defined.

(** ** Calls *)

Lemma ex_readable : @hex_readable reference_GoEthereum reference_node.
Proof. exact reference_hex_readable. Qed.

Local Abbreviation serve w md := (run (Components_GrpcPaymentValidationInterceptor true ex_metadata
  (Some md) (Ret (Ok tt))) w).

(** The first call pays the price, the second one more. *)
Lemma ex_pays : pays_with ex_metadata (ex_metadata_of 7 3) (ex_payment 7 3).
Proof. split; [done|by vm_compute]. Qed.

Lemma ex_overpays : pays_with ex_metadata (ex_metadata_of 7 4) (ex_payment 7 4).
Proof. split; [done|by vm_compute]. Qed.

Lemma ex_now : channel_now ex_metadata 7 ex_world = Ok (Some (ex_state 7)).
Proof. by vm_compute. Qed.

Lemma ex_acceptable : acceptable ex_metadata ex_world (ex_payment 7 3) (ex_state 7).
Proof.
  split; [apply ex_now|]. split; [|by exists 10].
  split; [done|]. split; [by vm_compute|done].
Qed.

Lemma ex_priced : priced ex_metadata (ex_payment 7 3) (ex_state 7).
Proof. by exists 3. Qed.

Lemma served_call_is_charged_witness :
  run (Components_GrpcPaymentValidationInterceptor true ex_metadata
         (Some (ex_metadata_of 7 3)) (Ret (Ok tt))) ex_world
  = (Returned (Ok tt), with_lock (Payment.ChannelID (ex_payment 7 3)) unlocked
                         (charged (ex_payment 7 3) (ex_state 7) ex_world)).
Proof.
  apply (served_call_is_charged ex_metadata).
  - apply ex_readable.
  - done.
  - apply ex_pays.
  - by left.
  - apply ex_acceptable.
  - apply ex_priced.
Defined.

Lemma failed_call_is_not_charged_witness :
  run (Components_GrpcPaymentValidationInterceptor true ex_metadata
         (Some (ex_metadata_of 7 3)) (resume (Returned (Err (ErrorString "no service"))))) ex_world
  = (Returned (Err (ErrorString "no service")), with_lock 7 unlocked ex_world).
Proof.
  apply (failed_call_is_not_charged ex_metadata _ (ex_payment 7 3) (ex_state 7)).
  - apply ex_readable.
  - done.
  - apply ex_pays.
  - by left.
  - apply ex_acceptable.
  - apply ex_priced.
  - discriminate.
Defined.

Lemma refused_call_changes_nothing_witness :
  exists status, Status_Code status <> codes_OK /\
    serve ex_world (ex_metadata_of 7 4)
    = (Returned (Err (ErrorStatus status)), with_lock 7 unlocked ex_world).
Proof.
  apply (refused_call_changes_nothing ex_metadata _ (ex_payment 7 4)).
  - apply ex_readable.
  - done.
  - by eexists.
  - by eexists.
  - apply ex_overpays.
  - by left.
  - intros c [Hc _] (price & [= <-] & Ha). pose proof ex_now as Hnow.
    change (Payment.ChannelID (ex_payment 7 4)) with 7 in Hc. rewrite Hc in Hnow.
    injection Hnow as ->. discriminate.
Defined.

Lemma busy_channel_refuses_call_witness :
  exists m, serve (with_lock 7 locked ex_world) (ex_metadata_of 7 3)
    = (Returned (Err (ErrorStatus (mkStatus codes_FailedPrecondition m))),
       with_lock 7 locked ex_world).
Proof.
  apply (busy_channel_refuses_call ex_metadata _ (ex_payment 7 3)).
  - apply ex_pays.
  - by vm_compute.
Defined.

(** The same service without an expiration threshold. *)
Definition ex_no_threshold : ServiceMetadata :=
  ServiceMetadata.mk 1 "service" "proto" "grpc" None "" "mpe" "fixed" (Some 3) [] []
    "" ex_group "default_group" "" ex_recipient ex_mpe.

Lemma missing_threshold_leaves_channel_locked_witness :
  let call amount := Components_GrpcPaymentValidationInterceptor true ex_no_threshold
                (Some (ex_metadata_of 7 amount)) (Ret (Ok tt)) in
  let w := with_lock 7 locked ex_world in
  run (call 3) ex_world = (Panicked nil_dereference, w) /\
  exists m, run (call 5) w
    = (Returned (Err (ErrorStatus (mkStatus codes_FailedPrecondition m))), w).
Proof.
  destruct (missing_threshold_leaves_channel_locked ex_no_threshold (ex_metadata_of 7 3)
    (ex_payment 7 3) (ex_state 7) ex_world (Ret (Ok tt))) as (Hrun & Hheld & Hlater).
  - apply ex_readable.
  - done.
  - done.
  - split; [done|by vm_compute].
  - by left.
  - by vm_compute.
  - done.
  - by vm_compute.
  - split; [exact Hrun|]. apply (Hlater _ _ (ex_payment 7 5)); [exact Hheld| |done].
    split; [done|by vm_compute].
Defined.

Definition ex_state_request : ChannelStateRequest.ChannelStateRequest :=
  ChannelStateRequest.mk (bigIntToBytes 7) (Some (ex_sign (bigIntToBytes 7))).

Lemma state_reports_last_payment_witness :
  let w := (serve ex_world (ex_metadata_of 7 3)).2 in
  run (GetChannelState (Components_PaymentChannelStateService ex_metadata) ex_state_request) w
  = (Returned (Ok (ChannelStateReply.mk (bigIntToBytes 0) (bigIntToBytes 3)
       (slice_bytes (Payment.Signature (ex_payment 7 3))))), w).
Proof.
  intros w. assert (ex_signer = PaymentChannelData.Signer (ex_state 7)) as Hs by done.
  pose proof (state_reports_last_payment ex_metadata (ex_metadata_of 7 3) (ex_payment 7 3)
    (ex_state 7) ex_world ex_signer ex_state_request ex_readable) as Hw.
  cbv zeta in Hw. fold w in Hw. rewrite decide_True in Hw by exact Hs. apply Hw.
  - done.
  - apply ex_pays.
  - by left.
  - apply ex_acceptable.
  - apply ex_priced.
  - by vm_compute.
  - by vm_compute.
Defined.

Lemma payment_is_accepted_again_under_alias_witness :
  let first := serve ex_world (ex_metadata_of 7 3) in
  first.1 = Returned (Ok tt) /\
  (serve first.2 (payment_metadata (alias_payment (ex_payment 7 3)))).1 = Returned (Ok tt) /\
  Payment.Signature (alias_payment (ex_payment 7 3)) = Payment.Signature (ex_payment 7 3).
Proof.
  refine (payment_is_accepted_again_under_alias ex_metadata (ex_metadata_of 7 3)
    (payment_metadata (alias_payment (ex_payment 7 3))) (ex_payment 7 3) (ex_state 7) ex_world
    _ _ _ _ _ _ _ _ _ _ _).
  - apply ex_readable.
  - done.
  - done.
  - apply ex_pays.
  - split; [done|by vm_compute].
  - by left.
  - by left.
  - by vm_compute.
  - by vm_compute.
  - apply ex_acceptable.
  - apply ex_priced.
Defined.

Lemma payment_metadata_roundtrip_witness :
  getPaymentFromContext (Components_EscrowPaymentHandler ex_metadata)
    (mkGrpcStreamContext (ex_metadata_of 7 3)) = inl (ex_payment 7 3).
Proof. apply payment_metadata_roundtrip; [done|by eexists]. Defined.

(** ** Claims *)

(** The world after the call. *)
Definition ex_paid : World := with_lock 7 unlocked (charged (ex_payment 7 3) (ex_state 7) ex_world).

Lemma start_claim_moves_authorized_amount_witness :
  exists claim w' next p,
    run (lockingPaymentChannelService_StartClaim
           (Components_PaymentChannelService ex_metadata) (channel_key 7)
           IncrementChannelNonce) ex_paid = (Returned (Ok claim), w') /\
    lock_free 7 (store w') /\
    stored_channel (store w') (channel_key 7) = Ok (Some next) /\
    stored_payment (store w') (claim_id 7 0) = Ok (Some p) /\
    claimImpl_Payment claim = getPaymentFromChannel ex_record /\
    Payment.Amount p = 3 /\
    Payment.Signature p = Payment.Signature (ex_payment 7 3) /\
    PaymentChannelData.Nonce next = 1 /\
    PaymentChannelData.AuthorizedAmount next = 0 /\
    PaymentChannelData.FullAmount next + Payment.Amount p = 100.
Proof.
  refine (start_claim_moves_authorized_amount ex_metadata 7 ex_record ex_paid _ _).
  - right. by vm_compute.
  - by vm_compute.
Defined.

Lemma start_claim_refused_witness :
  exists e, run (lockingPaymentChannelService_StartClaim
                   (Components_PaymentChannelService ex_metadata) (channel_key 7)
                   IncrementChannelNonce) (with_lock 7 locked ex_world)
    = (Returned (Err e), with_lock 7 locked ex_world).
Proof.
  refine (proj1 (start_claim_refused ex_metadata 7 IncrementChannelNonce _) _).
  apply lookup_insert_eq.
Defined.

Lemma start_claim_signature_check_witness :
  run (verifySignerForStartClaim ex_control ex_claim_request) ex_world
  = (Returned (verifySigner ex_control (start_claim_message ex_control 7 0)
       (Some (StartClaimRequest.Signature ex_claim_request))), ex_world).
Proof.
  pose proof (start_claim_signature_check ex_metadata ex_claim_request ex_world) as Hc.
  cbv zeta in Hc.
  assert (bytesToBigInt (StartClaimRequest.ChannelId ex_claim_request) = 7) as Hid
    by by vm_compute.
  by rewrite Hid, ex_now in Hc.
Defined.

(** The contract has no channel 8. *)
Lemma start_claim_on_unknown_channel_panics_witness :
  let request := StartClaimRequest.mk "mpe" (bigIntToBytes 8) [] in
  run (ProviderControlService_StartClaim ex_control request) ex_world
  = (Panicked nil_dereference, ex_world).
Proof.
  refine (start_claim_on_unknown_channel_panics ex_metadata _ ex_world _ _ _).
  - done.
  - by vm_compute.
  - by vm_compute.
Defined.

(** ** Validation *)

Lemma Validate_decides_witness :
  let validator := mkChannelPaymentValidator (E := DaemonE) (Ret (Ok 50)) (Some 10) in
  exists r, ChannelPaymentValidator_Validate validator (ex_payment 7 3) (ex_state 7) = Ret r /\
    validate_answer (ex_payment 7 3) (ex_state 7) (Ok 50) 10 r /\
    (r = Ok tt <-> payment_fits (ex_payment 7 3) (ex_state 7) /\
       exists b, Ok 50 = @Ok Z b /\ not_near_expiration b 10 (ex_state 7)).
Proof. apply Validate_decides; reflexivity. Defined.

Lemma payment_message_binds_witness :
  Payment.Amount (ex_payment 7 3) = 3.
Proof.
  refine (proj2 (proj2 (proj2 (payment_message_binds (ex_payment 7 3)
    (Payment.mk ex_mpe 7 0 3 None) _ _ _ _ _ _ _))));
    try (by split); reflexivity.
Defined.

(** ** The operator *)

Lemma unlock_restores_service_witness :
  let uw := without_lock 7 (with_lock 7 locked ex_world) in
  run (channelCommand_Run (unlock_command 7)) (with_lock 7 locked ex_world)
  = (Returned ("Success: Channel {ID: 7} unlocked" +:+ newline, Ok tt), uw) /\
  (forall id, id <> 7 ->
     store uw !! lock_key id = store (with_lock 7 locked ex_world) !! lock_key id) /\
  (forall key, stored_channel (store uw) key
     = stored_channel (store (with_lock 7 locked ex_world)) key) /\
  (serve uw (ex_metadata_of 7 3)).1 = Returned (Ok tt).
Proof.
  refine (unlock_restores_service ex_metadata (ex_metadata_of 7 3) (ex_payment 7 3) (ex_state 7)
    (with_lock 7 locked ex_world) _ _ _ _ _ _).
  - apply ex_readable.
  - done.
  - apply ex_pays.
  - by vm_compute.
  - split; [by vm_compute|]. apply ex_acceptable.
  - apply ex_priced.
Defined.
