(* ===== verification/StorageExamples.v ===== *)
(** * Examples for the storages

    The storages of the program over concrete backends: the in-memory storage,
    and etcd with a server that does exactly what is documented. *)
From S2P Require Import Prelude Prog AtomicStorage RelyGuarantee Etcd EtcdConcurrent Blockchain.
From S2P Require Import PaymentChannelApi PaymentChannelStorage Reference.
Import AtomicStorage.
Import PaymentChannelData (PaymentChannelData).
Local Open Scope Z_scope.

(** ** The in-memory storage *)

Definition memory_object : AtomicStorage StorageE := storage_object (fun X (e : StorageE X) => e).

Lemma PrefixedAtomicStorage_refines_witness :
  StorageSpec (PrefixedAtomicStorage_object
                 (mkPrefixedAtomicStorage StorageE memory_object "/payment-channel/lock"))
    (fun w => view "/payment-channel/lock" w)
    (fun w w' => True /\ prefix_frame id "/payment-channel/lock" w w').
Proof.
  apply (PrefixedAtomicStorage_refines memory_object id (fun _ _ => True)).
  apply storage_object_spec.
Defined.

Definition any_step (_ _ : gmap string string) : Prop := True.

#[local] Instance any_step_refl : Reflexive any_step.
Proof. done. Qed.
#[local] Instance any_step_trans : Transitive any_step.
Proof. done. Qed.
#[local] Instance memory_spec : StorageSpec memory_object id any_step.
Proof. apply storage_object_spec. Qed.

Definition stored_state (id amount : Z) : PaymentChannelData :=
  PaymentChannelData.mk id 0 Open (number_array 20 5) (number_array 20 9)
    (number_array 32 1) 100 1000 (number_array 20 77) amount None.

Lemma channel_storage_roundtrip_witness :
  wp (let! r := PaymentChannelStorage_Put (NewPaymentChannelStorage memory_object)
                  (mkPaymentChannelKey 7) (stored_state 7 3) in
      match r with
      | Err e => Ret (Err e)
      | Ok _ => PaymentChannelStorage_Get (NewPaymentChannelStorage memory_object)
                  (mkPaymentChannelKey 7)
      end)
     (fun o w' => exists r, o = Returned r /\
        (is_err r \/ r = Ok (Some (stored_state 7 3)))) ∅.
Proof.
  apply (channel_storage_roundtrip (contents := id) (frame := any_step)
    (mkPaymentChannelKey 7) (mkPaymentChannelKey 7) (stored_state 7 3) ∅).
Defined.

(** ** etcd *)

(** A range by its prefix, and a server that makes every step the
    documentation allows. *)
#[local] Instance reference_keys : EtcdKeys := {|
  GetPrefixRangeEnd key := key;
  in_range key rangeEnd k := String.prefix key k |}.

#[local] Instance reference_keys_laws : EtcdKeysLaws.
Proof. done. Qed.

#[local] Instance reference_server : EtcdServer := fun t X e => etcd_step t e.

#[local] Instance reference_server_laws : EtcdServerLaws.
Proof. by intros t X e. Qed.

Lemma EtcdClient_implements_AtomicStorage_witness :
  StorageSpec EtcdClient_object etcd_kvs (fun _ _ => True).
Proof. apply EtcdClient_implements_AtomicStorage. Defined.

(** A client puts the lock of a channel: session, mutex, read, write, unlock. *)
Definition put_lock : prog EtcdE unit :=
  let! _ := EtcdClient_PutIfAbsent "lock" "locked" in Ret tt.

Definition all_keys (k : string) : bool := true.

#[local] Instance etcd_logic : RelyGuarantee EtcdE EtcdMonitor := clients_rely_guarantee all_keys.

Definition no_mutex (k : string) : option nat := None.
Definition empty_etcd : EtcdState := mkEtcdState ∅ no_mutex.
Definition held_etcd (m : gmap string string) : EtcdMonitor :=
  mkEtcdMonitor (set_mutex "lock" (Some 0%nat) (mkEtcdState m no_mutex)) false.

Definition released_etcd : EtcdMonitor :=
  mkEtcdMonitor (set_mutex "lock" None
    (monitor_etcd (held_etcd {["lock" := "locked"]}))) false.

Lemma put_if_absent_never_overwrites_witness :
  exists c, rtc (pool_step (client all_keys)) ([], mkEtcdMonitor empty_etcd false) c /\
    etcd_kvs (monitor_etcd c.2) !! "lock" = Some "locked" /\ monitor_overwritten c.2 = false.
Proof.
  assert (exists ps, rtc (pool_step (client all_keys)) ([], mkEtcdMonitor empty_etcd false)
    (ps, released_etcd)) as [ps Hr].
  - eexists. eapply rtc_l; [apply (pool_spawn _ _ _ put_lock)|].
    { apply client_calls; [apply call_put_if_absent|]. intros x. apply client_ends. }
    eapply rtc_l. { eapply (pool_thread _ _ _ 0 _ _ _ (Ok tt)); [done|]. by split. }
    eapply rtc_l.
    { eapply (pool_thread _ _ _ 0 _ _ _ (Ok tt) (held_etcd ∅)); [done|].
      split; [by left|done]. }
    eapply rtc_l.
    { eapply (pool_thread _ _ _ 0 _ _ _ (Ok []) (held_etcd ∅)); [done|]. by split. }
    eapply rtc_l.
    { eapply (pool_thread _ _ _ 0 _ _ _ (Ok tt) (held_etcd {["lock" := "locked"]})); [done|].
      split; [by left|done]. }
    apply rtc_once. eapply (pool_thread _ _ _ 0 _ _ _ (Ok tt) released_etcd); [done|].
    split; [by left|done].
  - exists (ps, released_etcd). split; [exact Hr|]. split; [done|].
    exact (put_if_absent_never_overwrites all_keys empty_etcd _ Hr).
Defined.
