(* ===== verification/ReportExamples.v ===== *)
(** * Examples for the configuration and the reports *)
From S2P Require Import Prelude Prog Config Metrics Monitoring.
Import CommonStats (CommonStats).
Local Open Scope Z_scope.

(** ** Configuration *)

(** URLs that start with a scheme; one passthrough endpoint. *)
#[local] Instance example_url : GoURL := {|
  url_ParseRequestURI s := String.prefix "http://" s;
  url_Parse s := if String.prefix "http://" s then Some ("localhost", "7003") else None |}.

(** A network file with one network, and a registry file with its address. *)
#[local] Instance example_json : GoJSON := {|
  Unmarshal s :=
    if decide (s = "networks") then
      Ok {["ropsten" := JObject {[EthereumJsonRpcEndpointKey := JString "https://ropsten";
                                  NetworkId := JString "3"]}]}
    else if decide (s = "registry") then
      Ok {["3" := JObject {["address" := JString "0x99"]}]}
    else Err (ErrorString "unexpected end of JSON input");
  print_object m := "map[]" |}.

Definition settings (network : string) (key : string) : string :=
  if decide (key = BlockChainNetworkSelected) then network
  else if decide (key = HeartbeatServiceEndpoint) then "http://service/heartbeat"
  else if decide (key = ServiceHeartbeatType) then "grpc"
  else if decide (key = MonitoringServiceEndpoint) then "http://metering"
  else EmptyString.

Definition example_vip (network : string) : Viper :=
  mkViper (settings network) (fun _ => 4) (fun _ => true).

Definition no_files (name : string) : result string := Err (ErrorString "file does not exist").
Definition no_network : NetworkSelected :=
  mkNetworkSelected EmptyString EmptyString EmptyString EmptyString.

Lemma ValidateEndpoints_decides_witness :
  ValidateEndpoints ("127.0.0.1" +:+ String (Ascii.ascii_of_nat 58) "8080") "http://localhost:7003" = Ok tt.
Proof.
  apply (ValidateEndpoints_decides "127.0.0.1" "8080" "http://localhost:7003"); [done..|].
  exists "localhost", "7003". split; [done|]. by intros [? _].
Defined.

Lemma network_selection_witness :
  setBlockChainNetworkDetails (example_vip "ropsten") "networks" "registry" no_files
    BlockChainNetworkFileName no_network
  = (Returned (Ok tt), mkNetworkSelected "ropsten" "https://ropsten" "3" "0x99").
Proof.
  pose proof (network_selection (example_vip "ropsten") "networks" "registry" no_files
    BlockChainNetworkFileName "networks" _ no_network eq_refl eq_refl) as Hn.
  exact (proj2 Hn "registry" _ _ eq_refl eq_refl eq_refl eq_refl).
Defined.

Lemma version_check_example :
  CheckVersionOfDaemon "v1.0" (Ok (200, Ok (mkGitTags "v1.0")))
  = ("There is a newer version of the Daemon  available. You are currently on "
       +:+ "v1.0" +:+ ", please consider upgrading.", None).
Proof. apply version_check_always_reports. discriminate. Defined.

(** ** Reports *)

#[local] Instance example_metrics : GoMetrics := {|
  request_url_ok s := String.prefix "http://" s;
  token_of_json s := mkTokenGenerated "" s;
  sha256_hex s := s;
  format_seconds d := pretty d |}.

(** A gRPC service that is serving. *)
Definition healthy : Service :=
  mkService (fun _ => Err (ErrorString "no HTTP")) (fun _ => Ok tt) (fun _ _ => Ok 1).

#[local] Instance healthy_contract : Contract MetricsE Outside := metrics_contract healthy.

Definition outside : Outside := mkOutside "token" [] [].

Lemma publish_retries_once_witness :
  let payload := PRegister (mkRegisterDaemonPayload 0 "daemon") in
  wp (Publish (example_vip "ropsten") no_network "group" payload "http://metering/event")
    (fun o w' => exists calls b, o = Returned b /\ outside_calls w' = calls /\
       publish_trace (example_vip "ropsten") no_network "group" payload
         "http://metering/event" 1 "token" calls b) outside.
Proof.
  apply (publish_retries_once (example_vip "ropsten") no_network "group" healthy
    _ "http://metering/event" outside); done.
Defined.

Lemma health_check_answers_witness :
  wp (DaemonHeartbeat_Check (example_vip "ropsten") no_network "group" false true)
    (fun o _ => o = Panicked nil_dereference) outside.
Proof.
  apply (health_check_answers (example_vip "ropsten") no_network "group" healthy false true).
  done.
Defined.
