(* ===== verification/PaidExamples.v ===== *)
(** * Examples for paid calls

    A call to a process that is paid and charged, and one that pays too much and
    never reaches the process. *)
From S2P Require Import Prelude Prog Bytes AtomicStorage Lock Blockchain PaymentChannelApi.
From S2P Require Import PaymentChannelStorage Validation Escrow Handler EscrowHandler World.
From S2P Require Import Reference RelyGuarantee Concurrency Requests Safety Executions Discipline.
From S2P Require Import Forwarding Proxy StreamHandlers PaidCalls Examples.
Local Open Scope Z_scope.

#[local] Existing Instance no_json.

(** ** Schedules of requests *)

(** A caller that sends [1+1], a process that answers [2]. *)
Definition ex_service {X} (e : ServiceE X) : X :=
  match e in ServiceE X return X with
  | RecvMsg => inl (ex_frame "1+1")
  | SendMsg _ => Ok tt
  | EncodeClientRequest _ _ => Err (ErrorString "not used")
  | HttpDo _ _ _ => Err (ErrorString "not used")
  | StdinPipe => Ok tt
  | Stdin_Write _ => Ok tt
  | Stdin_Close => tt
  | CombinedOutput _ _ => Ok (bytes_of_string "2")
  end.

(** The answer to a handler, none when it has to wait. *)
Definition handler_answer (t : nat) {X} (e : HandlerE X) (ps : Proxies) : option (X * Proxies) :=
  match e in HandlerE X return option (X * Proxies) with
  | Service e => Some (ex_service e, ps)
  | StartProxy p =>
      match ps t with None => Some (tt, set_proxy t (p, []) ps) | Some _ => None end
  | AwaitProxy =>
      match ps t with
      | Some (p, l) =>
          match proxy_run p l with
          | Some q => match loop q with Finished r => Some (r, ps) | Selecting _ => None end
          | None => None
          end
      | None => None
      end
  end.

Lemma handler_answer_step t {X} (e : HandlerE X) ps x ps' :
  handler_answer t e ps = Some (x, ps') -> proxies_step t e ps x ps'.
Proof.
  destruct e as [X e|p|]; simpl.
  - by intros [= <- <-].
  - destruct (ps t) eqn:Hp; [done|]. by intros [= <- <-].
  - destruct (ps t) as [[p l]|] eqn:Hp; [|done]. destruct (proxy_run p l) as [q|] eqn:Hq; [|done].
    destruct (loop q) as [i|r] eqn:Hl; [done|]. intros [= <- <-]. split; [done|]. by exists p, l, q.
Qed.

Definition paid_answer (t : nat) {X} (e : PaidE X) (s : PaidState) : option (X * PaidState) :=
  match e in PaidE X return option (X * PaidState) with
  | PaymentEvent e =>
      let xw := daemon_call e (paid_world s) in
      Some (xw.1, set_paid_state (next t (paid_state s) xw.2) s)
  | ServiceEvent e =>
      match handler_answer t e (proxies s) with
      | Some (x, ps) =>
          Some (x, mkPaidState (paid_state s) (add_event t (handler_event e x) (exchanges s)) ps)
      | None => None
      end
  end.

Definition paid_next (t : nat) (p : prog PaidE (result unit)) (s : PaidState)
  : prog PaidE (result unit) * PaidState :=
  match p with
  | Vis e k => match paid_answer t e s with Some (x, s') => (k x, s') | None => (p, s) end
  | _ => (p, s)
  end.

(** The request makes [n] operations. *)
Definition paid_operations (n : nat) (c : prog PaidE (result unit) * PaidState)
  : prog PaidE (result unit) * PaidState :=
  Nat.iter n (fun c => paid_next 0 c.1 c.2) c.

Lemma paid_next_step p s :
  0 <= block (paid_world s) ->
  ((paid_next 0 p s) = (p, s) \/ paid_program_step 0 p s (paid_next 0 p s).1 (paid_next 0 p s).2) /\
  block (paid_world (paid_next 0 p s).2) = block (paid_world s).
Proof.
  intros Hb. destruct p as [a|m|X e k]; [by split; [left|]..|]. destruct e as [X e|X e]; simpl.
  - destruct (daemon_call_contract e (paid_world s)) as [Hc Hblock];
      [apply reference_hex_readable|done|].
    split; [|done]. right. eexists. split; [|done]. by eexists.
  - destruct (handler_answer 0 e (proxies s)) as [[x ps]|] eqn:Hx; [|by split; [left|]].
    split; [|done]. right. exists x. split; [|done]. exists ps.
    split; [by apply handler_answer_step|done].
Qed.

Lemma paid_operations_steps metadata n call p s :
  0 <= block (paid_world s) ->
  let c := paid_operations n (p, s) in
  rtc (paid_server_step metadata) ([mkPaidRequest call p], s) ([mkPaidRequest call c.1], c.2) /\
  block (paid_world c.2) = block (paid_world s).
Proof.
  intros Hb. induction n as [|n [IH Hn]]; [by split; [apply rtc_refl|]|]. simpl.
  set (c := paid_operations n (p, s)) in *. change (Nat.iter n _ _) with c.
  destruct (paid_next_step c.1 c.2) as [Hs Hblock]; [by rewrite Hn|].
  split; [|by rewrite Hblock]. etrans; [exact IH|].
  destruct Hs as [->|Hs]; [apply rtc_refl|]. apply rtc_once.
  by apply (paid_operation _ [mkPaidRequest call c.1] c.2 0 call c.1).
Qed.

(** ** Calls of a process *)

Definition no_stream (md : MD) (method enc : string) : result unit :=
  Err (ErrorString "not used").

Definition process_handler : prog HandlerE (result unit) :=
  stream_handler (Some "/example.Service/add") None no_stream
    (Some (Handler_GrpcToProcess ex_handler)).

(** No channel is locked. *)
Definition ex_unlocked : State := mkState ex_world (fun _ => None).

Definition paid_start : PaidState := mkPaidState ex_unlocked (fun _ => []) (fun _ => None).

(** The call that pays [amount], after [n] operations. *)
Definition process_call_after (amount : Z) (n : nat) : paid_server :=
  let c := paid_operations n (served_call ex_metadata (Some (ex_metadata_of 7 amount))
                                process_handler, paid_start) in
  ([mkPaidRequest (Some (Some (ex_metadata_of 7 amount), process_handler)) c.1], c.2).

Lemma process_call_reachable amount n :
  paid_reachable ex_metadata ex_unlocked (process_call_after amount n).
Proof.
  unfold paid_reachable. eapply rtc_l; [apply (paid_new_call _ [])|].
  by apply (paid_operations_steps ex_metadata n).
Qed.

Lemma process_call_next amount n :
  (process_call_after amount (S n)).2 = (process_call_after amount n).2 \/
  paid_server_step ex_metadata (process_call_after amount n) (process_call_after amount (S n)).
Proof.
  destruct (paid_operations_steps ex_metadata n None (served_call ex_metadata
    (Some (ex_metadata_of 7 amount)) process_handler) paid_start) as [_ Hb]; [done|].
  unfold process_call_after.
  change (paid_operations (S n) ?c) with (paid_next 0 (paid_operations n c).1 (paid_operations n c).2).
  set (c := paid_operations n _) in *. clearbody c.
  destruct (paid_next_step c.1 c.2) as [[->|Hs] _]; [by rewrite Hb|by left|right].
  by apply (paid_operation _ [mkPaidRequest _ c.1] c.2 0 _ c.1).
Qed.

(** The twelfth operation charges the call. *)
Lemma process_call_charged :
  paid_server_step ex_metadata (process_call_after 3 11) (process_call_after 3 12).
Proof.
  destruct (process_call_next 3 11) as [Heq|Hs]; [|exact Hs].
  assert (stored_channel (store (paid_world (process_call_after 3 12).2)) (channel_key 7)
    <> stored_channel (store (paid_world (process_call_after 3 11).2)) (channel_key 7)) as Hne
    by by vm_compute.
  rewrite Heq in Hne. case (Hne eq_refl).
Qed.

Lemma paid_calls_refine_server_witness :
  exists a a', reachable ex_metadata ex_unlocked a /\
    a.2 = paid_state (process_call_after 3 11).2 /\
    a'.2 = paid_state (process_call_after 3 12).2 /\
    (a' = a \/ server_step ex_metadata a a').
Proof.
  apply (paid_calls_refine_server ex_metadata ex_unlocked);
    [apply process_call_reachable|apply process_call_charged].
Defined.

(** The paid call has had its exchange when it is charged; the call that pays
    too much is refused and nothing is exchanged. *)
Lemma process_call_earns :
  call_complete process_handler 0 (process_call_after 3 13).2 /\
  exchanges (process_call_after 4 13).2 0%nat = [].
Proof.
  destruct (call_earns ex_metadata ex_unlocked (process_call_after 3 13) 0
    (Some (ex_metadata_of 7 3)) process_handler (Ret (Ok tt))) as (Hr & _).
  { apply process_call_reachable. }
  { by vm_compute. }
  split; [by apply Hr|by vm_compute].
Qed.
