(* ===== verification/ReplicaExamples.v ===== *)
(** * Examples for replicas over etcd

    An etcd server without faults, schedules of the requests of several
    replicas, two replicas that are paid on the same channel at the same time,
    and a paid call that the gRPC proxy forwards. *)
From S2P Require Import Prelude Prog Bytes AtomicStorage Lock Blockchain PaymentChannelApi.
From S2P Require Import PaymentChannelStorage World Reference RelyGuarantee Etcd Concurrency.
From S2P Require Import Requests Handler Forwarding Proxy StreamHandlers Safety Executions.
From S2P Require Import Discipline PaidCalls.
From S2P Require Import Serving Replicas Charged Ledger Examples StorageExamples PaidExamples.
Local Open Scope Z_scope.

(** ** An etcd server *)

(** A mutex that another client holds is not obtained before the timeout. *)
Definition etcd_answer `{!EtcdKeys} (t : nat) {X} (e : EtcdE X) (s : EtcdState) : X * EtcdState :=
  match e in EtcdE X return X * EtcdState with
  | EtcdGet key => (Ok (option_list (etcd_kvs s !! key)), s)
  | EtcdRange key rangeEnd => (Ok (range_values key rangeEnd (etcd_kvs s)), s)
  | EtcdPut key value => (Ok tt, set_kvs (<[key:=value]> (etcd_kvs s)) s)
  | EtcdDelete key => (Ok tt, set_kvs (delete key (etcd_kvs s)) s)
  | EtcdTxn cmps ops =>
      let b := txn_succeeds cmps (etcd_kvs s) in
      (Ok b, if b then set_kvs (txn_apply ops (etcd_kvs s)) s else s)
  | EtcdNewSession => (Ok tt, s)
  | EtcdMutexLock key =>
      match etcd_mutex s key with
      | None => (Ok tt, set_mutex key (Some t) s)
      | Some _ => (Err (ErrorString "context deadline exceeded"), s)
      end
  | EtcdMutexUnlock key =>
      if decide (etcd_mutex s key = Some t) then (Ok tt, set_mutex key None s) else (Ok tt, s)
  end.

Lemma etcd_answer_documented `{!EtcdKeys} t {X} (e : EtcdE X) s :
  etcd_step t e s (etcd_answer t e s).1 (etcd_answer t e s).2.
Proof.
  destruct e as [k|k r|k v|k|c o| |k|k]; simpl; try by (split || left).
  - destruct (etcd_mutex s k) eqn:Hk; [by right|by left].
  - case_decide; [by left|by right; left].
Qed.

(** ** Schedules *)

#[local] Existing Instance no_json.
#[local] Existing Instance reference_keys.
#[local] Existing Instance reference_keys_laws.
#[local] Existing Instance reference_server.
#[local] Existing Instance reference_server_laws.

Section schedules.
Context `{!GoEthereum, !EscrowCodec, !EthereumNode} (metadata : ServiceMetadata.ServiceMetadata).

Definition replica_answer (t : nat) {X} (e : ReplicaE X) (s : ReplicaState)
  : option (X * ReplicaState) :=
  match e in ReplicaE X return option (X * ReplicaState) with
  | EtcdEvent e =>
      let xs := etcd_answer t e (replica_etcd s) in Some (xs.1, after_request t xs.2 s)
  | NodeChannels channelID => Some (Ok (replica_contract s (U256 channelID)), s)
  | NodeDial => Some (Ok tt, s)
  | NodeBlockNumber => Some (Ok (print_hex (replica_block s)), s)
  | ReplicaService e =>
      match handler_answer t e (replica_proxies s) with
      | Some (x, ps) =>
          Some (x, set_handlers (add_event t (handler_event e x) (replica_exchanges s)) ps s)
      | None => None
      end
  end.

Lemma replica_answer_step t {X} (e : ReplicaE X) s x s' :
  hex_readable -> 0 <= replica_block s -> replica_answer t e s = Some (x, s') ->
  replica_step t e s x s' /\ replica_block s' = replica_block s.
Proof.
  intros readable Hb Ha. destruct e as [X e|id| | |X e]; simpl in Ha |- *.
  - injection Ha as <- <-. split; [|done]. eexists. split; [apply etcd_answer_documented|done].
  - injection Ha as <- <-. split; [|done]. split; [done|]. split; [done|by right].
  - by injection Ha as <- <-.
  - injection Ha as <- <-. split; [|done]. split; [done|]. split; [done|right]. eexists.
    split; [done|by apply readable].
  - destruct (handler_answer t e (replica_proxies s)) as [[y ps]|] eqn:Hy; [|done].
    injection Ha as <- <-. split; [|done]. exists ps. split; [by apply handler_answer_step|done].
Qed.

(** One operation of a request, or one event of its proxy. *)
Inductive Turn := Operates (t : nat) | Proxies_event (t : nat) (ev : ProxyEvent).

Definition operate (t : nat) (c : replicas) : replicas :=
  match c.1 !! t with
  | Some (mkReplicaRequest call (Vis e k)) =>
      match replica_answer t e c.2 with
      | Some (x, s') => (<[t := mkReplicaRequest call (k x)]> c.1, s')
      | None => c
      end
  | _ => c
  end.

Definition proxy_event (t : nat) (ev : ProxyEvent) (c : replicas) : replicas :=
  match c.1 !! t, replica_proxies c.2 t with
  | Some (mkReplicaRequest _ (Vis _ _)), Some (p, l) =>
      match proxy_run p (l ++ [ev]) with
      | Some _ => (c.1, set_handlers (replica_exchanges c.2)
                          (set_proxy t (p, l ++ [ev]) (replica_proxies c.2)) c.2)
      | None => c
      end
  | _, _ => c
  end.

Definition take_turn (c : replicas) (a : Turn) : replicas :=
  match a with Operates t => operate t c | Proxies_event t ev => proxy_event t ev c end.

(** What happens next, in this order. *)
Definition schedule (l : list Turn) (c : replicas) : replicas := foldl take_turn c l.

(** The request [t] can make an operation. *)
Definition running_at (t : nat) (c : replicas) : bool :=
  match c.1 !! t with
  | Some (mkReplicaRequest _ (Vis e _)) => if replica_answer t e c.2 is Some _ then true else false
  | _ => false
  end.

Lemma operate_step t c :
  hex_readable -> 0 <= replica_block c.2 -> running_at t c = true ->
  replicas_step metadata c (operate t c) /\ replica_block (operate t c).2 = replica_block c.2.
Proof.
  intros readable Hb. unfold operate, running_at. destruct c as [rs s]. simpl in *.
  destruct (rs !! t) as [[call [a|m|X e k]]|] eqn:Hp; try done.
  destruct (replica_answer t e s) as [[x s']|] eqn:Ha; [|done]. intros _.
  destruct (replica_answer_step _ _ _ _ _ readable Hb Ha) as [Hs Hb']. split; [|done].
  eapply replicas_operation; [done|]. by exists x.
Qed.

Lemma turn_steps a c :
  hex_readable -> 0 <= replica_block c.2 ->
  rtc (replicas_step metadata) c (take_turn c a) /\
  replica_block (take_turn c a).2 = replica_block c.2.
Proof.
  intros readable Hb. destruct a as [t|t ev]; simpl.
  - destruct (running_at t c) eqn:Hr.
    + destruct (operate_step t c readable Hb Hr) as [Hs Hb']. split; [by apply rtc_once|done].
    + unfold operate, running_at in *. destruct (c.1 !! t) as [[call [a|m|X e k]]|];
        try (by split; [apply rtc_refl|]).
      destruct (replica_answer t e c.2); [done|by split; [apply rtc_refl|]].
  - unfold proxy_event. destruct c as [rs s]. simpl in *.
    destruct (rs !! t) as [[call [a|m|X e k]]|] eqn:Ht; try (by split; [apply rtc_refl|]).
    destruct (replica_proxies s t) as [[p l]|] eqn:Hp; [|by split; [apply rtc_refl|]].
    destruct (proxy_run p (l ++ [ev])) as [q|] eqn:Hq; [|by split; [apply rtc_refl|]].
    split; [|done]. apply rtc_once. eapply replicas_proxy; [done|done|done|by exists q].
Qed.

Lemma schedule_steps l c :
  hex_readable -> 0 <= replica_block c.2 -> rtc (replicas_step metadata) c (schedule l c).
Proof.
  intros readable. revert c. induction l as [|a l IH]; intros c Hb; [apply rtc_refl|].
  destruct (turn_steps a c readable Hb) as [Hs Hb']. etrans; [exact Hs|].
  apply IH. by rewrite Hb'.
Qed.
End schedules.

(** ** Two replicas, paid on the same channel *)

Definition shared_start : ReplicaState :=
  mkReplicaState empty_etcd (fun _ => None) ex_contract [] 50 (fun _ => []) (fun _ => None).

(** Both replicas receive a call of the process that is paid for the same state of
    channel 7. *)
Definition ex_process_call : ReplicaRequest :=
  in_replica (paid_call ex_metadata (Some (ex_metadata_of 7 3)) process_handler).

Definition two_calls : replicas := ([ex_process_call; ex_process_call], shared_start).

(** Both have found no lock of the channel; the first creates it with session,
    mutex, read, write and release, the second finds it and refuses its call;
    the first checks its payment and has the call served. *)
Definition both_locking : list Turn :=
  Operates <$> [0; 1; 0; 0; 0; 0; 0; 1; 1; 1; 1; 1]%nat.
Definition before_charge : replicas :=
  schedule (both_locking ++ replicate 9 (Operates 0)) two_calls.
Definition after_charge : replicas := operate 0 before_charge.

Lemma two_calls_reachable ts : replicas_reachable ex_metadata shared_start (schedule ts two_calls).
Proof.
  split; [done|]. split; [done|]. etrans.
  - eapply rtc_l; [apply (replicas_call _ [])|]. apply rtc_once, (replicas_call _ [ex_process_call]).
  - apply schedule_steps; [apply reference_hex_readable|done].
Qed.

Lemma charge_step : replicas_step ex_metadata before_charge after_charge.
Proof.
  refine (proj1 (operate_step ex_metadata 0 before_charge _ _ _));
    [apply reference_hex_readable|by vm_compute|by vm_compute].
Qed.

Lemma replicas_refine_server_witness :
  etcd_kvs (replica_etcd (schedule both_locking two_calls).2) !! lock_key 7 = Some locked /\
  exists a, paid_reachable ex_metadata (shared_state shared_start) a /\
    implements (schedule both_locking two_calls) a /\
    forall c', replicas_step ex_metadata (schedule both_locking two_calls) c' ->
      exists a', (a' = a \/ paid_server_step ex_metadata a a') /\ implements c' a'.
Proof.
  split; [by vm_compute|]. apply (replicas_refine_server ex_metadata), two_calls_reachable.
Defined.

Lemma replica_updates_are_legal_witness :
  stored (shared_state before_charge.2) 7 = Ok None /\
  legal_update ex_metadata (shared_state before_charge.2) 7
    (shared_state after_charge.2).
Proof.
  assert (stored (shared_state before_charge.2) 7 = Ok None) as Hb by by vm_compute.
  assert (stored (shared_state after_charge.2) 7 = Ok (Some ex_record)) as Ha by by vm_compute.
  split; [exact Hb|].
  destruct (replica_updates_are_legal ex_metadata shared_start before_charge after_charge 7)
    as [Heq|Hu].
  - apply ex_price_ok.
  - exact ex_start_ok.
  - apply two_calls_reachable.
  - exact charge_step.
  - rewrite Ha, Hb in Heq. discriminate.
  - exact Hu.
Defined.

(** ** A lock that is released while it is used

    The operator unlocks the channel while the first call, whose payment has been
    accepted, is being served: the second call is then served for the same payment
    too, and the record holds the price of one of them. *)
Definition operator_unlock (id : Z) (c : replicas) : replicas :=
  let e := replica_etcd c.2 in
  (c.1, set_etcd (set_kvs (delete (lock_key id) (etcd_kvs e)) e) (replica_locks c.2) c.2).

Definition unlocked_in_use : replicas :=
  schedule (replicate 30 (Operates 1) ++ replicate 30 (Operates 0))
    (operator_unlock 7 (schedule (replicate 12 (Operates 0)) two_calls)).

Definition call_succeeded (t : nat) (c : replicas) : bool :=
  if c.1 !! t is Some (mkReplicaRequest _ (Ret (Ok tt))) then true else false.

Example unlock_in_use_serves_twice :
  owner (shared_state (schedule (replicate 12 (Operates 0)) two_calls).2) 7 = Some 0%nat /\
  call_succeeded 0 unlocked_in_use = true /\ call_succeeded 1 unlocked_in_use = true /\
  stored (shared_state unlocked_in_use.2) 7 = Ok (Some ex_record).
Proof. by vm_compute. Qed.

(** ** A call that is paid, and forwarded by the gRPC proxy

    The other replica's call is for the same state of the channel. *)
Definition ex_stream (md : MD) (method enc : string) : result unit := Ok tt.

Definition grpc_call_handler : prog HandlerE (result unit) :=
  stream_handler (Some "/example.Service/add") (Some (ex_metadata_of 7 3)) ex_stream
    (Some (Handler_GrpcToGRPC ex_handler)).

Definition proxied_calls : replicas :=
  ([in_replica (paid_call ex_metadata (Some (ex_metadata_of 7 3)) grpc_call_handler);
    ex_process_call], shared_start).

(** The payment of the first call is checked, its proxy started, and one message
    forwarded each way until the service ends its stream; then it is charged. *)
Definition proxied_turns : list Turn :=
  both_locking ++ replicate 4 (Operates 0)
  ++ (Proxies_event 0 <$> (ex_exchange ++ [Select_c2s ∅])) ++ replicate 3 (Operates 0).

Definition after_proxied : replicas := schedule proxied_turns proxied_calls.

Lemma proxied_reachable l :
  replicas_reachable ex_metadata shared_start (schedule l proxied_calls).
Proof.
  split; [done|]. split; [done|]. etrans.
  - eapply rtc_l; [apply (replicas_call _ [] _ (Some (ex_metadata_of 7 3)) grpc_call_handler)|].
    apply rtc_once, (replicas_call _ [_]).
  - apply schedule_steps; [apply reference_hex_readable|done].
Qed.

Lemma proxied_complete t s :
  call_complete grpc_call_handler t (shared_paid s) ->
  exists evs q, replica_proxies s t = Some (new_proxy, evs) /\
    proxy_run new_proxy evs = Some q /\ loop q = Finished (Ok tt).
Proof.
  intros [_ Hc]. destruct (Hc _ _ _ _ eq_refl) as (_ & evs & q & Hp & Hq & Hl & _).
  by exists evs, q.
Qed.

(** The first call is about to start its proxy. *)
Definition before_proxy : replicas := schedule (take 15 proxied_turns) proxied_calls.

Lemma proxy_step : replicas_step ex_metadata before_proxy (operate 0 before_proxy).
Proof.
  refine (proj1 (operate_step ex_metadata 0 before_proxy _ _ _));
    [apply reference_hex_readable|by vm_compute|by vm_compute].
Qed.

Lemma call_at t (c : replicas) call :
  replica_call <$> c.1 !! t = Some call -> exists p, c.1 !! t = Some (mkReplicaRequest call p).
Proof. destruct (c.1 !! t) as [[call' p]|]; [|done]. intros [= ->]. by exists p. Qed.

(** The proxy of the first call is started while the call owns the lock of the
    channel and its payment is accepted. In the end the call succeeds, and its proxy
    has delivered what the service sent; the second call is refused, and nothing is
    forwarded for it. *)
Lemma charged_calls_were_answered_witness :
  replica_proxies before_proxy.2 0%nat = None /\
  call_accepted ex_metadata 0 (Some (ex_metadata_of 7 3)) (shared_state before_proxy.2) /\
  stored (shared_state after_proxied.2) 7 = Ok (Some ex_record) /\
  (exists evs q, replica_proxies after_proxied.2 0%nat = Some (new_proxy, evs) /\
     proxy_run new_proxy evs = Some q /\ loop q = Finished (Ok tt)) /\
  replica_exchanges after_proxied.2 1%nat = [].
Proof.
  assert (replica_proxies before_proxy.2 0%nat = None) as Hnone by by vm_compute.
  split; [exact Hnone|]. split.
  - destruct (call_at 0 before_proxy (Some (Some (ex_metadata_of 7 3), grpc_call_handler)))
      as [p Hp]; [by vm_compute|].
    refine (proj1 (charged_calls_were_answered ex_metadata shared_start before_proxy 0
      (Some (ex_metadata_of 7 3)) grpc_call_handler p ex_price_ok ex_start_ok (proxied_reachable _) Hp)
      (operate 0 before_proxy) proxy_step _).
    right. split; [exact Hnone|]. exists (new_proxy, []). by vm_compute.
  - split; [by vm_compute|]. split; [|by vm_compute]. apply (proxied_complete 0 after_proxied.2).
    refine (proj1 (proj2 (charged_calls_were_answered ex_metadata shared_start after_proxied 0
      (Some (ex_metadata_of 7 3)) grpc_call_handler (Ret (Ok tt)) ex_price_ok ex_start_ok
      (proxied_reachable _) _)) eq_refl).
    by vm_compute.
Defined.

(** The call that succeeded was charged. *)
Lemma successful_calls_are_charged_witness :
  stored (shared_state after_proxied.2) 7 = Ok (Some ex_record) /\
  has_charged ex_metadata shared_start 0 (Some (ex_metadata_of 7 3)) after_proxied.
Proof.
  split; [by vm_compute|].
  apply (successful_calls_are_charged ex_metadata shared_start after_proxied 0
    (Some (ex_metadata_of 7 3)) grpc_call_handler).
  { apply ex_price_ok. }
  { apply ex_start_ok. }
  { apply proxied_reachable. }
  by vm_compute.
Defined.

Lemma ex_call_carries : carries ex_metadata (Some (ex_metadata_of 7 3)) (ex_payment 7 3).
Proof. eexists. split; [reflexivity|by vm_compute]. Qed.

(** The record authorizes the price of the one call that succeeded. *)
Lemma successful_calls_are_covered_witness :
  3 * Z.of_nat (length [0%nat]) <= PaymentChannelData.AuthorizedAmount ex_record /\
  channel_ok ex_metadata 7 ex_record.
Proof.
  apply (successful_calls_are_covered ex_metadata 3 shared_start after_proxied 7 ex_record [0%nat]).
  - apply ex_price_ok.
  - reflexivity.
  - apply ex_start_ok.
  - apply proxied_reachable.
  - by vm_compute.
  - apply NoDup_singleton.
  - constructor; [|constructor].
    exists (Some (ex_metadata_of 7 3)), grpc_call_handler, (ex_payment 7 3).
    split; [by vm_compute|]. split; [exact ex_call_carries|by split].
Defined.
