(* ===== verification/ServerExamples.v ===== *)
(** * Examples of the HTTP handler

    A token bucket that keeps the laws of the rate limiter, and the theorems of
    [HttpHandler] on a daemon that uses it. *)
From S2P Require Import Prelude Prog Config Handler Forwarding HttpHandler.
Local Open Scope Z_scope.

(** ** A token bucket

    The credit is in nanoseconds: a token costs the interval, and the credit is
    at most that of the burst. *)
Record Bucket := mkBucket {
  bucket_limit : option positive;
  bucket_burst : Z;
  bucket_credit : Z;
  bucket_last : option Z }.

Definition bucket_now (t : Z) (d : positive) (l : Bucket) : Z :=
  let full := bucket_burst l * Z.pos d in
  match bucket_last l with
  | None => full
  | Some last => Z.min full (bucket_credit l + (t - last))
  end.

Definition bucket_Allow (t : Z) (l : Bucket) : bool * Bucket :=
  match bucket_limit l with
  | None => (true, l)
  | Some d =>
      let credit := bucket_now t d l in
      if Z.pos d <=? credit
      then (true, mkBucket (Some d) (bucket_burst l) (credit - Z.pos d) (Some t))
      else (false, mkBucket (Some d) (bucket_burst l) credit (Some t))
  end.

#[export] Instance token_bucket : RateLibrary := {|
  rate_Limit := option positive;
  rate_Inf := None;
  rate_Every := fun d => if d <=? 0 then None else Some (Z.to_pos d);
  rate_Limiter := Bucket;
  rate_NewLimiter := fun limit burst => mkBucket limit burst 0 None;
  rate_Allow := bucket_Allow |}.

(** A bucket with [k] tokens at the time [t]. *)
Lemma admitted_tokens d burst t k n :
  Z.of_nat k <= burst ->
  admitted (replicate n t) (mkBucket (Some d) burst (Z.of_nat k * Z.pos d) (Some t))
  = replicate (Nat.min n k) true ++ replicate (n - k) false.
Proof.
  revert k. induction n as [|n IH]; intros k Hk; [done|].
  change (replicate (S n) t) with (t :: replicate n t). cbn [admitted].
  change (rate_Allow t ?l) with (bucket_Allow t l). unfold bucket_Allow. cbn [bucket_limit].
  unfold bucket_now. cbn [bucket_last bucket_burst bucket_credit].
  rewrite Z.min_r by nia. replace (Z.of_nat k * Z.pos d + (t - t)) with (Z.of_nat k * Z.pos d) by lia.
  destruct k as [|k].
  - destruct (Z.leb_spec (Z.pos d) (Z.of_nat 0 * Z.pos d)); [lia|].
    rewrite IH by lia. by rewrite !Nat.min_0_r, !Nat.sub_0_r.
  - destruct (Z.leb_spec (Z.pos d) (Z.of_nat (S k) * Z.pos d)); [|nia].
    replace (Z.of_nat (S k) * Z.pos d - Z.pos d) with (Z.of_nat k * Z.pos d) by nia.
    rewrite IH by lia. done.
Qed.

#[export] Instance token_bucket_laws : RateLaws.
Proof.
  split.
  - intros d Hd. simpl. by rewrite (proj2 (Z.leb_le _ _) Hd).
  - intros [d|] burst t Hb; [|done]. simpl. unfold bucket_Allow, bucket_now. simpl.
    destruct (Z.leb_spec (Z.pos d) (burst * Z.pos d)); [done|nia].
  - intros d burst t n Hd Hb. simpl. destruct (Z.leb_spec d 0); [lia|].
    set (p := Z.to_pos d). destruct n as [|n]; [done|].
    pose proof (admitted_tokens p burst t (Z.to_nat burst) (S n)) as Hn.
    rewrite Z2Nat.id in Hn by lia. rewrite <-Hn by lia.
    change (replicate (S n) t) with (t :: replicate n t). cbn [admitted].
    change (rate_Allow t ?l) with (bucket_Allow t l). unfold bucket_Allow, bucket_now. simpl.
    rewrite Z.min_l by nia. done.
Qed.

(** ** A passthrough with a limit of one call a minute and a burst of two *)

Definition ex_http_config : Viper := mkViper
  (fun key => if decide (key = PassthroughEndpointKey) then "http://localhost:5000" else "")
  (fun key => if decide (key = BurstSize) then 2
              else if decide (key = RateLimitPerMinute) then 1 else 0)
  (fun key => bool_decide (key = PassthroughEnabledKey)).

(** The service answers every request with an error. *)
Definition ex_http_client : HttpClient := mkHttpClient
  (fun _ _ => Ok tt) (fun _ _ _ _ => Ok (503, {["Retry-After" := ["60"]]}, Ok "overloaded")).

Definition ex_http_request : HttpRequest := mkHttpRequest "POST" ∅ (Ok "1+1").

Definition ex_http_requests : list (Z * HttpRequest) := replicate 5 (1000, ex_http_request).

Lemma http_passthrough_replies_witness :
  In (mkHttpReply StatusOK {["Retry-After" := ["60"]]} "overloaded")
     (http_serve ex_http_client (NewHTTPHandler ex_http_config) ex_http_requests).
Proof.
  destruct (http_passthrough_replies ex_http_client ex_http_config ex_http_requests)
    as [_ Hreply]; [by vm_compute|].
  apply (Hreply 1000 ex_http_request 503); [by vm_compute|done|done|by left].
Defined.

Lemma grpc_calls_share_the_limit_witness :
  grpc_admits (GrpcRateLimitInterceptor ex_http_config) (replicate 5 1000)
  = [true; true; false; false; false].
Proof.
  apply (grpc_calls_share_the_limit ex_http_config 1000 5); by vm_compute.
Defined.
