(* ===== verification/DaemonExamples.v ===== *)
(** * A daemon that runs

    A configuration library, an environment in which every operation succeeds,
    and a daemon with the blockchain enabled that starts, serves and stops in
    it; the theorems of [Wiring] and [Lifecycle] on this daemon. *)
From S2P Require Import Prelude Prog Bytes Blockchain Config Metrics Forwarding HttpHandler.
From S2P Require Import Settings EtcdSetup Components Wiring Serve Lifecycle Reference.
From S2P Require Import ReportExamples ServerExamples.
Import ServiceMetadata (ServiceMetadata).
Local Open Scope Z_scope.

#[local] Existing Instance example_url.
#[local] Existing Instance example_json.
#[local] Existing Instance example_metrics.
#[local] Existing Instance reference_GoEthereum.

(** ** Libraries

    A configuration is a map of texts, without sections of its own. *)
#[local] Instance text_viper : ViperLibrary := {|
  viper := gmap string string;
  value := string;
  viper_New := ∅;
  viper_Set k v s := <[k := v]> s;
  viper_SetDefault k v s := match s !! k with Some _ => s | None => <[k := v]> s end;
  viper_SetEnvPrefix _ s := s;
  viper_AutomaticEnv s := s;
  viper_AddConfigPath _ s := s;
  viper_SetConfigType _ s := s;
  viper_SetConfigFile _ s := s;
  viper_ReadConfig _ s := Ok s;
  viper_ReadInConfig _ s := Ok s;
  viper_WriteConfig _ := EmptyString;
  viper_AllSettings s := s;
  viper_InConfig _ _ := false;
  viper_Sub _ s := Some s;
  viper_Get k s := s !! k;
  viper_GetStringSlice _ _ := [];
  viper_GetDuration _ _ := 0;
  viper_getters s := mkViper (fun k => default EmptyString (s !! k)) (fun _ => 4)
    (fun k => bool_decide (s !! k = Some "true"));
  cast_ToStringMap _ := ∅;
  cast_String s := s |}.

#[local] Instance text_viper_laws : ViperLaws.
Proof. by split. Qed.

Definition ex_server_conf : EtcdServerConf :=
  mkEtcdServerConf "storage-1" "http" "127.0.0.1" 2379 2380 "token" "storage-1" 60 true "data"
    "info".

#[local] Instance text_etcd : EtcdLibrary := {|
  Unmarshal_client _ _ := Ok (mkEtcdClientConf 5 3 ["http://127.0.0.1:2379"]);
  Unmarshal_server _ _ := Ok ex_server_conf;
  UnmarshalKey_server _ _ _ := Ok ex_server_conf;
  capnslog_GetRepoLogger _ := Ok tt;
  capnslog_ParseLevel _ := Ok INFO |}.

Definition ex_service_metadata : ServiceMetadata :=
  ServiceMetadata.mk 1 "service" "proto" "grpc" (Some 10) "" "mpe" "fixed" (Some 3)
    [ServiceMetadata.mkGroup "default_group" "AAAA" "recipient"]
    [ServiceMetadata.mkEndpoint "default_group" "http://service"]
    "" (zero_array 32) "" "" (zero_array 20) (zero_array 20).

#[local] Instance ex_surroundings : Surroundings := {|
  ipfs_Cat _ := Ok (Ok "metadata");
  ipfs_Add _ := Ok "Qm";
  ReadFile _ := Err (ErrorString "file does not exist");
  unmarshal_metadata _ := Ok ex_service_metadata |}.

#[local] Instance ex_grpc : GrpcLibrary := {|
  url_Host _ := Ok "localhost:7003";
  grpc_Dial _ := Ok tt |}.

Definition ex_settings : viper :=
  list_to_map [(BlockchainEnabledKey, "true"); (DaemonTypeKey, "grpc");
    (BlockChainNetworkSelected, "ropsten"); (DaemonGroupName, "default_group");
    (DaemonEndPoint, "127.0.0.1" +:+ String (Ascii.ascii_of_nat 58) "8080");
    (PassthroughEnabledKey, "true");
    (PassthroughEndpointKey, "http://localhost:7003");
    (MonitoringEnabled, "true"); (MonitoringServiceEndpoint, "http://metering");
    (PaymentChannelStorageTypeKey, "etcd"); (PaymentChannelStorageClientKey, "");
    (PaymentChannelStorageServerKey, ""); (LogKey, "")].

(** ** An environment *)

Definition metrics_answer {X} (e : MetricsE X) : X :=
  match e with
  | HttpPost _ _ _ | HttpGet _ => Ok (mkResponse 200 (Ok "token"))
  | GrpcDial _ => Ok tt
  | HealthCheck _ _ => Ok 1
  | Now => mkTime "now" 0
  | EpochTime => 0
  | GenXid | LoadToken => "token"
  | StoreToken _ | Go _ => tt
  end.

Definition etcd_answer {X} (e : EtcdSetupE X) (r : EtcdResources) : X * EtcdResources :=
  match e with
  | StartEtcd _ => (Ok 1%nat, mkEtcdResources ({[1%nat]} ∪ running r) (connections r) (leases r))
  | AwaitReady _ _ => (true, r)
  | StopServer n | CloseEtcd n =>
      (tt, mkEtcdResources (running r ∖ {[n]}) (connections r) (leases r))
  | NewClientv3 _ _ =>
      (Ok 2%nat, mkEtcdResources (running r) ({[2%nat]} ∪ connections r) (leases r))
  | NewSession c => (Ok 3%nat, mkEtcdResources (running r) (connections r) (<[3%nat := c]> (leases r)))
  | CloseClientv3 c => (Ok tt, mkEtcdResources (running r) (connections r ∖ {[c]}) (leases r))
  | CloseSession _ => (Err (ErrorString "grpc: the client connection is closing"), r)
  end.

Definition start_answer {X} (e : StartE X) (h : Host) : X * Host :=
  match e with
  | GetField f => (set_fields h !! f, h)
  | Construct f o =>
      (length (objects h),
       with_wiring (objects h ++ [o]) (<[f := length (objects h)]> (set_fields h)) h)
  | Assign f i => (tt, with_wiring (objects h) (<[f := i]> (set_fields h)) h)
  | Deref i => (objects h !! i, h)
  | GetNetwork => (network h, h)
  | SetNetwork n => (tt, with_network n h)
  | SetDaemonGrpId g => (tt, with_group g h)
  | LoadDaemonGrpId => (daemonGroupId h, h)
  | RpcDial endpoint =>
      if decide (endpoint = EmptyString) then (Err (ErrorString "no such file"), h)
      else (Ok (size (rpc h)), with_rpc ({[size (rpc h)]} ∪ rpc h) h)
  | RpcClose n => (tt, with_rpc (rpc h ∖ {[n]}) h)
  | NewMultiPartyEscrow _ _ | NewRegistryCaller _ _ => (Ok tt, h)
  | GetServiceRegistrationById _ _ _ => (Ok (true, bytes_of_string "ipfs://Qm"), h)
  | EtcdSetup e => let '(x, r) := etcd_answer e (etcd h) in (x, with_etcd r h)
  | MetricsEvent e => (metrics_answer e, h)
  end.

Definition serve_answer {X} (e : ServeE X) (m : Machine) : option (X * Machine) :=
  match e with
  | StartEvent e => let '(x, h) := start_answer e (host m) in Some (x, with_host h m)
  | NetListen _ =>
      let n := size (listeners m) in Some (Ok n, with_listeners ({[n]} ∪ listeners m) m)
  | CloseListener n => Some (tt, with_listeners (listeners m ∖ {[n]}) m)
  | LoadX509KeyPair _ _ => Some (Ok 0%nat, m)
  | NewServer u i s =>
      Some (0%nat, mkMachine _ (host m) (listeners m) ({[0%nat]} ∪ servers m)
                     (<[0%nat := (u, i, s)]> (created m)) (registered m) (served m))
  | RegisterService n name i =>
      Some (tt, mkMachine _ (host m) (listeners m) (servers m) (created m)
                  (registered m ++ [(n, name, i)]) (served m))
  | GoServe t =>
      Some (tt, mkMachine _ (host m) (listeners m) (servers m) (created m) (registered m)
                  (served m ++ [t]))
  | GracefulStop n =>
      Some (tt, mkMachine _ (host m) (listeners m) (servers m ∖ {[n]}) (created m)
                  (registered m) (served m))
  | InitLogger _ => Some (Ok tt, m)
  | AwaitSignal => Some (tt, m)
  | Exit _ => None
  end.

Fixpoint run_process {A} (p : prog ServeE A) (m : Machine) : option (outcome A * Machine) :=
  match p with
  | Ret a => Some (Returned a, m)
  | Panic msg => Some (Panicked msg, m)
  | Vis e k => match serve_answer e m with Some (x, m) => run_process (k x) m | None => None end
  end.

Definition ex_host : Host :=
  mkHost [] ∅ no_network EmptyString (mkEtcdResources ∅ ∅ ∅) ∅.

Definition ex_machine : Machine := mkMachine _ ex_host ∅ ∅ ∅ [] [].

Definition ex_flag : Flag := mkFlag "snetd.config.json" true.

Definition ex_serve : prog ServeE unit :=
  ServeCmd_Run "networks" "registry" (fun _ => true) ex_flag ex_settings.

(** The daemon starts, serves gRPC and HTTP on one port, and ends with a signal;
    what it has opened is closed, except the lease of its etcd session. *)
Example ex_daemon_runs :
  match run_process ex_serve ex_machine with
  | Some (o, m) =>
      o = Returned tt /\
      map home (objects (host m))
      = [etcdServer; serviceMetadata; blockchain; etcdClient; paymentChannelService;
         escrowPaymentHandler; grpcInterceptor; paymentChannelStateService;
         providerControlService; daemonHeartbeat] /\
      map (fun t => match t with ServeGrpc s _ => Some s | _ => None end) (served m)
      = [Some 0%nat; None; None] /\
      elements (listeners m) = [] /\ elements (servers m) = [] /\
      elements (running (etcd (host m))) = [] /\
      elements (connections (etcd (host m))) = [] /\ size (leases (etcd (host m))) = 1%nat
  | None => False
  end.
Proof. vm_compute. by repeat split. Qed.

(** ** The theorems on this daemon *)

Lemma accessors_are_well_typed_witness :
  wp (calls ex_settings [atomicStorage; grpcInterceptor])
    (fun _ h1 => wp (accessor_of ex_settings paymentChannelService)
       (fun o h2 => forall i, o = Returned (Some i) ->
          (exists x, objects h2 !! i = Some x /\ has_type paymentChannelService x) /\
          wp (calls ex_settings [providerControlService])
            (fun _ h3 => wp (accessor_of ex_settings paymentChannelService)
               (fun o' h4 => o' = Returned (Some i) /\ h4 = h3) h3) h2) h1) ex_host.
Proof.
  apply (accessors_are_well_typed ex_settings [atomicStorage; grpcInterceptor]
    [providerControlService] paymentChannelService ex_host). by split.
Defined.

Lemma services_share_their_parts_witness :
  wp (calls ex_settings [providerControlService; grpcInterceptor; paymentChannelStateService])
    (fun _ h => forall i j x y, objects h !! i = Some x -> objects h !! j = Some y ->
       home x = home y -> i = j) ex_host.
Proof.
  eapply wp_mono; [apply (services_share_their_parts ex_settings _ ex_host); by split|].
  intros o h (Hu & _). exact Hu.
Defined.

Lemma ex_machine_idle : idle ex_machine.
Proof. by repeat split. Qed.

Lemma ex_settings_load :
  loadConfigFileFromCommandLine ReadFile (fun _ => true) ex_flag ex_settings
  = Returned ex_settings.
Proof. reflexivity. Qed.

Lemma served_calls_are_guarded_witness :
  wp ex_serve
    (fun _ m' => forall server l, In (ServeGrpc server l) (served m') ->
       exists unknown i size chain, created m' !! server = Some (unknown, i, size) /\
         objects (host m') !! i = Some (AnInterceptorChain chain) /\
         guards (GetBool (viper_getters ex_settings) BlockchainEnabledKey) chain /\
         forall handler, In (PaymentValidationInterceptor handler) chain ->
           exists service processor price,
             objects (host m') !! handler = Some (APaymentHandler service processor price))
    ex_machine.
Proof.
  exact (served_calls_are_guarded "networks" "registry" (fun _ => true) ex_flag ex_settings
    ex_settings ex_machine ex_machine_idle ex_settings_load).
Defined.

Lemma daemon_closes_what_it_opened_witness :
  wp ex_serve (fun o m' =>
    (forall i x, objects (host m') !! i = Some x -> object_closed x (host m')) /\
    (o = Returned tt -> listeners m' = ∅ /\ servers m' = ∅ /\
       GetBool (viper_getters ex_settings) BlockchainEnabledKey = true)) ex_machine.
Proof.
  exact (daemon_closes_what_it_opened "networks" "registry" (fun _ => true) ex_flag ex_settings
    ex_settings ex_machine ex_machine_idle ex_settings_load).
Defined.

Lemma list_commands_panic_witness :
  wp (RunAndCleanup (fun X e => e) (fun _ => true) ex_flag ex_settings newListCommand (fun i => Ret (Ok i)))
    (fun o _ => exists msg, o = Panicked msg) ex_host.
Proof.
  exact (list_commands_panic (fun _ => true) ex_flag ex_settings ex_settings
    (fun i => Ret (Ok i)) ex_host (conj eq_refl eq_refl) eq_refl ex_settings_load eq_refl).
Defined.

(** ** The default configuration

    The getters of a configuration that has the defaults only. *)
Definition json_text (v : option json) : string :=
  match v with
  | Some (JString s) | Some (JOther s) => s
  | _ => EmptyString
  end.

Definition default_vip : Viper := mkViper
  (fun k => json_text (defaultConfigJson !! k))
  (fun k => default 0 (Int_UnmarshalText (json_text (defaultConfigJson !! k))))
  (fun k => bool_decide (json_text (defaultConfigJson !! k) = "true")).

(** It is accepted, with the local network of the network file; its calls are not
    limited, and it runs an etcd server of its own. *)
Example defaults_are_accepted :
  let url := {| url_ParseRequestURI s := String.prefix "http" s;
                url_Parse s := if decide (s = EmptyString) then Some (EmptyString, EmptyString)
                               else None |} in
  let json := {| Unmarshal s := Ok {["local" := JObject (list_to_map
                   [(EthereumJsonRpcEndpointKey, JString "http://localhost:8545");
                    (NetworkId, JString "42"); (RegistryAddressKey, JString "0x4e74")])]};
                 print_object _ := "map[]" |} in
  @Config.Validate json default_vip "networks" "" ReadFile url no_network
  = (Returned (Ok tt), mkNetworkSelected "local" "http://localhost:8545" "42" "0x4e74") /\
  getLimit default_vip = rate_Inf /\
  (default ∅ (match defaultConfigJson !! PaymentChannelStorageServerKey with
              | Some (JObject fields) => Some fields
              | _ => None
              end)) !! "enabled" = Some (JOther "true").
Proof. vm_compute. by repeat split. Qed.
